(* ===== verification/_CoqProject ===== *)
-Q . S2P
Prelude.v
Prog.v
Text.v
Net.v
NetSpec.v
Bpf.v
BpfTheorems.v
Sys.v
Guard.v
GuardBans.v
GuardLoad.v
GuardUnload.v
GuardFaults.v
Host.v
BanContract.v
GuardStats.v
GuardTheorems.v
Json.v
JsonSpec.v
Http.v
HttpSpec.v
Collect.v
Ui.v
UiSafety.v
UiSpec.v
UiConnection.v
UiViews.v
UiStats.v
UiTheorems.v
UiThreads.v
Build.v
Js.v
JsStd.v
ShieldCore.v
Nginx.v
CoreTheorems.v
ShieldWs.v
WsFrames.v
WsSegments.v
WsHandshake.v
WsSafety.v
WsSession.v
WsBounds.v
WsHeld.v
WsDelivery.v
WsStream.v
WsTheorems.v
Rely.v
BanFile.v
BanFileWorld.v
BanFileText.v
BanFileRuns.v
BanFileTheorems.v
Shell.v
ShellText.v
Config.v
Presets.v
ConfigRuns.v
ConfigText.v
ConfigResolve.v
ConfigTheorems.v
TemplateTexts.v
Templates.v
TemplateText.v
TemplateTheorems.v
Container.v
Filters.v
FilterText.v
FilterTheorems.v
Detection.v
Fail2ban.v
Wrapper.v
Defense.v
Scripts.v
Reresolve.v
ScriptTheorems.v
