(* ===== verification/Prelude.v ===== *)
(** * fips-shield: a verification library

    fips-shield protects services on a mesh node.  Detection and enforcement
    meet in a command line ([src/docs/verdict-schema.md]).  A tc classifier in
    the kernel drops the packets of banned and of too frequent sources
    ([src/guard/bpf/shield_guard.bpf.c]); the command [fips-guard]
    ([src/guard/src/main.rs]) loads it and edits the bans it reads, in BPF maps
    pinned under a directory, and a timer runs its [watchdog]; a build script
    ([src/guard/build.rs]) compiles the classifier.  Another backend, a bash
    script ([src/core/actions/shield-ban]), keeps the bans in a file, and a
    wrapper ([src/guard/shield-ban]) may drive both.  Inside nginx an njs policy
    refuses banned and too frequent sources at accept and inspects WebSocket
    traffic ([src/core/njs/*.js]).  A read-only dashboard ([src/ui/src/*.rs])
    shows bans, counters, limits and logs over HTTP by running [shield-ban],
    [shield-config] and [fips-guard] and reading logs.  A bash script
    ([src/bin/shield-config]) puts the operator's settings over presets
    ([src/presets]); the entry points evaluate what it resolves and render it
    into templates for nginx and fail2ban ([src/deploy/host/render.sh],
    [install-fail2ban.sh], [src/deploy/container/*-entrypoint.sh]); fail2ban
    counts the policy's verdicts by regular expressions
    ([src/core/fail2ban/filter.d]) and runs the ban command.  The library models
    these programs and proves what they promise to each other and to the
    operator.

    ** How the model is built

    - Pure code is a function with the source's name.  A [u64] is a [Z] with
      its wrap-around ([wrap64]) or its saturation ([saturating_add],
      [saturating_sub], ...) written out; a JavaScript number is an IEEE double
      (Js, over the Standard Library's [SpecFloat]); a [str] is the list of its
      scalar values and a byte string a list of bytes, related by UTF-8 (Text).
    - A Rust [Result] is [res]; [?] is the bind [try_bind], and the text of an
      anyhow error is kept with its contexts.
    - Code that calls its environment is a tree [prog E A] over a signature of
      calls [E] (Prog): [sys] for the guard, [ui] for the dashboard, [njs] for
      the policy, [sh] for the script.  [run] executes a tree on an executable
      environment; [wp step R] quantifies over all answers a nondeterministic
      environment allows and over what others do ([R]) between two calls;
      [safe P] says that, whatever the answers, every call satisfies [P];
      [returns P] that every result does; [rg step R G] (Rely) that a program
      beside others that respect [R] respects [G].
    - The guard's environment is [Sys.sys_spec flt]: with [flt = true] every
      fallible call may also fail with its state unchanged, with
      [flt = false] it fails only for a documented reason.  [quiet] is what
      happens between two calls: both clocks advance, packets arrive (so
      buckets and counters change), nothing else.
    - The configuration script is a function from the files, the environment
      and its arguments to its output and its exit status; a pipeline is the
      composition of its parts, and a failure inside one is the end of that part
      only, as in the shell.  A filter is a list of patterns matched as Python's
      [re] does.
    - A deployment script is a program over what it does to a machine (Scripts,
      [deploy]); under [set -e] its first command that fails ends it.
    - Bans are stored as a monotonic deadline in nanoseconds by the guard, as an
      epoch in seconds in the file; 0 is permanent in both.

    ** Files

    - Prelude: fallible results, machine-integer arithmetic, stable sorting,
      [case_if], [word_lia] and the hint database [shield].
    - Prog: effect trees, [run], [wp], [safe], [returns] and their rules.
    - Text: UTF-8 encoding and lossy and strict decoding, [lines], [trim],
      [split_whitespace], number printing and [from_str_radix].
    - Net, NetSpec: [IpAddr::from_str] and [Display] of the addresses; the
      printed form of every IPv6 address parses back.
    - Bpf, BpfTheorems: the classifier on the contents of its maps.  The
      kernel's LRU hash map is the class [LruHash]: its laws are documented
      (an update stores its entry and changes no other one except by
      evicting it), [lru_hash_evict_one] is an instance.
    - Sys: the guard's calls, the state [os] they act on (pins, map objects,
      filters of each interface, clocks, output) and [sys_spec]; [kernel_view]
      and [verdict_now] run the classifier on that state.
    - Guard: every command of [main.rs] and the exit codes.  GuardBans,
      GuardLoad and GuardUnload are the symbolic execution of the commands on
      bans, on attachment and configuration, and on unloading; GuardFaults of
      [ban] when calls fail; GuardStats of [stats].
    - Host: an executable environment that meets [sys_spec], on which whole
      sequences of commands are evaluated.
    - BanContract: the contract between detection and enforcement
      ([docs/verdict-schema.md]) as an abstract transition system, the class
      [BanBackend] of its implementations, what callers get from any of them,
      and the guard as an instance.
    - GuardTheorems: the theorems on the guard.
    - Json, JsonSpec: [json.rs], and an independent reader of JSON.
    - Http, HttpSpec: [http.rs], and a client's encoding of requests.
    - Collect, Ui: [collect.rs] and the dashboard's [main.rs] over the calls
      [Collect.ui].  UiSafety: which calls are possible; UiSpec: the bodies as
      JSON; UiConnection: from the bytes of a peer to those of the answer;
      UiViews and UiStats: other tools' output read back; UiTheorems: the
      theorems.  [Ui.serve] accepts and answers one connection after the other;
      UiThreads interleaves the threads the server spawns.  A read or write on a
      socket returns where the thread has set its timeout before; a tool or a
      file may keep a thread waiting for ever, as the source sets no limit.
    - Build: [build.rs] over its environment, and its theorems.
    - Js, JsStd: numbers, strings and JSON as JavaScript has them.  What depends
      on the engine is the class [JsEngine] ([JSON.parse], the printing of
      numbers, the length of a string); [std_engine] is an instance.
    - ShieldCore: [shield_core.js] over the calls [njs].  Nginx: an environment
      for it, in which the clock advances between two calls.  CoreTheorems: the
      decision at accept, the connection rate and the log.
    - ShieldWs: [shield_ws.js], the session's object as the record [St].
      WsFrames: RFC 6455 frames of a client; WsSegments: the parser on a
      stream; WsHandshake: the end of the request's head; WsSafety and
      WsSession: what reaches the relay, one callback after the other;
      WsBounds: memory and subscriptions; WsHeld: what a cut session leaves
      behind; WsDelivery: the callback on a stream of segments; WsStream and
      WsTheorems: the theorems.
    - Rely: programs beside others, and their interleavings.
    - BanFile: the script [core/actions/shield-ban] over the calls [sh], with
      the class [Awk].  BanFileWorld: the state they act on.  BanFileText: the
      banlist as a table, as awk and as the policy read it.  BanFileRuns: what a
      run relies on and guarantees.  BanFileTheorems: the theorems.
    - Shell, ShellText: what the scripts use of the shell and its utilities
      (class [Posix]), and a reader of quoted commands, [shell_words].
    - Config: [bin/shield-config], every command.  Presets: the preset files as
      they are.  ConfigRuns: concrete runs.  ConfigText: its lines as tables;
      ConfigResolve: what [resolve] prints, against the specification
      [effective]; ConfigTheorems: the theorems.
    - TemplateTexts: the templates as they are.  Templates: rendering, over the
      class [Envsubst].  TemplateText: a template as pieces; TemplateTheorems:
      the theorems.  Container: [shield-entrypoint.sh] (the stock image's own
      entry point is the class [StockEntrypoint]).
    - Scripts: [render.sh], [install-fail2ban.sh] and [f2b-entrypoint.sh], call
      by call, and the machine they act on ([target], [deploy_step]).  On a host
      the keys of the env file replace the scripts' own variables of the same
      name ([own_var]: root, env file, directories, prefix); what they take from
      the root in use is a [checkout], this repository's or another.
      Reresolve: what is resolved twice is the same, and no key is resolved
      twice; ScriptTheorems: the theorems.
    - Filters: the regular expressions of [filter.d], their matching (class
      [AddrTag] for [<ADDR>]) and the log formats (class [NginxLog] for the
      escaping of values).  FilterText: matching by position; FilterTheorems:
      what is counted; Detection: that every line of the policy is.  Fail2ban:
      the jails of the policy's log; fail2ban itself is the class [Fail2ban],
      which states what its manual and its way of counting have in common.
    - Wrapper: [guard/shield-ban], an instance of [BanBackend] on both worlds.
    - Defense: the chain from a violation to a dropped packet.

    The parts meet in theorems: [Guard]'s bans are enforced by [Bpf], the bans
    of the file are enforced by the policy, the script and the policy agree on
    who is banned, the dashboard's bans and counters are those the guard
    prints, the settings it shows and the settings the policy reads from its
    directive are those [shield-config] resolves, and the verdicts of the policy
    are those fail2ban counts.  Defense puts the chain together: what the policy
    logs, the filters, the jails, the action, the wrapper, the guard and the
    classifier.

    ** What is shown

    - Defense: a client that violates the rules often enough is banned and its
      packets are dropped ([offenders_are_dropped]); nobody is banned for what
      others do ([only_offenders_are_banned]).
    - Refinement: any session of [ban], [unban], [check] and [list] calls of the
      guard, or of the wrapper, is a sequential history of the contract
      ([guard_session_is_history], [wrapper_session_is_history]), and an
      accepted ban stands through it ([ban_stands_through_session]); runs of the
      banlist script, interleaved call by call, amount to runs one after the
      other ([concurrent_runs_are_serial]).
    - Classifier: the verdict on every packet ([shield_guard_drops_iff]), the
      most a source can send and the least it is entitled to, over any
      interleaving with other sources ([throttle_bounds_source],
      [paced_source_passes]), what it writes and counts
      ([shield_guard_accounts]), which bursts starve ([tiny_cap_starves]).  The
      bounds are in whole milliseconds, as the refill is, and count the times
      the LRU map evicts the source's bucket ([evictions]), which is never while
      the map has room.
    - Bans: [ban] against enforcement and on a full map, [unban], [check] and
      [list] ([ban_is_enforced], [check_agrees_with_classifier],
      [list_is_exact]); exit codes under arbitrary
      faults ([ban_exit_code_sound], [check_exit_code_sound]); no other command
      loses a ban, faults included ([other_commands_keep_bans]).
    - Banlist file: an accepted ban is refused at accept until it ends
      ([file_ban_is_enforced]); [check] and the policy agree
      ([script_and_policy_agree]).
    - Policy at accept: bans, rates at a time of the call, log lines, with a
      shared dictionary that may be full ([access_decides],
      [conn_rate_bounds_window], [verdict_line_reads_back]).
    - WebSocket inspection, over whole sessions and any answers of the calls:
      only what was inspected reaches the relay ([only_accepted_reaches_relay]),
      memory and subscriptions are bounded, the last segment of a cut session
      apart ([session_memory_bounded], [subscriptions_bounded]), segmentation
      does not matter within the limit on reads and between two rechecks of the
      ban ([segments_do_not_matter]), frames are read back
      ([client_frame_is_read]), a source banned meanwhile is cut
      ([banned_session_is_cut]).
    - Attachment: [load], [watchdog], [health] and [unload].
    - Dashboard text and HTTP: JSON strings and requests are read back, reading
      is bounded, only GET is served, responses are framed, every connection
      is answered by the page or a JSON object, whatever the tools answer; in
      any interleaving of the connections' threads, and all of them under a fair
      scheduler, but for those that wait for a tool
      ([interleaved_connections_answered], [threads_terminate],
      [fair_server_answers]).
    - Dashboard safety: read-only, only whitelisted logs, loopback only, as
      [safe] or [wp] statements with no assumption on the answers.
    - Dashboard views: bans, counters, configuration, log tails, recent bans,
      limits of a service.
    - Configuration: what the entry points put in force
      ([resolved_environment]), the same on a host and in a container
      ([modes_agree]), all lines of it or none ([commands_check_first]), on the dashboard
      ([dashboard_shows_what_is_in_force]) and on the command line of the ban
      action ([action_carries_what_is_in_force]).
    - Rendering: the policy reads the settings in force
      ([policy_reaches_engine]), the jails of a container carry them
      ([container_jails_carry_thresholds]), a container renders the files of a
      host ([container_renders_like_host]).
    - Deployment, whatever fails on the way: a success of [render.sh] is
      complete ([rendered_limits_are_in_force]), fail2ban starts with the
      settings in force or not at all ([fail2ban_starts_configured]), the
      installer leaves an eBPF wrapper alone ([installer_keeps_enforcement]);
      for the directories, the prefix, the root and the env file in use.
    - Detection: every violation is counted once, against the client, whatever
      it sends ([violations_are_counted_once], [verdicts_are_counted_once]), and
      so are refused requests and connections ([access_lines_are_counted]).
    - Build: which compiler runs.

    Defects the model exhibits are evaluated by examples beside the
    definitions: [BpfTheorems.refill_loses_time],
    [BpfTheorems.burst_cap_wraps], [GuardTheorems.unban_trusts_failed_lookups],
    [HttpSpec.percent_decode_accepts_sign], [HttpSpec.hundred_headers_rejected],
    [BanFileWorld.failed_read_loses_bans], [BanFileWorld.seconds_may_be_octal],
    [WsTheorems.split_response_passes],
    [WsTheorems.downstream_violation_misses_relay],
    [WsTheorems.partial_frame_loses_eof], [WsTheorems.head_is_reencoded],
    [ConfigRuns.duplicate_pin_dir_is_joined], [ConfigRuns.service_hides_core],
    [ConfigRuns.unknown_service_succeeds], [ConfigRuns.tab_between_profiles],
    [ConfigRuns.key_is_evaluated], [ConfigRuns.second_line_is_a_key],
    [TemplateTheorems.host_jails_lack_thresholds],
    [Container.container_leaves_unset_placeholder],
    [ScriptTheorems.other_prefix_is_not_run],
    [ScriptTheorems.env_file_replaces_variables].

    ** Fuel and termination

    Programs are finite trees, so every one of them returns: a [wp] statement
    is a statement of total correctness (and not an empty one: [Host.host_exec]
    answers every call as [sys_spec] allows, [BanFileWorld.sh_exec] as
    [sh_step] does when the lock is free), and the loops of the source are
    structural recursions (over the bytes pending on a connection, the entries
    of a map, the directories of PATH).  The frame loop of the policy takes
    fuel, one more than the bytes it has buffered, and settles within it
    ([pump_terminates]).  Printing a number takes fuel, one more than its binary
    logarithm ([Text.digits_fuel_enough]).  [Ui.serve] takes the number of
    connections it serves, and its theorem holds for any number; in UiThreads
    connections arrive for ever.  The reference readers of JSON and of responses
    take fuel as well; their theorems give the amount (the length of the text,
    the lines of the head).

    ** What is not modelled

    clap's reading of the command line (a [Cli] value), the kernel's packet
    parsing helpers beyond their results, memory ordering between CPUs, the
    length of a socket's timeout (a read that ends in one fails; all bytes of a
    request are received by one call), the text of the static page (a
    parameter).
    Of njs: the order in which [Object.keys] lists integer keys (it decides
    which of two faults of a filter is named), and the scheduling of callbacks
    (each runs to its end).  Of the banlist script: standard error, and the
    concurrency of the parts of one pipeline.  Of the
    configuration script: the usage text and what it prints on standard error;
    its theorems ask for the presets to be found, plain profile names, keys that
    are names and, of an environment, values of one line (ConfigRuns shows what
    other keys and values do).  Of the install and entry scripts: the modes of
    files, services, what they print, and env files with keys that change the shell
    ([PATH], [IFS], read-only variables: [Scripts.known_key]); paths are
    compared as they are spelled; [make install-guard] and the other
    targets of the Makefile.  nginx and fail2ban themselves: of the
    templates' directives only the policy variables, the log formats, the settings of the
    jails and the ban action are given a meaning; a filter is matched against
    one line, and the counting of the matches in a time window is fail2ban's
    (the class [Fail2ban]; Defense takes every other line of the policy's log to
    hold no opening brace). *)
From stdpp Require Export base tactics list gmap strings numbers sorting.
From Stdlib Require Export ZArith Lia.

#[global] Open Scope Z_scope.

(** ** Fallible results: Rust's [Result], with the [?] operator as a bind *)

Inductive res (E A : Type) : Type :=
| Ok (a : A)
| Err (e : E).
Arguments Ok {E A} a.
Arguments Err {E A} e.

#[export] Instance res_ret {E} : MRet (res E) := fun A a => Ok a.
#[export] Instance res_bind {E} : MBind (res E) :=
  fun A B k r => match r with Ok a => k a | Err e => Err e end.

Definition is_ok {E A} (r : res E A) : bool :=
  match r with Ok _ => true | Err _ => false end.

(** [Result::unwrap_or] and [Result::ok]. *)
Definition unwrap_or {E A} (d : A) (r : res E A) : A :=
  match r with Ok a => a | Err _ => d end.

Definition res_ok {E A} (r : res E A) : option A :=
  match r with Ok a => Some a | Err _ => None end.

(** ** Machine integers *)

Definition U64_MAX : Z := 18446744073709551615.
Definition U32_MAX : Z := 4294967295.
Definition U8_MAX : Z := 255.

Definition is_u64 (z : Z) : bool := (0 <=? z) && (z <=? U64_MAX).

(** Wrap-around of an exact result to 64 bits: C's [__u64] arithmetic, and
    Rust's in a release build. *)
Definition wrap64 (z : Z) : Z := z mod 18446744073709551616.

Definition saturating_add (a b : Z) : Z := Z.min (a + b) U64_MAX.
Definition saturating_mul (a b : Z) : Z := Z.min (a * b) U64_MAX.
Definition saturating_sub (a b : Z) : Z := Z.max 0 (a - b).

(** [x as u64] for an [i64]. *)
Definition i64_as_u64 (z : Z) : Z := wrap64 z.

Definition is_u64_spec (z : Z) : Prop := 0 <= z <= U64_MAX.

(** ** Automation *)

Create HintDb shield discriminated.

(** Arithmetic with the machine-integer operations unfolded. *)
Ltac word_unfold :=
  unfold saturating_add, saturating_mul, saturating_sub, is_u64_spec,
    U64_MAX, U32_MAX, U8_MAX in *.

Ltac word_lia := word_unfold; lia.

(** Split boolean comparisons in the goal and the hypotheses into facts. *)
Ltac bool_facts :=
  repeat match goal with
  | H : context [andb _ _ = true] |- _ => rewrite andb_true_iff in H
  | H : context [orb _ _ = false] |- _ => rewrite orb_false_iff in H
  | H : (_ /\ _) |- _ => destruct H
  | H : (_ =? _) = true |- _ => apply Z.eqb_eq in H
  | H : (_ =? _) = false |- _ => apply Z.eqb_neq in H
  | H : (_ <? _) = true |- _ => apply Z.ltb_lt in H
  | H : (_ <? _) = false |- _ => apply Z.ltb_ge in H
  | H : (_ <=? _) = true |- _ => apply Z.leb_le in H
  | H : (_ <=? _) = false |- _ => apply Z.leb_gt in H
  end.

(** Case on the condition of the first [if] of the goal. *)
Ltac case_if :=
  match goal with
  | |- context [if ?b then _ else _] => destruct b eqn:?
  end.

(** ** Generic lemmas *)

Lemma wrap64_small z : is_u64_spec z -> wrap64 z = z.
Proof. unfold is_u64_spec, U64_MAX, wrap64. intros. apply Z.mod_small. lia. Qed.

Lemma wrap64_range z : is_u64_spec (wrap64 z).
Proof. unfold is_u64_spec, wrap64, U64_MAX. pose proof (Z.mod_pos_bound z 18446744073709551616). lia. Qed.

Lemma is_u64_true z : is_u64 z = true <-> is_u64_spec z.
Proof. unfold is_u64, is_u64_spec. rewrite andb_true_iff, !Z.leb_le. done. Qed.

Lemma saturating_add_u64 a b : 0 <= a -> 0 <= b -> is_u64_spec (saturating_add a b).
Proof. word_lia. Qed.

Lemma saturating_sub_le a b : 0 <= a -> 0 <= b -> saturating_sub a b <= a.
Proof. word_lia. Qed.

#[export] Hint Resolve wrap64_range saturating_add_u64 saturating_sub_le : shield.

Lemma div_add_le a c d : 0 < d -> a / d + c / d <= (a + c) / d.
Proof.
  intros Hd. apply Z.div_le_lower_bound; [done|].
  pose proof (Z.mul_div_le a d Hd). pose proof (Z.mul_div_le c d Hd). lia.
Qed.

(** The last [n] elements, as [split_off (len.saturating_sub(n))] keeps them. *)
Definition last_n {A} (n : nat) (l : list A) : list A := drop (length l - n) l.

Lemma last_n_suffix {A} n (l : list A) : last_n n l `suffix_of` l.
Proof. unfold last_n. exists (take (length l - n) l). by rewrite take_drop. Qed.

Lemma last_n_length {A} n (l : list A) : length (last_n n l) = Nat.min n (length l).
Proof. unfold last_n. rewrite length_drop. lia. Qed.

(** ** [sort_by_key]: a stable sort *)

Fixpoint insert_by {A} (f : A -> Z) (x : A) (l : list A) : list A :=
  match l with
  | [] => [x]
  | y :: r => if f x <=? f y then x :: l else y :: insert_by f x r
  end.

Fixpoint sort_by_key {A} (f : A -> Z) (l : list A) : list A :=
  match l with
  | [] => []
  | x :: r => insert_by f x (sort_by_key f r)
  end.

Definition ordered {A} (f : A -> Z) (l : list A) : Prop := StronglySorted (fun a b => f a <= f b) l.

Lemma insert_by_perm {A} (f : A -> Z) x l : insert_by f x l ≡ₚ x :: l.
Proof.
  induction l as [|y l IH]; [done|]. cbn [insert_by]. case_if; [done|].
  rewrite IH. apply Permutation_swap.
Qed.

Lemma sort_by_key_perm {A} (f : A -> Z) l : sort_by_key f l ≡ₚ l.
Proof. induction l as [|x l IH]; [done|]. cbn [sort_by_key]. by rewrite insert_by_perm, IH. Qed.

Lemma insert_by_ordered {A} (f : A -> Z) x l : ordered f l -> ordered f (insert_by f x l).
Proof.
  induction 1 as [|y l Hl IH Hy]; cbn [insert_by]; [repeat constructor|].
  destruct (f x <=? f y) eqn:E; bool_facts.
  - constructor; [by constructor|]. constructor; [done|].
    eapply Forall_impl; [exact Hy|]. intros z Hz. cbv beta in Hz. lia.
  - constructor; [done|]. rewrite insert_by_perm. constructor; [lia|done].
Qed.

Lemma sort_by_key_ordered {A} (f : A -> Z) l : ordered f (sort_by_key f l).
Proof. induction l; cbn [sort_by_key]; [constructor|by apply insert_by_ordered]. Qed.

Lemma elem_of_sort_by_key {A} (f : A -> Z) l x : x ∈ sort_by_key f l <-> x ∈ l.
Proof. by rewrite sort_by_key_perm. Qed.
