(* ===== verification/Prog.v ===== *)
(** * Programs over an effect signature

    A command-line tool or a request handler is a tree of calls to its
    environment (system calls, child processes, the clock): the code decides
    which call comes next from the answers so far.  [prog E A] is that tree
    for a signature of calls [E]; the environment is supplied when a tree is
    executed, so the translated code fixes nothing about it.

    - [wp]: weakest precondition under a nondeterministic environment
      specification and under interference ([R] may change the state before
      every call: other processes, packets, the passing of time);
    - [run]: execution in a concrete (deterministic) environment, used to
      evaluate examples, with [wp_run] relating the two;
    - [safe]: every call the tree can ever make satisfies a predicate,
      whatever the environment answers. *)
From Stdlib Require Import FunctionalExtensionality.
From S2P Require Import Prelude.

Inductive prog (E : Type -> Type) (A : Type) : Type :=
| Ret (a : A)
| Vis {X : Type} (e : E X) (k : X -> prog E A).
Arguments Ret {E A} a.
Arguments Vis {E A X} e k.

Fixpoint bind {E A B} (m : prog E A) (k : A -> prog E B) : prog E B :=
  match m with
  | Ret a => k a
  | Vis e c => Vis e (fun x => bind (c x) k)
  end.

Definition call {E : Type -> Type} {X : Type} (e : E X) : prog E X := Vis e Ret.

(** The [?] operator inside an effectful function. *)
Definition try_bind {E F A B} (m : prog E (res F A)) (k : A -> prog E (res F B)) :
    prog E (res F B) :=
  bind m (fun r => match r with Ok a => k a | Err e => Ret (Err e) end).

Declare Scope prog_scope.
Delimit Scope prog_scope with prog.
Notation "x <- m ;; k" := (bind m (fun x => k))
  (at level 100, m at next level, right associativity) : prog_scope.
Notation "m ;;; k" := (bind m (fun _ => k))
  (at level 100, right associativity) : prog_scope.
Notation "x <-? m ;; k" := (try_bind m (fun x => k))
  (at level 100, m at next level, right associativity) : prog_scope.
Notation "m ;;? k" := (try_bind m (fun _ => k))
  (at level 100, right associativity) : prog_scope.

(** Execution in a concrete environment. *)
Fixpoint run {E S A} (exec : forall X, E X -> S -> X * S) (m : prog E A) (s : S) : A * S :=
  match m with
  | Ret a => (a, s)
  | Vis e k => let '(x, s') := exec _ e s in run exec (k x) s'
  end.

(** Weakest precondition: [step e s x s'] says the environment may answer [x]
    to the call [e] made in [s] and leave [s']; [R] is the interference. *)
Fixpoint wp {E S A} (step : forall X, E X -> S -> X -> S -> Prop) (R : S -> S -> Prop)
    (m : prog E A) (Q : A -> S -> Prop) (s : S) : Prop :=
  match m with
  | Ret a => Q a s
  | Vis e k =>
      forall s1, R s s1 -> forall x s2, step _ e s1 x s2 -> wp step R (k x) Q s2
  end.

(** Every call the program can make, on any answers, satisfies [P]. *)
Fixpoint safe {E A} (P : forall X, E X -> Prop) (m : prog E A) : Prop :=
  match m with
  | Ret _ => True
  | Vis e k => P _ e /\ forall x, safe P (k x)
  end.

(** Every result the program can return, on any answers, satisfies [Q]. *)
Fixpoint returns {E A} (Q : A -> Prop) (m : prog E A) : Prop :=
  match m with
  | Ret a => Q a
  | Vis e k => forall x, returns Q (k x)
  end.

Section laws.
Context {E : Type -> Type} {S : Type}.
Context (step : forall X, E X -> S -> X -> S -> Prop) (R : S -> S -> Prop).

Lemma wp_bind {A B} (m : prog E A) (k : A -> prog E B) Q s :
  wp step R (bind m k) Q s <-> wp step R m (fun a s' => wp step R (k a) Q s') s.
Proof.
  revert s; induction m as [a|X e c IH]; intros s; simpl; [done|].
  split; intros H s1 HR x s2 Hs; apply IH; eauto.
Qed.

Lemma wp_mono {A} (m : prog E A) (Q Q' : A -> S -> Prop) s :
  (forall a s', Q a s' -> Q' a s') -> wp step R m Q s -> wp step R m Q' s.
Proof. intros HQ. revert s; induction m; simpl; intros; eauto. Qed.

Lemma wp_any {A} (m : prog E A) (Q : A -> S -> Prop) s : (forall a s', Q a s') -> wp step R m Q s.
Proof. intros HQ. revert s; induction m; simpl; eauto. Qed.

Lemma wp_conj {A} (m : prog E A) (Q Q' : A -> S -> Prop) s :
  wp step R m Q s -> wp step R m Q' s -> wp step R m (fun a s' => Q a s' /\ Q' a s') s.
Proof. revert s; induction m; simpl; intros; eauto. Qed.

Lemma wp_try_bind {F A B} (m : prog E (res F A)) (k : A -> prog E (res F B)) Q s :
  wp step R (try_bind m k) Q s <->
  wp step R m (fun r s' => match r with
                           | Ok a => wp step R (k a) Q s'
                           | Err e => Q (Err e) s' end) s.
Proof.
  unfold try_bind. rewrite wp_bind.
  split; apply wp_mono; intros [a|e] s'; done.
Qed.

Lemma wp_seq {A B} (m : prog E A) (k : A -> prog E B) Q s :
  wp step R m (fun a s' => wp step R (k a) Q s') s -> wp step R (bind m k) Q s.
Proof. by rewrite wp_bind. Qed.

Lemma wp_try {F A B} (m : prog E (res F A)) (k : A -> prog E (res F B)) Q s :
  wp step R m (fun r s' => match r with
                           | Ok a => wp step R (k a) Q s'
                           | Err e => Q (Err e) s' end) s ->
  wp step R (try_bind m k) Q s.
Proof. by rewrite wp_try_bind. Qed.

Lemma wp_call {X} (e : E X) (Q : X -> S -> Prop) s :
  (forall s1, R s s1 -> forall x s2, step X e s1 x s2 -> Q x s2) -> wp step R (call e) Q s.
Proof. done. Qed.

(** A concrete environment allowed by the specification, with no interference,
    only produces results the weakest precondition covers. *)
Lemma wp_run {A} (exec : forall X, E X -> S -> X * S) (m : prog E A) Q s :
  (forall s, R s s) ->
  (forall X (e : E X) s, step X e s (fst (exec X e s)) (snd (exec X e s))) ->
  wp step R m Q s -> Q (fst (run exec m s)) (snd (run exec m s)).
Proof.
  intros HR Hstep. revert s. induction m as [a|X e k IH]; intros s Hwp; simpl; [done|].
  specialize (Hstep X e s). destruct (exec X e s) as [x s'] eqn:He.
  apply IH. simpl in Hwp. eapply Hwp; eauto.
Qed.

(** The smallest environment, and the smallest interference, give the
    strongest conclusion. *)
Lemma wp_weaken {A} step' R' (m : prog E A) Q s :
  (forall s s', R' s s' -> R s s') ->
  (forall X (e : E X) s x s', step' X e s x s' -> step X e s x s') ->
  wp step R m Q s -> wp step' R' m Q s.
Proof.
  intros HR Hs. revert s; induction m as [a|X e k IH]; simpl; intros s H; [done|].
  intros; eapply IH, H; eauto.
Qed.

(** A postcondition that holds of all states reachable by single steps. *)
Lemma wp_invariant {A} (m : prog E A) (I : S -> Prop) s :
  (forall s s', R s s' -> I s -> I s') ->
  (forall X (e : E X) s x s', step X e s x s' -> I s -> I s') ->
  I s -> wp step R m (fun _ s' => I s') s.
Proof.
  intros HR Hs. revert s; induction m as [a|X e k IH]; simpl; intros s HI; [done|].
  intros s1 HR1 x s2 Hst. eapply IH, Hs; eauto.
Qed.

End laws.

(** A program all of whose calls preserve [I] preserves it. *)
Lemma wp_safe_invariant {E S A} (step : forall X, E X -> S -> X -> S -> Prop) R
    (P : forall X, E X -> Prop) (I : S -> Prop) (m : prog E A) s :
  (forall s s', R s s' -> I s -> I s') ->
  (forall X (e : E X) s x s', P X e -> step X e s x s' -> I s -> I s') ->
  safe P m -> I s -> wp step R m (fun _ s' => I s') s.
Proof.
  intros HR Hs. revert s; induction m as [a|X e k IH]; simpl; intros s; [done|].
  intros [He Hk] HI s1 HR1 x s2 Hst. eauto.
Qed.

Lemma safe_weaken {E A} (P P' : forall X, E X -> Prop) (m : prog E A) :
  (forall X e, P X e -> P' X e) -> safe P m -> safe P' m.
Proof. intros HP. induction m; simpl; [done|]. intros [? ?]. auto. Qed.

Lemma safe_bind {E A B} (P : forall X, E X -> Prop) (m : prog E A) (k : A -> prog E B) :
  safe P m -> (forall a, safe P (k a)) -> safe P (bind m k).
Proof. induction m as [a|X e c IH]; simpl; [eauto|]. intros [He Hc] Hk. eauto. Qed.

Lemma safe_try_bind {E F A B} (P : forall X, E X -> Prop) (m : prog E (res F A))
    (k : A -> prog E (res F B)) :
  safe P m -> (forall a, safe P (k a)) -> safe P (try_bind m k).
Proof. intros Hm Hk. apply safe_bind; [done|]. by intros [a|e]. Qed.

Lemma safe_call {E : Type -> Type} {X} (P : forall X, E X -> Prop) (e : E X) (k : X -> prog E X) :
  P X e -> (forall x, safe P (k x)) -> safe P (Vis e k).
Proof. done. Qed.

Lemma returns_bind {E A B} (Q : B -> Prop) (m : prog E A) (k : A -> prog E B) :
  returns (fun a => returns Q (k a)) m -> returns Q (bind m k).
Proof. induction m as [a|X e c IH]; simpl; eauto. Qed.

Lemma returns_mono {E A} (Q Q' : A -> Prop) (m : prog E A) :
  (forall a, Q a -> Q' a) -> returns Q m -> returns Q' m.
Proof. intros HQ. induction m; simpl; eauto. Qed.

Lemma returns_true {E A} (Q : A -> Prop) (m : prog E A) :
  (forall a, Q a) -> returns Q m.
Proof. intros HQ. induction m; simpl; eauto. Qed.

(** The specifications that hold on any answers hold in any environment. *)
Lemma returns_wp {E S A} (step : forall X, E X -> S -> X -> S -> Prop) R
    (Q : A -> Prop) (m : prog E A) s :
  returns Q m -> wp step R m (fun a _ => Q a) s.
Proof. revert s; induction m; simpl; eauto. Qed.

Lemma run_bind {E S A B} (exec : forall X, E X -> S -> X * S) (m : prog E A)
    (k : A -> prog E B) s :
  run exec (bind m k) s = let '(a, s') := run exec m s in run exec (k a) s'.
Proof.
  revert s; induction m as [a|X e c IH]; intros s; simpl; [done|].
  destruct (exec X e s). apply IH.
Qed.

(** Equal trees: the laws of [bind]. *)
Lemma bind_bind {E A B C} (m : prog E A) (f : A -> prog E B) (g : B -> prog E C) :
  bind (bind m f) g = bind m (fun x => bind (f x) g).
Proof.
  induction m as [a|X e k IH]; simpl; [done|]. f_equal. apply functional_extensionality, IH.
Qed.

Lemma bind_returns {E A B} (Q : A -> Prop) (m : prog E A) (k1 k2 : A -> prog E B) :
  returns Q m -> (forall a, Q a -> k1 a = k2 a) -> bind m k1 = bind m k2.
Proof.
  intros Hm Hk. induction m as [a|X e c IH]; simpl in *; [auto|].
  f_equal. apply functional_extensionality. auto.
Qed.

Lemma bind_ext {E A B} (m : prog E A) (k1 k2 : A -> prog E B) :
  (forall a, k1 a = k2 a) -> bind m k1 = bind m k2.
Proof. intros Hk. apply (bind_returns (fun _ => True)); [by apply returns_true|auto]. Qed.

Lemma bind_ret {E A} (m : prog E A) : bind m Ret = m.
Proof. induction m; simpl; [done|]. f_equal. by apply functional_extensionality. Qed.

Lemma returns_conj {E A} (Q Q' : A -> Prop) (m : prog E A) :
  returns Q m -> returns Q' m -> returns (fun a => Q a /\ Q' a) m.
Proof. induction m; simpl; [done|]. intros; auto. Qed.

Lemma returns_forall {E A T} (Q : T -> A -> Prop) (m : prog E A) :
  (forall t, returns (Q t) m) -> returns (fun a => forall t, Q t a) m.
Proof. induction m; simpl; auto. Qed.

#[export] Hint Resolve safe_bind : shield.

Arguments wp : simpl never.
