(* ===== verification/Text.v ===== *)
(** * Rust text: [str], [String], UTF-8 and the parsing and formatting used

    A [str] is the sequence of its [char]s (Unicode scalar values, as [Z]);
    a byte string is a list of bytes (as [Z]).  [as_bytes] is the UTF-8
    encoding a Rust [String] holds in memory and [from_utf8_lossy] /
    [from_utf8] are the standard library's decoders (one U+FFFD per maximal
    invalid prefix).  The rest are the [str] methods the sources call: [lines],
    [split], [splitn], [split_once], [split_whitespace], [trim], [find],
    [strip_prefix], integer [parse] and [to_string]. *)
From S2P Require Import Prelude.

Abbreviation char := Z (only parsing).
Abbreviation str := (list Z) (only parsing).
Abbreviation bytes := (list Z) (only parsing).

Definition REPLACEMENT : char := 65533.

Definition is_char (c : Z) : bool :=
  ((0 <=? c) && (c <? 55296)) || ((57344 <=? c) && (c <? 1114112)).

Definition is_byte (b : Z) : bool := (0 <=? b) && (b <? 256).

Definition in_range (lo hi b : Z) : bool := (lo <=? b) && (b <=? hi).

(** ** UTF-8 *)

Definition encode_char (c : char) : bytes :=
  if c <? 128 then [c]
  else if c <? 2048 then [192 + c / 64; 128 + c mod 64]
  else if c <? 65536 then [224 + c / 4096; 128 + (c / 64) mod 64; 128 + c mod 64]
  else [240 + c / 262144; 128 + (c / 4096) mod 64; 128 + (c / 64) mod 64; 128 + c mod 64].

Definition as_bytes (s : str) : bytes := concat (map encode_char s).

Definition is_cont (b : Z) : bool := in_range 128 191 b.

(** The second byte allowed after a three-byte or four-byte lead. *)
Definition second3 (b c : Z) : bool :=
  if b =? 224 then in_range 160 191 c
  else if b =? 237 then in_range 128 159 c
  else is_cont c.

Definition second4 (b c : Z) : bool :=
  if b =? 240 then in_range 144 191 c
  else if b =? 244 then in_range 128 143 c
  else is_cont c.

(** One decoding step on the lead byte [b] followed by [r]: the character of a
    well-formed sequence, or [None] for a maximal invalid prefix, with the
    number of bytes of [r] the step consumes. *)
Definition next_char (b : Z) (r : bytes) : option char * nat :=
  if b <? 128 then (Some b, 0%nat)
  else if in_range 194 223 b then
    match r with
    | c1 :: _ => if is_cont c1 then (Some ((b - 192) * 64 + (c1 - 128)), 1%nat)
                 else (None, 0%nat)
    | [] => (None, 0%nat)
    end
  else if in_range 224 239 b then
    match r with
    | c1 :: r1 =>
      if second3 b c1 then
        match r1 with
        | c2 :: _ =>
          if is_cont c2
          then (Some ((b - 224) * 4096 + (c1 - 128) * 64 + (c2 - 128)), 2%nat)
          else (None, 1%nat)
        | [] => (None, 1%nat)
        end
      else (None, 0%nat)
    | [] => (None, 0%nat)
    end
  else if in_range 240 244 b then
    match r with
    | c1 :: r1 =>
      if second4 b c1 then
        match r1 with
        | c2 :: r2 =>
          if is_cont c2 then
            match r2 with
            | c3 :: _ =>
              if is_cont c3
              then (Some ((b - 240) * 262144 + (c1 - 128) * 4096 + (c2 - 128) * 64
                          + (c3 - 128)), 3%nat)
              else (None, 2%nat)
            | [] => (None, 2%nat)
            end
          else (None, 1%nat)
        | [] => (None, 1%nat)
        end
      else (None, 0%nat)
    | [] => (None, 0%nat)
    end
  else (None, 0%nat).

(** Decoding; [skip] counts the bytes the previous step consumed. *)
Fixpoint utf8_decode_from (skip : nat) (bs : bytes) : list (option char) :=
  match bs with
  | [] => []
  | b :: r =>
    match skip with
    | S k => utf8_decode_from k r
    | O => (next_char b r).1 :: utf8_decode_from (next_char b r).2 r
    end
  end.
Definition utf8_decode (bs : bytes) : list (option char) := utf8_decode_from 0 bs.
Arguments utf8_decode : simpl never.

(** [String::from_utf8_lossy] and [std::str::from_utf8]. *)
Definition from_utf8_lossy (bs : bytes) : str := map (default REPLACEMENT) (utf8_decode bs).

Fixpoint all_some {A} (l : list (option A)) : option (list A) :=
  match l with
  | [] => Some []
  | None :: _ => None
  | Some a :: r => match all_some r with Some s => Some (a :: s) | None => None end
  end.

Definition from_utf8 (bs : bytes) : option str := all_some (utf8_decode bs).

(** A string literal of the sources. *)
Definition bytes_of_string (s : string) : bytes :=
  map (fun a => Z.of_N (Ascii.N_of_ascii a)) (String.list_ascii_of_string s).
Definition lit (s : string) : str := from_utf8_lossy (bytes_of_string s).
Arguments lit : simpl never.

(** ** Predicates and searches *)

Definition str_eqb (a b : str) : bool := bool_decide (a = b).

Fixpoint starts_with (p s : str) : bool :=
  match p, s with
  | [], _ => true
  | a :: p', b :: s' => (a =? b) && starts_with p' s'
  | _ :: _, [] => false
  end.

Definition strip_prefix (p s : str) : option str :=
  if starts_with p s then Some (drop (length p) s) else None.

Definition ends_with_char (c : char) (s : str) : bool :=
  match last s with Some d => d =? c | None => false end.

(** [str::find] for a pattern string: the position of the first match. *)
Fixpoint find_sub (p s : str) : option nat :=
  if starts_with p s then Some 0%nat
  else match s with
       | [] => None
       | _ :: r => match find_sub p r with Some i => Some (S i) | None => None end
       end.

Definition contains (p s : str) : bool :=
  match find_sub p s with Some _ => true | None => false end.

(** [char::is_whitespace]: the Unicode [White_Space] property. *)
Definition is_whitespace (c : char) : bool :=
  in_range 9 13 c || (c =? 32) || (c =? 133) || (c =? 160) || (c =? 5760)
  || in_range 8192 8202 c || (c =? 8232) || (c =? 8233) || (c =? 8239)
  || (c =? 8287) || (c =? 12288).

Fixpoint trim_start (s : str) : str :=
  match s with
  | [] => []
  | c :: r => if is_whitespace c then trim_start r else s
  end.
Definition trim_end (s : str) : str := reverse (trim_start (reverse s)).
Definition trim (s : str) : str := trim_end (trim_start s).

(** ** Splitting *)

Fixpoint split_char (sep : char) (s : str) : list str :=
  match s with
  | [] => [[]]
  | c :: r =>
    if c =? sep then [] :: split_char sep r
    else match split_char sep r with
         | p :: ps => (c :: p) :: ps
         | [] => [[c]]
         end
  end.

Fixpoint split_once (sep : char) (s : str) : option (str * str) :=
  match s with
  | [] => None
  | c :: r =>
    if c =? sep then Some ([], r)
    else match split_once sep r with
         | Some (a, b) => Some (c :: a, b)
         | None => None
         end
  end.

(** [str::splitn(n, sep)]: at most [n] pieces, the last one unsplit. *)
Fixpoint splitn (n : nat) (sep : char) (s : str) : list str :=
  match n with
  | O => []
  | S O => [s]
  | S m => match split_once sep s with
           | Some (a, b) => a :: splitn m sep b
           | None => [s]
           end
  end.

(** [str::split_whitespace]: the maximal runs of non-whitespace. *)
Fixpoint split_ws_acc (acc : str) (s : str) : list str :=
  match s with
  | [] => match acc with [] => [] | _ => [reverse acc] end
  | c :: r =>
    if is_whitespace c
    then match acc with [] => split_ws_acc [] r | _ => reverse acc :: split_ws_acc [] r end
    else split_ws_acc (c :: acc) r
  end.
Definition split_whitespace (s : str) : list str := split_ws_acc [] s.

(** [str::lines]: [acc] is the current line, reversed.  A line terminator is
    a newline, with a carriage return before it stripped too; a last line
    without terminator is kept as it is. *)
Definition close_line (acc : str) : str :=
  match acc with
  | 13 :: a => reverse a
  | _ => reverse acc
  end.
Fixpoint lines_acc (acc : str) (s : str) : list str :=
  match s with
  | [] => match acc with [] => [] | _ => [reverse acc] end
  | c :: r => if c =? 10 then close_line acc :: lines_acc [] r else lines_acc (c :: acc) r
  end.
Definition lines (s : str) : list str := lines_acc [] s.

(** ** Integers as text *)

Definition digit_char (d : Z) : char := if d <? 10 then 48 + d else 87 + d.

Definition digit_val (c : char) : option Z :=
  if in_range 48 57 c then Some (c - 48)
  else if in_range 97 122 c then Some (c - 87)
  else if in_range 65 90 c then Some (c - 55)
  else None.

(** [char::to_digit(radix)]. *)
Definition to_digit (radix : Z) (c : char) : option Z :=
  match digit_val c with
  | Some d => if d <? radix then Some d else None
  | None => None
  end.

(** The digits of [n] in base [b], least significant first. *)
Fixpoint digits_rev (fuel : nat) (b n : Z) : list Z :=
  match fuel with
  | O => []
  | S f => (n mod b) :: (if n <? b then [] else digits_rev f b (n / b))
  end.

(** [fuel] is at least the number of binary digits of [n]. *)
Definition digits_fuel (n : Z) : nat := S (Z.to_nat (Z.log2 n)).

Definition format_radix (b n : Z) : str :=
  map digit_char (reverse (digits_rev (digits_fuel n) b n)).

(** [u64::to_string] / [{}], [{:x}], and [{:0w$x}]. *)
Definition to_string (n : Z) : str := format_radix 10 n.
Definition format_hex (n : Z) : str := format_radix 16 n.
Definition pad_zero (w : nat) (s : str) : str := replicate (w - length s) 48 ++ s.
Definition format_hex_pad (w : nat) (n : Z) : str := pad_zero w (format_hex n).

Fixpoint parse_digits (radix max acc : Z) (s : str) : option Z :=
  match s with
  | [] => Some acc
  | c :: r =>
    match to_digit radix c with
    | Some d =>
      let a := acc * radix + d in
      if a <=? max then parse_digits radix max a r else None
    | None => None
    end
  end.

(** [from_str_radix] of an unsigned type: a leading plus sign is accepted, the
    empty string, a lone sign and an overflow are errors. *)
Definition from_str_radix (radix max : Z) (s : str) : option Z :=
  match s with
  | [] => None
  | [43] => None
  | 43 :: r => parse_digits radix max 0 r
  | _ => parse_digits radix max 0 s
  end.

Definition parse_u64 (s : str) : option Z := from_str_radix 10 U64_MAX s.
Definition parse_u32 (s : str) : option Z := from_str_radix 10 U32_MAX s.

(** ** Lemmas: UTF-8 *)

Ltac range_facts :=
  unfold in_range, is_cont, is_char, is_byte in *;
  repeat match goal with
  | H : context [andb _ _ = true] |- _ => rewrite andb_true_iff in H
  | H : context [orb _ _ = true] |- _ => rewrite orb_true_iff in H
  end;
  rewrite ?Z.leb_le, ?Z.ltb_lt in *.

(** Evaluate the boolean comparisons of the goal that arithmetic decides. *)
Ltac cmp_true e := replace e with true by (symmetry; lia).
Ltac cmp_false e := replace e with false by (symmetry; lia).
Ltac decide_cmp :=
  repeat match goal with
  | |- context [?a <? ?b] => first [cmp_true (a <? b) | cmp_false (a <? b)]
  | |- context [?a <=? ?b] => first [cmp_true (a <=? b) | cmp_false (a <=? b)]
  | |- context [?a =? ?b] => first [cmp_true (a =? b) | cmp_false (a =? b)]
  end; cbn [andb orb negb].

Lemma utf8_decode_from_drop n bs : utf8_decode_from n bs = utf8_decode (drop n bs).
Proof.
  revert n; induction bs as [|b bs IH]; intros [|n]; simpl; try done.
Qed.

Lemma utf8_decode_cons b r :
  utf8_decode (b :: r) =
  (next_char b r).1 :: utf8_decode (drop (next_char b r).2 r).
Proof. unfold utf8_decode at 1. simpl. by rewrite utf8_decode_from_drop. Qed.

Lemma next_char_encode c r :
  is_char c = true ->
  exists b l, encode_char c = b :: l /\ next_char b (l ++ r) = (Some c, length l).
Proof.
  intros Hc. range_facts. unfold encode_char.
  pose proof (Z.mod_pos_bound c 64). pose proof (Z.div_mod c 64).
  pose proof (Z.mod_pos_bound (c / 64) 64). pose proof (Z.div_mod (c / 64) 64).
  assert (c / 64 / 64 = c / 4096) by (rewrite Z.div_div by lia; reflexivity).
  pose proof (Z.mod_pos_bound (c / 4096) 64). pose proof (Z.div_mod (c / 4096) 64).
  assert (c / 4096 / 64 = c / 262144) by (rewrite Z.div_div by lia; reflexivity).
  destruct (c <? 128) eqn:E1; [|destruct (c <? 2048) eqn:E2; [|destruct (c <? 65536) eqn:E3]];
    eexists _, _; (split; [reflexivity|]);
    unfold next_char, second3, second4, is_cont, in_range; simpl.
  - by rewrite E1.
  - decide_cmp. repeat f_equal. lia.
  - assert ((224 + c / 4096 <? 128) = false) as -> by lia.
    assert ((194 <=? 224 + c / 4096) && (224 + c / 4096 <=? 223) = false) as -> by lia.
    assert ((224 <=? 224 + c / 4096) && (224 + c / 4096 <=? 239) = true) as -> by lia.
    destruct (_ =? 224) eqn:?; [|destruct (_ =? 237) eqn:?];
      decide_cmp; repeat f_equal; lia.
  - assert ((240 + c / 262144 <? 128) = false) as -> by lia.
    assert ((194 <=? 240 + c / 262144) && (240 + c / 262144 <=? 223) = false) as -> by lia.
    assert ((224 <=? 240 + c / 262144) && (240 + c / 262144 <=? 239) = false) as -> by lia.
    destruct (240 + c / 262144 =? 240) eqn:?; [|destruct (_ =? 244) eqn:?];
      decide_cmp; repeat f_equal; lia.
Qed.

Lemma utf8_decode_char c r :
  is_char c = true -> utf8_decode (encode_char c ++ r) = Some c :: utf8_decode r.
Proof.
  intros Hc. destruct (next_char_encode c r Hc) as (b & l & -> & Hn).
  simpl app. rewrite utf8_decode_cons, Hn. simpl. by rewrite drop_app_length.
Qed.

Lemma utf8_decode_as_bytes s r :
  Forall (fun c => is_char c = true) s ->
  utf8_decode (as_bytes s ++ r) = map Some s ++ utf8_decode r.
Proof.
  induction 1 as [|c s Hc Hs IH]; [done|]. unfold as_bytes in *; simpl.
  rewrite <- app_assoc, utf8_decode_char, IH; done.
Qed.

(** Decoding what was encoded gives the text back. *)
Lemma from_utf8_lossy_as_bytes s :
  Forall (fun c => is_char c = true) s -> from_utf8_lossy (as_bytes s) = s.
Proof.
  intros Hs. unfold from_utf8_lossy. rewrite <- (app_nil_r (as_bytes s)).
  rewrite utf8_decode_as_bytes by done. simpl. rewrite app_nil_r, map_map.
  simpl. apply map_id.
Qed.

Lemma all_some_map {A} (l : list A) : all_some (map Some l) = Some l.
Proof. induction l as [|a l IH]; simpl; [done|]. by rewrite IH. Qed.

Lemma from_utf8_as_bytes s :
  Forall (fun c => is_char c = true) s -> from_utf8 (as_bytes s) = Some s.
Proof.
  intros Hs. unfold from_utf8. rewrite <- (app_nil_r (as_bytes s)).
  rewrite utf8_decode_as_bytes by done. simpl. rewrite app_nil_r. apply all_some_map.
Qed.

(** An ASCII byte always starts afresh: no multi-byte sequence, valid or not,
    extends over it. *)
Lemma next_char_ascii b a x r :
  0 <= x < 128 ->
  next_char b (a ++ x :: r) = next_char b a /\ ((next_char b a).2 <= length a)%nat.
Proof.
  intros Hx.
  assert (Hc : is_cont x = false) by (unfold is_cont, in_range; lia).
  assert (H3 : second3 b x = false).
  { unfold second3, is_cont, in_range. destruct (b =? 224), (b =? 237); lia. }
  assert (H4 : second4 b x = false).
  { unfold second4, is_cont, in_range. destruct (b =? 240), (b =? 244); lia. }
  unfold next_char.
  destruct a as [|c1 [|c2 [|c3 a]]]; simpl; rewrite ?Hc, ?H3, ?H4;
    (split; repeat case_if; simpl; try done; try lia).
Qed.

Lemma utf8_decode_ascii_split a b r :
  0 <= b < 128 ->
  utf8_decode (a ++ b :: r) = utf8_decode a ++ Some b :: utf8_decode r.
Proof.
  intros Hb. induction a as [a IH] using (induction_ltof1 _ (@length Z)). unfold ltof in IH.
  destruct a as [|x a].
  - cbn [app]. rewrite utf8_decode_cons. unfold next_char.
    by replace (b <? 128) with true by (symmetry; lia).
  - cbn [app]. rewrite !utf8_decode_cons. cbn [app].
    destruct (next_char_ascii x a b r Hb) as [-> Hle].
    rewrite drop_app_le by done. rewrite IH; [done|]. rewrite length_drop; simpl; lia.
Qed.

Lemma from_utf8_lossy_ascii_split a b r :
  0 <= b < 128 ->
  from_utf8_lossy (a ++ b :: r) = from_utf8_lossy a ++ b :: from_utf8_lossy r.
Proof.
  intros Hb. unfold from_utf8_lossy. by rewrite utf8_decode_ascii_split, map_app.
Qed.

Definition is_text (s : str) : Prop := Forall (fun c => is_char c = true) s.
Definition are_bytes (bs : bytes) : Prop := Forall (fun b => is_byte b = true) bs.

Lemma next_char_valid b r c :
  0 <= b -> (next_char b r).1 = Some c -> is_char c = true.
Proof.
  intros Hb. unfold next_char, second3, second4, is_cont, in_range, is_char.
  intros H; repeat (case_match; simpl in H; try discriminate H); simplify_eq;
    bool_facts; lia.
Qed.

Lemma utf8_decode_valid bs :
  are_bytes bs -> Forall (fun o => from_option is_char true o = true) (utf8_decode bs).
Proof.
  unfold are_bytes.
  induction bs as [[|b bs] IH] using (induction_ltof1 _ (@length Z)); unfold ltof in IH.
  { constructor. }
  intros Hb. inversion Hb as [|? ? Hb1 Hb2]; subst. rewrite utf8_decode_cons. constructor.
  - destruct (next_char b bs).1 as [c|] eqn:E; [|done]. simpl.
    eapply next_char_valid; [|done]. range_facts. lia.
  - apply IH; [rewrite length_drop; simpl; lia|by apply Forall_drop].
Qed.

Lemma from_utf8_lossy_text bs : are_bytes bs -> is_text (from_utf8_lossy bs).
Proof.
  intros Hb. unfold is_text, from_utf8_lossy. apply List.Forall_map.
  eapply Forall_impl; [by apply utf8_decode_valid|]. by intros [c|].
Qed.

Lemma all_some_inv {A} (l : list (option A)) s : all_some l = Some s -> l = map Some s.
Proof.
  revert s; induction l as [|[a|] l IH]; simpl; intros s H; simplify_eq; [done|].
  destruct (all_some l); simplify_eq. simpl. by rewrite (IH l0).
Qed.

(** What [from_utf8] accepts is text, and the lossy decoding agrees with it. *)
Lemma from_utf8_lossy_agree bs s : from_utf8 bs = Some s -> from_utf8_lossy bs = s.
Proof.
  unfold from_utf8, from_utf8_lossy. intros ->%all_some_inv. rewrite map_map. apply map_id.
Qed.

Lemma from_utf8_text bs s : are_bytes bs -> from_utf8 bs = Some s -> is_text s.
Proof. intros Hb Hs. rewrite <- (from_utf8_lossy_agree bs s Hs). by apply from_utf8_lossy_text. Qed.

Lemma encode_char_bytes c : is_char c = true -> are_bytes (encode_char c).
Proof.
  intros Hc. range_facts. unfold are_bytes, encode_char, is_byte.
  Z.to_euclidean_division_equations.
  repeat case_if; repeat (apply Forall_cons_2; [cbv beta; lia|]); apply Forall_nil_2.
Qed.

Lemma as_bytes_bytes s : is_text s -> are_bytes (as_bytes s).
Proof.
  induction 1; [constructor|]. unfold as_bytes; simpl.
  apply Forall_app; split; [by apply encode_char_bytes|done].
Qed.

Lemma as_bytes_app a b : as_bytes (a ++ b) = as_bytes a ++ as_bytes b.
Proof. unfold as_bytes. by rewrite map_app, concat_app. Qed.

(** ** Lemmas: splitting *)

Lemma split_char_app sep a b : sep ∉ a -> split_char sep (a ++ sep :: b) = a :: split_char sep b.
Proof.
  induction a as [|c a IH]; intros Hn; cbn [app split_char]; [by rewrite Z.eqb_refl|].
  apply not_elem_of_cons in Hn as [Hc Hn].
  replace (c =? sep) with false by lia. by rewrite IH.
Qed.

Lemma split_char_none sep a : sep ∉ a -> split_char sep a = [a].
Proof.
  induction a as [|c a IH]; intros Hn; [done|]. apply not_elem_of_cons in Hn as [Hc Hn].
  cbn [split_char]. replace (c =? sep) with false by lia. by rewrite IH.
Qed.

Lemma split_once_app sep a b : sep ∉ a -> split_once sep (a ++ sep :: b) = Some (a, b).
Proof.
  induction a as [|c a IH]; intros Hn; cbn [app split_once]; [by rewrite Z.eqb_refl|].
  apply not_elem_of_cons in Hn as [Hc Hn].
  replace (c =? sep) with false by lia. by rewrite IH.
Qed.

Lemma split_once_none sep a : sep ∉ a -> split_once sep a = None.
Proof.
  induction a as [|c a IH]; intros Hn; [done|]. apply not_elem_of_cons in Hn as [Hc Hn].
  cbn [split_once]. replace (c =? sep) with false by lia. by rewrite IH.
Qed.

Lemma split_once_inv sep s a b : split_once sep s = Some (a, b) -> s = a ++ sep :: b /\ sep ∉ a.
Proof.
  revert a b; induction s as [|c s IH]; intros a b H; [done|]. cbn [split_once] in H.
  destruct (c =? sep) eqn:E.
  - apply Z.eqb_eq in E as ->. injection H as <- <-. split; [done|]. apply not_elem_of_nil.
  - apply Z.eqb_neq in E. destruct (split_once sep s) as [[x y]|]; [|done]. simplify_eq.
    destruct (IH x b eq_refl) as [-> Hx]. split; [done|]. apply not_elem_of_cons. by split; [congruence|].
Qed.

Lemma split_char_no_sep sep s : Forall (fun p => sep ∉ p) (split_char sep s).
Proof.
  induction s as [|c s IH]; cbn [split_char]; [repeat constructor; set_solver|].
  destruct (c =? sep) eqn:E; [constructor; [set_solver|done]|]. apply Z.eqb_neq in E.
  destruct (split_char sep s) as [|p ps]; [repeat constructor; set_solver|].
  apply Forall_cons in IH as [Hp Hps]. constructor; [|done]. apply not_elem_of_cons. by split; [congruence|].
Qed.

(** ** Lemmas: substrings *)

Lemma starts_with_spec p s : starts_with p s = true <-> exists b, s = p ++ b.
Proof.
  revert s; induction p as [|a p IH]; intros s; cbn [starts_with app]; [naive_solver|].
  destruct s as [|c s]; [naive_solver|]. rewrite andb_true_iff, Z.eqb_eq, IH. naive_solver.
Qed.

Lemma contains_spec p s : contains p s = true <-> exists a b, s = a ++ p ++ b.
Proof.
  unfold contains. induction s as [|c s IH]; cbn [find_sub].
  - destruct (starts_with p []) eqn:E.
    + apply starts_with_spec in E as [b E]. split; [|done]. intros _. by exists [], b.
    + split; [done|]. intros (a & b & H). exfalso. apply not_true_iff_false in E. apply E.
      apply starts_with_spec. exists b. by destruct a.
  - destruct (starts_with p (c :: s)) eqn:E.
    + apply starts_with_spec in E as [b E]. split; [|done]. intros _. by exists [], b.
    + assert (Hd : (exists a b, c :: s = a ++ p ++ b) <-> exists a b, s = a ++ p ++ b).
      { split.
        - intros ([|x a] & b & H); [|by simplify_eq/=; exists a, b].
          exfalso. apply not_true_iff_false in E. apply E. apply starts_with_spec. by exists b.
        - intros (a & b & ->). by exists (c :: a), b. }
      rewrite Hd, <- IH. by destruct (find_sub p s).
Qed.

(** ** Lemmas: lines *)

Lemma lines_acc_split acc a b :
  lines_acc acc (a ++ 10 :: b) = lines_acc acc (a ++ [10]) ++ lines b.
Proof.
  revert acc; induction a as [|c a IH]; intros acc; simpl; [done|].
  case_if; simpl; [f_equal|]; apply IH.
Qed.

Lemma lines_split a b : lines (a ++ 10 :: b) = lines (a ++ [10]) ++ lines b.
Proof. apply lines_acc_split. Qed.

(** Text up to and including its first newline is one line. *)
Lemma lines_acc_one acc a : (10:Z) ∉ a -> length (lines_acc acc (a ++ [10])) = 1%nat.
Proof.
  revert acc; induction a as [|c a IH]; intros acc Hn; simpl; [done|].
  apply not_elem_of_cons in Hn as [Hc Hn].
  destruct (c =? 10) eqn:E; [apply Z.eqb_eq in E; by subst|]. by apply IH.
Qed.

Lemma lines_acc_none acc a : (10:Z) ∉ a -> (length (lines_acc acc a) <= 1)%nat.
Proof.
  revert acc; induction a as [|c a IH]; intros acc Hn; simpl; [destruct acc; simpl; lia|].
  apply not_elem_of_cons in Hn as [Hc Hn].
  destruct (c =? 10) eqn:E; [apply Z.eqb_eq in E; by subst|]. by apply IH.
Qed.

Lemma close_line_elem acc x : x ∈ close_line acc -> x ∈ acc.
Proof.
  unfold close_line. destruct acc as [|y acc]; [done|].
  repeat case_match; rewrite elem_of_reverse; set_solver.
Qed.

(** No line contains a newline. *)
Lemma lines_acc_no_newline acc s :
  (10:Z) ∉ acc -> Forall (fun l => (10:Z) ∉ l) (lines_acc acc s).
Proof.
  revert acc; induction s as [|c s IH]; intros acc Hacc; simpl.
  - destruct acc; repeat constructor. by rewrite elem_of_reverse.
  - destruct (c =? 10) eqn:E.
    + constructor; [|apply IH; set_solver]. intros Hin. by apply close_line_elem in Hin.
    + apply IH. apply Z.eqb_neq in E. apply not_elem_of_cons. split; [congruence|done].
Qed.

(** A text that is a line followed by a newline. *)
Lemma lines_acc_plain acc a b :
  (10:Z) ∉ a -> lines_acc acc (a ++ 10 :: b) = close_line (reverse a ++ acc) :: lines b.
Proof.
  revert acc; induction a as [|c a IH]; intros acc Hn; simpl; [done|].
  apply not_elem_of_cons in Hn as [Hc Hn].
  destruct (c =? 10) eqn:E; [apply Z.eqb_eq in E; by subst|].
  rewrite IH by done. by rewrite reverse_cons, <- app_assoc.
Qed.

Lemma lines_cons a b :
  (10:Z) ∉ a -> last a <> Some 13 -> lines (a ++ 10 :: b) = a :: lines b.
Proof.
  intros Hn Hcr. unfold lines. rewrite lines_acc_plain by done. f_equal.
  rewrite app_nil_r. destruct a as [|c a _] using rev_ind; [done|].
  rewrite reverse_app. simpl. unfold close_line. rewrite last_snoc in Hcr.
  assert (c <> 13) by congruence.
  repeat case_match; try done; simplify_eq; by rewrite reverse_cons, reverse_involutive.
Qed.

(** ** Lemmas: integers as text *)

Lemma digit_val_char d : 0 <= d < 36 -> digit_val (digit_char d) = Some d.
Proof.
  intros Hd. unfold digit_char, digit_val, in_range.
  destruct (d <? 10) eqn:?; decide_cmp; f_equal; lia.
Qed.

Lemma to_digit_char radix d :
  0 <= d < radix -> radix <= 36 -> to_digit radix (digit_char d) = Some d.
Proof.
  intros. unfold to_digit. rewrite digit_val_char by lia.
  by replace (d <? radix) with true by (symmetry; lia).
Qed.

Definition digits_value (b : Z) (ds : list Z) : Z := foldr (fun d a => d + b * a) 0 ds.

Lemma digits_rev_value fuel b n :
  2 <= b -> 0 <= n < 2 ^ Z.of_nat fuel -> digits_value b (digits_rev fuel b n) = n.
Proof.
  intros Hb. revert n; induction fuel as [|f IH]; intros n Hn.
  { simpl in *. lia. }
  simpl. rewrite Nat2Z.inj_succ, Z.pow_succ_r in Hn by lia.
  pose proof (Z.div_mod n b). pose proof (Z.mod_pos_bound n b).
  destruct (n <? b) eqn:E; simpl.
  - rewrite Z.mod_small by lia. lia.
  - rewrite IH; [lia|]. split; [apply Z.div_pos; lia|].
    apply Z.div_lt_upper_bound; nia.
Qed.

Lemma digits_rev_range fuel b n :
  2 <= b -> 0 <= n -> Forall (fun d => 0 <= d < b) (digits_rev fuel b n).
Proof.
  intros Hb. revert n; induction fuel as [|f IH]; intros n Hn; simpl; [constructor|].
  constructor; [apply Z.mod_pos_bound; lia|].
  case_if; [constructor|]. apply IH. apply Z.div_pos; lia.
Qed.

Lemma digits_rev_digits fuel b n : 0 < b -> Forall (fun d => 0 <= d < b) (digits_rev fuel b n).
Proof.
  intros Hb. revert n. induction fuel as [|f IH]; intros n; cbn [digits_rev]; [constructor|].
  constructor; [by apply Z.mod_pos_bound|]. case_if; [constructor|apply IH].
Qed.

Lemma digits_fuel_enough n : 0 <= n -> n < 2 ^ Z.of_nat (digits_fuel n).
Proof.
  intros Hn. unfold digits_fuel. rewrite Nat2Z.inj_succ.
  rewrite Z2Nat.id by apply Z.log2_nonneg.
  destruct (Z.eq_dec n 0) as [->|]; [done|]. apply Z.log2_spec; lia.
Qed.

Lemma digits_value_nonneg b ds :
  0 <= b -> Forall (fun d => 0 <= d < b) ds -> 0 <= digits_value b ds.
Proof. intros Hb. induction 1; simpl; nia. Qed.

(** Horner evaluation of the most-significant-first digits. *)
Lemma parse_digits_horner radix max ds acc :
  2 <= radix <= 36 -> Forall (fun d => 0 <= d < radix) ds -> 0 <= acc ->
  acc * radix ^ Z.of_nat (length ds) + digits_value radix ds <= max ->
  parse_digits radix max acc (map digit_char (reverse ds)) =
  Some (acc * radix ^ Z.of_nat (length ds) + digits_value radix ds).
Proof.
  intros Hr. revert acc. induction ds as [|d ds IH] using rev_ind; intros acc Hds Hacc Hmax.
  { simpl in *. f_equal. lia. }
  apply Forall_app in Hds as [Hds Hd]. apply Forall_cons_1 in Hd as [Hd _].
  assert (Hv : digits_value radix (ds ++ [d]) =
               digits_value radix ds + radix ^ Z.of_nat (length ds) * d).
  { clear. induction ds as [|e ds IH]; [simpl; lia|].
    cbn [app digits_value foldr]. fold (digits_value radix (ds ++ [d])).
    fold (digits_value radix ds). rewrite IH.
    cbn [length]. rewrite Nat2Z.inj_succ, Z.pow_succ_r by lia. lia. }
  rewrite Hv, length_app, Nat2Z.inj_add, Z.pow_add_r in Hmax |- * by lia.
  change (Z.of_nat (length [d])) with 1 in Hmax |- *. rewrite Z.pow_1_r in Hmax |- *.
  rewrite reverse_app. cbn [reverse rev_append app map].
  cbn [parse_digits]. rewrite to_digit_char by lia.
  pose proof (digits_value_nonneg radix ds ltac:(lia) Hds).
  assert (1 <= radix ^ Z.of_nat (length ds)) by (apply Z.pow_le_mono_r with (b := 0); lia).
  replace (acc * radix + d <=? max) with true by (symmetry; apply Z.leb_le; nia).
  change (rev_append ds []) with (reverse ds).
  rewrite IH; [f_equal; lia|done|nia|nia].
Qed.

Lemma reverse_digits_rev_nonempty fuel b n :
  reverse (digits_rev (S fuel) b n) <> [].
Proof. simpl. rewrite reverse_cons. by intros []%app_nil. Qed.

Lemma format_radix_ne b n : format_radix b n <> [].
Proof.
  unfold format_radix, digits_fuel. intros H%map_eq_nil.
  by apply reverse_digits_rev_nonempty in H.
Qed.

Lemma format_radix_digits b n :
  2 <= b <= 36 -> 0 <= n ->
  Forall (fun c => in_range 48 57 c || in_range 97 122 c = true) (format_radix b n).
Proof.
  intros Hb Hn. unfold format_radix. apply List.Forall_map, Forall_reverse.
  eapply Forall_impl; [by apply digits_rev_range; lia|].
  intros d Hd. cbv beta in Hd. unfold digit_char, in_range. case_if; lia.
Qed.

Lemma parse_digits_format b max n :
  2 <= b <= 36 -> 0 <= n <= max -> parse_digits b max 0 (format_radix b n) = Some n.
Proof.
  intros Hb Hn. unfold format_radix.
  pose proof (digits_rev_value (digits_fuel n) b n ltac:(lia)
                (conj (proj1 Hn) (digits_fuel_enough n (proj1 Hn)))) as Hv.
  rewrite parse_digits_horner; try lia.
  - by rewrite Hv, Z.mul_0_l.
  - apply digits_rev_range; lia.
Qed.

(** Printing an unsigned integer and parsing it gives it back. *)
(** Decimal digits of a positive number start with a non-zero digit. *)
Lemma digits_rev_last fuel n :
  0 < n -> n < 2 ^ Z.of_nat fuel ->
  exists d, last (digits_rev fuel 10 n) = Some d /\ d <> 0.
Proof.
  revert n. induction fuel as [|f IH]; intros n Hn Hf; [simpl in Hf; lia|].
  cbn [digits_rev]. destruct (n <? 10) eqn:E; bool_facts.
  - exists n. rewrite Z.mod_small by lia. split; [done|lia].
  - assert (0 < n / 10) by (apply Z.div_str_pos; lia).
    destruct (IH (n / 10)) as (d & Hd & Hne); [done| |].
    + rewrite Nat2Z.inj_succ, Z.pow_succ_r in Hf by lia.
      apply Z.div_lt_upper_bound; lia.
    + exists d. split; [|done]. rewrite last_cons, Hd. done.
Qed.

(** A number in decimal is digits. *)
Lemma to_string_digits n : Forall (fun c => in_range 48 57 c = true) (to_string n).
Proof.
  unfold to_string, format_radix. apply List.Forall_map, Forall_reverse.
  eapply Forall_impl; [by apply digits_rev_digits|]. intros d Hd. cbv beta in Hd.
  unfold digit_char, in_range. case_if; lia.
Qed.

Lemma to_string_ne n : to_string n <> [].
Proof. apply format_radix_ne. Qed.

Lemma from_str_radix_format b max n :
  2 <= b <= 36 -> 0 <= n <= max -> from_str_radix b max (format_radix b n) = Some n.
Proof.
  intros Hb Hn. pose proof (parse_digits_format b max n Hb Hn) as Hp.
  pose proof (format_radix_digits b n Hb ltac:(lia)) as Hd.
  pose proof (format_radix_ne b n) as Hne.
  destruct (format_radix b n) as [|c r]; [done|].
  apply Forall_cons in Hd as [Hc _].
  unfold from_str_radix. unfold in_range in Hc.
  repeat case_match; try done; subst; simpl in Hc; discriminate Hc.
Qed.

Lemma parse_u64_to_string n : is_u64_spec n -> parse_u64 (to_string n) = Some n.
Proof. intros. apply from_str_radix_format; [lia|done]. Qed.

(** ** Paths *)

(** [Path::join] for a relative component, and the characters that matter. *)
Definition SLASH : char := 47.
Definition path_join (dir name : str) : str :=
  match name with
  | 47 :: _ => name
  | _ => match dir with
         | [] => name
         | _ => if ends_with_char SLASH dir then dir ++ name else dir ++ [SLASH] ++ name
         end
  end.
Arguments path_join : simpl never.
