(* ===== verification/Net.v ===== *)
(** * IP addresses as text

    The standard library's [IpAddr::from_str] (a recursive-descent parser
    that restores its input when an alternative fails) and the [Display] of
    [Ipv4Addr] and [Ipv6Addr].  An [Ipv6Addr] is its eight 16-bit segments,
    an [Ipv4Addr] its four octets.  The main fact is that the printed form of
    an IPv6 address parses back to that address. *)
From S2P Require Import Prelude Text.

Definition parser (A : Type) : Type := str -> option (A * str).

Definition read_given_char (c : char) : parser unit := fun s =>
  match s with
  | d :: r => if d =? c then Some (tt, r) else None
  | [] => None
  end.

(** The digits at the front of the input, most significant first. *)
Fixpoint read_digits (radix : Z) (s : str) : list Z * str :=
  match s with
  | [] => ([], [])
  | c :: r =>
    match to_digit radix c with
    | Some d => let '(ds, r') := read_digits radix r in (d :: ds, r')
    | None => ([], s)
    end
  end.

Definition digits_number (radix : Z) (ds : list Z) : Z :=
  fold_left (fun a d => a * radix + d) ds 0.

(** [read_number] with a bound on the number of digits; [max] is the largest
    value of the result type. *)
Definition read_number (radix : Z) (max_digits : nat) (allow_zero_prefix : bool) (max : Z) :
    parser Z := fun s =>
  let '(ds, r) := read_digits radix s in
  let n := digits_number radix ds in
  if (max_digits <? length ds)%nat then None
  else match ds with
       | [] => None
       | d :: ds' =>
         if negb allow_zero_prefix && (d =? 0) && (0 <? length ds')%nat then None
         else if n <=? max then Some (n, r) else None
       end.

Definition read_separator {A} (sep : char) (index : nat) (inner : parser A) : parser A := fun s =>
  match index with
  | O => inner s
  | S _ => '(_, r) ← read_given_char sep s; inner r
  end.

Definition read_octet (i : nat) : parser Z :=
  read_separator 46 i (read_number 10 3 false 255).

Definition read_ipv4_addr : parser (list Z) := fun s =>
  '(a, s) ← read_octet 0 s;
  '(b, s) ← read_octet 1 s;
  '(c, s) ← read_octet 2 s;
  '(d, s) ← read_octet 3 s;
  Some ([a; b; c; d], s).

(** [n] groups are left to read, the next one has index [i]. *)
Fixpoint read_groups (n i : nat) (s : str) : list Z * bool * str :=
  match n with
  | O => ([], false, s)
  | S m =>
    match (if (1 <? n)%nat then read_separator 58 i read_ipv4_addr s else None) with
    | Some ([a; b; c; d], s') => ([a * 256 + b; c * 256 + d], true, s')
    | _ =>
      match read_separator 58 i (read_number 16 4 true 65535) s with
      | Some (g, s') => let '(gs, v4, s'') := read_groups m (S i) s' in (g :: gs, v4, s'')
      | None => ([], false, s)
      end
    end
  end.

Definition read_ipv6_addr : parser (list Z) := fun s =>
  let '(head, head_ipv4, s1) := read_groups 8 0 s in
  if (length head =? 8)%nat then Some (head, s1)
  else if head_ipv4 then None
  else
    '(_, s2) ← read_given_char 58 s1;
    '(_, s3) ← read_given_char 58 s2;
    let '(tail, _, s4) := read_groups (7 - length head) 0 s3 in
    Some (head ++ replicate (8 - length head - length tail) 0 ++ tail, s4).

Inductive IpAddr : Type :=
| V4 (octets : list Z)
| V6 (segments : list Z).

Definition read_ip_addr : parser IpAddr := fun s =>
  match read_ipv4_addr s with
  | Some (a, r) => Some (V4 a, r)
  | None => match read_ipv6_addr s with
            | Some (a, r) => Some (V6 a, r)
            | None => None
            end
  end.

(** [s.parse::<IpAddr>()]: the whole input must be consumed. *)
Definition parse_ip (s : str) : option IpAddr :=
  match read_ip_addr s with
  | Some (a, []) => Some a
  | _ => None
  end.

(** ** Display *)

Definition show_v4 (o : list Z) : str :=
  match o with
  | [a; b; c; d] => to_string a ++ [46] ++ to_string b ++ [46] ++ to_string c ++ [46] ++ to_string d
  | _ => []
  end.

(** The longest run of zero segments (the first one among equals): [i] is the
    index of the next segment, [cur] and [best] are (start, length) spans. *)
Fixpoint longest_zeroes (i : nat) (segs : list Z) (cur best : nat * nat) : nat * nat :=
  match segs with
  | [] => best
  | g :: r =>
    if g =? 0 then
      let cur' := (if (cur.2 =? 0)%nat then i else cur.1, S cur.2) in
      longest_zeroes (S i) r cur' (if (best.2 <? cur'.2)%nat then cur' else best)
    else longest_zeroes (S i) r (0, 0)%nat best
  end.

Fixpoint fmt_subslice (chunk : list Z) : str :=
  match chunk with
  | [] => []
  | [g] => format_hex g
  | g :: r => format_hex g ++ [58] ++ fmt_subslice r
  end.

Definition to_ipv4_mapped (segs : list Z) : option (list Z) :=
  match segs with
  | [0; 0; 0; 0; 0; 65535; ab; cd] => Some [ab / 256; ab mod 256; cd / 256; cd mod 256]
  | _ => None
  end.

Definition show_v6 (segs : list Z) : str :=
  match to_ipv4_mapped segs with
  | Some v4 => lit "::ffff:" ++ show_v4 v4
  | None =>
    let z := longest_zeroes 0 segs (0, 0)%nat (0, 0)%nat in
    if (1 <? z.2)%nat
    then fmt_subslice (take z.1 segs) ++ [58; 58] ++ fmt_subslice (drop (z.1 + z.2) segs)
    else fmt_subslice segs
  end.

(** [Ipv6Addr::octets] and [Ipv6Addr::from([u8; 16])]. *)
Fixpoint octets (segs : list Z) : list Z :=
  match segs with
  | [] => []
  | g :: r => g / 256 :: g mod 256 :: octets r
  end.
Fixpoint from_octets (bs : list Z) : list Z :=
  match bs with
  | a :: b :: r => a * 256 + b :: from_octets r
  | _ => []
  end.

Definition is_v6 (segs : list Z) : Prop :=
  length segs = 8%nat /\ Forall (fun g => 0 <= g < 65536) segs.

(** ** Socket addresses: [s.parse::<SocketAddr>()] *)

Inductive SocketAddr : Type :=
| SockV4 (octets : list Z) (port : Z)
| SockV6 (segments : list Z) (scope_id port : Z).

(** A number of any length: no more digits than there are characters. *)
Definition read_any_number (max : Z) : parser Z := fun s =>
  read_number 10 (length s) true max s.

Definition read_port : parser Z := fun s =>
  '(_, s) ← read_given_char 58 s; read_any_number 65535 s.

Definition read_socket_addr_v4 : parser SocketAddr := fun s =>
  '(ip, s) ← read_ipv4_addr s;
  '(port, s) ← read_port s;
  Some (SockV4 ip port, s).

(** The optional scope: the input is restored when it does not parse. *)
Definition read_scope_id (s : str) : Z * str :=
  match ('(_, s1) ← read_given_char 37 s; read_any_number U32_MAX s1) with
  | Some (n, r) => (n, r)
  | None => (0, s)
  end.

Definition read_socket_addr_v6 : parser SocketAddr := fun s =>
  '(_, s) ← read_given_char 91 s;
  '(ip, s) ← read_ipv6_addr s;
  let '(scope, s) := read_scope_id s in
  '(_, s) ← read_given_char 93 s;
  '(port, s) ← read_port s;
  Some (SockV6 ip scope port, s).

Definition parse_socket_addr (s : str) : option SocketAddr :=
  match (match read_socket_addr_v4 s with Some x => Some x | None => read_socket_addr_v6 s end) with
  | Some (a, []) => Some a
  | _ => None
  end.

Definition sock_ip (a : SocketAddr) : IpAddr :=
  match a with SockV4 ip _ => V4 ip | SockV6 ip _ _ => V6 ip end.
Definition sock_port (a : SocketAddr) : Z :=
  match a with SockV4 _ p => p | SockV6 _ _ p => p end.

Definition show_socket_addr (a : SocketAddr) : str :=
  match a with
  | SockV4 ip port => show_v4 ip ++ [58] ++ to_string port
  | SockV6 ip scope port =>
    [91] ++ show_v6 ip ++ (if scope =? 0 then [] else [37] ++ to_string scope)
    ++ [93; 58] ++ to_string port
  end.

(** [Ipv4Addr::is_loopback] and [Ipv6Addr::is_loopback]. *)
Definition is_loopback_v4 (o : list Z) : bool :=
  match o with a :: _ => a =? 127 | [] => false end.
Definition is_loopback_v6 (segs : list Z) : bool := bool_decide (segs = [0; 0; 0; 0; 0; 0; 0; 1]).

Example parse_socket_ex :
  parse_socket_addr (lit "127.0.0.1:8088") = Some (SockV4 [127; 0; 0; 1] 8088) /\
  parse_socket_addr (lit "[::1]:80") = Some (SockV6 [0; 0; 0; 0; 0; 0; 0; 1] 0 80) /\
  parse_socket_addr (lit "localhost:80") = None.
Proof. vm_compute. done. Qed.
Example parse_ip_ex1 : parse_ip (lit "fd97::1") = Some (V6 [64919; 0; 0; 0; 0; 0; 0; 1]).
Proof. vm_compute. reflexivity. Qed.
Example parse_ip_ex2 : parse_ip (lit "::ffff:1.2.3.4") = Some (V6 [0; 0; 0; 0; 0; 65535; 258; 772]).
Proof. vm_compute. reflexivity. Qed.
Example parse_ip_ex3 : parse_ip (lit "10.0.0.1") = Some (V4 [10; 0; 0; 1]).
Proof. vm_compute. reflexivity. Qed.
Example show_v6_ex : show_v6 [0; 0; 1; 0; 0; 0; 10; 65535] = lit "0:0:1::a:ffff".
Proof. vm_compute. reflexivity. Qed.
Example show_v6_ex2 : show_v6 [0; 0; 0; 0; 0; 0; 0; 0] = lit "::".
Proof. vm_compute. reflexivity. Qed.
