(* ===== verification/NetSpec.v ===== *)
(** * Printed IPv6 addresses parse back

    [parse_ip] inverts [show_v6] on every address: the compressed form, the
    full form and the IPv4-mapped form.  So an address printed by [list] can be
    given back to [check] and [unban]. *)
From S2P Require Import Prelude Text Net.

(** ** Numbers *)

Definition no_digits (radix : Z) (s : str) : Prop :=
  match s with c :: _ => to_digit radix c = None | [] => True end.

Lemma read_digits_map radix ds rest :
  radix <= 36 -> Forall (fun d => 0 <= d < radix) ds -> no_digits radix rest ->
  read_digits radix (map digit_char ds ++ rest) = (ds, rest).
Proof.
  intros Hr Hds Hrest. induction Hds as [|d ds Hd _ IH].
  - simpl. destruct rest as [|c r]; [done|]. simpl in *. by rewrite Hrest.
  - simpl. rewrite to_digit_char by lia. by rewrite IH.
Qed.

Lemma digits_number_reverse b ds acc :
  fold_left (fun a d => a * b + d) (reverse ds) acc = acc * b ^ Z.of_nat (length ds) + digits_value b ds.
Proof.
  induction ds as [|d ds IH]; [simpl; lia|].
  rewrite reverse_cons, fold_left_app, IH. cbn [fold_left length].
  change (digits_value b (d :: ds)) with (d + b * digits_value b ds).
  rewrite Nat2Z.inj_succ, Z.pow_succ_r by lia. lia.
Qed.

Lemma digits_rev_length b k : forall fuel n,
  2 <= b -> 0 <= n < b ^ Z.of_nat (S k) -> (length (digits_rev fuel b n) <= S k)%nat.
Proof.
  induction k as [|k IH]; intros [|fuel] n Hb Hn; cbn [digits_rev]; cbn [length]; try lia.
  - rewrite Z.pow_1_r in Hn. replace (n <? b) with true by lia. simpl. lia.
  - destruct (n <? b); [simpl; lia|]. cbn [length].
    enough (length (digits_rev fuel b (n / b)) <= S k)%nat by lia.
    apply IH; [done|]. rewrite (Nat2Z.inj_succ (S k)), Z.pow_succ_r in Hn by lia.
    split; [apply Z.div_pos; lia|]. apply Z.div_lt_upper_bound; lia.
Qed.

(** The most significant digit is zero only for zero. *)
Lemma digits_rev_lead b fuel n :
  2 <= b -> 0 < n -> n < 2 ^ Z.of_nat fuel -> exists d l, reverse (digits_rev fuel b n) = d :: l /\ d <> 0.
Proof.
  intros Hb. revert n. induction fuel as [|f IH]; intros n Hn Hf; [simpl in Hf; lia|].
  cbn [digits_rev]. destruct (n <? b) eqn:E; bool_facts.
  - exists n, []. rewrite Z.mod_small by lia. split; [done|lia].
  - destruct (IH (n / b)) as (d & l & Hl & Hd).
    + apply Z.div_str_pos. lia.
    + rewrite Nat2Z.inj_succ, Z.pow_succ_r in Hf by lia. apply Z.div_lt_upper_bound; nia.
    + exists d, (l ++ [n mod b]). rewrite reverse_cons, Hl. done.
Qed.

Lemma read_number_format b k max n lead rest :
  2 <= b <= 36 -> 0 <= n <= max -> n < b ^ Z.of_nat (S k) -> no_digits b rest ->
  read_number b (S k) lead max (format_radix b n ++ rest) = Some (n, rest).
Proof.
  intros Hb Hn Hk Hrest. unfold read_number, format_radix.
  set (ds := digits_rev (digits_fuel n) b n).
  assert (Hr : Forall (fun d => 0 <= d < b) (reverse ds)) by (apply Forall_reverse, digits_rev_range; lia).
  assert (Hv : digits_value b ds = n).
  { apply digits_rev_value; [lia|]. split; [lia|apply digits_fuel_enough; lia]. }
  assert (Hlen : (length ds <= S k)%nat) by (apply digits_rev_length; lia).
  rewrite read_digits_map by (done || lia).
  unfold digits_number. rewrite digits_number_reverse, Hv, Z.mul_0_l, Z.add_0_l.
  rewrite length_reverse. replace (S k <? length ds)%nat with false by (symmetry; apply Nat.ltb_ge; lia).
  destruct (Z.eq_dec n 0) as [->|Hnz].
  { assert (Hds : reverse ds = [0]).
    { unfold ds, digits_fuel. cbn [Z.log2 Z.to_nat digits_rev]. rewrite Zmod_0_l.
      by replace (0 <? b) with true by lia. }
    rewrite Hds. cbn [length]. rewrite andb_false_r.
    by replace (0 <=? max) with true by lia. }
  destruct (digits_rev_lead b (digits_fuel n) n ltac:(lia) ltac:(lia) (digits_fuel_enough n ltac:(lia)))
    as (d & l & Hl & Hd).
  fold ds in Hl. rewrite Hl. replace (d =? 0) with false by lia. rewrite andb_false_r.
  cbn [andb]. by replace (n <=? max) with true by lia.
Qed.

Lemma read_hex_group g rest :
  0 <= g < 65536 -> no_digits 16 rest ->
  read_number 16 4 true 65535 (format_hex g ++ rest) = Some (g, rest).
Proof. intros Hg Hr. apply read_number_format; [lia|lia|simpl; lia|done]. Qed.

Lemma read_octet_format n rest :
  0 <= n < 256 -> no_digits 10 rest ->
  read_number 10 3 false 255 (to_string n ++ rest) = Some (n, rest).
Proof. intros Hn Hr. apply read_number_format; [lia|lia|simpl; lia|done]. Qed.

(** ** IPv4 *)

Lemma read_ipv4_show a b c d rest :
  0 <= a < 256 -> 0 <= b < 256 -> 0 <= c < 256 -> 0 <= d < 256 -> no_digits 10 rest ->
  read_ipv4_addr (show_v4 [a; b; c; d] ++ rest) = Some ([a; b; c; d], rest).
Proof.
  intros Ha Hb Hc Hd Hr. unfold read_ipv4_addr, read_octet, show_v4, read_separator.
  rewrite <- !app_assoc. cbn [app]. rewrite read_octet_format by done. simpl.
  rewrite read_octet_format by done. simpl.
  rewrite read_octet_format by done. simpl.
  by rewrite read_octet_format.
Qed.

(** Text without a dot is no IPv4 address. *)
Definition dotless (s : str) : Prop := 46 ∉ s.

Lemma read_digits_suffix radix s ds r : read_digits radix s = (ds, r) -> r `suffix_of` s.
Proof.
  revert ds r. induction s as [|c s IH]; intros ds r H; cbn [read_digits] in H; [by simplify_eq|].
  destruct (to_digit radix c); [|by simplify_eq].
  destruct (read_digits radix s) as [ds' r']. simplify_eq. by apply suffix_cons_r, (IH ds').
Qed.

Lemma read_number_suffix radix k z max s n r : read_number radix k z max s = Some (n, r) -> r `suffix_of` s.
Proof.
  unfold read_number. destruct (read_digits radix s) as [ds r'] eqn:E. intros H.
  repeat case_match; simplify_eq; by eapply read_digits_suffix.
Qed.

Lemma dotless_suffix r s : r `suffix_of` s -> dotless s -> dotless r.
Proof. intros [p ->] Hs Hin. apply Hs, elem_of_app. by right. Qed.

Lemma read_ipv4_dotless s : dotless s -> read_ipv4_addr s = None.
Proof.
  intros Hs. unfold read_ipv4_addr, read_octet, read_separator.
  destruct (read_number 10 3 false 255 s) as [[a r]|] eqn:E; [|done].
  apply read_number_suffix in E. pose proof (dotless_suffix r s E Hs) as Hr. simpl.
  destruct r as [|c r]; [done|]. unfold read_given_char.
  replace (c =? 46) with false; [done|]. symmetry. apply Z.eqb_neq. intros ->. apply Hr. by left.
Qed.

Lemma separated_ipv4_dotless i s : dotless s -> read_separator 58 i read_ipv4_addr s = None.
Proof.
  intros Hs. destruct i; simpl; [by apply read_ipv4_dotless|].
  destruct s as [|c s]; [done|]. simpl. destruct (c =? 58); [|done]. simpl.
  apply read_ipv4_dotless. intros Hin. apply Hs. by right.
Qed.

(** ** Groups *)

Definition in_group (g : Z) : Prop := 0 <= g < 65536.

(** The groups after the first. *)
Definition more_groups (gs : list Z) : str := concat (map (fun g => 58 :: format_hex g) gs).

Lemma fmt_subslice_more g gs : fmt_subslice (g :: gs) = format_hex g ++ more_groups gs.
Proof.
  revert g. induction gs as [|g' gs IH]; intros g; [unfold more_groups; simpl; by rewrite app_nil_r|].
  change (fmt_subslice (g :: g' :: gs)) with (format_hex g ++ [58] ++ fmt_subslice (g' :: gs)).
  by rewrite IH.
Qed.

(** What can follow the groups of a printed address. *)
Definition group_stop (s : str) : Prop := s = [] \/ exists r, s = 58 :: 58 :: r.

Lemma more_groups_no_digits gs rest : group_stop rest -> no_digits 16 (more_groups gs ++ rest).
Proof. intros [->|[r ->]]; by destruct gs. Qed.

Lemma read_groups_more gs : forall n i rest,
  (length gs <= n)%nat -> Forall in_group gs -> group_stop rest -> dotless (more_groups gs ++ rest) ->
  read_groups n (S i) (more_groups gs ++ rest) = (gs, false, rest).
Proof.
  induction gs as [|g gs IH]; intros n i rest Hn Hgs Hstop Hdot; simpl in Hn.
  - destruct n as [|n]; [done|]. cbn [more_groups map concat app] in *. cbn [read_groups].
    rewrite separated_ipv4_dotless by done. destruct (1 <? S n)%nat; destruct Hstop as [->|[r ->]]; done.
  - destruct n as [|n]; [lia|]. apply Forall_cons in Hgs as [Hg Hgs]. cbn [read_groups].
    rewrite separated_ipv4_dotless by done.
    assert (Htext : more_groups (g :: gs) ++ rest = 58 :: format_hex g ++ (more_groups gs ++ rest)).
    { unfold more_groups. simpl. by rewrite <- app_assoc. }
    rewrite Htext in *. cbn [read_separator read_given_char]. change (58 =? 58) with true. cbn iota.
    simpl (mbind _ _). rewrite read_hex_group by (done || by apply more_groups_no_digits).
    rewrite IH; [by destruct (1 <? S n)%nat|lia|done|done|].
    eapply dotless_suffix; [|exact Hdot]. exists (58 :: format_hex g). done.
Qed.

Lemma read_groups_all gs n rest :
  (length gs <= n)%nat -> Forall in_group gs -> group_stop rest -> dotless (fmt_subslice gs ++ rest) ->
  read_groups n 0 (fmt_subslice gs ++ rest) = (gs, false, rest).
Proof.
  intros Hn Hgs Hstop Hdot. destruct gs as [|g gs].
  - destruct n as [|n]; [done|]. cbn [fmt_subslice app] in *. cbn [read_groups].
    rewrite separated_ipv4_dotless by done. destruct (1 <? S n)%nat; destruct Hstop as [->|[r ->]]; done.
  - simpl in Hn. destruct n as [|n]; [lia|]. apply Forall_cons in Hgs as [Hg Hgs]. cbn [read_groups].
    rewrite separated_ipv4_dotless by done. rewrite fmt_subslice_more, <- app_assoc in *.
    cbn [read_separator]. rewrite read_hex_group by (done || by apply more_groups_no_digits).
    rewrite read_groups_more; [by destruct (1 <? S n)%nat|lia|done|done|].
    eapply dotless_suffix; [|exact Hdot]. by eexists.
Qed.

(** ** Zero spans *)

Definition zero_span (segs : list Z) (sp : nat * nat) : Prop :=
  exists post, segs = take sp.1 segs ++ replicate sp.2 0 ++ post /\ length (take sp.1 segs) = sp.1.

Lemma longest_zeroes_span rest : forall pre cur best,
  zero_span (pre ++ rest) best ->
  (cur.2 = 0%nat \/ exists p, pre = p ++ replicate cur.2 0 /\ length p = cur.1) ->
  zero_span (pre ++ rest) (longest_zeroes (length pre) rest cur best).
Proof.
  induction rest as [|g rest IH]; intros pre cur best Hbest Hcur; cbn [longest_zeroes]; [done|].
  assert (Hpre : pre ++ g :: rest = (pre ++ [g]) ++ rest) by (by rewrite <- app_assoc).
  assert (Hl : S (length pre) = length (pre ++ [g])) by (rewrite length_app; simpl; lia).
  rewrite Hpre in *. rewrite Hl. destruct (g =? 0) eqn:Eg; bool_facts.
  - subst g. set (start := if (cur.2 =? 0)%nat then length pre else cur.1).
    assert (Hc : exists p, pre ++ [0] = p ++ replicate (S cur.2) 0 /\ length p = start).
    { unfold start. destruct (Nat.eqb_spec cur.2 0) as [E|E].
      - exists pre. by rewrite E.
      - destruct Hcur as [?|(p & -> & Hp)]; [lia|]. exists p.
        rewrite <- app_assoc, <- replicate_S_end. done. }
    rewrite <- Hl. rewrite Hl. apply IH; [|by right].
    cbn [snd]. destruct (best.2 <? S cur.2)%nat; [|done]. destruct Hc as (p & Hp & Hlen).
    exists rest. cbn [fst snd]. rewrite Hp, <- Hlen.
    rewrite <- !app_assoc, take_app_length. done.
  - apply IH; [done|by left].
Qed.

Lemma longest_zeroes_valid segs :
  zero_span segs (longest_zeroes 0 segs (0, 0)%nat (0, 0)%nat).
Proof.
  apply (longest_zeroes_span segs [] (0, 0)%nat (0, 0)%nat); [|by left].
  exists segs. by rewrite take_0.
Qed.

(** ** Round trip *)

Definition hex_or_colon (s : str) : Prop := Forall (fun c => c <> 46) s.

Lemma format_hex_dotless g : 0 <= g -> hex_or_colon (format_hex g).
Proof.
  intros Hg. eapply Forall_impl; [by apply (format_radix_digits 16 g)|].
  unfold in_range. intros c Hc. cbv beta in *. lia.
Qed.

Lemma fmt_subslice_dotless gs : Forall in_group gs -> hex_or_colon (fmt_subslice gs).
Proof.
  induction 1 as [|g gs Hg _ IH]; [constructor|]. rewrite fmt_subslice_more.
  assert (Hm : hex_or_colon (format_hex g)) by (apply format_hex_dotless; unfold in_group in Hg; lia).
  apply Forall_app. split; [done|]. destruct gs as [|g2 gs]; [constructor|].
  unfold more_groups. cbn [map concat]. rewrite fmt_subslice_more in IH.
  constructor; [done|]. done.
Qed.

Lemma hex_or_colon_dotless s : hex_or_colon s -> dotless s.
Proof. intros Hs Hin. unfold hex_or_colon in Hs. rewrite Forall_forall in Hs. by apply (Hs 46). Qed.

(** The text of an address that is not IPv4-mapped. *)
Lemma read_ipv6_groups segs :
  is_v6 segs -> read_ipv6_addr (fmt_subslice segs) = Some (segs, []).
Proof.
  intros [Hlen Hr]. unfold read_ipv6_addr.
  pose proof (read_groups_all segs 8 []) as Hg. rewrite app_nil_r in Hg.
  rewrite Hg; [by rewrite Hlen|lia|done|by left|].
  by apply hex_or_colon_dotless, fmt_subslice_dotless.
Qed.

Lemma read_ipv6_compressed pre n post :
  (length pre + n + length post = 8)%nat -> (1 < n)%nat -> Forall in_group pre -> Forall in_group post ->
  read_ipv6_addr (fmt_subslice pre ++ [58; 58] ++ fmt_subslice post) =
  Some (pre ++ replicate n 0 ++ post, []).
Proof.
  intros Hlen Hn Hpre Hpost. unfold read_ipv6_addr.
  pose proof (fmt_subslice_dotless pre Hpre). pose proof (fmt_subslice_dotless post Hpost).
  rewrite read_groups_all; [|lia|done|right; by eexists|].
  2:{ apply hex_or_colon_dotless. apply Forall_app. split; [done|]. by repeat constructor. }
  replace (length pre =? 8)%nat with false by (symmetry; apply Nat.eqb_neq; lia).
  cbn [app read_given_char]. change (58 =? 58) with true. cbn iota. simpl (mbind _ _).
  pose proof (read_groups_all post (7 - length pre) []) as Hg. rewrite app_nil_r in Hg.
  rewrite Hg; [|lia|done|by left|by apply hex_or_colon_dotless].
  by replace (8 - length pre - length post)%nat with n by lia.
Qed.

Lemma read_mapped a b c d :
  0 <= a < 256 -> 0 <= b < 256 -> 0 <= c < 256 -> 0 <= d < 256 ->
  read_ipv6_addr (lit "::ffff:" ++ show_v4 [a; b; c; d]) =
  Some ([0; 0; 0; 0; 0; 65535; a * 256 + b; c * 256 + d], []).
Proof.
  intros Ha Hb Hc Hd. pose proof (read_ipv4_show a b c d [] Ha Hb Hc Hd I) as Hv4.
  rewrite app_nil_r in Hv4. unfold read_ipv6_addr.
  change (lit "::ffff:" ++ show_v4 [a; b; c; d])
    with (58 :: 58 :: 102 :: 102 :: 102 :: 102 :: 58 :: show_v4 [a; b; c; d]).
  generalize dependent (show_v4 [a; b; c; d]). intros v4 Hv4.
  set (t := 102 :: 102 :: 102 :: 102 :: 58 :: v4).
  assert (Hg : read_groups 7 0 t = ([65535; a * 256 + b; c * 256 + d], true, [])).
  { subst t. cbn [read_groups]. change (1 <? 7)%nat with true. cbn iota.
    assert (Hn4 : read_separator 58 0 read_ipv4_addr (102 :: 102 :: 102 :: 102 :: 58 :: v4) = None) by reflexivity.
    rewrite Hn4. assert (Hff : read_separator 58 0 (read_number 16 4 true 65535)
      (102 :: 102 :: 102 :: 102 :: 58 :: v4) = Some (65535, 58 :: v4)) by reflexivity.
    rewrite Hff. change (1 <? 6)%nat with true. cbn iota.
    assert (H4 : read_separator 58 1 read_ipv4_addr (58 :: v4) = Some ([a; b; c; d], [])).
    { cbn [read_separator read_given_char]. change (58 =? 58) with true. cbn iota. simpl (mbind _ _). done. }
    by rewrite H4. }
  assert (H0 : read_groups 8 0 (58 :: 58 :: t) = ([], false, 58 :: 58 :: t)) by reflexivity.
  rewrite H0. cbn [length Nat.eqb read_given_char]. change (58 =? 58) with true. cbn iota.
  unfold mbind, option_bind, read_given_char. change (58 =? 58) with true. cbn iota beta.
  change (7 - 0)%nat with 7%nat. rewrite Hg. reflexivity.
Qed.

Lemma parse_ip_v6_text s segs :
  read_ipv4_addr s = None -> read_ipv6_addr s = Some (segs, []) -> parse_ip s = Some (V6 segs).
Proof. intros H4 H6. unfold parse_ip, read_ip_addr. by rewrite H4, H6. Qed.

Lemma parse_ip_show_v6 segs : is_v6 segs -> parse_ip (show_v6 segs) = Some (V6 segs).
Proof.
  intros Hv. pose proof Hv as [Hlen Hr]. unfold show_v6.
  destruct (to_ipv4_mapped segs) as [v4|] eqn:E.
  - unfold to_ipv4_mapped in E. repeat case_match; simplify_eq.
    do 6 (apply Forall_cons in Hr as [_ Hr]). apply Forall_cons in Hr as [Hab Hr].
    apply Forall_cons in Hr as [Hcd _].
    assert (Hb : forall z, 0 <= z < 65536 -> 0 <= z / 256 < 256 /\ 0 <= z mod 256 < 256 /\ z / 256 * 256 + z mod 256 = z).
    { intros z Hz. pose proof (Z.div_mod z 256). pose proof (Z.mod_pos_bound z 256).
      split; [split; [apply Z.div_pos|apply Z.div_lt_upper_bound]; lia|]. lia. }
    destruct (Hb _ Hab) as (H1 & H2 & H3), (Hb _ Hcd) as (H4 & H5 & H6).
    apply parse_ip_v6_text; [reflexivity|]. rewrite read_mapped by done. by rewrite H3, H6.
  - set (z := longest_zeroes 0 segs (0, 0)%nat (0, 0)%nat).
    destruct (longest_zeroes_valid segs) as (post & Hsegs & Hl). fold z in Hsegs, Hl.
    destruct (1 <? z.2)%nat eqn:Ez.
    + apply Nat.ltb_lt in Ez.
      assert (Hdrop : drop (z.1 + z.2) segs = post).
      { rewrite Hsegs, app_assoc. apply drop_app_length'.
        rewrite length_app, length_replicate. lia. }
      rewrite Hdrop. assert (Hpre : Forall in_group (take z.1 segs)) by (by apply Forall_take).
      assert (Hpost : Forall in_group post) by (rewrite <- Hdrop; by apply Forall_drop).
      apply parse_ip_v6_text.
      * apply read_ipv4_dotless, hex_or_colon_dotless.
        apply Forall_app. split; [by apply fmt_subslice_dotless|].
        do 2 (constructor; [done|]). by apply fmt_subslice_dotless.
      * rewrite (read_ipv6_compressed _ z.2); [by rewrite <- Hsegs| |done|done|done].
        rewrite Hsegs in Hlen. rewrite !length_app, length_replicate in Hlen. lia.
    + apply parse_ip_v6_text; [|by apply read_ipv6_groups].
      by apply read_ipv4_dotless, hex_or_colon_dotless, fmt_subslice_dotless.
Qed.

(** ** Octets *)

Definition sixteen_bytes (bs : list Z) : Prop :=
  length bs = 16%nat /\ Forall (fun x => 0 <= x < 256) bs.

Lemma octets_pair a b r :
  0 <= a < 256 -> 0 <= b < 256 -> octets ((a * 256 + b) :: r) = a :: b :: octets r.
Proof.
  intros Ha Hb. cbn [octets]. rewrite Z.div_add_l, Z.div_small, Z.add_0_r by lia.
  by rewrite Z.add_comm, Z_mod_plus_full, Z.mod_small.
Qed.

Lemma octets_from_octets bs : sixteen_bytes bs -> is_v6 (from_octets bs) /\ octets (from_octets bs) = bs.
Proof.
  intros [Hlen Hb].
  do 16 (destruct bs as [|? bs]; [discriminate Hlen|apply Forall_cons in Hb as [? Hb]]).
  destruct bs; [|discriminate Hlen]. split.
  - split; [done|]. cbn [from_octets]. repeat constructor; lia.
  - cbn [from_octets]. rewrite !octets_pair by done. done.
Qed.
