(* ===== verification/Bpf.v ===== *)
(** * The kernel data path: [guard/bpf/shield_guard.bpf.c]

    The tc ingress classifier [shield_guard] as a function on the contents of
    the maps it was loaded with: the ban map, the per-source token buckets, the
    throttle configuration and the per-CPU counters.  All arithmetic is C's on
    [__u64], wrapping at 64 bits.

    The packet is what the kernel shows the program: the protocol field and the
    answers of [bpf_skb_load_bytes_relative].  The least-recently-used hash
    map of the buckets is kernel code: [LruHash] states what its documentation
    promises, and [lru_evict_one] is an implementation with those properties. *)
From S2P Require Import Prelude.

(** ** Data shared with the command-line tool *)

Record Addr6 := mk_addr6 { b : list Z }.

#[export] Instance Addr6_eq_dec : EqDecision Addr6.
Proof. solve_decision. Defined.
#[export] Instance Addr6_countable : Countable Addr6.
Proof. apply (inj_countable' b mk_addr6). by intros []. Defined.

Record BanVal := mk_ban {
  expires_mono_ns : Z;
  expires_epoch_s : Z;
}.
#[export] Instance BanVal_eq_dec : EqDecision BanVal.
Proof. solve_decision. Defined.

Record Config := mk_config {
  rate_pps : Z;
  burst_pkts : Z;
}.

Record bucket := mk_bucket {
  tokens_milli : Z;
  last_ns : Z;
}.

Definition MAX_TRACKED : nat := Z.to_nat 65536.

(** Stats slots. *)
Definition ST_PASSED : Z := 0.
Definition ST_DROPPED_BAN : Z := 1.
Definition ST_DROPPED_THROTTLE : Z := 2.
Definition ST_NOT_IPV6 : Z := 3.
Definition ST_PARSE_FAILED : Z := 4.
Definition ST_COUNT : Z := 5.

(** The counters: for every slot, one value per CPU. *)
Abbreviation stats := (list (list Z)) (only parsing).

Record kmaps := mk_kmaps {
  k_bans : gmap Addr6 BanVal;
  k_throttle : gmap Addr6 bucket;
  k_config : Config;
  k_stats : list (list Z);
}.

(** ** The packet and the verdict *)

Record sk_buff := mk_skb {
  protocol : Z;
  load_bytes_relative : Z -> Z -> option (list Z);  (* offset, length; network header *)
}.

Inductive tc_act := TC_ACT_OK | TC_ACT_SHOT.
#[export] Instance tc_act_eq_dec : EqDecision tc_act.
Proof. solve_decision. Defined.

Definition ETH_P_IPV6 : Z := 34525.
Definition IP6_SADDR_OFF : Z := 8.

Definition bswap16 (x : Z) : Z :=
  Z.lor (Z.shiftl (Z.land x 255) 8) (Z.land (Z.shiftr x 8) 255).

Definition load_saddr (skb : sk_buff) : option Addr6 :=
  match load_bytes_relative skb IP6_SADDR_OFF 16 with
  | Some bs => Some (mk_addr6 bs)
  | None => None
  end.

(** [*v += 1] on the current CPU's counter of a slot, when the lookup finds it. *)
Definition bump (cpu : nat) (slot : Z) (st : stats) : stats :=
  alter (alter (fun v => wrap64 (v + 1)) cpu) (Z.to_nat slot) st.

(** A ban entry that the classifier enforces at time [now]. *)
Definition ban_active (now : Z) (v : BanVal) : bool :=
  (expires_mono_ns v =? 0) || (now <? expires_mono_ns v).

(** ** The token bucket *)

(** The bucket cap of a configuration, in milli-packets. *)
Definition bucket_cap (cfg : Config) : Z := wrap64 (burst_pkts cfg * 1000).

Definition fresh_bucket (cfg : Config) (now : Z) : bucket :=
  {| tokens_milli := if 1000 <? bucket_cap cfg then bucket_cap cfg - 1000 else 0;
     last_ns := now |}.

Definition refill (cfg : Config) (now : Z) (bk : bucket) : bucket :=
  let elapsed_ms := wrap64 (now - last_ns bk) / 1000000 in
  if negb (elapsed_ms =? 0) then
    let tokens := wrap64 (tokens_milli bk + wrap64 (elapsed_ms * rate_pps cfg)) in
    {| tokens_milli := if bucket_cap cfg <? tokens then bucket_cap cfg else tokens;
       last_ns := now |}
  else bk.

(** One packet against an existing bucket: whether it passes, and the bucket
    left behind. *)
Definition take_token (cfg : Config) (now : Z) (bk : bucket) : bool * bucket :=
  let r := refill cfg now bk in
  if tokens_milli r <? 1000 then (false, r)
  else (true, {| tokens_milli := tokens_milli r - 1000; last_ns := last_ns r |}).

(** ** The classifier *)

(** What the kernel promises about updating an LRU hash map: the entry written
    is there, no other entry changes except by being evicted, and nothing is
    evicted while there is room. *)
Class LruHash := {
  lru_update : gmap Addr6 bucket -> Addr6 -> bucket -> gmap Addr6 bucket;
  lru_update_eq : forall m k v, lru_update m k v !! k = Some v;
  lru_update_ne : forall m k v k', k <> k' ->
    lru_update m k v !! k' = m !! k' \/ lru_update m k v !! k' = None;
  lru_update_room : forall m k v,
    (size m < MAX_TRACKED)%nat -> lru_update m k v = <[k := v]> m;
}.

Section classifier.
Context `{LruHash}.

(** The throttling half, on an IPv6 packet from [src] that is not banned. *)
Definition throttle_stage (now : Z) (src : Addr6) (k : kmaps) : bool * gmap Addr6 bucket :=
  let cfg := k_config k in
  if negb (rate_pps cfg =? 0) then
    match k_throttle k !! src with
    | None => (true, lru_update (k_throttle k) src (fresh_bucket cfg now))
    | Some bk =>
      let '(pass, bk') := take_token cfg now bk in
      (pass, <[src := bk']> (k_throttle k))
    end
  else (true, k_throttle k).

Definition set_stats (f : stats -> stats) (k : kmaps) : kmaps :=
  {| k_bans := k_bans k; k_throttle := k_throttle k; k_config := k_config k;
     k_stats := f (k_stats k) |}.

Definition set_throttle (t : gmap Addr6 bucket) (k : kmaps) : kmaps :=
  {| k_bans := k_bans k; k_throttle := t; k_config := k_config k; k_stats := k_stats k |}.

(** The ban check: an entry that has lapsed falls through. *)
Definition ban_hit (now : Z) (src : Addr6) (k : kmaps) : bool :=
  match k_bans k !! src with
  | Some ban => ban_active now ban
  | None => false
  end.

Definition shield_guard (cpu : nat) (now : Z) (skb : sk_buff) (k : kmaps) : tc_act * kmaps :=
  if negb (protocol skb =? bswap16 ETH_P_IPV6) then
    (TC_ACT_OK, set_stats (bump cpu ST_NOT_IPV6) k)
  else
    match load_saddr skb with
    | None => (TC_ACT_OK, set_stats (bump cpu ST_PARSE_FAILED) k)
    | Some src =>
      if ban_hit now src k then (TC_ACT_SHOT, set_stats (bump cpu ST_DROPPED_BAN) k)
      else
        let '(pass, t) := throttle_stage now src k in
        if pass then (TC_ACT_OK, set_stats (bump cpu ST_PASSED) (set_throttle t k))
        else (TC_ACT_SHOT, set_stats (bump cpu ST_DROPPED_THROTTLE) (set_throttle t k))
    end.

(** A run of the classifier over packets, each with its CPU and arrival time:
    the verdicts in order and the maps at the end. *)
Fixpoint classify (ps : list (nat * Z * sk_buff)) (k : kmaps) : list tc_act * kmaps :=
  match ps with
  | [] => ([], k)
  | (cpu, now, skb) :: r =>
    let '(v, k1) := shield_guard cpu now skb k in
    let '(vs, k2) := classify r k1 in (v :: vs, k2)
  end.

End classifier.

(** An LRU map that makes room by dropping one other entry. *)
Definition lru_evict_one (m : gmap Addr6 bucket) (k : Addr6) (v : bucket) : gmap Addr6 bucket :=
  if (size m <? MAX_TRACKED)%nat then <[k := v]> m
  else match m !! k with
       | Some _ => <[k := v]> m
       | None => match map_to_list m with
                 | (j, _) :: _ => <[k := v]> (delete j m)
                 | [] => <[k := v]> m
                 end
       end.

#[export] Program Instance lru_hash_evict_one : LruHash := {| lru_update := lru_evict_one |}.
Next Obligation. intros m k v. unfold lru_evict_one. repeat case_match; apply lookup_insert_eq. Qed.
Next Obligation.
  intros m k v k' Hne. unfold lru_evict_one. repeat case_match;
    rewrite lookup_insert_ne by done; auto.
  destruct (decide (a = k')) as [->|]; [right; apply lookup_delete_eq|].
  left. by apply lookup_delete_ne.
Qed.
Next Obligation.
  intros m k v Hs. unfold lru_evict_one.
  by apply Nat.ltb_lt in Hs as ->.
Qed.

(** ** Specifications *)

(** The source the classifier attributes a packet to, if any. *)
Definition source (skb : sk_buff) : option Addr6 :=
  if protocol skb =? bswap16 ETH_P_IPV6 then load_saddr skb else None.

(** The throttle refuses a packet of [src] at [now]. *)
Definition throttled (now : Z) (src : Addr6) (k : kmaps) : Prop :=
  rate_pps (k_config k) <> 0 /\
  exists bk, k_throttle k !! src = Some bk /\
             tokens_milli (refill (k_config k) now bk) < 1000.

(** The sum of the counters of a slot, over CPUs, as [fips-guard stats] adds them. *)
Definition slot_total (slot : nat) (st : stats) : Z :=
  foldr Z.add 0 (default [] (st !! slot)).

Definition total (st : stats) : Z := foldr Z.add 0 (concat st).

(** Packets of [src] that were let through. *)
Fixpoint accepted (src : Addr6) (ps : list (nat * Z * sk_buff)) (vs : list tc_act) : Z :=
  match ps, vs with
  | (_, _, skb) :: ps', v :: vs' =>
    (if bool_decide (source skb = Some src /\ v = TC_ACT_OK) then 1 else 0)
    + accepted src ps' vs'
  | _, _ => 0
  end.

(** Arrival times do not go backwards and end by [t1]. *)
Fixpoint chronological (t0 t1 : Z) (ps : list (nat * Z * sk_buff)) : Prop :=
  match ps with
  | [] => t0 <= t1
  | (_, now, _) :: r => t0 <= now /\ chronological now t1 r
  end.

(** No operation on the bucket of this configuration wraps up to time [t]. *)
Definition no_overflow (cfg : Config) (t : Z) : Prop :=
  0 <= rate_pps cfg /\ 0 <= burst_pkts cfg /\
  burst_pkts cfg * 1000 + (t / 1000000) * rate_pps cfg <= U64_MAX.

Section classifier_lemmas.
Context `{LruHash}.

Lemma shield_guard_cases cpu now skb k :
  shield_guard cpu now skb k =
  match source skb with
  | None => (TC_ACT_OK, set_stats (bump cpu (if protocol skb =? bswap16 ETH_P_IPV6
                                            then ST_PARSE_FAILED else ST_NOT_IPV6)) k)
  | Some src =>
    if ban_hit now src k then (TC_ACT_SHOT, set_stats (bump cpu ST_DROPPED_BAN) k)
    else if (throttle_stage now src k).1
         then (TC_ACT_OK, set_stats (bump cpu ST_PASSED)
                                    (set_throttle (throttle_stage now src k).2 k))
         else (TC_ACT_SHOT, set_stats (bump cpu ST_DROPPED_THROTTLE)
                                      (set_throttle (throttle_stage now src k).2 k))
  end.
Proof.
  unfold shield_guard, source. destruct (_ =? _); simpl; [|done].
  destruct (load_saddr skb) as [src|]; [|done]. case_if; [done|].
  by destruct (throttle_stage now src k).
Qed.

Lemma throttle_stage_pass now src k :
  (throttle_stage now src k).1 = false <-> throttled now src k.
Proof.
  unfold throttle_stage, throttled, take_token. destruct (rate_pps (k_config k) =? 0) eqn:E.
  - bool_facts. simpl. split; [done|]. intros [? _]. congruence.
  - bool_facts. simpl. destruct (k_throttle k !! src) as [bk|].
    + destruct (_ <? 1000) eqn:E1; bool_facts; simpl.
      * split; [|done]. eauto.
      * split; [done|]. intros (_ & bk' & [= <-] & ?). lia.
    + simpl. split; [done|]. by intros (_ & ? & ? & _).
Qed.

Lemma throttle_stage_size now src k :
  (size (throttle_stage now src k).2 <= S (size (k_throttle k)))%nat \/
  ~ (size (k_throttle k) < MAX_TRACKED)%nat.
Proof.
  destruct (decide (size (k_throttle k) < MAX_TRACKED)%nat) as [Hr|]; [left|by right].
  assert (forall bk, (size (<[src:=bk]> (k_throttle k)) <= S (size (k_throttle k)))%nat) as Hi.
  { intros bk. destruct (k_throttle k !! src) eqn:E.
    - rewrite map_size_insert_Some by done. lia.
    - rewrite map_size_insert_None by done. lia. }
  unfold throttle_stage. case_if; [|simpl; lia].
  destruct (k_throttle k !! src).
  - destruct (take_token _ _ _). apply Hi.
  - simpl. rewrite lru_update_room by done. apply Hi.
Qed.

Lemma throttle_stage_other now src src' k :
  src <> src' -> (size (k_throttle k) < MAX_TRACKED)%nat ->
  (throttle_stage now src k).2 !! src' = k_throttle k !! src'.
Proof.
  intros Hne Hr. unfold throttle_stage. case_if; [|done].
  destruct (k_throttle k !! src).
  - destruct (take_token _ _ _). simpl. by rewrite lookup_insert_ne.
  - simpl. rewrite lru_update_room by done. by rewrite lookup_insert_ne.
Qed.

(** The bucket arithmetic does not wrap, and what passes is paid for. *)
Lemma take_token_credit cfg now bk p bk' :
  no_overflow cfg now -> 0 <= last_ns bk <= now -> now <= U64_MAX ->
  0 <= tokens_milli bk <= burst_pkts cfg * 1000 ->
  take_token cfg now bk = (p, bk') ->
  (if p then 1000 else 0) + tokens_milli bk' <=
    tokens_milli bk + rate_pps cfg * ((last_ns bk' - last_ns bk) / 1000000) /\
  0 <= tokens_milli bk' <= burst_pkts cfg * 1000 /\ last_ns bk <= last_ns bk' <= now.
Proof.
  intros (Hr & Hb & Ho) Hl Hn Ht. unfold take_token, refill, bucket_cap.
  pose proof (Z.div_pos (now - last_ns bk) 1000000 ltac:(lia) ltac:(lia)) as He.
  pose proof (Z.mul_nonneg_nonneg _ _ He Hr) as HeR.
  pose proof (Z.div_le_mono (now - last_ns bk) now 1000000 ltac:(lia) ltac:(lia)).
  pose proof (Z.div_le_mono 0 now 1000000 ltac:(lia) ltac:(lia)).
  rewrite (wrap64_small (now - last_ns bk)) by word_lia.
  rewrite (wrap64_small (_ * 1000)) by (unfold is_u64_spec; nia).
  rewrite (wrap64_small (_ * rate_pps cfg)) by (unfold is_u64_spec; nia).
  rewrite wrap64_small by (unfold is_u64_spec; nia).
  destruct ((now - last_ns bk) / 1000000 =? 0) eqn:E; simpl.
  - destruct (tokens_milli bk <? 1000) eqn:E1; intros [= <- <-]; bool_facts; simpl;
      rewrite Z.sub_diag, Zdiv_0_l; lia.
  - destruct (burst_pkts cfg * 1000 <? _) eqn:E2; simpl; (destruct (_ <? 1000) eqn:E1; intros [= <- <-]; bool_facts; simpl;
      rewrite ?(Z.mul_comm (rate_pps cfg)); lia).
Qed.

Lemma fresh_bucket_credit cfg now :
  no_overflow cfg now -> 0 <= now -> 0 < burst_pkts cfg ->
  1000 + tokens_milli (fresh_bucket cfg now) = burst_pkts cfg * 1000.
Proof.
  intros (Hr & Hb & Ho) Hn Hp. unfold fresh_bucket, bucket_cap. simpl.
  pose proof (Z.div_pos now 1000000 Hn ltac:(lia)).
  rewrite wrap64_small by (unfold is_u64_spec; nia).
  destruct (1000 <? _) eqn:E; bool_facts; lia.
Qed.

Lemma chronological_le t0 t1 ps : chronological t0 t1 ps -> t0 <= t1.
Proof.
  revert t0; induction ps as [|[[cpu now] skb] ps IH]; simpl; intros t0 Hc; [done|].
  destruct Hc as [? Hc%IH]. lia.
Qed.

Lemma no_overflow_le cfg t t' : 0 <= t -> t <= t' -> no_overflow cfg t' -> no_overflow cfg t.
Proof.
  intros Ht Hle (Hr & Hb & Ho). repeat split; try done.
  pose proof (Z.div_le_mono t t' 1000000 ltac:(lia) Hle). nia.
Qed.

(** A packet of another source leaves the bucket alone, or evicts it. *)
Lemma throttle_stage_foreign now src src' k :
  src <> src' ->
  (throttle_stage now src k).2 !! src' = k_throttle k !! src' \/
  (throttle_stage now src k).2 !! src' = None.
Proof.
  intros Hne. unfold throttle_stage. case_if; [|by left].
  destruct (k_throttle k !! src) as [bk|].
  - destruct (take_token _ _ _). left. simpl. by rewrite lookup_insert_ne.
  - apply lru_update_ne. congruence.
Qed.

(** One packet, seen from the bucket of [src]: a packet of the source itself
    that reaches the throttle, or one that leaves the bucket or evicts it. *)
Lemma shield_guard_seen cpu now skb k src :
  let r := shield_guard cpu now skb k in
  k_config r.2 = k_config k /\ k_bans r.2 = k_bans k /\
  ((source skb = Some src /\ k_throttle r.2 = (throttle_stage now src k).2 /\
    (r.1 = TC_ACT_OK <-> (throttle_stage now src k).1 = true))
   \/ ((k_throttle r.2 !! src = k_throttle k !! src \/
        (source skb <> Some src /\ k_throttle r.2 !! src = None)) /\
       (source skb = Some src -> r.1 = TC_ACT_SHOT /\ ban_hit now src k = true))).
Proof.
  intros r. subst r. rewrite shield_guard_cases.
  destruct (source skb) as [src'|] eqn:E; [|split_and!; [done..|right; split; [by left|done]]].
  destruct (ban_hit now src' k) eqn:Eb;
    [split_and!; [done..|right; split; [by left|intros [= ->]; auto]]|].
  destruct (decide (src' = src)) as [->|Hne].
  - destruct ((throttle_stage now src k).1) eqn:Et; split_and!; try done; left; split_and!; done.
  - destruct (throttle_stage_foreign now src' src k Hne) as [Ho|Ho];
      destruct ((throttle_stage now src' k).1); split_and!; try done; right; cbn [fst snd];
      (split; [|intros [= ?]; done]); simpl; rewrite Ho; (by left) || (right; split; congruence).
Qed.

(** The packet evicted the bucket of [src]: it was there before, and is gone. *)
Definition evicts (src : Addr6) (k k' : kmaps) : bool :=
  match k_throttle k !! src, k_throttle k' !! src with
  | Some _, None => true
  | _, _ => false
  end.

(** How often the map evicts the bucket of [src] during a run. *)
Fixpoint evictions (src : Addr6) (ps : list (nat * Z * sk_buff)) (k : kmaps) : Z :=
  match ps with
  | [] => 0
  | (cpu, now, skb) :: r =>
    let k1 := (shield_guard cpu now skb k).2 in
    (if evicts src k k1 then 1 else 0) + evictions src r k1
  end.

Lemma evictions_nonneg src ps k : 0 <= evictions src ps k.
Proof.
  revert k. induction ps as [|[[cpu now] skb] ps IH]; intros k; simpl; [lia|].
  specialize (IH (shield_guard cpu now skb k).2). destruct (evicts _ _ _); lia.
Qed.

(** While the map has room for every packet's source, nothing is evicted. *)
Lemma evictions_room src ps k :
  (size (k_throttle k) + length ps <= MAX_TRACKED)%nat -> evictions src ps k = 0.
Proof.
  revert k. induction ps as [|[[cpu now] skb] ps IH]; intros k Hs; [done|]. simpl in *.
  assert (Hk : (size (k_throttle (shield_guard cpu now skb k).2) <= S (size (k_throttle k)))%nat /\
    evicts src k (shield_guard cpu now skb k).2 = false).
  { rewrite shield_guard_cases. destruct (source skb) as [src'|]; cbn [snd];
      [|split; [simpl; lia|unfold evicts; simpl; by destruct (k_throttle k !! src)]].
    destruct (ban_hit now src' k);
      [split; [simpl; lia|unfold evicts; simpl; by destruct (k_throttle k !! src)]|].
    destruct (throttle_stage_size now src' k) as [Hz|]; [|lia].
    assert (He : forall k1, k_throttle k1 = (throttle_stage now src' k).2 -> evicts src k k1 = false).
    { intros k1 Hk1. unfold evicts. rewrite Hk1. destruct (decide (src' = src)) as [->|Hne].
      - destruct (k_throttle k !! src) eqn:E; [|done]. unfold throttle_stage.
        destruct (rate_pps (k_config k) =? 0); simpl; rewrite E; [done|].
        destruct (take_token _ _ _). simpl. by rewrite lookup_insert_eq.
      - rewrite throttle_stage_other by (done || lia). by destruct (k_throttle k !! src). }
    destruct (throttle_stage now src' k).1; (split; [exact Hz|by apply He]). }
  destruct Hk as [Hz ->]. rewrite IH by lia. done.
Qed.

(** A bucket within its cap, last filled by [t]. *)
Definition bucket_ok (cfg : Config) (t : Z) (o : option bucket) : Prop :=
  match o with
  | None => True
  | Some bk => 0 <= last_ns bk <= t /\ 0 <= tokens_milli bk <= burst_pkts cfg * 1000
  end.

(** What a source can still have let through up to [t1], in milli-packets: its
    tokens and what the rate earns it; untracked, a burst and what the rate
    earns it from [t0] on. *)
Definition credit (cfg : Config) (t0 t1 : Z) (o : option bucket) : Z :=
  match o with
  | None => 1000 * burst_pkts cfg + rate_pps cfg * ((t1 - t0) / 1000000)
  | Some bk => tokens_milli bk + rate_pps cfg * ((t1 - last_ns bk) / 1000000)
  end.

(** A packet of the source pays for itself. *)
Lemma throttle_stage_credit now src k t0 t1 :
  rate_pps (k_config k) <> 0 -> 0 < burst_pkts (k_config k) ->
  no_overflow (k_config k) t1 -> t1 <= U64_MAX -> 0 <= t0 -> t0 <= now -> now <= t1 ->
  bucket_ok (k_config k) t0 (k_throttle k !! src) ->
  let r := throttle_stage now src k in
  bucket_ok (k_config k) now (r.2 !! src) /\ r.2 !! src <> None /\
  (if r.1 then 1000 else 0) + credit (k_config k) now t1 (r.2 !! src)
    <= credit (k_config k) t0 t1 (k_throttle k !! src).
Proof.
  intros Hr Hb Ho Ht1 Ht0 Hn1 Hn2 Hok. unfold throttle_stage.
  destruct (rate_pps (k_config k) =? 0) eqn:E0; bool_facts; [done|]. cbn [negb].
  pose proof (no_overflow_le _ now t1 ltac:(lia) ltac:(lia) Ho) as Hon.
  assert (Hrr : 0 <= rate_pps (k_config k)) by apply Ho.
  destruct (k_throttle k !! src) as [bk|].
  - destruct Hok as [Hl Ht]. destruct (take_token (k_config k) now bk) as [p bk1] eqn:Etk.
    destruct (take_token_credit (k_config k) now bk p bk1 Hon ltac:(lia) ltac:(lia) Ht Etk) as (Hcr & Ht' & Hl').
    cbn [fst snd]. rewrite lookup_insert_eq. split_and!; [simpl; lia..|done|]. cbn [credit].
    assert ((last_ns bk1 - last_ns bk) / 1000000 + (t1 - last_ns bk1) / 1000000
            <= (t1 - last_ns bk) / 1000000).
    { etrans; [by apply div_add_le|]. apply Z.div_le_mono; lia. }
    nia.
  - cbn [fst snd]. rewrite lru_update_eq.
    pose proof (fresh_bucket_credit (k_config k) now Hon ltac:(lia) Hb) as Hf.
    assert (0 <= tokens_milli (fresh_bucket (k_config k) now)) by (simpl; case_if; bool_facts; lia).
    split_and!; [simpl in *; lia..|done|]. cbn [credit]. simpl last_ns.
    assert ((t1 - now) / 1000000 <= (t1 - t0) / 1000000) by (apply Z.div_le_mono; lia).
    nia.
Qed.

(** What passes is paid for by the source's credit and the bursts that
    evictions hand back to it. *)
Lemma accepted_bound ps : forall src k t0 t1,
  rate_pps (k_config k) <> 0 -> 0 < burst_pkts (k_config k) ->
  no_overflow (k_config k) t1 -> t1 <= U64_MAX -> 0 <= t0 ->
  bucket_ok (k_config k) t0 (k_throttle k !! src) -> chronological t0 t1 ps ->
  1000 * accepted src ps (classify ps k).1 <=
    credit (k_config k) t0 t1 (k_throttle k !! src)
    + 1000 * burst_pkts (k_config k) * evictions src ps k.
Proof.
  induction ps as [|[[cpu now] skb] ps IH]; intros src k t0 t1 Hr Hb Ho Ht1 Ht0 Hok Hc;
    assert (Hrr : 0 <= rate_pps (k_config k)) by apply Ho.
  { simpl in *. destruct (k_throttle k !! src) as [bk|]; simpl in *.
    - pose proof (Z.div_pos (t1 - last_ns bk) 1000000 ltac:(lia) ltac:(lia)). nia.
    - pose proof (Z.div_pos (t1 - t0) 1000000 ltac:(lia) ltac:(lia)). nia. }
  destruct Hc as [Hnow Hc]. pose proof (chronological_le _ _ _ Hc).
  pose proof (shield_guard_seen cpu now skb k src) as Hs.
  cbn [classify evictions]. unfold evicts. destruct (shield_guard cpu now skb k) as [v k1].
  cbn [fst snd] in *. destruct Hs as (Hcfg & _ & Hs).
  specialize (IH src k1 now t1). rewrite Hcfg in IH. specialize (IH Hr Hb Ho Ht1 ltac:(lia)).
  destruct (classify ps k1) as [vs k2]. cbn [fst accepted] in *.
  destruct Hs as [(Hsrc & Hth & Hv)|[Hth Hshot]].
  - destruct (throttle_stage_credit now src k t0 t1 Hr Hb Ho Ht1 Ht0 Hnow ltac:(lia) Hok) as (Hok' & Hsome & Hcr).
    rewrite Hth in *. specialize (IH Hok' Hc).
    destruct ((throttle_stage now src k).2 !! src) as [bk1|]; [|done].
    destruct (bool_decide _) eqn:Ed.
    + apply bool_decide_eq_true in Ed as [_ Ed%Hv]. rewrite Ed in Hcr.
      destruct (k_throttle k !! src); lia.
    + destruct (k_throttle k !! src), (throttle_stage now src k).1; lia.
  - rewrite bool_decide_eq_false_2 by (intros [Hsrc ?]; destruct (Hshot Hsrc); congruence).
    assert (Hmono : (t1 - now) / 1000000 <= (t1 - t0) / 1000000) by (apply Z.div_le_mono; lia).
    destruct Hth as [Hth|[_ Hth]]; rewrite Hth in *.
    + assert (Hok' : bucket_ok (k_config k) now (k_throttle k !! src))
        by (destruct (k_throttle k !! src); simpl in *; lia).
      specialize (IH Hok' Hc). destruct (k_throttle k !! src); cbn [credit] in *; nia.
    + specialize (IH I Hc). destruct (k_throttle k !! src) as [bk|]; cbn [credit bucket_ok] in *.
      * assert ((t1 - now) / 1000000 <= (t1 - last_ns bk) / 1000000) by (apply Z.div_le_mono; lia). nia.
      * nia.
Qed.

End classifier_lemmas.
