(* ===== verification/BpfTheorems.v ===== *)
(** * What the classifier guarantees

    The verdict on every packet, the rate a source can reach and the rate it
    is entitled to, what the classifier may write, and its counters. *)
From S2P Require Import Prelude Bpf.

(** The packets of [src] arrive at least [gap] after one another, the first
    not before [ready]. *)
Fixpoint paced (src : Addr6) (gap ready : Z) (ps : list (nat * Z * sk_buff)) : Prop :=
  match ps with
  | [] => True
  | (_, now, skb) :: r =>
    if bool_decide (source skb = Some src) then ready <= now /\ paced src gap (now + gap) r
    else paced src gap ready r
  end.

(** The packets of [src] arrive exactly [gap] after one another, the first at
    [t]; other packets may come in between. *)
Fixpoint evenly (src : Addr6) (gap t : Z) (ps : list (nat * Z * sk_buff)) : Prop :=
  match ps with
  | [] => True
  | (_, now, skb) :: r =>
    if bool_decide (source skb = Some src) then now = t /\ evenly src gap (now + gap) r
    else evenly src gap t r
  end.

(** The packets of [src]. *)
Fixpoint sent (src : Addr6) (ps : list (nat * Z * sk_buff)) : Z :=
  match ps with
  | [] => 0
  | (_, _, skb) :: r => (if bool_decide (source skb = Some src) then 1 else 0) + sent src r
  end.

(** The bucket of a source that may send at [ready]: absent, or last filled
    [gap] before. *)
Definition rested (cfg : Config) (gap ready : Z) (o : option bucket) : Prop :=
  match o with
  | None => True
  | Some bk => 0 <= last_ns bk /\ last_ns bk + gap <= ready /\
               0 <= tokens_milli bk <= burst_pkts cfg * 1000
  end.

(** The slot that counts a verdict. *)
Definition verdict_slot (now : Z) (skb : sk_buff) (k : kmaps) (v : tc_act) : Z :=
  match source skb with
  | None => if protocol skb =? bswap16 ETH_P_IPV6 then ST_PARSE_FAILED else ST_NOT_IPV6
  | Some src => if ban_hit now src k then ST_DROPPED_BAN
                else match v with TC_ACT_OK => ST_PASSED | TC_ACT_SHOT => ST_DROPPED_THROTTLE end
  end.

(** The counters have a cell for the CPU in every slot, short of wrapping. *)
Definition counters_ok (cpu : nat) (st : list (list Z)) : Prop :=
  forall slot, (slot < Z.to_nat ST_COUNT)%nat ->
  exists row v, st !! slot = Some row /\ row !! cpu = Some v /\ 0 <= v < U64_MAX.

Section bpf_theorems.
Context `{LruHash}.

(** A rested bucket has a token, and is rested again one gap later. *)
Lemma take_token_rested cfg gap ready now bk :
  no_overflow cfg now -> now <= U64_MAX -> 0 < burst_pkts cfg ->
  1000 <= gap / 1000000 * rate_pps cfg ->
  rested cfg gap ready (Some bk) -> ready <= now ->
  (take_token cfg now bk).1 = true /\ rested cfg gap (now + gap) (Some (take_token cfg now bk).2).
Proof.
  intros Ho Hn Hb Hg (Hl0 & Hl & Ht) Hready.
  assert (Hgap : 1 <= gap / 1000000). { destruct Ho. nia. }
  pose proof (Z.mul_div_le gap 1000000 ltac:(lia)).
  pose proof (take_token_credit cfg now bk (take_token cfg now bk).1 (take_token cfg now bk).2
    Ho ltac:(lia) Hn Ht (surjective_pairing _)) as (_ & Ht' & Hl').
  destruct Ho as (Hr & _ & Ho).
  pose proof (Z.div_le_mono gap (now - last_ns bk) 1000000 ltac:(lia) ltac:(lia)).
  pose proof (Z.div_le_mono (now - last_ns bk) now 1000000 ltac:(lia) ltac:(lia)).
  assert (gap / 1000000 * rate_pps cfg <= (now - last_ns bk) / 1000000 * rate_pps cfg) by nia.
  assert ((now - last_ns bk) / 1000000 * rate_pps cfg <= now / 1000000 * rate_pps cfg) by nia.
  unfold rested. split; [|split_and!; lia].
  unfold take_token, refill, bucket_cap.
  rewrite (wrap64_small (now - last_ns bk)) by word_lia.
  rewrite (wrap64_small (_ * 1000)) by (unfold is_u64_spec; lia).
  rewrite (wrap64_small (_ * rate_pps cfg)) by (unfold is_u64_spec; lia).
  rewrite wrap64_small by (unfold is_u64_spec; lia).
  replace ((now - last_ns bk) / 1000000 =? 0) with false by lia.
  cbn [negb tokens_milli]. destruct (burst_pkts cfg * 1000 <? _) eqn:E; bool_facts;
    destruct (_ <? 1000) eqn:E1; bool_facts; try done; lia.
Qed.

(** One packet of a paced source. *)
Lemma throttle_stage_rested now src gap ready k :
  no_overflow (k_config k) now -> 0 <= now <= U64_MAX -> 0 < burst_pkts (k_config k) ->
  1000 <= gap / 1000000 * rate_pps (k_config k) ->
  rested (k_config k) gap ready (k_throttle k !! src) -> ready <= now ->
  (throttle_stage now src k).1 = true /\
  rested (k_config k) gap (now + gap) ((throttle_stage now src k).2 !! src).
Proof.
  intros Ho Hn Hb Hg Hre Hready. unfold throttle_stage.
  destruct (rate_pps (k_config k) =? 0) eqn:E; bool_facts; [lia|]. cbn [negb].
  destruct (k_throttle k !! src) as [bk|] eqn:Ebk.
  - pose proof (take_token_rested (k_config k) gap ready now bk Ho ltac:(lia) Hb Hg Hre Hready) as [Hp Hr].
    destruct (take_token (k_config k) now bk). simpl. by rewrite lookup_insert_eq.
  - simpl. rewrite lru_update_eq. split; [done|].
    pose proof (fresh_bucket_credit (k_config k) now Ho ltac:(lia) Hb) as Hf.
    unfold rested. simpl in *. split_and!; [lia|lia| |lia]. case_if; bool_facts; lia.
Qed.

Lemma paced_accepted ps : forall src gap k ready t0 t1,
  no_overflow (k_config k) t1 -> 0 <= t0 -> t1 <= U64_MAX -> 0 < burst_pkts (k_config k) ->
  1000 <= gap / 1000000 * rate_pps (k_config k) ->
  (forall now, t0 <= now -> ban_hit now src k = false) ->
  rested (k_config k) gap ready (k_throttle k !! src) ->
  chronological t0 t1 ps -> paced src gap ready ps ->
  accepted src ps (classify ps k).1 = sent src ps.
Proof.
  induction ps as [|[[cpu now] skb] ps IH]; [done|].
  intros src gap k ready t0 t1 Ho Ht0 Ht1 Hb Hg Hban Hre [Hnow Hc] Hp.
  pose proof (chronological_le _ _ _ Hc).
  pose proof (no_overflow_le _ now t1 ltac:(lia) ltac:(lia) Ho) as Hon.
  cbn [classify sent paced] in *. rewrite shield_guard_cases.
  assert (Hrest : forall v k1 ready', k_config k1 = k_config k -> k_bans k1 = k_bans k ->
    rested (k_config k) gap ready' (k_throttle k1 !! src) -> paced src gap ready' ps ->
    (bool_decide (source skb = Some src) = true -> v = TC_ACT_OK) ->
    accepted src ((cpu, now, skb) :: ps) (let '(vs, k2) := classify ps k1 in (v :: vs, k2)).1
    = (if bool_decide (source skb = Some src) then 1 else 0) + sent src ps).
  { intros v k1 ready' Hcfg Hbn Hre' Hp' Hv.
    specialize (IH src gap k1 ready' now t1). rewrite Hcfg in IH. unfold ban_hit in IH, Hban.
    rewrite Hbn in IH. specialize (IH Ho ltac:(lia) Ht1 Hb Hg (fun n _ => Hban n ltac:(lia)) Hre' Hc Hp').
    destruct (classify ps k1) as [vs k2]. cbn [fst accepted] in *. rewrite IH. f_equal.
    destruct (bool_decide (source skb = Some src)) eqn:E.
    - apply bool_decide_eq_true in E. rewrite bool_decide_eq_true_2; [done|]. by rewrite Hv.
    - apply bool_decide_eq_false in E. rewrite bool_decide_eq_false_2; [done|]. by intros [? _]. }
  destruct (source skb) as [src'|]; [|by eapply (Hrest _ _ ready)].
  destruct (bool_decide (Some src' = Some src)) eqn:E.
  - apply bool_decide_eq_true in E as [= ->]. rewrite Hban by lia. destruct Hp as [Hready Hp].
    destruct (throttle_stage_rested now src gap ready k Hon ltac:(lia) Hb Hg Hre Hready) as [-> Hre'].
    by eapply (Hrest _ _ (now + gap)).
  - apply bool_decide_eq_false in E.
    assert (Hf : rested (k_config k) gap ready ((throttle_stage now src' k).2 !! src)).
    { destruct (throttle_stage_foreign now src' src k) as [->| ->]; [congruence|done..]. }
    destruct (ban_hit now src' k); [by eapply (Hrest _ _ ready)|].
    destruct ((throttle_stage now src' k).1); by eapply (Hrest _ _ ready).
Qed.

(** A packet that comes less than a token's whole milliseconds after the last
    one leaves the bucket poorer than it found it, when it passes. *)
Lemma take_token_poorer cfg now bk :
  no_overflow cfg now -> now <= U64_MAX -> bucket_ok cfg now (Some bk) ->
  last_ns bk + 1000000 <= now ->
  let r := take_token cfg now bk in
  bucket_ok cfg now (Some r.2) /\ last_ns r.2 = now /\
  (r.1 = true -> tokens_milli r.2 <= burst_pkts cfg * 1000 - 1000 /\
     tokens_milli r.2 <= tokens_milli bk + (now - last_ns bk) / 1000000 * rate_pps cfg - 1000).
Proof.
  intros Ho Hn [Hl Ht] Hg r. subst r.
  pose proof (take_token_credit cfg now bk (take_token cfg now bk).1 (take_token cfg now bk).2
    Ho ltac:(lia) Hn Ht (surjective_pairing _)) as (_ & Ht' & Hl').
  destruct Ho as (Hr & _ & Ho).
  pose proof (Z.div_le_mono (now - last_ns bk) now 1000000 ltac:(lia) ltac:(lia)).
  pose proof (Z.div_le_mono 1000000 (now - last_ns bk) 1000000 ltac:(lia) ltac:(lia)) as H1.
  change (1000000 / 1000000) with 1 in H1.
  assert ((now - last_ns bk) / 1000000 * rate_pps cfg <= now / 1000000 * rate_pps cfg) by nia.
  assert (0 <= (now - last_ns bk) / 1000000 * rate_pps cfg) by nia.
  split; [split; lia|]. clear Ht' Hl'. unfold take_token, refill, bucket_cap.
  rewrite (wrap64_small (now - last_ns bk)) by word_lia.
  rewrite (wrap64_small (_ * 1000)) by (unfold is_u64_spec; lia).
  rewrite (wrap64_small (_ * rate_pps cfg)) by (unfold is_u64_spec; lia).
  rewrite wrap64_small by (unfold is_u64_spec; lia).
  replace ((now - last_ns bk) / 1000000 =? 0) with false by lia.
  cbn [negb tokens_milli]. destruct (burst_pkts cfg * 1000 <? _) eqn:E; bool_facts;
    destruct (_ <? 1000) eqn:E1; bool_facts; cbn [fst snd tokens_milli last_ns]; split_and!; try done; lia.
Qed.

Lemma accepted_le_sent ps : forall src vs, accepted src ps vs <= sent src ps.
Proof.
  induction ps as [|[[cpu now] skb] ps IH]; intros src vs; simpl; [lia|].
  assert (0 <= sent src ps). { specialize (IH src []). by destruct ps as [|[[??]?]?]. }
  destruct vs as [|v vs]; [case_bool_decide; lia|]. specialize (IH src vs).
  repeat case_bool_decide; (lia || naive_solver).
Qed.

(** The bucket of an evenly sending source that is never refused: its tokens
    bound its packets, and so does the burst. *)
Lemma evenly_accepted ps : forall src gap k ready t0 t1,
  no_overflow (k_config k) t1 -> 0 <= t0 -> t1 <= U64_MAX -> 0 < burst_pkts (k_config k) ->
  0 < rate_pps (k_config k) -> 1000000 <= gap -> gap / 1000000 * rate_pps (k_config k) < 1000 ->
  rested (k_config k) gap ready (k_throttle k !! src) ->
  chronological t0 t1 ps -> evenly src gap ready ps -> evictions src ps k = 0 ->
  accepted src ps (classify ps k).1 = sent src ps ->
  sent src ps <= 1000 * burst_pkts (k_config k) /\
  (forall bk, k_throttle k !! src = Some bk -> last_ns bk + gap = ready -> sent src ps <= tokens_milli bk).
Proof.
  induction ps as [|[[cpu now] skb] ps IH];
    intros src gap k ready t0 t1 Ho Ht0 Ht1 Hb Hr Hg Hpoor Hre Hc Hev Hno Hacc.
  { simpl. split; [lia|]. intros bk E _. rewrite E in Hre. simpl in Hre. lia. }
  destruct Hc as [Hnow Hc]. pose proof (chronological_le _ _ _ Hc).
  pose proof (no_overflow_le _ now t1 ltac:(lia) ltac:(lia) Ho) as Hon.
  pose proof (shield_guard_seen cpu now skb k src) as Hs.
  pose proof (accepted_le_sent ps src) as Hle.
  cbn [classify evictions sent evenly] in *.
  destruct (shield_guard cpu now skb k) as [v k1]. cbn [fst snd] in *. destruct Hs as (Hcfg & Hbans & Hs).
  pose proof (evictions_nonneg src ps k1) as Hen.
  assert (Hno1 : evicts src k k1 = false /\ evictions src ps k1 = 0)
    by (destruct (evicts src k k1); [lia|split; [done|lia]]).
  destruct Hno1 as [Hno1 Hno2].
  specialize (IH src gap k1). rewrite Hcfg in IH.
  destruct (classify ps k1) as [vs k2]. cbn [fst accepted] in *. specialize (Hle vs).
  destruct (bool_decide (source skb = Some src)) eqn:Esrc.
  - apply bool_decide_eq_true in Esrc. destruct Hev as [-> Hev].
    rewrite bool_decide_decide in Hacc. destruct (decide _) as [[_ Hok]|]; [|lia].
    destruct Hs as [(_ & Hth & Hv)|[_ Hshot]]; [|destruct (Hshot Esrc); congruence].
    rewrite Hth in IH. apply Hv in Hok. clear Hv Hth. revert IH Hok. unfold throttle_stage.
    replace (rate_pps (k_config k) =? 0) with false by lia. cbn [negb].
    destruct (k_throttle k !! src) as [bk|] eqn:E.
    + destruct Hre as (Hl0 & Hl & Ht).
      destruct (take_token_poorer (k_config k) ready bk Hon ltac:(lia) ltac:(simpl; lia) ltac:(lia))
        as (Hok' & Hlast & Hpay).
      destruct (take_token (k_config k) ready bk) as [p bk1]. cbn [fst snd] in *. intros IH ->.
      rewrite lookup_insert_eq in IH. destruct (Hpay eq_refl) as [Hcap Hpay'].
      destruct (IH (ready + gap) ready t1) as [_ IH']; try done; try (cbn in *; lia).
      specialize (IH' bk1 eq_refl ltac:(lia)). split; [lia|]. intros bk' [= <-] Hx.
      replace (ready - last_ns bk) with gap in Hpay' by lia. lia.
    + cbn [fst snd]. intros IH _. rewrite lru_update_eq in IH.
      pose proof (fresh_bucket_credit (k_config k) ready Hon ltac:(lia) Hb) as Hf.
      assert (0 <= tokens_milli (fresh_bucket (k_config k) ready)) by (simpl; case_if; bool_facts; lia).
      destruct (IH (ready + gap) ready t1) as [_ IH']; try done; try (cbn in *; lia).
      specialize (IH' _ eq_refl ltac:(simpl; lia)). split; [lia|done].
  - apply bool_decide_eq_false in Esrc.
    rewrite (bool_decide_eq_false_2 (_ /\ _)) in Hacc by (intros [? _]; done).
    assert (Hsame : k_throttle k1 !! src = k_throttle k !! src).
    { destruct Hs as [(? & _)|[[Hth|[_ Hth]] _]]; [done..|]. unfold evicts in Hno1. rewrite Hth in *.
      by destruct (k_throttle k !! src). }
    rewrite Hsame in IH. apply (IH ready now t1); try done; lia.
Qed.

Lemma sum_alter (l : list Z) n v (f : Z -> Z) :
  l !! n = Some v -> foldr Z.add 0 (alter f n l) = foldr Z.add 0 l - v + f v.
Proof.
  revert n. induction l as [|x l IH]; intros [|n] Hl; simplify_eq/=; [lia|].
  change (x + foldr Z.add 0 (alter f n l) = x + foldr Z.add 0 l - v + f v).
  rewrite (IH n Hl). lia.
Qed.

Lemma bump_total cpu slot st :
  (slot < Z.to_nat ST_COUNT)%nat -> counters_ok cpu st ->
  forall slot', slot_total slot' (bump cpu (Z.of_nat slot) st) =
    slot_total slot' st + if (slot' =? slot)%nat then 1 else 0.
Proof.
  intros Hs Hok slot'. destruct (Hok slot Hs) as (row & v & Hrow & Hv & Hb).
  unfold slot_total, bump. rewrite Nat2Z.id. destruct (Nat.eqb_spec slot' slot) as [->|Hne].
  - rewrite list_lookup_alter, Hrow, decide_True by done. cbn [default from_option id fmap option_fmap option_map].
    rewrite (sum_alter row cpu v) by done.
    rewrite wrap64_small by word_lia. lia.
  - rewrite list_lookup_alter_ne by done. lia.
Qed.

End bpf_theorems.

(** ** A concrete packet stream, for the witnesses *)

(** The big-endian IPv6 packet of address [a], as the kernel presents it. *)
Definition packet_from (a : Addr6) : sk_buff :=
  {| protocol := 56710; load_bytes_relative := fun off len => if (off =? 8) && (len =? 16) then Some (b a) else None |}.

Definition peer1 : Addr6 := mk_addr6 [253; 0; 0; 0; 0; 0; 0; 0; 0; 0; 0; 0; 0; 0; 0; 1].
Definition peer2 : Addr6 := mk_addr6 [253; 0; 0; 0; 0; 0; 0; 0; 0; 0; 0; 0; 0; 0; 0; 2].

Definition maps_with (rate burst : Z) (bans : gmap Addr6 BanVal) : kmaps :=
  {| k_bans := bans; k_throttle := ∅;
     k_config := {| rate_pps := rate; burst_pkts := burst |};
     k_stats := replicate 5 [0; 0] |}.

(** [n] packets of [a], the first at [t], then every [gap] nanoseconds. *)
Fixpoint stream (a : Addr6) (t gap : Z) (n : nat) : list (nat * Z * sk_buff) :=
  match n with
  | O => []
  | S n' => (0%nat, t, packet_from a) :: stream a (t + gap) gap n'
  end.

Lemma source_peer1 : source (packet_from peer1) = Some peer1.
Proof. vm_compute. reflexivity. Qed.

Lemma stream_chronological a gap n : forall t0 t t1,
  t0 <= t -> 0 <= gap -> t + Z.of_nat n * gap <= t1 -> chronological t0 t1 (stream a t gap n).
Proof. induction n as [|n IH]; intros t0 t t1 H0 Hg H1; simpl; [lia|]. split; [done|]. apply IH; lia. Qed.

Lemma stream_evenly gap n : forall t, evenly peer1 gap t (stream peer1 t gap n).
Proof.
  induction n as [|n IH]; intros t; [done|]. cbn [stream evenly].
  rewrite bool_decide_eq_true_2 by exact source_peer1. split; [done|apply IH].
Qed.

(** ** The properties *)

(** C8.  The classifier drops exactly the IPv6 packets, with a readable source
    address, whose source has an enforced ban or an empty token bucket;
    everything else passes.  A ban is enforced when it is permanent or its
    deadline lies in the future. *)
Theorem shield_guard_drops_iff `{LruHash} cpu now skb k :
  (shield_guard cpu now skb k).1 = TC_ACT_SHOT <->
  exists src, source skb = Some src /\
    ((exists v, k_bans k !! src = Some v /\
        (expires_mono_ns v = 0 \/ now < expires_mono_ns v)) \/
     throttled now src k).
Proof.
  rewrite shield_guard_cases. destruct (source skb) as [src|]; [|by split; [|intros (? & ? & _)]].
  assert (Hb : ban_hit now src k = true <->
    exists v, k_bans k !! src = Some v /\ (expires_mono_ns v = 0 \/ now < expires_mono_ns v)).
  { unfold ban_hit, ban_active. destruct (k_bans k !! src) as [v|].
    - rewrite orb_true_iff, Z.eqb_eq, Z.ltb_lt. split; [eauto|by intros (? & [= <-] & ?)].
    - split; [done|by intros (? & ? & _)]. }
  pose proof (throttle_stage_pass now src k) as Ht.
  transitivity (ban_hit now src k = true \/ throttled now src k).
  - rewrite <- Ht. destruct (ban_hit now src k), ((throttle_stage now src k).1); simpl; intuition congruence.
  - rewrite Hb. split; [eauto|]. by intros (? & [= <-] & ?).
Qed.

(** C9.  The throttle bounds every source: over any interleaving of packets
    that ends by [t1], what passes is at most the credit of the source's bucket
    plus the rate times the elapsed milliseconds, plus one burst for each time
    the map evicts that bucket; a source that was not tracked starts with a
    full burst.  While the map has room for the packets (at most 65536
    entries) it evicts nothing, and the bound is the token bucket's.  The
    64-bit arithmetic is taken where it is exact: the cap plus the rate times
    the uptime in milliseconds stays below 2^64 ([no_overflow]). *)
Theorem throttle_bounds_source `{LruHash} ps src k t0 t1 :
  rate_pps (k_config k) <> 0 -> 0 < burst_pkts (k_config k) ->
  no_overflow (k_config k) t1 -> 0 <= t0 -> t1 <= U64_MAX ->
  bucket_ok (k_config k) t0 (k_throttle k !! src) ->
  chronological t0 t1 ps ->
  1000 * accepted src ps (classify ps k).1 <=
    match k_throttle k !! src with
    | None => 1000 * burst_pkts (k_config k) + rate_pps (k_config k) * ((t1 - t0) / 1000000)
    | Some bk => tokens_milli bk + rate_pps (k_config k) * ((t1 - last_ns bk) / 1000000)
    end + 1000 * burst_pkts (k_config k) * evictions src ps k /\
  ((size (k_throttle k) + length ps <= MAX_TRACKED)%nat -> evictions src ps k = 0).
Proof.
  intros Hr Hb Ho Ht0 Ht1 Hok Hc. split; [|apply evictions_room].
  exact (accepted_bound ps src k t0 t1 Hr Hb Ho Ht1 Ht0 Hok Hc).
Qed.

Lemma throttle_bounds_source_witness :
  1000 * accepted peer1 (stream peer1 0 1000000 20)
           (classify (stream peer1 0 1000000 20) (maps_with 100 5 ∅)).1
    <= 1000 * 5 + 100 * (20000000 / 1000000).
Proof.
  destruct (throttle_bounds_source (stream peer1 0 1000000 20) peer1 (maps_with 100 5 ∅) 0 20000000)
    as [Hb He]; [vm_compute; intuition congruence..|].
  rewrite He in Hb; [exact Hb|].
  apply Nat2Z.inj_le. unfold MAX_TRACKED. rewrite Z2Nat.id by lia. vm_compute. congruence.
Defined.



(** C20.  The classifier never writes the ban map or the configuration, and
    counts every packet exactly once, in the slot of its outcome: the total of
    that slot over the CPUs grows by one and every other total is unchanged. *)
Theorem shield_guard_accounts `{LruHash} cpu now skb k :
  counters_ok cpu (k_stats k) ->
  let r := shield_guard cpu now skb k in
  k_bans r.2 = k_bans k /\ k_config r.2 = k_config k /\
  forall slot, slot_total slot (k_stats r.2) =
    slot_total slot (k_stats k)
    + if (Z.of_nat slot =? verdict_slot now skb k r.1) then 1 else 0.
Proof.
  intros Hok r. subst r. rewrite shield_guard_cases.
  assert (Hb : forall n slot, (n < Z.to_nat ST_COUNT)%nat ->
    slot_total slot (bump cpu (Z.of_nat n) (k_stats k)) =
    slot_total slot (k_stats k) + if Z.of_nat slot =? Z.of_nat n then 1 else 0).
  { intros n slot Hn. rewrite (bump_total cpu n (k_stats k) Hn Hok). f_equal.
    destruct (Nat.eqb_spec slot n), (Z.eqb_spec (Z.of_nat slot) (Z.of_nat n)); lia. }
  unfold verdict_slot. destruct (source skb) as [src|].
  - destruct (ban_hit now src k); [split_and!; [done..|]; intros; apply (Hb 1%nat); compute; lia|].
    destruct (throttle_stage now src k).1; split_and!; try done; intros;
      [apply (Hb 0%nat)|apply (Hb 2%nat)]; compute; lia.
  - split_and!; [done..|]. intros slot.
    destruct (_ =? bswap16 _); [apply (Hb 4%nat)|apply (Hb 3%nat)]; compute; lia.
Qed.

Lemma shield_guard_accounts_witness :
  let k := maps_with 100 5 {[peer1 := {| expires_mono_ns := 0; expires_epoch_s := 0 |}]} in
  slot_total 1 (k_stats (shield_guard 1 7 (packet_from peer1) k).2) = 1.
Proof.
  intros k.
  assert (Hok : counters_ok 1 (k_stats k)).
  { intros slot Hs. exists [0; 0], 0. split_and!; try done. simpl.
    do 5 (destruct slot; [done|]). exfalso. compute in Hs. lia. }
  destruct (shield_guard_accounts 1 7 (packet_from peer1) k Hok) as (_ & _ & Hst).
  rewrite (Hst 1%nat). vm_compute. reflexivity.
Defined.

(** ** Where the bucket falls short of its comment and of its range *)

(** ** Configurations that starve *)

(** Below a cap of one packet no refill ever makes a token. *)
Lemma take_token_tiny cfg now bk :
  bucket_cap cfg < 1000 -> tokens_milli bk < 1000 ->
  (take_token cfg now bk).1 = false /\ tokens_milli (take_token cfg now bk).2 < 1000.
Proof.
  intros Hc Ht. assert (Hr : tokens_milli (refill cfg now bk) < 1000).
  { unfold refill. destruct (negb _); [|done]. cbn [tokens_milli]. case_if; bool_facts; lia. }
  unfold take_token. replace (_ <? 1000) with true by lia. done.
Qed.

(** A throttle whose cap, [burst * 1000] wrapped at 64 bits, is below one
    packet refuses everything: once a source has a bucket without a token, none
    of its packets passes, however slowly they come.  The guard stores such
    bursts as they are given ([burst_cap_wraps] has one). *)
Theorem tiny_cap_starves `{LruHash} ps src bk k :
  rate_pps (k_config k) <> 0 -> bucket_cap (k_config k) < 1000 ->
  k_throttle k !! src = Some bk -> tokens_milli bk < 1000 ->
  evictions src ps k = 0 -> accepted src ps (classify ps k).1 = 0.
Proof.
  revert bk k. induction ps as [|[[cpu now] skb] ps IH]; intros bk k Hr Hc Hbk Ht Hno; [done|].
  pose proof (shield_guard_seen cpu now skb k src) as Hs. cbn [classify evictions] in *.
  destruct (shield_guard cpu now skb k) as [v k1]. cbn [fst snd] in *. destruct Hs as (Hcfg & _ & Hs).
  pose proof (evictions_nonneg src ps k1). unfold evicts in Hno. rewrite Hbk in *.
  destruct (take_token_tiny (k_config k) now bk Hc Ht) as [Hfail Ht'].
  destruct (k_throttle k1 !! src) as [bk1|] eqn:Hbk1; [|lia]. pose proof Hbk1 as Hbk1'.
  specialize (IH bk1 k1). rewrite Hcfg in IH.
  destruct (classify ps k1) as [vs k2]. cbn [fst accepted] in *.
  destruct Hs as [(Hsrc & Hth & Hv)|[Hth Hshot]].
  - rewrite Hth in Hbk1. revert Hbk1 Hv. unfold throttle_stage.
    replace (rate_pps (k_config k) =? 0) with false by lia. cbn [negb]. rewrite Hbk.
    destruct (take_token (k_config k) now bk) as [p bk']. cbn [fst snd] in *. subst p.
    rewrite lookup_insert_eq. intros [= ->] Hv. rewrite IH by (done || lia).
    rewrite bool_decide_eq_false_2; [done|]. intros [_ Hok%Hv]. done.
  - assert (bk1 = bk) as -> by (destruct Hth as [?|[_ ?]]; congruence). rewrite IH by (done || lia).
    rewrite bool_decide_eq_false_2; [done|]. intros [Hsrc ?]. destruct (Hshot Hsrc). congruence.
Qed.

(** A source seen once under a burst of 2^64 / 1000 rounded up. *)
Lemma tiny_cap_starves_witness :
  let k := set_throttle {[peer1 := {| tokens_milli := 0; last_ns := 0 |}]}
             (maps_with 1000 18446744073709552 ∅) in
  accepted peer1 (stream peer1 0 60000000000 5) (classify (stream peer1 0 60000000000 5) k).1 = 0.
Proof.
  intros k. eapply (tiny_cap_starves _ peer1 {| tokens_milli := 0; last_ns := 0 |} k).
  - vm_compute. congruence.
  - vm_compute. congruence.
  - vm_compute. reflexivity.
  - vm_compute. congruence.
  - vm_compute. reflexivity.
Defined.

(** Time below a millisecond is lost at every refill (the clock is set to
    [now]), so a source can be refused below its rate: at 400 packets per
    second a token takes 2.5 ms, and packets 2.9 ms apart are refused. *)
Example refill_loses_time :
  (classify (stream peer1 0 2900000 2) (maps_with 400 1 ∅)).1 = [TC_ACT_OK; TC_ACT_SHOT].
Proof. vm_compute. reflexivity. Qed.

(** The cap [burst_pkts * 1000] wraps: an enormous burst leaves a cap below
    one packet, and the source never passes again. *)
Example burst_cap_wraps :
  (classify (stream peer1 0 1000000000 3) (maps_with 1000 18446744073709552 ∅)).1
  = [TC_ACT_OK; TC_ACT_SHOT; TC_ACT_SHOT].
Proof. vm_compute. reflexivity. Qed.
