(* ===== verification/Sys.v ===== *)
(** * The environment of [fips-guard]

    The calls the tool makes (clocks, pinned BPF maps through aya, the loader,
    the tc qdisc, [tc], bpffs, stdout and stderr) as the effect signature
    [sys], and the documented behaviour of those calls as the nondeterministic
    specification [sys_spec] over the state [os].

    [sys_spec flt] with [flt = true] also lets every fallible call fail for a
    reason of its own (permissions, memory), leaving the state as it was;
    with [flt = false] a call fails only for the documented reason (missing
    pin, absent key, full map, ...).  Iteration over a hash map may use any
    order.  Interference between two calls is a relation on [os]: [quiet] is
    the passing of time and traffic, [anything] an arbitrary other actor. *)
From S2P Require Import Prelude Prog Text Bpf.

Definition err : Type := str.
Abbreviation result := (res err) (only parsing).

Inductive map_kind := KBans | KThrottle | KConfig | KStats | KHealth.
#[export] Instance map_kind_eq_dec : EqDecision map_kind.
Proof. solve_decision. Defined.

(** A pinned map's file name, and the five maps the BPF object declares. *)
Definition map_name (k : map_kind) : str :=
  match k with
  | KBans => lit "shield_bans"
  | KThrottle => lit "shield_throttle"
  | KConfig => lit "shield_config"
  | KStats => lit "shield_stats"
  | KHealth => lit "shield_health"
  end.
Definition all_kinds : list map_kind := [KBans; KThrottle; KConfig; KStats; KHealth].

Definition map_id : Type := nat.

Inductive map_obj :=
| MBans (m : gmap Addr6 BanVal)
| MThrottle (m : gmap Addr6 bucket)
| MConfig (c : Config)
| MStats (s : list (list Z))
| MHealth (t : Z).

Definition kind_of (o : map_obj) : map_kind :=
  match o with
  | MBans _ => KBans | MThrottle _ => KThrottle | MConfig _ => KConfig
  | MStats _ => KStats | MHealth _ => KHealth
  end.

(** A map as the loader creates it. *)
Definition empty_map (k : map_kind) : map_obj :=
  match k with
  | KBans => MBans ∅
  | KThrottle => MThrottle ∅
  | KConfig => MConfig {| rate_pps := 0; burst_pkts := 0 |}
  | KStats => MStats (replicate (Z.to_nat ST_COUNT) [0])
  | KHealth => MHealth 0
  end.

(** A loaded program: the maps it reads and writes. *)
Record program := mk_program {
  pg_bans : map_id;
  pg_throttle : map_id;
  pg_config : map_id;
  pg_stats : map_id;
}.

Record cmd_output := mk_output {
  o_success : bool;
  o_stdout : list Z;
  o_stderr : list Z;
}.

Inductive sys : Type -> Type :=
| ClockMonotonic : sys (Z * Z)                    (* tv_sec, tv_nsec *)
| SystemTime : sys Z                              (* seconds from the epoch *)
| MapFromPin (path : str) : sys (result map_id)
| MapTryFrom (k : map_kind) (m : map_id) : sys (result map_id)
| MapInfo (m : map_id) : sys (result Z)           (* max_entries *)
| HashGet (m : map_id) (k : Addr6) : sys (result BanVal)
| HashInsert (m : map_id) (k : Addr6) (v : BanVal) : sys (result unit)
| HashRemove (m : map_id) (k : Addr6) : sys (result unit)
| HashIter (m : map_id) : sys (list (result (Addr6 * BanVal)))
| ConfigGet (m : map_id) : sys (result Config)
| ConfigSet (m : map_id) (c : Config) : sys (result unit)
| HealthGet (m : map_id) : sys (result Z)
| HealthSet (m : map_id) (t : Z) : sys (result unit)
| StatsGet (m : map_id) (slot : Z) : sys (result (list Z))
| CreateDirAll (dir : str) : sys (result unit)
| EbpfLoad (pin_dir : str) : sys (result program)
| ProgramMut (p : program) (name : str) : sys (option program)
| AsClassifier (p : program) : sys (result program)
| ProgLoad (p : program) : sys (result unit)
| QdiscAddClsact (iface : str) : sys (result unit)
| QdiscDetachProgram (iface name : str) : sys (result unit)
| Attach (iface : str) (p : program) : sys (result unit)
| TakeLink (iface : str) (p : program) : sys (result unit)
| DropLink (iface : str) (p : program) : sys unit
| Output (bin : str) (args : list str) : sys (result cmd_output)
| PathExists (path : str) : sys bool
| RemoveFile (path : str) : sys (result unit)
| RemoveDir (dir : str) : sys (result unit)
| Println (line : str) : sys unit
| Eprintln (line : str) : sys unit.

Record os := mk_os {
  mono_ns : Z;                        (* CLOCK_MONOTONIC *)
  epoch_s : Z;                        (* the wall clock *)
  dirs : gset str;
  pins : gmap str map_id;             (* bpffs path -> map *)
  maps : gmap map_id map_obj;
  ifaces : gset str;
  filters : gmap str (list program);  (* our ingress filters, by interface *)
  stdout : list str;
  stderr : list str;
}.

Definition PROG_NAME : str := lit "shield_guard".

(** ** State updates *)

Definition set_map (m : map_id) (o : map_obj) (s : os) : os :=
  {| mono_ns := mono_ns s; epoch_s := epoch_s s; dirs := dirs s; pins := pins s;
     maps := <[m := o]> (maps s); ifaces := ifaces s; filters := filters s;
     stdout := stdout s; stderr := stderr s |}.

Definition set_pins (ps : gmap str map_id) (ms : gmap map_id map_obj) (s : os) : os :=
  {| mono_ns := mono_ns s; epoch_s := epoch_s s; dirs := dirs s; pins := ps;
     maps := ms; ifaces := ifaces s; filters := filters s;
     stdout := stdout s; stderr := stderr s |}.

Definition set_dirs (ds : gset str) (s : os) : os :=
  {| mono_ns := mono_ns s; epoch_s := epoch_s s; dirs := ds; pins := pins s;
     maps := maps s; ifaces := ifaces s; filters := filters s;
     stdout := stdout s; stderr := stderr s |}.

Definition set_filters (iface : str) (ps : list program) (s : os) : os :=
  {| mono_ns := mono_ns s; epoch_s := epoch_s s; dirs := dirs s; pins := pins s;
     maps := maps s; ifaces := ifaces s; filters := <[iface := ps]> (filters s);
     stdout := stdout s; stderr := stderr s |}.

Definition add_stdout (l : str) (s : os) : os :=
  {| mono_ns := mono_ns s; epoch_s := epoch_s s; dirs := dirs s; pins := pins s;
     maps := maps s; ifaces := ifaces s; filters := filters s;
     stdout := stdout s ++ [l]; stderr := stderr s |}.

Definition add_stderr (l : str) (s : os) : os :=
  {| mono_ns := mono_ns s; epoch_s := epoch_s s; dirs := dirs s; pins := pins s;
     maps := maps s; ifaces := ifaces s; filters := filters s;
     stdout := stdout s; stderr := stderr s ++ [l] |}.

Definition filters_on (s : os) (iface : str) : list program := default [] (filters s !! iface).

Definition pin_path (dir : str) (k : map_kind) : str := path_join dir (map_name k).

(** The ban map pinned under [dir], and the other maps by kind. *)
Definition pinned_obj (s : os) (dir : str) (k : map_kind) : option map_obj :=
  m ← pins s !! pin_path dir k; maps s !! m.

Definition bans_of (s : os) (m : map_id) : option (gmap Addr6 BanVal) :=
  match maps s !! m with Some (MBans b) => Some b | _ => None end.

(** ** The documented behaviour of the calls *)

Definition failed {A} (x : result A) : Prop := exists e, x = Err e.

Section spec.
Variable flt : bool.

Definition fault {A} (s : os) (x : result A) (s' : os) : Prop :=
  flt = true /\ s' = s /\ failed x.

Definition refused {A} (s : os) (x : result A) (s' : os) : Prop := s' = s /\ failed x.

Definition key_not_found : err := lit "key not found".

Definition hash_call {A} (s : os) (m : map_id)
    (P : gmap Addr6 BanVal -> result A -> os -> Prop) (x : result A) (s' : os) : Prop :=
  match bans_of s m with
  | Some bm => P bm x s' \/ fault s x s'
  | None => refused s x s'
  end.

(** What loading the object may leave behind: pins and maps are only added. *)
Definition load_extends (dir : str) (s s' : os) : Prop :=
  exists ps ms, s' = set_pins ps ms s /\ pins s ⊆ ps /\ maps s ⊆ ms /\
  (forall path, (forall k, path <> pin_path dir k) -> ps !! path = pins s !! path).

Definition load_done (dir : str) (s : os) (p : program) (s' : os) : Prop :=
  load_extends dir s s' /\
  pins s' !! pin_path dir KBans = Some (pg_bans p) /\
  pins s' !! pin_path dir KThrottle = Some (pg_throttle p) /\
  pins s' !! pin_path dir KConfig = Some (pg_config p) /\
  pins s' !! pin_path dir KStats = Some (pg_stats p) /\
  (forall k, exists o, pinned_obj s' dir k = Some o /\ kind_of o = k /\
             (pins s !! pin_path dir k = None -> o = empty_map k)).

Definition loadable (dir : str) (s : os) : Prop :=
  dir ∈ dirs s /\
  forall k, match pinned_obj s dir k with Some o => kind_of o = k | None =>
            pins s !! pin_path dir k = None end.

Definition tc_show (iface : str) : list str :=
  [lit "filter"; lit "show"; lit "dev"; iface; lit "ingress"].

Definition sys_spec {X} (e : sys X) (s : os) (x : X) (s' : os) : Prop :=
  match e in sys T return T -> Prop with
  | ClockMonotonic => fun x =>
      s' = s /\ x = (mono_ns s / 1000000000, mono_ns s mod 1000000000)
  | SystemTime => fun x => s' = s /\ x = epoch_s s
  | MapFromPin path => fun x =>
      match pins s !! path with
      | Some m => (s' = s /\ x = Ok m) \/ fault s x s'
      | None => refused s x s'
      end
  | MapTryFrom k m => fun x =>
      match maps s !! m with
      | Some o => (s' = s /\ kind_of o = k /\ x = Ok m)
                  \/ (kind_of o <> k /\ refused s x s') \/ fault s x s'
      | None => refused s x s'
      end
  | MapInfo m => fun x => (s' = s /\ x = Ok (Z.of_nat MAX_TRACKED)) \/ fault s x s'
  | HashGet m k => fun x =>
      hash_call s m (fun bm x s' =>
        s' = s /\ x = match bm !! k with Some v => Ok v | None => Err key_not_found end) x s'
  | HashInsert m k v => fun x =>
      hash_call s m (fun bm x s' =>
        (is_Some (bm !! k) \/ (size bm < MAX_TRACKED)%nat) /\
        s' = set_map m (MBans (<[k := v]> bm)) s /\ x = Ok tt
        \/ bm !! k = None /\ (MAX_TRACKED <= size bm)%nat /\ refused s x s') x s'
  | HashRemove m k => fun x =>
      hash_call s m (fun bm x s' =>
        match bm !! k with
        | Some _ => s' = set_map m (MBans (delete k bm)) s /\ x = Ok tt
        | None => refused s x s'
        end) x s'
  | HashIter m => fun x =>
      s' = s /\
      match bans_of s m with
      | Some bm =>
        (exists l, l ≡ₚ map_to_list bm /\ x = map Ok l)
        \/ (flt = true /\ exists l e r, l ⊆+ map_to_list bm /\ x = map Ok l ++ Err e :: r)
      | None => exists e, x = [Err e]
      end
  | ConfigGet m => fun x =>
      match maps s !! m with
      | Some (MConfig c) => (s' = s /\ x = Ok c) \/ fault s x s'
      | _ => refused s x s'
      end
  | ConfigSet m c => fun x =>
      match maps s !! m with
      | Some (MConfig _) => (s' = set_map m (MConfig c) s /\ x = Ok tt) \/ fault s x s'
      | _ => refused s x s'
      end
  | HealthGet m => fun x =>
      match maps s !! m with
      | Some (MHealth t) => (s' = s /\ x = Ok t) \/ fault s x s'
      | _ => refused s x s'
      end
  | HealthSet m t => fun x =>
      match maps s !! m with
      | Some (MHealth _) => (s' = set_map m (MHealth t) s /\ x = Ok tt) \/ fault s x s'
      | _ => refused s x s'
      end
  | StatsGet m slot => fun x =>
      match maps s !! m with
      | Some (MStats st) =>
        match st !! Z.to_nat slot with
        | Some cpus => (s' = s /\ x = Ok cpus) \/ fault s x s'
        | None => refused s x s'
        end
      | _ => refused s x s'
      end
  | CreateDirAll dir => fun x =>
      (s' = set_dirs ({[dir]} ∪ dirs s) s /\ x = Ok tt) \/ fault s x s'
  | EbpfLoad dir => fun x =>
      (exists p, load_done dir s p s' /\ x = Ok p)
      \/ ((flt = true \/ ~ loadable dir s) /\ load_extends dir s s' /\ failed x)
  | ProgramMut p name => fun x => s' = s /\ (x = Some p \/ (flt = true /\ x = None))
  | AsClassifier p => fun x => (s' = s /\ x = Ok p) \/ fault s x s'
  | ProgLoad p => fun x => (s' = s /\ x = Ok tt) \/ fault s x s'
  | QdiscAddClsact iface => fun x => s' = s
  | QdiscDetachProgram iface name => fun x =>
      (filters_on s iface <> [] /\ s' = set_filters iface [] s /\ x = Ok tt)
      \/ (filters_on s iface = [] /\ refused s x s') \/ fault s x s'
  | Attach iface p => fun x =>
      (iface ∈ ifaces s /\ s' = set_filters iface (p :: filters_on s iface) s /\ x = Ok tt)
      \/ ((iface ∉ ifaces s) /\ refused s x s') \/ fault s x s'
  | TakeLink iface p => fun x => (s' = s /\ x = Ok tt) \/ fault s x s'
  | DropLink iface p => fun x => s' = set_filters iface (tail (filters_on s iface)) s
  | Output bin args => fun x =>
      s' = s /\
      match x with
      | Ok o =>
          forall iface, bin = lit "tc" -> args = tc_show iface ->
          (o_success o = true ->
             contains PROG_NAME (from_utf8_lossy (o_stdout o)) = negb (bool_decide (filters_on s iface = []))) /\
          (flt = false -> iface ∈ ifaces s -> o_success o = true)
      | Err _ => flt = true
      end
  | PathExists path => fun x => s' = s /\ x = bool_decide (is_Some (pins s !! path))
  | RemoveFile path => fun x =>
      match pins s !! path with
      | Some _ => (s' = set_pins (delete path (pins s)) (maps s) s /\ x = Ok tt) \/ fault s x s'
      | None => refused s x s'
      end
  | RemoveDir dir => fun x =>
      ((forall k, pins s !! pin_path dir k = None) /\ s' = set_dirs (dirs s ∖ {[dir]}) s /\ x = Ok tt)
      \/ refused s x s'
  | Println l => fun x => s' = add_stdout l s
  | Eprintln l => fun x => s' = add_stderr l s
  end x.

End spec.

(** ** Interference *)

(** Traffic may change these two kinds of map at any time. *)
Definition traffic_map (o o' : map_obj) : Prop :=
  match o, o' with
  | MThrottle _, MThrottle _ | MStats _, MStats _ => True
  | _, _ => o = o'
  end.

(** The monotonic clock fits the [u64] the tool keeps it in (584 years). *)
Definition uptime_ok (s : os) : Prop := 0 <= mono_ns s <= U64_MAX.

(** Time passes and packets arrive; no other process interferes. *)
Definition quiet (s s' : os) : Prop :=
  mono_ns s <= mono_ns s' /\ (uptime_ok s -> uptime_ok s') /\ dirs s' = dirs s /\ pins s' = pins s /\
  ifaces s' = ifaces s /\ filters s' = filters s /\
  stdout s' = stdout s /\ stderr s' = stderr s /\
  (forall m, option_Forall2 traffic_map (maps s !! m) (maps s' !! m)).

(** Any other actor may do anything. *)
Definition anything (s s' : os) : Prop := True.

(** ** The classifier on the live maps *)

(** What an attached program sees of the maps it was loaded with. *)
Definition kernel_view (s : os) (p : program) : option kmaps :=
  match maps s !! pg_bans p, maps s !! pg_throttle p, maps s !! pg_config p, maps s !! pg_stats p with
  | Some (MBans bm), Some (MThrottle t), Some (MConfig c), Some (MStats st) =>
    Some {| k_bans := bm; k_throttle := t; k_config := c; k_stats := st |}
  | _, _, _, _ => None
  end.

(** The verdict of program [p] on a packet arriving now on [cpu]. *)
Definition verdict_now `{LruHash} (s : os) (p : program) (cpu : nat) (skb : sk_buff) : option tc_act :=
  match kernel_view s p with
  | Some k => Some (shield_guard cpu (mono_ns s) skb k).1
  | None => None
  end.
