(* ===== verification/Guard.v ===== *)
(** * The guard's command-line tool: [guard/src/main.rs]

    Every command as a program over the calls of [Sys]; the texts printed are
    kept because other components read them (fail2ban the exit code, the
    dashboard the output of [list] and [stats]).  Errors are the text anyhow
    prints for [{e:#}]: the contexts from the outside in, joined by colons. *)
From S2P Require Import Prelude Prog Text Net Bpf Sys.
Local Open Scope prog_scope.

Abbreviation io := (prog sys) (only parsing).

(** One call of the environment. *)
Definition call {X} (e : sys X) : io X := Vis e Ret.

Definition println (l : str) : io unit := call (Println l).
Definition eprintln (l : str) : io unit := call (Eprintln l).

(** [anyhow::Context::with_context]. *)
Definition with_context {A} (ctx : str) (m : io (result A)) : io (result A) :=
  r <- m ;;
  Ret (match r with Ok a => Ok a | Err e => Err (ctx ++ lit ": " ++ e) end).

(** ** Clocks *)

Definition now_mono_ns : io Z :=
  ts <- call ClockMonotonic ;;
  Ret (wrap64 (wrap64 (ts.1 * 1000000000) + ts.2)).

Definition now_epoch_s : io Z :=
  t <- call SystemTime ;;
  Ret (if t <? 0 then 0 else t).

(** ** Addresses and maps *)

Definition parse_v6 (s : str) : result (option (list Z)) :=
  match parse_ip s with
  | Some (V6 a) => Ok (Some a)
  | Some (V4 _) => Ok None
  | None => Err (lit "invalid address " ++ s ++ lit ": invalid IP address syntax")
  end.

Definition open_map (pin_dir name : str) : io (result map_id) :=
  let path := path_join pin_dir name in
  with_context (lit "cannot open pinned map " ++ path
                ++ lit " (is the guard loaded? run: fips-guard load)")
    (call (MapFromPin path)).

Definition bans_map (pin_dir : str) : io (result map_id) :=
  m <-? open_map pin_dir (lit "shield_bans") ;;
  call (MapTryFrom KBans m).

Definition health_map (pin_dir : str) : io (result map_id) :=
  m <-? open_map pin_dir (lit "shield_health") ;;
  call (MapTryFrom KHealth m).

Definition config_map (pin_dir : str) : io (result map_id) :=
  m <-? open_map pin_dir (lit "shield_config") ;;
  call (MapTryFrom KConfig m).

(** ** Attachment and heartbeat *)

Definition classifier_attached (iface : str) : io (result bool) :=
  out <-? with_context (lit "cannot run `tc` (install iproute2) to check the attachment")
            (call (Output (lit "tc") [lit "filter"; lit "show"; lit "dev"; iface; lit "ingress"])) ;;
  if negb (o_success out) then
    Ret (Err (lit "tc filter show dev " ++ iface ++ lit " ingress failed: "
              ++ trim (from_utf8_lossy (o_stderr out))))
  else Ret (Ok (contains PROG_NAME (from_utf8_lossy (o_stdout out)))).

Definition write_heartbeat (pin_dir : str) : io (result unit) :=
  m <-? health_map pin_dir ;;
  t <- now_epoch_s ;;
  with_context (lit "cannot write the health heartbeat") (call (HealthSet m t)).

Definition cmd_status (pin_dir iface : str) : io (result bool) :=
  attached <-? classifier_attached iface ;;
  if attached then
    _ <- write_heartbeat pin_dir ;;
    println (lit "attached: " ++ PROG_NAME ++ lit " is filtering ingress on " ++ iface) ;;;
    Ret (Ok attached)
  else
    println (lit "NOT ATTACHED: no " ++ PROG_NAME ++ lit " filter on " ++ iface
             ++ lit " ingress — nothing is being enforced") ;;;
    Ret (Ok attached).

(** ** Configuration and loading *)

Definition set_config (pin_dir : str) (rate burst : Z) : io (result unit) :=
  cfg <-? config_map pin_dir ;;
  call (ConfigSet cfg {| rate_pps := rate;
                         burst_pkts := if (0 <? rate) && (burst =? 0) then 1 else burst |}).

Definition cmd_load (pin_dir iface : str) (rate burst : Z) : io (result unit) :=
  with_context (lit "cannot create pin dir " ++ pin_dir
                ++ lit " (is bpffs mounted at /sys/fs/bpf? mount -t bpf bpf /sys/fs/bpf)")
    (call (CreateDirAll pin_dir)) ;;?
  ebpf <-? with_context (lit "failed to load BPF object") (call (EbpfLoad pin_dir)) ;;
  o <- call (ProgramMut ebpf PROG_NAME) ;;
  match o with
  | None => Ret (Err (lit "program " ++ PROG_NAME ++ lit " missing from object"))
  | Some p =>
    prog <-? call (AsClassifier p) ;;
    with_context (lit "BPF verifier rejected the program") (call (ProgLoad prog)) ;;?
    _ <- call (QdiscAddClsact iface) ;;
    _ <- call (QdiscDetachProgram iface PROG_NAME) ;;
    with_context (lit "cannot attach to " ++ iface ++ lit " (does the interface exist?)")
      (call (Attach iface prog)) ;;?
    link <- call (TakeLink iface prog) ;;
    match link with
    | Err e => call (DropLink iface prog) ;;; Ret (Err e)  (* the link is still owned: dropped *)
    | Ok _ =>
      set_config pin_dir rate burst ;;?
      println (lit "loaded on " ++ iface ++ lit ", maps pinned at " ++ pin_dir) ;;;
      (if 0 <? rate
       then println (lit "throttle: " ++ to_string rate ++ lit " pkt/s per source, burst "
                     ++ to_string burst)
       else println (lit "throttle: disabled (bans only)")) ;;;
      Ret (Ok tt)
    end
  end.

Definition cmd_watchdog (pin_dir iface : str) : io (result unit) :=
  attached <-? classifier_attached iface ;;
  if attached then
    write_heartbeat pin_dir ;;? Ret (Ok tt)
  else
    eprintln (lit "watchdog: " ++ PROG_NAME ++ lit " is not attached to " ++ iface
              ++ lit "; re-attaching") ;;;
    c <- (m <-? config_map pin_dir ;; call (ConfigGet m)) ;;
    let cfg := unwrap_or {| rate_pps := 0; burst_pkts := 0 |} c in
    cmd_load pin_dir iface (rate_pps cfg) (burst_pkts cfg) ;;?
    again <-? classifier_attached iface ;;
    if negb again then
      Ret (Err (lit "re-attach to " ++ iface ++ lit " reported success but no filter is present"))
    else
      write_heartbeat pin_dir ;;?
      eprintln (lit "watchdog: re-attached to " ++ iface) ;;;
      Ret (Ok tt).

Definition cmd_health (pin_dir : str) (max_age : Z) : io (result bool) :=
  m <-? health_map pin_dir ;;
  g <- call (HealthGet m) ;;
  let last := unwrap_or 0 g in
  if last =? 0 then
    eprintln (lit "note: no watchdog heartbeat yet, so a detached classifier would go unnoticed. Enable it with: systemctl enable --now fips-guard-watchdog.timer") ;;;
    println (lit "unknown: no heartbeat yet (watchdog not running) — reporting healthy") ;;;
    Ret (Ok true)
  else
    now <- now_epoch_s ;;
    let age := saturating_sub now last in
    if max_age <? age then
      println (lit "stale: last confirmed " ++ to_string age ++ lit "s ago (limit "
               ++ to_string max_age
               ++ lit "s) — enforcement is not known to be running") ;;;
      Ret (Ok false)
    else
      println (lit "ok: attachment confirmed " ++ to_string age ++ lit "s ago") ;;;
      Ret (Ok true).

(** The pins [cmd_unload --purge] removes, in order. *)
Definition purge_names : list str :=
  [lit "shield_bans"; lit "shield_throttle"; lit "shield_config"; lit "shield_stats"].

Fixpoint purge_pins (pin_dir : str) (names : list str) : io (result unit) :=
  match names with
  | [] => Ret (Ok tt)
  | name :: rest =>
    let path := path_join pin_dir name in
    present <- call (PathExists path) ;;
    if present then
      with_context (lit "cannot unpin " ++ path) (call (RemoveFile path)) ;;?
      purge_pins pin_dir rest
    else purge_pins pin_dir rest
  end.

Definition cmd_unload (pin_dir iface : str) (purge : bool) : io (result unit) :=
  r <- call (QdiscDetachProgram iface PROG_NAME) ;;
  detached <- match r with
              | Ok _ => println (lit "detached from " ++ iface) ;;; Ret true
              | Err e => eprintln (lit "warning: detach from " ++ iface ++ lit ": " ++ e) ;;; Ret false
              end ;;
  if negb purge then
    println (lit "maps left pinned at " ++ pin_dir ++ lit " (use --purge to discard bans)") ;;;
    Ret (Ok tt)
  else if negb detached then
    Ret (Err (lit "refusing to purge maps: the program is still attached to " ++ iface))
  else
    purge_pins pin_dir purge_names ;;?
    _ <- call (RemoveDir pin_dir) ;;
    println (lit "unpinned maps") ;;;
    Ret (Ok tt).

(** ** Bans *)

(** A lapsed entry: 0 is permanent and never lapses. *)
Definition lapsed (now : Z) (v : BanVal) : bool :=
  negb (expires_mono_ns v =? 0) && (expires_mono_ns v <=? now).

Fixpoint collect_expired (now : Z) (entries : list (result (Addr6 * BanVal))) :
    result (list Addr6) :=
  match entries with
  | [] => Ok []
  | Err e :: _ => Err e
  | Ok (key, val) :: r =>
    match collect_expired now r with
    | Ok ks => Ok (if lapsed now val then key :: ks else ks)
    | Err e => Err e
    end
  end.

Fixpoint remove_all (bans : map_id) (keys : list Addr6) : io unit :=
  match keys with
  | [] => Ret tt
  | key :: r => _ <- call (HashRemove bans key) ;; remove_all bans r
  end.

Definition prune_expired (bans : map_id) : io (result nat) :=
  now <- now_mono_ns ;;
  entries <- call (HashIter bans) ;;
  match collect_expired now entries with
  | Err e => Ret (Err e)
  | Ok expired => remove_all bans expired ;;; Ret (Ok (length expired))
  end.

(** The value [cmd_ban] stores: the deadlines are read from the two clocks. *)
Definition ban_value (seconds : Z) : io BanVal :=
  if seconds <=? 0 then Ret {| expires_mono_ns := 0; expires_epoch_s := 0 |}
  else
    let secs := i64_as_u64 seconds in
    mono <- now_mono_ns ;;
    epoch <- now_epoch_s ;;
    Ret {| expires_mono_ns := saturating_add mono (saturating_mul secs 1000000000);
           expires_epoch_s := saturating_add epoch secs |}.

Definition note_ipv4 (ip : str) : str :=
  lit "note: " ++ ip ++ lit " is IPv4; the mesh is IPv6-only, nothing to do".

(** The map update of [cmd_ban]: insert, and on any failure reclaim the lapsed
    entries and try once more. *)
Definition ban_insert (bans : map_id) (key : Addr6) (val : BanVal) (ip : str) : io (result unit) :=
  r <- call (HashInsert bans key val) ;;
  match r with
  | Ok _ =>
    println (lit "banned " ++ ip ++ lit " until " ++ to_string (expires_epoch_s val)) ;;;
    Ret (Ok tt)
  | Err first =>
    reclaimed <-? with_context (lit "ban failed and the expired-entry sweep also failed")
                    (prune_expired bans) ;;
    with_context (lit "cannot insert ban (first attempt: " ++ first ++ lit "); swept "
                  ++ to_string (Z.of_nat reclaimed)
                  ++ lit " expired entries and still could not insert — the ban map may be full of active bans")
      (call (HashInsert bans key val)) ;;?
    eprintln (lit "note: ban map was full; swept " ++ to_string (Z.of_nat reclaimed)
              ++ lit " expired entries") ;;;
    println (lit "banned " ++ ip ++ lit " until " ++ to_string (expires_epoch_s val)) ;;;
    Ret (Ok tt)
  end.

Definition cmd_ban (pin_dir ip : str) (seconds : Z) : io (result unit) :=
  match parse_v6 ip with
  | Err e => Ret (Err e)
  | Ok None => eprintln (note_ipv4 ip) ;;; Ret (Ok tt)
  | Ok (Some addr) =>
    bans <-? bans_map pin_dir ;;
    val <- ban_value seconds ;;
    ban_insert bans (mk_addr6 (octets addr)) val ip
  end.

(** The tail of [cmd_unban]: read back rather than trusting the delete. *)
Definition unban_read_back (bans : map_id) (key : Addr6) (ip : str) (was_banned : bool) :
    io (result unit) :=
  again <- call (HashGet bans key) ;;
  if is_ok again then
    Ret (Err (lit "unban of " ++ ip ++ lit " did not take: the entry is still in shield_bans. If fail2ban is running, it re-bans every live ticket whenever `actioncheck` fails — check `fips-guard health`."))
  else
    println (lit "unbanned " ++ ip) ;;;
    (if negb was_banned
     then eprintln (lit "note: " ++ ip ++ lit " was not banned in the guard; nothing to remove")
     else Ret tt) ;;;
    Ret (Ok tt).

Definition cmd_unban (pin_dir ip : str) : io (result unit) :=
  match parse_v6 ip with
  | Err e => Ret (Err e)
  | Ok None => eprintln (note_ipv4 ip) ;;; Ret (Ok tt)
  | Ok (Some addr) =>
    bans <-? bans_map pin_dir ;;
    let key := mk_addr6 (octets addr) in
    g <- call (HashGet bans key) ;;
    let was_banned := is_ok g in
    r <- call (HashRemove bans key) ;;
    match r with
    | Err e =>
      if was_banned then Ret (Err (lit "cannot remove the ban on " ++ ip ++ lit ": " ++ e))
      else unban_read_back bans key ip was_banned
    | Ok _ => unban_read_back bans key ip was_banned
    end
  end.

Definition cmd_check (pin_dir ip : str) : io (result bool) :=
  match parse_v6 ip with
  | Err e => Ret (Err e)
  | Ok None => println (lit "not banned " ++ ip) ;;; Ret (Ok false)
  | Ok (Some addr) =>
    bans <-? bans_map pin_dir ;;
    let key := mk_addr6 (octets addr) in
    g <- call (HashGet bans key) ;;
    match g with
    | Ok v =>
      live <- (if expires_mono_ns v =? 0 then Ret true
               else now <- now_mono_ns ;; Ret (now <? expires_mono_ns v)) ;;
      if live then
        println (lit "banned " ++ ip ++ lit " until " ++ to_string (expires_epoch_s v)) ;;;
        Ret (Ok true)
      else
        _ <- call (HashRemove bans key) ;;
        println (lit "not banned " ++ ip) ;;;
        Ret (Ok false)
    | Err _ => println (lit "not banned " ++ ip) ;;; Ret (Ok false)
    end
  end.

(** One line of [list]; permanent bans print 0. *)
Definition list_line (ip : list Z) (until : Z) : str :=
  show_v6 ip ++ lit " " ++ to_string until.

Fixpoint collect_active (now : Z) (entries : list (result (Addr6 * BanVal))) :
    result (list (list Z * Z)) :=
  match entries with
  | [] => Ok []
  | Err e :: _ => Err e
  | Ok (key, val) :: r =>
    match collect_active now r with
    | Ok l => Ok (if ban_active now val
                  then (from_octets (b key), expires_epoch_s val) :: l else l)
    | Err e => Err e
    end
  end.

Fixpoint print_lines (ls : list str) : io unit :=
  match ls with
  | [] => Ret tt
  | l :: r => println l ;;; print_lines r
  end.

Definition cmd_list (pin_dir : str) : io (result unit) :=
  bans <-? bans_map pin_dir ;;
  prune_expired bans ;;?
  now <- now_mono_ns ;;
  entries <- call (HashIter bans) ;;
  match collect_active now entries with
  | Err e => Ret (Err e)
  | Ok active => print_lines (map (fun '(ip, until) => list_line ip until) active) ;;; Ret (Ok tt)
  end.

(** [stats.get(&slot)?.iter().sum()], in [u64]. *)
Definition stats_sum (m : map_id) (slot : Z) : io (result Z) :=
  cpus <-? call (StatsGet m slot) ;;
  Ret (Ok (foldr (fun v a => wrap64 (v + a)) 0 cpus)).

Definition cmd_stats (pin_dir : str) : io (result unit) :=
  m <-? open_map pin_dir (lit "shield_stats") ;;
  st <-? call (MapTryFrom KStats m) ;;
  n <-? stats_sum st ST_PASSED ;;
  println (lit "passed             " ++ to_string n) ;;;
  n <-? stats_sum st ST_DROPPED_BAN ;;
  println (lit "dropped (ban)      " ++ to_string n) ;;;
  n <-? stats_sum st ST_DROPPED_THROTTLE ;;
  println (lit "dropped (throttle) " ++ to_string n) ;;;
  n <-? stats_sum st ST_NOT_IPV6 ;;
  println (lit "not ipv6           " ++ to_string n) ;;;
  n <-? stats_sum st ST_PARSE_FAILED ;;
  println (lit "parse failed       " ++ to_string n) ;;;
  cm <-? config_map pin_dir ;;
  cfg <-? call (ConfigGet cm) ;;
  (if 0 <? rate_pps cfg
   then println (lit "throttle           " ++ to_string (rate_pps cfg)
                 ++ lit " pkt/s per source, burst " ++ to_string (burst_pkts cfg))
   else println (lit "throttle           disabled")) ;;;
  md <-? open_map pin_dir (lit "shield_bans") ;;
  info <- call (MapInfo md) ;;
  let capacity := unwrap_or 0 info in
  bans <-? call (MapTryFrom KBans md) ;;
  entries <- call (HashIter bans) ;;
  let total := Z.of_nat (length entries) in
  stale <-? prune_expired bans ;;
  println (lit "bans               " ++ to_string (saturating_sub total (Z.of_nat stale))
           ++ lit "/" ++ to_string capacity ++ lit " active ("
           ++ to_string (Z.of_nat stale) ++ lit " expired reclaimed)") ;;;
  Ret (Ok tt).

(** ** The command line *)

Inductive Cmd :=
| Load (iface : str) (rate burst : Z)
| Unload (iface : str) (purge : bool)
| Ban (ip : str) (seconds : Z)
| Unban (ip : str)
| Check (ip : str)
| List
| Throttle (rate burst : Z)
| Stats
| Status (iface : str)
| Watchdog (iface : str)
| Health (max_age : Z).

Record Cli := mk_cli { pin_dir : str; cmd : Cmd }.

Inductive ExitCode := SUCCESS | FAILURE.
#[export] Instance ExitCode_eq_dec : EqDecision ExitCode.
Proof. solve_decision. Defined.

Definition finish (r : result unit) : io ExitCode :=
  match r with
  | Ok _ => Ret SUCCESS
  | Err e => eprintln (lit "error: " ++ e) ;;; Ret FAILURE
  end.

(** [check], [status] and [health] report through the exit code. *)
Definition answer (r : result bool) : io ExitCode :=
  match r with
  | Ok true => Ret SUCCESS
  | Ok false => Ret FAILURE
  | Err e => finish (Err e)
  end.

Definition main (cli : Cli) : io ExitCode :=
  let pin_dir := pin_dir cli in
  match cmd cli with
  | Load iface rate burst => r <- cmd_load pin_dir iface rate burst ;; finish r
  | Unload iface purge => r <- cmd_unload pin_dir iface purge ;; finish r
  | Ban ip seconds => r <- cmd_ban pin_dir ip seconds ;; finish r
  | Unban ip => r <- cmd_unban pin_dir ip ;; finish r
  | Check ip => r <- cmd_check pin_dir ip ;; answer r
  | List => r <- cmd_list pin_dir ;; finish r
  | Throttle rate burst =>
    r <- (set_config pin_dir rate burst ;;?
          (if 0 <? rate
           then println (lit "throttle: " ++ to_string rate ++ lit " pkt/s per source, burst "
                         ++ to_string burst)
           else println (lit "throttle: disabled")) ;;;
          Ret (Ok tt)) ;; finish r
  | Stats => r <- cmd_stats pin_dir ;; finish r
  | Status iface => r <- cmd_status pin_dir iface ;; answer r
  | Watchdog iface => r <- cmd_watchdog pin_dir iface ;; finish r
  | Health max_age => r <- cmd_health pin_dir max_age ;; answer r
  end.
