(* ===== verification/GuardBans.v ===== *)
(** * The ban commands of the guard

    [ban], [unban], [check] and [list] as symbolic execution over the ban map:
    [bans_st s0 m bm out s] says that since [s0] only time and traffic have
    passed, that the ban map [m] now holds [bm], and that [out] was printed.
    Every call has one rule that moves this assertion forward. *)
From S2P Require Import Prelude Prog Text Net Bpf Sys Guard.
Local Open Scope prog_scope.

(** No call fails for a reason of its own, and no other process interferes. *)
Abbreviation wpq := (wp (@sys_spec false) quiet).

Record bans_st (s0 : os) (m : map_id) (bm : gmap Addr6 BanVal) (out : list str) (s : os) : Prop := {
  bs_mono : mono_ns s0 <= mono_ns s;
  bs_up : uptime_ok s;
  bs_pins : pins s = pins s0;
  bs_dirs : dirs s = dirs s0;
  bs_ifaces : ifaces s = ifaces s0;
  bs_filters : filters s = filters s0;
  bs_bans : maps s !! m = Some (MBans bm);
  bs_maps : forall i, i <> m -> option_Forall2 traffic_map (maps s0 !! i) (maps s !! i);
  bs_out : stdout s = stdout s0 ++ out;
}.

(** The ban map of the pin directory [dir] is [m], and holds [bm]. *)
Definition has_bans (dir : str) (m : map_id) (bm : gmap Addr6 BanVal) (s : os) : Prop :=
  uptime_ok s /\ pins s !! pin_path dir KBans = Some m /\ maps s !! m = Some (MBans bm).

(** The outcome of [ban_value]: the deadlines lie between those computed at
    the start and at the end of the command. *)
Definition deadline (secs t : Z) : Z := saturating_add t (saturating_mul secs 1000000000).

Definition stored_ban (secs t0 t1 : Z) (v : BanVal) : Prop :=
  if secs <=? 0 then v = {| expires_mono_ns := 0; expires_epoch_s := 0 |}
  else deadline secs t0 <= expires_mono_ns v <= deadline secs t1 /\ 0 < expires_mono_ns v.

(** The entries that have not lapsed at [t]. *)
Definition unlapsed (t : Z) (bm : gmap Addr6 BanVal) : gmap Addr6 BanVal :=
  filter (fun kv => lapsed t kv.2 = false) bm.

Lemma traffic_map_refl o : traffic_map o o.
Proof. by destruct o. Qed.
Lemma traffic_map_trans o1 o2 o3 : traffic_map o1 o2 -> traffic_map o2 o3 -> traffic_map o1 o3.
Proof. destruct o1, o2, o3; simpl; congruence. Qed.

Lemma traffic_opt_refl (o : option map_obj) : option_Forall2 traffic_map o o.
Proof. destruct o; constructor. apply traffic_map_refl. Qed.
Lemma traffic_opt_trans (o1 o2 o3 : option map_obj) :
  option_Forall2 traffic_map o1 o2 -> option_Forall2 traffic_map o2 o3 ->
  option_Forall2 traffic_map o1 o3.
Proof.
  intros H12 H23; destruct H12; inversion H23; subst; constructor.
  eapply traffic_map_trans; eauto.
Qed.

#[export] Hint Resolve traffic_map_refl traffic_opt_refl : shield.

Lemma quiet_refl s : quiet s s.
Proof. unfold quiet. split_and!; auto with shield; lia. Qed.

Lemma quiet_maps s s' m o :
  quiet s s' -> maps s !! m = Some o -> exists o', maps s' !! m = Some o' /\ traffic_map o o'.
Proof.
  intros (_ & _ & _ & _ & _ & _ & _ & _ & Hm) Ho. specialize (Hm m). rewrite Ho in Hm.
  inversion Hm; subst; eauto.
Qed.

(** Kinds of map that only commands write keep their contents. *)
Lemma quiet_map_eq s s' m o :
  quiet s s' -> maps s !! m = Some o -> kind_of o <> KThrottle -> kind_of o <> KStats ->
  maps s' !! m = Some o.
Proof.
  intros Hq Ho Ht Hs. destruct (quiet_maps s s' m o Hq Ho) as (o' & -> & Htr).
  destruct o; simpl in *; congruence.
Qed.

Lemma bans_st_init dir m bm s : has_bans dir m bm s -> bans_st s m bm [] s.
Proof.
  intros (? & _ & Hm). split; auto with shield; [lia|]. by rewrite app_nil_r.
Qed.

Lemma bans_st_quiet s0 m bm out s s' : bans_st s0 m bm out s -> quiet s s' -> bans_st s0 m bm out s'.
Proof.
  intros [] Hq. pose proof Hq as (? & ? & ? & ? & ? & ? & Ho & ? & Hm).
  split; try congruence; [lia|auto| |].
  - eapply quiet_map_eq; eauto; done.
  - intros i Hi. eapply traffic_opt_trans; eauto.
Qed.

Lemma bans_st_set s0 m bm bm' out s :
  bans_st s0 m bm out s -> bans_st s0 m bm' out (set_map m (MBans bm') s).
Proof.
  intros []. split; simpl; auto; [apply lookup_insert_eq|].
  intros i Hi. rewrite lookup_insert_ne by done. auto.
Qed.

Lemma bans_st_println s0 m bm out s l :
  bans_st s0 m bm out s -> bans_st s0 m bm (out ++ [l]) (add_stdout l s).
Proof. intros []. split; simpl; auto. by rewrite bs_out0, app_assoc. Qed.

Lemma bans_st_eprintln s0 m bm out s l :
  bans_st s0 m bm out s -> bans_st s0 m bm out (add_stderr l s).
Proof. intros []. by split. Qed.

Lemma bans_st_bans_of s0 m bm out s : bans_st s0 m bm out s -> bans_of s m = Some bm.
Proof. intros []. unfold bans_of. by rewrite bs_bans0. Qed.

(** ** Pruning *)

Definition delete_all (keys : list Addr6) (bm : gmap Addr6 BanVal) : gmap Addr6 BanVal :=
  foldl (fun acc k => delete k acc) bm keys.

Definition lapsed_count (t : Z) (bm : gmap Addr6 BanVal) : nat :=
  length (filter (fun kv => lapsed t kv.2 = true) (map_to_list bm)).

Lemma collect_expired_ok t l :
  collect_expired t (map Ok l) = Ok (map fst (filter (fun kv => lapsed t kv.2 = true) l)).
Proof.
  induction l as [|[k v] l IH]; simpl; [done|]. rewrite IH, filter_cons. simpl.
  destruct (lapsed t v); by simpl.
Qed.

Lemma lookup_delete_all keys bm k :
  delete_all keys bm !! k = if decide (k ∈ keys) then None else bm !! k.
Proof.
  unfold delete_all. revert bm; induction keys as [|j keys IH]; intros bm; simpl; [done|].
  rewrite IH. destruct (decide (k ∈ keys)) as [Hin|Hin].
  - by rewrite decide_True by (by apply elem_of_cons; right).
  - destruct (decide (j = k)) as [->|Hne].
    + rewrite decide_True by (by apply elem_of_cons; left). apply lookup_delete_eq.
    + rewrite decide_False by (intros [?|?]%elem_of_cons; congruence).
      by apply lookup_delete_ne.
Qed.

Lemma delete_expired t l bm :
  l ≡ₚ map_to_list bm ->
  delete_all (map fst (filter (fun kv => lapsed t kv.2 = true) l)) bm = unlapsed t bm.
Proof.
  intros Hl. apply map_eq. intros k. rewrite lookup_delete_all. symmetry.
  assert (Hin : k ∈ map fst (filter (fun kv => lapsed t kv.2 = true) l) <->
                exists v, bm !! k = Some v /\ lapsed t v = true).
  { rewrite list_elem_of_fmap. split.
    - intros ([k' v] & -> & Hv). apply list_elem_of_filter in Hv as [Hv Hi].
      rewrite Hl in Hi. apply elem_of_map_to_list in Hi. eauto.
    - intros (v & Hv & Ht). exists (k, v). split; [done|]. apply list_elem_of_filter.
      split; [done|]. rewrite Hl. by apply elem_of_map_to_list. }
  case_decide as Hk.
  - apply Hin in Hk as (v & Hv & Ht). apply map_lookup_filter_None. right.
    intros v' Hv'. simpl. congruence.
  - destruct (bm !! k) as [v|] eqn:E.
    + apply map_lookup_filter_Some. split; [done|]. simpl.
      destruct (lapsed t v) eqn:Et; [|done]. exfalso. apply Hk, Hin. eauto.
    + apply map_lookup_filter_None. by left.
Qed.

Lemma lookup_unlapsed t bm k v :
  unlapsed t bm !! k = Some v <-> bm !! k = Some v /\ lapsed t v = false.
Proof. unfold unlapsed. apply map_lookup_filter_Some. Qed.

Lemma ban_active_lapsed t v : ban_active t v = negb (lapsed t v).
Proof.
  unfold ban_active, lapsed. destruct (expires_mono_ns v =? 0); simpl; [done|]. lia.
Qed.

(** ** One rule per call *)

Section rules.
Context (s0 : os) (m : map_id).
Implicit Types (bm : gmap Addr6 BanVal) (out : list str) (s : os).

Lemma wp_println bm out l (Q : unit -> os -> Prop) s :
  bans_st s0 m bm out s -> (forall s', mono_ns s <= mono_ns s' -> bans_st s0 m bm (out ++ [l]) s' -> Q tt s') ->
  wpq (println l) Q s.
Proof.
  intros Hs HQ s1 Hq [] s2 Hc. simpl in Hc; subst.
  apply HQ; [apply Hq|]. apply bans_st_println. by eapply bans_st_quiet.
Qed.

Lemma wp_eprintln bm out l (Q : unit -> os -> Prop) s :
  bans_st s0 m bm out s -> (forall s', mono_ns s <= mono_ns s' -> bans_st s0 m bm out s' -> Q tt s') ->
  wpq (eprintln l) Q s.
Proof.
  intros Hs HQ s1 Hq [] s2 Hc. simpl in Hc; subst.
  apply HQ; [apply Hq|]. apply bans_st_eprintln. by eapply bans_st_quiet.
Qed.

Lemma wp_bans_map dir bm out (Q : result map_id -> os -> Prop) s :
  pins s0 !! pin_path dir KBans = Some m ->
  bans_st s0 m bm out s -> (forall s', mono_ns s <= mono_ns s' -> bans_st s0 m bm out s' -> Q (Ok m) s') ->
  wpq (bans_map dir) Q s.
Proof.
  intros Hp Hs HQ. unfold bans_map, open_map, with_context.
  intros s1 Hq x s2 Hc. simpl in Hc.
  pose proof (bans_st_quiet _ _ _ _ _ _ Hs Hq) as Hs1.
  change (path_join dir (lit "shield_bans")) with (pin_path dir KBans) in Hc.
  rewrite (bs_pins _ _ _ _ _ Hs1), Hp in Hc. destruct Hc as [[-> ->]|[? _]]; [|done].
  intros s3 Hq2 x s4 Hc. simpl in Hc.
  pose proof (bans_st_quiet _ _ _ _ _ _ Hs1 Hq2) as Hs2.
  rewrite (bs_bans _ _ _ _ _ Hs2) in Hc.
  destruct Hc as [(-> & _ & ->)|[[? _]|[? _]]]; [|done..].
  apply HQ; [|done]. etrans; [apply Hq|apply Hq2].
Qed.

Lemma wp_now_mono_ns bm out (Q : Z -> os -> Prop) s :
  bans_st s0 m bm out s ->
  (forall s', mono_ns s <= mono_ns s' -> bans_st s0 m bm out s' -> Q (mono_ns s') s') ->
  wpq now_mono_ns Q s.
Proof.
  intros Hs HQ s1 Hq x s2 [-> ->]. simpl.
  pose proof (bans_st_quiet _ _ _ _ _ _ Hs Hq) as Hs1.
  replace (wrap64 _) with (mono_ns s1).
  - apply HQ; [apply Hq|done].
  - unfold wrap64. rewrite Zplus_mod_idemp_l.
    replace (_ + _) with (mono_ns s1)
      by (pose proof (Z.div_mod (mono_ns s1) 1000000000); lia).
    symmetry. apply wrap64_small, (bs_up _ _ _ _ _ Hs1).
Qed.

Lemma wp_now_epoch_s bm out (Q : Z -> os -> Prop) s :
  bans_st s0 m bm out s -> (forall s' t, 0 <= t -> mono_ns s <= mono_ns s' -> bans_st s0 m bm out s' -> Q t s') ->
  wpq now_epoch_s Q s.
Proof.
  intros Hs HQ s1 Hq x s2 [-> ->]. simpl.
  apply HQ; [case_if; bool_facts; lia|apply Hq|by eapply bans_st_quiet].
Qed.

Lemma wp_hash_get bm out k (Q : result BanVal -> os -> Prop) s :
  bans_st s0 m bm out s ->
  (forall s', mono_ns s <= mono_ns s' -> bans_st s0 m bm out s' ->
     Q (match bm !! k with Some v => Ok v | None => Err key_not_found end) s') ->
  wpq (call (HashGet m k)) Q s.
Proof.
  intros Hs HQ s1 Hq x s2 Hc. simpl in Hc. unfold hash_call in Hc.
  pose proof (bans_st_quiet _ _ _ _ _ _ Hs Hq) as Hs1.
  rewrite (bans_st_bans_of _ _ _ _ _ Hs1) in Hc. destruct Hc as [[-> ->]|[? _]]; [|done].
  apply HQ; [apply Hq|done].
Qed.

Lemma wp_hash_insert bm out k v (Q : result unit -> os -> Prop) s :
  bans_st s0 m bm out s ->
  (is_Some (bm !! k) \/ (size bm < MAX_TRACKED)%nat ->
     forall s', mono_ns s <= mono_ns s' -> bans_st s0 m (<[k := v]> bm) out s' -> Q (Ok tt) s') ->
  (bm !! k = None -> (MAX_TRACKED <= size bm)%nat ->
     forall e s', mono_ns s <= mono_ns s' -> bans_st s0 m bm out s' -> Q (Err e) s') ->
  wpq (call (HashInsert m k v)) Q s.
Proof.
  intros Hs HQ HE s1 Hq x s2 Hc. simpl in Hc. unfold hash_call in Hc.
  pose proof (bans_st_quiet _ _ _ _ _ _ Hs Hq) as Hs1.
  rewrite (bans_st_bans_of _ _ _ _ _ Hs1) in Hc.
  destruct Hc as [[(? & -> & ->)|(? & ? & -> & [e ->])]|[? _]]; [| |done].
  - apply HQ; [done|apply Hq|]. by eapply bans_st_set.
  - apply HE; [done|done|apply Hq|done].
Qed.

Lemma wp_hash_remove bm out k (Q : result unit -> os -> Prop) s :
  bans_st s0 m bm out s ->
  (forall r s', mono_ns s <= mono_ns s' -> (is_Some (bm !! k) -> r = Ok tt) -> bans_st s0 m (delete k bm) out s' -> Q r s') ->
  wpq (call (HashRemove m k)) Q s.
Proof.
  intros Hs HQ s1 Hq x s2 Hc. simpl in Hc. unfold hash_call in Hc.
  pose proof (bans_st_quiet _ _ _ _ _ _ Hs Hq) as Hs1.
  rewrite (bans_st_bans_of _ _ _ _ _ Hs1) in Hc. destruct Hc as [Hc|[? _]]; [|done].
  destruct (bm !! k) eqn:E.
  - destruct Hc as [-> ->]. apply HQ; [apply Hq|done|]. by eapply bans_st_set.
  - destruct Hc as [-> _]. apply HQ; [apply Hq|by intros []|]. by rewrite delete_id.
Qed.

Lemma wp_hash_iter bm out (Q : list (result (Addr6 * BanVal)) -> os -> Prop) s :
  bans_st s0 m bm out s ->
  (forall l s', mono_ns s <= mono_ns s' -> l ≡ₚ map_to_list bm -> bans_st s0 m bm out s' -> Q (map Ok l) s') ->
  wpq (call (HashIter m)) Q s.
Proof.
  intros Hs HQ s1 Hq x s2 [-> Hc].
  pose proof (bans_st_quiet _ _ _ _ _ _ Hs Hq) as Hs1.
  rewrite (bans_st_bans_of _ _ _ _ _ Hs1) in Hc.
  destruct Hc as [(l & Hl & ->)|[? _]]; [|done]. apply HQ; [apply Hq|done|done].
Qed.

Lemma wp_remove_all keys : forall bm out (Q : unit -> os -> Prop) s,
  bans_st s0 m bm out s ->
  (forall s', mono_ns s <= mono_ns s' -> bans_st s0 m (delete_all keys bm) out s' -> Q tt s') ->
  wpq (remove_all m keys) Q s.
Proof.
  induction keys as [|k keys IH]; intros bm out Q s Hs HQ; cbn [remove_all]; [by apply HQ|].
  apply wp_seq. eapply wp_hash_remove; [done|]. intros r s' Ht _ Hs'.
  eapply IH; [done|]. intros s2 Ht2 Hs2. apply HQ; [lia|done].
Qed.

Lemma wp_prune_expired bm out (Q : result nat -> os -> Prop) s :
  bans_st s0 m bm out s ->
  (forall t s', mono_ns s <= t <= mono_ns s' -> bans_st s0 m (unlapsed t bm) out s' ->
     Q (Ok (lapsed_count t bm)) s') ->
  wpq (prune_expired m) Q s.
Proof.
  intros Hs HQ. unfold prune_expired. apply wp_seq.
  eapply wp_now_mono_ns; [done|]. intros s1 Ht Hs1. apply wp_seq.
  eapply wp_hash_iter; [done|]. intros l s2 Ht2 Hl Hs2.
  rewrite collect_expired_ok. apply wp_seq.
  eapply wp_remove_all; [done|]. intros s3 Ht3 Hs3.
  rewrite length_map, (Permutation_length (filter_Permutation _ _ _ Hl)).
  apply HQ; [lia|]. by rewrite <- (delete_expired _ _ _ Hl).
Qed.

End rules.

(** ** The commands *)

Definition I64_MAX : Z := 9223372036854775807.

Lemma deadline_mono secs t t' : t <= t' -> deadline secs t <= deadline secs t'.
Proof. unfold deadline. word_lia. Qed.

Lemma stored_ban_weaken secs t0 t1 t0' t1' v :
  stored_ban secs t0 t1 v -> t0' <= t0 -> t1 <= t1' -> stored_ban secs t0' t1' v.
Proof.
  unfold stored_ban. destruct (secs <=? 0); [done|]. intros [[Hl Hu] Hp] Hlo Hhi.
  apply (deadline_mono secs) in Hlo, Hhi. split; lia.
Qed.

Section commands.
Context (s0 : os) (m : map_id).
Implicit Types (bm : gmap Addr6 BanVal) (out : list str) (s : os).

Lemma wp_ban_value secs bm out (Q : BanVal -> os -> Prop) s :
  secs <= I64_MAX -> bans_st s0 m bm out s ->
  (forall v s', mono_ns s <= mono_ns s' -> stored_ban secs (mono_ns s) (mono_ns s') v ->
     bans_st s0 m bm out s' -> Q v s') ->
  wpq (ban_value secs) Q s.
Proof.
  intros Hsecs Hs HQ. unfold ban_value. destruct (secs <=? 0) eqn:E.
  - apply HQ; [lia| |done]. unfold stored_ban. by rewrite E.
  - apply wp_seq. eapply wp_now_mono_ns; [done|]. intros s1 Ht1 Hs1.
    apply wp_seq. eapply wp_now_epoch_s; [done|]. intros s2 t Ht Ht2 Hs2.
    pose proof (bs_up _ _ _ _ _ Hs). pose proof (bs_up _ _ _ _ _ Hs1).
    apply HQ; [lia| |done]. unfold stored_ban, i64_as_u64. rewrite E. bool_facts. simpl.
    rewrite wrap64_small by (unfold I64_MAX, is_u64_spec, U64_MAX in *; lia).
    split; [split; apply deadline_mono; lia|].
    unfold uptime_ok in *. word_lia.
Qed.

End commands.

Lemma cmd_ban_parsed dir ip secs a (Q : result unit -> os -> Prop) s :
  parse_ip ip = Some (V6 a) ->
  wpq (bans <-? bans_map dir ;;
       val <- ban_value secs ;;
       ban_insert bans (mk_addr6 (octets a)) val ip) Q s ->
  wpq (cmd_ban dir ip secs) Q s.
Proof. intros Hp. unfold cmd_ban, parse_v6. by rewrite Hp. Qed.

(** A ban that finds room, or replaces an earlier one. *)
Lemma cmd_ban_room dir ip secs a m bm s :
  parse_ip ip = Some (V6 a) -> has_bans dir m bm s -> secs <= I64_MAX ->
  is_Some (bm !! mk_addr6 (octets a)) \/ (size bm < MAX_TRACKED)%nat ->
  wpq (cmd_ban dir ip secs)
    (fun r s' => r = Ok tt /\ exists v, stored_ban secs (mono_ns s) (mono_ns s') v /\
       bans_st s m (<[mk_addr6 (octets a) := v]> bm)
         [lit "banned " ++ ip ++ lit " until " ++ to_string (expires_epoch_s v)] s') s.
Proof.
  intros Hp Hb Hsecs Hroom. pose proof (bans_st_init _ _ _ _ Hb) as Hs.
  apply (cmd_ban_parsed _ _ _ a); [done|]. apply wp_try.
  eapply wp_bans_map; [apply Hb|done|]. intros s1 Ht1 Hs1.
  apply wp_seq. eapply wp_ban_value; [done|done|]. intros v s2 Ht2 Hv Hs2.
  unfold ban_insert. apply wp_seq. eapply wp_hash_insert; [done| |].
  - intros _ s3 Ht3 Hs3. apply wp_seq. eapply wp_println; [done|]. intros s4 Ht4 Hs4.
    split; [done|]. exists v. split; [|done]. eapply stored_ban_weaken; [done|..]; lia.
  - intros Hn Hfull. exfalso. rewrite Hn in Hroom. destruct Hroom as [[? ?]|?]; [done|lia].
Qed.

(** A ban on a full map: the lapsed entries are reclaimed, then the insert is
    tried once more. *)
Lemma cmd_ban_full_map dir ip secs a m bm s :
  parse_ip ip = Some (V6 a) -> has_bans dir m bm s -> secs <= I64_MAX ->
  bm !! mk_addr6 (octets a) = None -> (MAX_TRACKED <= size bm)%nat ->
  wpq (cmd_ban dir ip secs)
    (fun r s' => exists t v, mono_ns s <= t <= mono_ns s' /\
       stored_ban secs (mono_ns s) (mono_ns s') v /\
       if (size (unlapsed t bm) <? MAX_TRACKED)%nat
       then r = Ok tt /\
            bans_st s m (<[mk_addr6 (octets a) := v]> (unlapsed t bm))
              [lit "banned " ++ ip ++ lit " until " ++ to_string (expires_epoch_s v)] s'
       else (exists e, r = Err e) /\ bans_st s m (unlapsed t bm) [] s') s.
Proof.
  intros Hp Hb Hsecs Hn Hfull. pose proof (bans_st_init _ _ _ _ Hb) as Hs.
  apply (cmd_ban_parsed _ _ _ a); [done|]. apply wp_try.
  eapply wp_bans_map; [apply Hb|done|]. intros s1 Ht1 Hs1.
  apply wp_seq. eapply wp_ban_value; [done|done|]. intros v s2 Ht2 Hv Hs2.
  unfold ban_insert. apply wp_seq. eapply wp_hash_insert; [done| |].
  { intros [[? ?]|?]; [congruence|lia]. }
  intros _ _ e s3 Ht3 Hs3. apply wp_try. unfold with_context. apply wp_seq.
  eapply wp_prune_expired; [done|]. intros t s4 Ht4 Hs4.
  apply wp_try, wp_seq.
  assert (Hn' : unlapsed t bm !! mk_addr6 (octets a) = None).
  { destruct (unlapsed t bm !! _) eqn:E; [|done]. apply lookup_unlapsed in E as [? _]. congruence. }
  eapply wp_hash_insert; [done| |].
  - intros [[? ?]|Hroom]; [congruence|]. intros s5 Ht5 Hs5.
    apply wp_seq. eapply wp_eprintln; [done|]. intros s6 Ht6 Hs6.
    apply wp_seq. eapply wp_println; [done|]. intros s7 Ht7 Hs7.
    exists t, v. split; [lia|]. split; [eapply stored_ban_weaken; [done|..]; lia|].
    by apply Nat.ltb_lt in Hroom as ->.
  - intros _ Hf e' s5 Ht5 Hs5. exists t, v. split; [lia|].
    split; [eapply stored_ban_weaken; [done|..]; lia|].
    apply Nat.ltb_ge in Hf as ->. eauto.
Qed.

(** Removing a ban, whether or not there was one. *)
Lemma cmd_unban_deletes dir ip a m bm s :
  parse_ip ip = Some (V6 a) -> has_bans dir m bm s ->
  wpq (cmd_unban dir ip)
    (fun r s' => r = Ok tt /\
       bans_st s m (delete (mk_addr6 (octets a)) bm) [lit "unbanned " ++ ip] s') s.
Proof.
  intros Hp Hb. pose proof (bans_st_init _ _ _ _ Hb) as Hs.
  unfold cmd_unban, parse_v6. rewrite Hp. apply wp_try.
  eapply wp_bans_map; [apply Hb|done|]. intros s1 Ht1 Hs1.
  apply wp_seq. eapply wp_hash_get; [done|]. intros s2 Ht2 Hs2.
  apply wp_seq. eapply wp_hash_remove; [done|]. intros r s3 Ht3 Hr Hs3.
  set (g := match bm !! _ with Some v => Ok v | None => Err key_not_found end).
  assert (Hrb : wpq (unban_read_back m (mk_addr6 (octets a)) ip (is_ok g))
    (fun r s' => r = Ok tt /\
       bans_st s m (delete (mk_addr6 (octets a)) bm) [lit "unbanned " ++ ip] s') s3).
  { unfold unban_read_back. apply wp_seq. eapply wp_hash_get; [done|].
    intros s4 Ht4 Hs4. rewrite lookup_delete_eq. cbn [is_ok].
    apply wp_seq. eapply wp_println; [done|]. intros s5 Ht5 Hs5.
    apply wp_seq. destruct (negb (is_ok g)); [|done].
    eapply wp_eprintln; [done|]. intros s6 Ht6 Hs6. done. }
  subst g. destruct r as [u|e]; [done|].
  destruct (bm !! mk_addr6 (octets a)) eqn:E; simpl; [|done].
  by discriminate Hr.
Qed.

(** The answer of [check] is whether the entry is enforced at the instant it
    is compared with the clock, and a lapsed entry is removed. *)
Lemma cmd_check_answers dir ip a m bm s :
  parse_ip ip = Some (V6 a) -> has_bans dir m bm s ->
  wpq (cmd_check dir ip)
    (fun r s' => exists t, mono_ns s <= t <= mono_ns s' /\
       match bm !! mk_addr6 (octets a) with
       | Some v =>
         r = Ok (ban_active t v) /\
         bans_st s m (if ban_active t v then bm else delete (mk_addr6 (octets a)) bm)
           [if ban_active t v
            then lit "banned " ++ ip ++ lit " until " ++ to_string (expires_epoch_s v)
            else lit "not banned " ++ ip] s'
       | None => r = Ok false /\ bans_st s m bm [lit "not banned " ++ ip] s'
       end) s.
Proof.
  intros Hp Hb. pose proof (bans_st_init _ _ _ _ Hb) as Hs.
  unfold cmd_check, parse_v6. rewrite Hp. apply wp_try.
  eapply wp_bans_map; [apply Hb|done|]. intros s1 Ht1 Hs1.
  apply wp_seq. eapply wp_hash_get; [done|]. intros s2 Ht2 Hs2.
  destruct (bm !! mk_addr6 (octets a)) as [v|] eqn:E.
  - apply wp_seq. unfold ban_active. destruct (expires_mono_ns v =? 0) eqn:E0; simpl orb.
    + apply wp_seq. eapply wp_println; [done|]. intros s3 Ht3 Hs3.
      exists (mono_ns s). split; [lia|]. done.
    + apply wp_seq. eapply wp_now_mono_ns; [done|]. intros s3 Ht3 Hs3.
      cbn beta.
      destruct (mono_ns s3 <? expires_mono_ns v) eqn:E1.
      * apply wp_seq. eapply wp_println; [done|]. intros s4 Ht4 Hs4.
        exists (mono_ns s3). rewrite E1. split; [lia|done].
      * apply wp_seq. eapply wp_hash_remove; [done|]. intros r s4 Ht4 _ Hs4.
        apply wp_seq. eapply wp_println; [done|]. intros s5 Ht5 Hs5.
        exists (mono_ns s3). rewrite E1. split; [lia|done].
  - apply wp_seq. eapply wp_println; [done|]. intros s3 Ht3 Hs3.
    exists (mono_ns s). split; [lia|done].
Qed.

(** ** Listing *)

Definition active_bans (t : Z) (bm : gmap Addr6 BanVal) : gmap Addr6 BanVal :=
  filter (fun kv => ban_active t kv.2 = true) bm.

Definition entry_line (kv : Addr6 * BanVal) : str :=
  list_line (from_octets (b kv.1)) (expires_epoch_s kv.2).

Lemma collect_active_ok t l :
  collect_active t (map Ok l) =
  Ok (map (fun kv => (from_octets (b kv.1), expires_epoch_s kv.2))
          (filter (fun kv => ban_active t kv.2 = true) l)).
Proof.
  induction l as [|[k v] l IH]; simpl; [done|]. rewrite IH, filter_cons. simpl.
  destruct (ban_active t v); by simpl.
Qed.

Lemma map_to_list_filter_perm (P : Addr6 * BanVal -> Prop) `{!forall x, Decision (P x)}
    (bm : gmap Addr6 BanVal) :
  filter P (map_to_list bm) ≡ₚ map_to_list (filter P bm).
Proof.
  apply NoDup_Permutation.
  - apply NoDup_filter, NoDup_map_to_list.
  - apply NoDup_map_to_list.
  - intros [k v]. rewrite list_elem_of_filter, !elem_of_map_to_list, map_lookup_filter_Some.
    split; intros [? ?]; done.
Qed.

Lemma active_unlapsed t t' bm : t <= t' -> active_bans t' (unlapsed t bm) = active_bans t' bm.
Proof.
  intros Ht. apply map_eq. intros k. apply option_eq. intros v.
  unfold active_bans. rewrite !map_lookup_filter_Some, lookup_unlapsed. simpl.
  rewrite ban_active_lapsed. unfold lapsed. split; [intros [[? ?] ?]; done|].
  intros [? Ha]. repeat split; try done.
  destruct (expires_mono_ns v =? 0); simpl in *; [done|]. lia.
Qed.

Lemma wp_print_lines s0 m ls : forall bm out (Q : unit -> os -> Prop) s,
  bans_st s0 m bm out s ->
  (forall s', mono_ns s <= mono_ns s' -> bans_st s0 m bm (out ++ ls) s' -> Q tt s') ->
  wpq (print_lines ls) Q s.
Proof.
  induction ls as [|l ls IH]; intros bm out Q s Hs HQ; cbn [print_lines].
  - apply HQ; [lia|]. by rewrite app_nil_r.
  - apply wp_seq. eapply wp_println; [done|]. intros s1 Ht1 Hs1.
    eapply IH; [done|]. intros s2 Ht2 Hs2. apply HQ; [lia|].
    by rewrite <- app_assoc in Hs2.
Qed.

Lemma cmd_list_prints dir m bm s :
  has_bans dir m bm s ->
  wpq (cmd_list dir)
    (fun r s' => exists t t' ls, mono_ns s <= t <= t' /\ t' <= mono_ns s' /\ r = Ok tt /\
       ls ≡ₚ map entry_line (map_to_list (active_bans t' bm)) /\
       bans_st s m (unlapsed t bm) ls s') s.
Proof.
  intros Hb. pose proof (bans_st_init _ _ _ _ Hb) as Hs.
  unfold cmd_list. apply wp_try.
  eapply wp_bans_map; [apply Hb|done|]. intros s1 Ht1 Hs1.
  apply wp_try. eapply wp_prune_expired; [done|]. intros t s2 Ht2 Hs2.
  apply wp_seq. eapply wp_now_mono_ns; [done|]. intros s3 Ht3 Hs3.
  apply wp_seq. eapply wp_hash_iter; [done|]. intros l s4 Ht4 Hl Hs4.
  rewrite collect_active_ok. apply wp_seq.
  eapply wp_print_lines; [done|]. intros s5 Ht5 Hs5.
  exists t, (mono_ns s3), (map entry_line (filter (fun kv => ban_active (mono_ns s3) kv.2 = true) l)).
  split; [lia|]. split; [lia|]. split; [done|]. split.
  - rewrite Hl, map_to_list_filter_perm. fold (active_bans (mono_ns s3) (unlapsed t bm)).
    rewrite active_unlapsed by lia. done.
  - rewrite map_map in Hs5. done.
Qed.

(** ** The kernel's view of a ban *)

Lemma kernel_view_bans s p k m bm :
  kernel_view s p = Some k -> pg_bans p = m -> maps s !! m = Some (MBans bm) -> k_bans k = bm.
Proof.
  unfold kernel_view. intros Hk <- Hm. rewrite Hm in Hk.
  repeat case_match; simplify_eq. done.
Qed.

Lemma verdict_banned `{LruHash} s p cpu skb key v m bm k :
  kernel_view s p = Some k -> pg_bans p = m -> maps s !! m = Some (MBans bm) ->
  source skb = Some key -> bm !! key = Some v -> ban_active (mono_ns s) v = true ->
  verdict_now s p cpu skb = Some TC_ACT_SHOT.
Proof.
  intros Hk Hp Hm Hsrc Hv Ha. unfold verdict_now. rewrite Hk, shield_guard_cases, Hsrc.
  unfold ban_hit. rewrite (kernel_view_bans _ _ _ _ _ Hk Hp Hm), Hv, Ha. done.
Qed.

(** A packet of a source without an enforced ban is dropped only by the throttle. *)
Lemma verdict_not_banned `{LruHash} s p cpu skb key k :
  kernel_view s p = Some k -> source skb = Some key -> ban_hit (mono_ns s) key k = false ->
  verdict_now s p cpu skb = Some TC_ACT_SHOT -> throttled (mono_ns s) key k.
Proof.
  intros Hk Hsrc Hb. unfold verdict_now. rewrite Hk, shield_guard_cases, Hsrc, Hb.
  destruct (throttle_stage (mono_ns s) key k).1 eqn:E; simpl; [done|].
  intros _. by apply throttle_stage_pass.
Qed.
