(* ===== verification/GuardLoad.v ===== *)
(** * Attachment, configuration and liveness of the guard

    [load], [unload], [throttle], [status], [watchdog] and [health]: what they
    leave attached, pinned and configured, in normal operation and when calls
    fail, and that none of them touches a ban. *)
From S2P Require Import Prelude Prog Text Net Bpf Sys Guard GuardBans.
Local Open Scope prog_scope.

(** ** Commands that leave the bans alone *)

(** A call that cannot change a pinned ban map. *)
Definition keeps_bans (X : Type) (e : sys X) : Prop :=
  match e with
  | HashInsert _ _ _ | HashRemove _ _ | RemoveFile _ => False
  | _ => True
  end.

Lemma keeps_bans_step flt X (e : sys X) dir m bm s x s' :
  keeps_bans X e -> sys_spec flt e s x s' -> has_bans dir m bm s -> has_bans dir m bm s'.
Proof.
  unfold has_bans. intros Hk Hs (Hup & Hp & Hm).
  destruct e; simpl in *; unfold hash_call, refused, fault, load_extends, set_pins in *;
    try done; repeat match goal with
    | H : _ /\ _ |- _ => destruct H
    | H : _ \/ _ |- _ => destruct H
    | H : exists _, _ |- _ => destruct H
    | H : context [match ?o with Some _ => _ | None => _ end] |- _ => destruct o eqn:?
    | H : context [match ?o with MBans _ => _ | _ => _ end] |- _ => destruct o eqn:?
    | H : load_done _ _ _ _ |- _ => destruct H as [(? & ? & ? & ? & ? & ?) _]
    end; subst; simpl; auto;
    try (rewrite lookup_insert_ne by (intros ->; congruence); auto);
    split_and!; auto; eapply lookup_weaken; eauto.
Qed.

Lemma quiet_has_bans dir m bm s s' : quiet s s' -> has_bans dir m bm s -> has_bans dir m bm s'.
Proof.
  intros Hq (Hup & Hp & Hm). split; [by apply Hq|]. split.
  - destruct Hq as (_ & _ & _ & -> & _). done.
  - eapply quiet_map_eq; eauto; done.
Qed.

(** [safe] for the programs of [Guard], by their structure. *)
Ltac safe_tac :=
  repeat first
    [ exact I
    | apply safe_bind; [|intros]
    | apply safe_try_bind; [|intros]
    | solve [auto with shield]
    | match goal with
      | |- safe _ (call _) => apply safe_call; [exact I|intros; exact I]
      | |- safe _ (println _) => apply safe_call; [exact I|intros; exact I]
      | |- safe _ (eprintln _) => apply safe_call; [exact I|intros; exact I]
      | |- safe _ (with_context _ _) => apply safe_bind; [|intros]
      | |- safe _ (match ?x with _ => _ end) => destruct x
      | |- safe _ (let _ := _ in _) => cbv zeta
      end ].

Ltac safe_def f := unfold f; safe_tac.

Lemma safe_now_epoch : safe keeps_bans now_epoch_s.
Proof. safe_def now_epoch_s. Qed.
Lemma safe_open_map d n : safe keeps_bans (open_map d n).
Proof. safe_def open_map. Qed.
#[export] Hint Resolve safe_now_epoch safe_open_map : shield.
Lemma safe_config_map d : safe keeps_bans (config_map d).
Proof. safe_def config_map. Qed.
Lemma safe_health_map d : safe keeps_bans (health_map d).
Proof. safe_def health_map. Qed.
#[export] Hint Resolve safe_config_map safe_health_map : shield.
Lemma safe_classifier_attached i : safe keeps_bans (classifier_attached i).
Proof. safe_def classifier_attached. Qed.
Lemma safe_write_heartbeat d : safe keeps_bans (write_heartbeat d).
Proof. safe_def write_heartbeat. Qed.
Lemma safe_set_config d r b : safe keeps_bans (set_config d r b).
Proof. safe_def set_config. Qed.
#[export] Hint Resolve safe_classifier_attached safe_write_heartbeat safe_set_config : shield.
Lemma safe_cmd_load d i r b : safe keeps_bans (cmd_load d i r b).
Proof. safe_def cmd_load. Qed.
#[export] Hint Resolve safe_cmd_load : shield.
Lemma safe_cmd_watchdog d i : safe keeps_bans (cmd_watchdog d i).
Proof. safe_def cmd_watchdog. Qed.
Lemma safe_cmd_status d i : safe keeps_bans (cmd_status d i).
Proof. safe_def cmd_status. Qed.
Lemma safe_cmd_health d a : safe keeps_bans (cmd_health d a).
Proof. safe_def cmd_health. Qed.
Lemma safe_cmd_unload_keep d i : safe keeps_bans (cmd_unload d i false).
Proof. unfold cmd_unload. safe_tac. Qed.
#[export] Hint Resolve safe_cmd_watchdog safe_cmd_status safe_cmd_health safe_cmd_unload_keep : shield.
Lemma safe_finish r : safe keeps_bans (finish r).
Proof. safe_def finish. Qed.
#[export] Hint Resolve safe_finish : shield.
Lemma safe_answer r : safe keeps_bans (answer r).
Proof. safe_def answer. Qed.
#[export] Hint Resolve safe_answer : shield.

(** The commands that may change the set of bans. *)
Definition touches_bans (c : Cmd) : bool :=
  match c with
  | Ban _ _ | Unban _ | Check _ | List | Stats => true
  | Unload _ purge => purge
  | _ => false
  end.

Lemma safe_main c : touches_bans (cmd c) = false -> safe keeps_bans (main c).
Proof.
  destruct c as [d c]. unfold main. cbn [cmd pin_dir]. intros Hc.
  destruct c; cbn [touches_bans] in Hc; try discriminate Hc; subst; safe_tac.
Qed.

(** ** Attachment *)

Definition attached (iface : str) (s : os) : bool :=
  negb (bool_decide (filters_on s iface = [])).

Lemma quiet_filters s s' iface : quiet s s' -> filters_on s' iface = filters_on s iface.
Proof. intros (_ & _ & _ & _ & _ & Hf & _). unfold filters_on. by rewrite Hf. Qed.

Lemma quiet_attached s s' iface : quiet s s' -> attached iface s' = attached iface s.
Proof. intros Hq. unfold attached. by rewrite (quiet_filters s s'). Qed.

Lemma quiet_pins s s' : quiet s s' -> pins s' = pins s.
Proof. by intros (_ & _ & _ & -> & _). Qed.

Lemma quiet_ifaces s s' : quiet s s' -> ifaces s' = ifaces s.
Proof. by intros (_ & _ & _ & _ & -> & _). Qed.

Lemma quiet_trans s1 s2 s3 : quiet s1 s2 -> quiet s2 s3 -> quiet s1 s3.
Proof.
  intros (? & ? & ? & ? & ? & ? & ? & ? & Hm1) (? & ? & ? & ? & ? & ? & ? & ? & Hm2).
  unfold quiet. split_and!; try congruence; [lia|auto|].
  intros m. eapply traffic_opt_trans; eauto.
Qed.

Lemma quiet_pinned s s' dir k o :
  quiet s s' -> pinned_obj s dir k = Some o ->
  kind_of o <> KThrottle -> kind_of o <> KStats -> pinned_obj s' dir k = Some o.
Proof.
  unfold pinned_obj. intros Hq Ho Ht Hs. rewrite (quiet_pins s s' Hq).
  destruct (pins s !! pin_path dir k) as [m|]; [|done]. simpl in *.
  by apply (quiet_map_eq s s').
Qed.

Lemma quiet_pinned_kind s s' dir k o :
  quiet s s' -> pinned_obj s dir k = Some o ->
  exists o', pinned_obj s' dir k = Some o' /\ kind_of o' = kind_of o.
Proof.
  unfold pinned_obj. intros Hq Ho. rewrite (quiet_pins s s' Hq).
  destruct (pins s !! pin_path dir k) as [m|]; [|done]. simpl in *.
  destruct (quiet_maps s s' m o Hq Ho) as (o' & -> & Htr). exists o'. split; [done|].
  by destruct o, o'; simpl in *.
Qed.

(** Whatever fails, a positive answer of [classifier_attached] is true at the
    moment it is given. *)
Lemma wp_classifier_attached flt iface (Q : result bool -> os -> Prop) s :
  (forall s' e, quiet s s' -> (flt = true \/ iface ∉ ifaces s) -> Q (Err e) s') ->
  (forall s', quiet s s' -> Q (Ok (attached iface s')) s') ->
  wp (@sys_spec flt) quiet (classifier_attached iface) Q s.
Proof.
  intros HE HQ. unfold classifier_attached, with_context.
  intros s1 Hq x s2 [-> Hx]. destruct x as [o|e]; simpl.
  - destruct (Hx iface eq_refl eq_refl) as [Hc Hok].
    destruct (o_success o) eqn:Eo; simpl.
    + rewrite (Hc eq_refl). by apply HQ.
    + apply HE; [done|]. destruct flt; [by left|]. right. intros Hi.
      rewrite <- (quiet_ifaces s s1 Hq) in Hi. by discriminate (Hok eq_refl Hi).
  - apply HE; [done|by left].
Qed.

(** The heartbeat, if it is written at all, is the wall clock of the moment. *)
Definition heartbeat (dir : str) (s : os) : option Z :=
  match pinned_obj s dir KHealth with Some (MHealth t) => Some t | _ => None end.

Definition same_but_maps (s s' : os) : Prop :=
  pins s' = pins s /\ filters s' = filters s /\ ifaces s' = ifaces s.

Lemma wp_write_heartbeat flt dir (Q : result unit -> os -> Prop) s :
  (forall s' e, quiet s s' -> (flt = true \/ heartbeat dir s = None) -> Q (Err e) s') ->
  (forall s1 m t, quiet s s1 -> 0 <= t ->
     pins s1 !! pin_path dir KHealth = Some m -> kind_of <$> maps s1 !! m = Some KHealth ->
     Q (Ok tt) (set_map m (MHealth t) s1)) ->
  wp (@sys_spec flt) quiet (write_heartbeat dir) Q s.
Proof.
  intros HE HQ. unfold write_heartbeat, health_map, open_map, with_context.
  assert (Hnone : forall s1, quiet s s1 -> heartbeat dir s1 = None -> heartbeat dir s = None).
  { intros s1 Hq Hn. unfold heartbeat in *. destruct (pinned_obj s dir KHealth) as [o|] eqn:E; [|done].
    destruct o; try done.
    rewrite (quiet_pinned s s1 dir KHealth (MHealth t) Hq E) in Hn by done. done. }
  intros s1 Hq1 x s2 Hc. simpl in Hc.
  change (path_join dir (lit "shield_health")) with (pin_path dir KHealth) in Hc.
  destruct (pins s1 !! pin_path dir KHealth) as [m|] eqn:Ep.
  2:{ destruct Hc as [-> [e ->]]. apply HE; [done|right].
      apply (Hnone s1 Hq1). unfold heartbeat, pinned_obj. by rewrite Ep. }
  destruct Hc as [[-> ->]|(-> & -> & e & ->)]; [|apply HE; [done|by left]].
  intros s3 Hq3 x s4 Hc. simpl in Hc. pose proof (quiet_trans s s1 s3 Hq1 Hq3) as Hq13.
  rewrite <- (quiet_pins s1 s3 Hq3) in Ep.
  destruct (maps s3 !! m) as [o|] eqn:Em.
  2:{ destruct Hc as [-> [e ->]]. apply HE; [done|right].
      apply (Hnone s3 Hq13). unfold heartbeat, pinned_obj. rewrite Ep. simpl. by rewrite Em. }
  destruct Hc as [(-> & Hk & ->)|[[Hk (-> & e & ->)]|(-> & -> & e & ->)]].
  2:{ apply HE; [done|right]. apply (Hnone s3 Hq13). unfold heartbeat, pinned_obj.
      rewrite Ep. simpl. rewrite Em. by destruct o. }
  2:{ apply HE; [done|by left]. }
  intros s5 Hq5 x s6 [-> ->]. intros s7 Hq7 x s8 Hc. simpl in Hc.
  pose proof (quiet_trans s s5 s7 (quiet_trans s s3 s5 Hq13 Hq5) Hq7) as Hq17.
  destruct o; simpl in Hk; try discriminate Hk.
  rewrite (quiet_map_eq s3 s7 m (MHealth t) (quiet_trans s3 s5 s7 Hq5 Hq7) Em) in Hc by done.
  destruct Hc as [[-> ->]|(-> & -> & e & ->)].
  - eapply HQ; [done| | |].
    + case_if; bool_facts; lia.
    + by rewrite (quiet_pins s5 s7 Hq7), (quiet_pins s3 s5 Hq5).
    + by rewrite (quiet_map_eq s3 s7 m (MHealth t) (quiet_trans s3 s5 s7 Hq5 Hq7) Em) by done.
  - apply HE; [done|by left].
Qed.

Lemma attached_set_map iface m o s : attached iface (set_map m o s) = attached iface s.
Proof. done. Qed.

Lemma heartbeat_set dir m t s :
  pins s !! pin_path dir KHealth = Some m -> heartbeat dir (set_map m (MHealth t) s) = Some t.
Proof. intros Hp. unfold heartbeat, pinned_obj. simpl. rewrite Hp. simpl. by rewrite lookup_insert_eq. Qed.

Lemma quiet_heartbeat s s' dir t : quiet s s' -> heartbeat dir s = Some t -> heartbeat dir s' = Some t.
Proof.
  unfold heartbeat. intros Hq. destruct (pinned_obj s dir KHealth) as [o|] eqn:E; [|done].
  destruct o; try done. intros [= ->].
  by rewrite (quiet_pinned s s' dir KHealth (MHealth t) Hq E) by done.
Qed.

(** A successful [watchdog] leaves the classifier attached and a heartbeat,
    whatever calls failed on the way. *)
Lemma cmd_watchdog_attached dir iface s :
  wp (@sys_spec true) quiet (cmd_watchdog dir iface)
    (fun r s' => r = Ok tt -> attached iface s' = true /\ exists t, 0 <= t /\ heartbeat dir s' = Some t) s.
Proof.
  assert (Hfin : forall (Q : result unit -> os -> Prop) s,
    (forall e s', Q (Err e) s') ->
    (forall s' t, attached iface s' = attached iface s -> 0 <= t -> heartbeat dir s' = Some t ->
       Q (Ok tt) s') ->
    wp (@sys_spec true) quiet (write_heartbeat dir) Q s).
  { intros Q s1 HE HQ. apply wp_write_heartbeat; [auto|].
    intros s2 m t Hq Ht Hp _. eapply HQ; [|done|by apply heartbeat_set].
    rewrite attached_set_map. by apply quiet_attached. }
  unfold cmd_watchdog. apply wp_try, wp_classifier_attached; [done|].
  intros s1 Hq1. destruct (attached iface s1) eqn:Ea.
  - apply wp_try, Hfin; [done|]. intros s2 t Ha Ht Hh _. rewrite Ha. eauto.
  - apply wp_seq, wp_any. intros _ s2. apply wp_seq, wp_any. intros c s3.
    apply wp_try, wp_any. intros [u|e] s4; [|done].
    apply wp_try, wp_classifier_attached; [done|]. intros s5 Hq5.
    destruct (attached iface s5) eqn:Ea5; cbn [negb]; [|by intros].
    apply wp_try, Hfin; [done|]. intros s6 t Ha Ht Hh.
    apply wp_seq. intros s7 Hq7 [] s8 Hc. simpl in Hc. subst s8. intros _.
    change (attached iface (add_stderr _ s7)) with (attached iface s7).
    rewrite (quiet_attached s6 s7 iface Hq7), Ha, Ea5. split; [done|]. exists t.
    split; [done|]. exact (quiet_heartbeat s6 s7 dir t Hq7 Hh).
Qed.

(** ** Loading *)

(** The program [p] is made of the maps pinned under [dir]; the ban map and
    the heartbeat are [ob] and [oh], and [fs] is attached to [iface]. *)
Record loaded_st (dir iface : str) (p : program) (ob oh : map_obj) (oc : Config)
    (fs : list program) (s : os) : Prop := {
  ls_pin_bans : pins s !! pin_path dir KBans = Some (pg_bans p);
  ls_pin_throttle : pins s !! pin_path dir KThrottle = Some (pg_throttle p);
  ls_pin_config : pins s !! pin_path dir KConfig = Some (pg_config p);
  ls_pin_stats : pins s !! pin_path dir KStats = Some (pg_stats p);
  ls_bans : pinned_obj s dir KBans = Some ob /\ kind_of ob = KBans;
  ls_health : pinned_obj s dir KHealth = Some oh /\ kind_of oh = KHealth;
  ls_config : pinned_obj s dir KConfig = Some (MConfig oc);
  ls_kinds : forall k, exists o, pinned_obj s dir k = Some o /\ kind_of o = k;
  ls_filters : filters_on s iface = fs;
  ls_iface : iface ∈ ifaces s;
}.

Lemma loaded_quiet dir iface p ob oh oc fs s s' :
  quiet s s' -> loaded_st dir iface p ob oh oc fs s -> loaded_st dir iface p ob oh oc fs s'.
Proof.
  intros Hq []. split; rewrite ?(quiet_pins s s' Hq), ?(quiet_ifaces s s' Hq); auto.
  - destruct ls_bans0 as [? Hk]. split; [|done].
    apply (quiet_pinned s s' dir KBans ob Hq); [done|rewrite Hk..]; done.
  - destruct ls_health0 as [? Hk]. split; [|done].
    apply (quiet_pinned s s' dir KHealth oh Hq); [done|rewrite Hk..]; done.
  - by apply (quiet_pinned s s' dir KConfig).
  - intros k. destruct (ls_kinds0 k) as (o & Ho & Hk).
    destruct (quiet_pinned_kind s s' dir k o Hq Ho) as (o' & ? & ?). exists o'. split; congruence.
  - by rewrite (quiet_filters s s').
Qed.

Lemma loaded_filters dir iface p ob oh oc fs fs' s :
  loaded_st dir iface p ob oh oc fs s -> loaded_st dir iface p ob oh oc fs' (set_filters iface fs' s).
Proof.
  intros []. split; simpl; auto. unfold filters_on. simpl. by rewrite lookup_insert_eq.
Qed.

Lemma pinned_obj_set s dir k m o o' k' :
  pins s !! pin_path dir k' = Some m -> maps s !! m = Some o -> kind_of o = k' ->
  (forall o2, pinned_obj s dir k = Some o2 -> kind_of o2 = k) -> k <> k' ->
  pinned_obj (set_map m o' s) dir k = pinned_obj s dir k.
Proof.
  unfold pinned_obj. simpl. intros Hp Hm Hk Hk2 Hne.
  destruct (pins s !! pin_path dir k) as [m2|] eqn:E; [|done]. simpl in *.
  rewrite lookup_insert_ne; [done|]. intros <-. apply Hne.
  rewrite <- (Hk2 o Hm). done.
Qed.

Lemma loaded_set_config dir iface p ob oh oc oc' fs s m :
  loaded_st dir iface p ob oh oc fs s -> pins s !! pin_path dir KConfig = Some m ->
  loaded_st dir iface p ob oh oc' fs (set_map m (MConfig oc') s).
Proof.
  intros [] Hp. pose proof ls_config0 as Hc. unfold pinned_obj in Hc. rewrite Hp in Hc. simpl in Hc.
  assert (Hkind : forall k o2, pinned_obj s dir k = Some o2 -> kind_of o2 = k).
  { intros k o2 Ho. destruct (ls_kinds0 k) as (o & ? & ?). congruence. }
  assert (Hset : forall k, k <> KConfig ->
    pinned_obj (set_map m (MConfig oc') s) dir k = pinned_obj s dir k).
  { intros k Hne. apply (pinned_obj_set s dir k m (MConfig oc) (MConfig oc') KConfig); auto. }
  assert (Hcfg : pinned_obj (set_map m (MConfig oc') s) dir KConfig = Some (MConfig oc')).
  { unfold pinned_obj. simpl. rewrite Hp. simpl. apply lookup_insert_eq. }
  split; auto.
  - by rewrite Hset.
  - by rewrite Hset.
  - intros k. destruct (decide (k = KConfig)) as [->|]; [eauto|]. rewrite Hset by done. auto.
Qed.

Lemma loaded_println dir iface p ob oh oc fs s l :
  loaded_st dir iface p ob oh oc fs s -> loaded_st dir iface p ob oh oc fs (add_stdout l s).
Proof. intros []. by split. Qed.
Lemma loaded_eprintln dir iface p ob oh oc fs s l :
  loaded_st dir iface p ob oh oc fs s -> loaded_st dir iface p ob oh oc fs (add_stderr l s).
Proof. intros []. by split. Qed.

(** What [set_config] stores for a requested rate and burst. *)
Definition stored_config (rate burst : Z) : Config :=
  {| rate_pps := rate; burst_pkts := if (0 <? rate) && (burst =? 0) then 1 else burst |}.

(** The contents of a map before a load, which creates the missing ones. *)
Definition or_created (s : os) (dir : str) (k : map_kind) : map_obj :=
  default (empty_map k) (pinned_obj s dir k).

Definition can_load (dir : str) (s : os) : Prop :=
  forall k, match pinned_obj s dir k with
            | Some o => kind_of o = k
            | None => pins s !! pin_path dir k = None
            end.

Lemma load_done_created dir s p s' k :
  load_done dir s p s' -> can_load dir s -> pinned_obj s' dir k = Some (or_created s dir k).
Proof.
  intros ((ps & ms & -> & Hps & Hms & _) & _ & _ & _ & _ & Hk) Hc.
  destruct (Hk k) as (o & Ho & _ & Hnew). specialize (Hc k). unfold or_created.
  destruct (pinned_obj s dir k) as [o1|] eqn:E.
  - unfold pinned_obj in *. simpl in *.
    destruct (pins s !! pin_path dir k) as [m|] eqn:Ep; [|done]. simpl in *.
    rewrite (lookup_weaken _ ps _ _ Ep Hps). simpl. eapply lookup_weaken; eauto.
  - rewrite Ho, (Hnew Hc). done.
Qed.

Lemma or_created_kind s dir k : can_load dir s -> kind_of (or_created s dir k) = k.
Proof.
  intros Hc. specialize (Hc k). unfold or_created. destruct (pinned_obj s dir k); [done|].
  by destruct k.
Qed.

Lemma can_load_quiet s s' dir : quiet s s' -> can_load dir s -> can_load dir s'.
Proof.
  intros Hq Hc k. specialize (Hc k). destruct (pinned_obj s dir k) as [o|] eqn:E.
  - destruct (quiet_pinned_kind s s' dir k o Hq E) as (o' & -> & ->). done.
  - unfold pinned_obj. rewrite (quiet_pins s s' Hq), Hc. done.
Qed.

Lemma or_created_quiet s s' dir k :
  quiet s s' -> can_load dir s -> k <> KThrottle -> k <> KStats ->
  or_created s' dir k = or_created s dir k.
Proof.
  intros Hq Hc Ht Hs. specialize (Hc k). unfold or_created.
  destruct (pinned_obj s dir k) as [o|] eqn:E.
  - rewrite (quiet_pinned s s' dir k o Hq E); congruence.
  - unfold pinned_obj. rewrite (quiet_pins s s' Hq), Hc. done.
Qed.

Lemma wp_config_map dir iface p ob oh oc fs (Q : result map_id -> os -> Prop) s :
  loaded_st dir iface p ob oh oc fs s ->
  (forall s', loaded_st dir iface p ob oh oc fs s' -> Q (Ok (pg_config p)) s') ->
  wpq (config_map dir) Q s.
Proof.
  intros Hs HQ. unfold config_map, open_map, with_context.
  intros s1 Hq1 x s2 Hc. simpl in Hc.
  change (path_join dir (lit "shield_config")) with (pin_path dir KConfig) in Hc.
  pose proof (loaded_quiet _ _ _ _ _ _ _ _ _ Hq1 Hs) as Hs1.
  rewrite (ls_pin_config _ _ _ _ _ _ _ _ Hs1) in Hc.
  destruct Hc as [[-> ->]|[? _]]; [|done]. intros s3 Hq3 x s4 Hc. simpl in Hc.
  pose proof (loaded_quiet _ _ _ _ _ _ _ _ _ Hq3 Hs1) as Hs3.
  pose proof (ls_config _ _ _ _ _ _ _ _ Hs3) as Hcfg. unfold pinned_obj in Hcfg.
  rewrite (ls_pin_config _ _ _ _ _ _ _ _ Hs3) in Hcfg. simpl in Hcfg. rewrite Hcfg in Hc.
  destruct Hc as [(-> & _ & ->)|[[? _]|[? _]]]; [|done..]. by apply HQ.
Qed.

Lemma loaded_config_map dir iface p ob oh oc fs s :
  loaded_st dir iface p ob oh oc fs s -> maps s !! pg_config p = Some (MConfig oc).
Proof.
  intros []. unfold pinned_obj in ls_config0. by rewrite ls_pin_config0 in ls_config0.
Qed.

Lemma wp_set_config dir iface p ob oh oc fs rate burst (Q : result unit -> os -> Prop) s :
  loaded_st dir iface p ob oh oc fs s ->
  (forall s', loaded_st dir iface p ob oh (stored_config rate burst) fs s' -> Q (Ok tt) s') ->
  wpq (set_config dir rate burst) Q s.
Proof.
  intros Hs HQ. unfold set_config. apply wp_try. eapply wp_config_map; [done|].
  intros s1 Hs1 s2 Hq2 x s3 Hc. simpl in Hc.
  pose proof (loaded_quiet _ _ _ _ _ _ _ _ _ Hq2 Hs1) as Hs2.
  rewrite (loaded_config_map _ _ _ _ _ _ _ _ Hs2) in Hc.
  destruct Hc as [[-> ->]|[? _]]; [|done]. apply HQ.
  eapply loaded_set_config; [done|]. apply (ls_pin_config _ _ _ _ _ _ _ _ Hs2).
Qed.

Lemma wp_loaded_println dir iface p ob oh oc fs l (Q : unit -> os -> Prop) s :
  loaded_st dir iface p ob oh oc fs s ->
  (forall s', loaded_st dir iface p ob oh oc fs s' -> Q tt s') -> wpq (println l) Q s.
Proof.
  intros Hs HQ s1 Hq [] s2 Hc. simpl in Hc. subst. apply HQ, loaded_println.
  by eapply loaded_quiet.
Qed.

(** The state after the loader has created or reused the maps. *)
Lemma load_done_loaded dir iface p s s' :
  load_done dir s p s' -> can_load dir s -> iface ∈ ifaces s ->
  exists oc fs, loaded_st dir iface p (or_created s dir KBans) (or_created s dir KHealth) oc fs s'.
Proof.
  intros Hl Hc Hi.
  pose proof (load_done_created dir s p s' KConfig Hl Hc) as Hcfg.
  pose proof (or_created_kind s dir KConfig Hc) as Hkc.
  destruct (or_created s dir KConfig) as [| |c| |]; try discriminate Hkc.
  exists c, (filters_on s' iface).
  pose proof Hl as ((ps & ms & Hs' & _) & ? & ? & ? & ? & Hk).
  split; try done.
  - split; [by apply (load_done_created dir s p)|by apply or_created_kind].
  - split; [by apply (load_done_created dir s p)|by apply or_created_kind].
  - intros k. destruct (Hk k) as (o & ? & ? & _). eauto.
  - by subst s'.
Qed.

(** Before the load: the pin directory exists and its pins are usable. *)
Definition prep_st (dir iface : str) (ob oh : map_obj) (s : os) : Prop :=
  dir ∈ dirs s /\ can_load dir s /\ iface ∈ ifaces s /\
  or_created s dir KBans = ob /\ or_created s dir KHealth = oh.

Lemma prep_quiet dir iface ob oh s s' : quiet s s' -> prep_st dir iface ob oh s -> prep_st dir iface ob oh s'.
Proof.
  intros Hq (Hd & Hc & Hi & Hb & Hh). unfold prep_st.
  rewrite (or_created_quiet s s'), (or_created_quiet s s' dir KHealth), (quiet_ifaces s s') by done.
  split_and!; try done; [|by eapply can_load_quiet]. by destruct Hq as (_ & _ & -> & _).
Qed.

Lemma wp_create_dir dir iface (Q : result unit -> os -> Prop) s :
  can_load dir s -> iface ∈ ifaces s ->
  (forall s', prep_st dir iface (or_created s dir KBans) (or_created s dir KHealth) s' -> Q (Ok tt) s') ->
  wpq (call (CreateDirAll dir)) Q s.
Proof.
  intros Hc Hi HQ s1 Hq x s2 [[-> ->]|[? _]]; [|done]. apply HQ. unfold prep_st.
  rewrite <- (or_created_quiet s s1), <- (or_created_quiet s s1 dir KHealth) by done.
  split_and!; try done.
  - simpl. by apply elem_of_union_l, elem_of_singleton.
  - apply (can_load_quiet s s1 dir Hq Hc).
  - simpl. by rewrite (quiet_ifaces s s1).
Qed.

Lemma wp_ebpf_load dir iface ob oh (Q : result program -> os -> Prop) s :
  prep_st dir iface ob oh s ->
  (forall p oc fs s', loaded_st dir iface p ob oh oc fs s' -> Q (Ok p) s') ->
  wpq (call (EbpfLoad dir)) Q s.
Proof.
  intros Hp HQ s1 Hq x s2 Hl. pose proof (prep_quiet _ _ _ _ _ _ Hq Hp) as (Hd & Hc & Hi & <- & <-).
  destruct Hl as [(p & Hl & ->)|[[?|Hn] _]]; [|done|by destruct Hn].
  destruct (load_done_loaded dir iface p s1 s2 Hl Hc Hi) as (oc & fs & Hst). by eapply HQ.
Qed.

(** A call that only answers. *)
Lemma wp_loaded_pure {X} (e : sys X) (x0 : X) dir iface p ob oh oc fs (Q : X -> os -> Prop) s :
  (forall s1 x s2, sys_spec false e s1 x s2 -> s2 = s1 /\ x = x0) ->
  loaded_st dir iface p ob oh oc fs s ->
  (forall s', loaded_st dir iface p ob oh oc fs s' -> Q x0 s') ->
  wpq (call e) Q s.
Proof.
  intros He Hs HQ s1 Hq x s2 Hst. destruct (He _ _ _ Hst) as [-> ->].
  apply HQ. by eapply loaded_quiet.
Qed.

Lemma wp_qdisc_add dir iface p ob oh oc fs (Q : result unit -> os -> Prop) s :
  loaded_st dir iface p ob oh oc fs s ->
  (forall r s', loaded_st dir iface p ob oh oc fs s' -> Q r s') ->
  wpq (call (QdiscAddClsact iface)) Q s.
Proof.
  intros Hs HQ s1 Hq x s2 Heq. simpl in Heq. subst s2. apply HQ. by eapply loaded_quiet.
Qed.

Lemma wp_detach dir iface p ob oh oc fs (Q : result unit -> os -> Prop) s :
  loaded_st dir iface p ob oh oc fs s ->
  (forall r s', loaded_st dir iface p ob oh oc [] s' -> Q r s') ->
  wpq (call (QdiscDetachProgram iface PROG_NAME)) Q s.
Proof.
  intros Hs HQ s1 Hq x s2 Hdet. simpl in Hdet.
  pose proof (loaded_quiet _ _ _ _ _ _ _ _ _ Hq Hs) as Hs1. apply HQ.
  destruct Hdet as [(_ & -> & _)|[[Hf [-> _]]|[? _]]]; [by eapply loaded_filters| |done].
  destruct Hs1. by split.
Qed.

Lemma wp_attach dir iface p ob oh oc (Q : result unit -> os -> Prop) s :
  loaded_st dir iface p ob oh oc [] s ->
  (forall s', loaded_st dir iface p ob oh oc [p] s' -> Q (Ok tt) s') ->
  wpq (call (Attach iface p)) Q s.
Proof.
  intros Hs HQ s1 Hq x s2 Hat. simpl in Hat.
  pose proof (loaded_quiet _ _ _ _ _ _ _ _ _ Hq Hs) as Hs1.
  destruct Hat as [(_ & -> & ->)|[[Hn _]|[? _]]];
    [|destruct Hn; apply (ls_iface _ _ _ _ _ _ _ _ Hs1)|done].
  rewrite (ls_filters _ _ _ _ _ _ _ _ Hs1). apply HQ. by eapply loaded_filters.
Qed.

Lemma wp_with_context {A} ctx (m : io (result A)) (Q : result A -> os -> Prop) s :
  wpq m (fun r s' => exists a, r = Ok a /\ Q (Ok a) s') s -> wpq (with_context ctx m) Q s.
Proof.
  intros Hm. unfold with_context. apply wp_seq. eapply wp_mono; [|exact Hm].
  by intros r s' (a & -> & HQ).
Qed.

(** Loading with every map usable: attached once, bans and heartbeat kept. *)
Lemma cmd_load_done dir iface rate burst s :
  can_load dir s -> iface ∈ ifaces s ->
  wpq (cmd_load dir iface rate burst)
    (fun r s' => r = Ok tt /\ exists p,
       loaded_st dir iface p (or_created s dir KBans) (or_created s dir KHealth)
         (stored_config rate burst) [p] s') s.
Proof.
  intros Hc Hi. unfold cmd_load.
  apply wp_try, wp_with_context. eapply wp_create_dir; [done..|]. intros s1 Hs1. eexists; split; [done|].
  apply wp_try, wp_with_context. eapply wp_ebpf_load; [done|]. intros p oc fs s2 Hs2. eexists; split; [done|].
  apply wp_seq. eapply (wp_loaded_pure _ (Some p)); [by intros ??? [-> [->|[? _]]]|done|]. intros s3 Hs3.
  apply wp_try. eapply (wp_loaded_pure _ (Ok p)); [by intros ??? [[-> ->]|[? _]]|done|]. intros s4 Hs4.
  apply wp_try, wp_with_context.
  eapply (wp_loaded_pure _ (Ok tt)); [by intros ??? [[-> ->]|[? _]]|done|]. intros s5 Hs5. eexists; split; [done|].
  apply wp_seq. eapply wp_qdisc_add; [done|]. intros r6 s6 Hs6.
  apply wp_seq. eapply wp_detach; [done|]. intros r7 s7 Hs7.
  apply wp_try, wp_with_context. eapply wp_attach; [done|]. intros s8 Hs8. eexists; split; [done|].
  apply wp_seq. eapply (wp_loaded_pure _ (Ok tt)); [by intros ??? [[-> ->]|[? _]]|done|]. intros s9 Hs9.
  apply wp_try. eapply wp_set_config; [done|]. intros s10 Hs10.
  apply wp_seq. eapply wp_loaded_println; [done|]. intros s11 Hs11.
  apply wp_seq. destruct (0 <? rate);
    (eapply wp_loaded_println; [done|]; intros s12 Hs12; split; [done|eauto]).
Qed.

(** ** The watchdog's repair *)

(** A configuration [set_config] has written: a throttle has some burst. *)
Definition config_normal (c : Config) : Prop := stored_config (rate_pps c) (burst_pkts c) = c.

Lemma stored_config_normal rate burst : config_normal (stored_config rate burst).
Proof.
  unfold config_normal, stored_config. simpl.
  destruct (0 <? rate), (burst =? 0) eqn:E; simpl; rewrite ?E; done.
Qed.

Lemma stored_config_burst rate burst :
  0 <= burst -> 0 < rate -> 0 < burst_pkts (stored_config rate burst).
Proof.
  intros Hb Hr. unfold stored_config. simpl.
  replace (0 <? rate) with true by (symmetry; lia). simpl.
  destruct (burst =? 0) eqn:E; bool_facts; lia.
Qed.

Lemma loaded_can_load dir iface p ob oh oc fs s :
  loaded_st dir iface p ob oh oc fs s ->
  can_load dir s /\ or_created s dir KBans = ob /\ or_created s dir KHealth = oh.
Proof.
  intros []. split_and!.
  - intros k. destruct (ls_kinds0 k) as (o & -> & ?). done.
  - unfold or_created. by destruct ls_bans0 as [-> _].
  - unfold or_created. by destruct ls_health0 as [-> _].
Qed.

Lemma loaded_set_health dir iface p ob oh oc fs s m t :
  loaded_st dir iface p ob oh oc fs s -> pins s !! pin_path dir KHealth = Some m ->
  loaded_st dir iface p ob (MHealth t) oc fs (set_map m (MHealth t) s).
Proof.
  intros [] Hp. destruct ls_health0 as [Ho Hk].
  pose proof Ho as Hm. unfold pinned_obj in Hm. rewrite Hp in Hm. simpl in Hm.
  assert (Hkind : forall k o2, pinned_obj s dir k = Some o2 -> kind_of o2 = k).
  { intros k o2 Ho2. destruct (ls_kinds0 k) as (o & ? & ?). congruence. }
  assert (Hset : forall k, k <> KHealth ->
    pinned_obj (set_map m (MHealth t) s) dir k = pinned_obj s dir k).
  { intros k Hne. apply (pinned_obj_set s dir k m oh (MHealth t) KHealth); auto. }
  assert (Hh : pinned_obj (set_map m (MHealth t) s) dir KHealth = Some (MHealth t)).
  { unfold pinned_obj. simpl. rewrite Hp. simpl. apply lookup_insert_eq. }
  split; auto; rewrite ?Hset by done; try done.
  intros k. destruct (decide (k = KHealth)) as [->|]; [eauto|]. rewrite Hset by done. auto.
Qed.

Lemma loaded_heartbeat dir iface p ob oh oc fs s :
  loaded_st dir iface p ob oh oc fs s -> heartbeat dir s <> None.
Proof. intros []. destruct ls_health0 as [Ho Hk]. unfold heartbeat. rewrite Ho. by destruct oh. Qed.

Lemma wp_loaded_heartbeat dir iface p ob oh oc fs (Q : result unit -> os -> Prop) s :
  loaded_st dir iface p ob oh oc fs s ->
  (forall t s', 0 <= t -> loaded_st dir iface p ob (MHealth t) oc fs s' -> Q (Ok tt) s') ->
  wpq (write_heartbeat dir) Q s.
Proof.
  intros Hs HQ. apply wp_write_heartbeat.
  - intros s1 e Hq [?|Hn]; [done|]. by destruct (loaded_heartbeat _ _ _ _ _ _ _ _ Hs).
  - intros s1 m t Hq Ht Hp _. eapply HQ; [done|]. eapply loaded_set_health; [|done].
    by eapply loaded_quiet.
Qed.

Lemma wp_loaded_attached dir iface p ob oh oc fs (Q : result bool -> os -> Prop) s :
  loaded_st dir iface p ob oh oc fs s ->
  (forall s', loaded_st dir iface p ob oh oc fs s' -> Q (Ok (negb (bool_decide (fs = [])))) s') ->
  wpq (classifier_attached iface) Q s.
Proof.
  intros Hs HQ. apply wp_classifier_attached.
  - intros s1 e Hq [?|Hn]; [done|]. by destruct Hn, Hs.
  - intros s1 Hq. pose proof (loaded_quiet _ _ _ _ _ _ _ _ _ Hq Hs) as Hs1.
    unfold attached. rewrite (ls_filters _ _ _ _ _ _ _ _ Hs1). by apply HQ.
Qed.

Lemma wp_loaded_eprintln dir iface p ob oh oc fs l (Q : unit -> os -> Prop) s :
  loaded_st dir iface p ob oh oc fs s ->
  (forall s', loaded_st dir iface p ob oh oc fs s' -> Q tt s') -> wpq (eprintln l) Q s.
Proof.
  intros Hs HQ s1 Hq [] s2 Hc. simpl in Hc. subst. apply HQ, loaded_eprintln.
  by eapply loaded_quiet.
Qed.

(** A detached classifier is attached again, with the throttle it had. *)
Lemma cmd_watchdog_repairs dir iface p ob oh oc s :
  loaded_st dir iface p ob oh oc [] s -> config_normal oc ->
  wpq (cmd_watchdog dir iface)
    (fun r s' => r = Ok tt /\ exists p' t, 0 <= t /\
       loaded_st dir iface p' ob (MHealth t) oc [p'] s') s.
Proof.
  intros Hs Hn. unfold cmd_watchdog. unfold config_normal in Hn.
  apply wp_try. eapply wp_loaded_attached; [done|]. intros s1 Hs1. cbn [negb bool_decide].
  rewrite bool_decide_eq_true_2 by done. cbn [negb].
  apply wp_seq. eapply wp_loaded_eprintln; [done|]. intros s2 Hs2.
  apply wp_seq, wp_try. eapply wp_config_map; [done|]. intros s3 Hs3.
  intros s4 Hq4 x s5 Hget. simpl in Hget.
  pose proof (loaded_quiet _ _ _ _ _ _ _ _ _ Hq4 Hs3) as Hs4.
  rewrite (loaded_config_map _ _ _ _ _ _ _ _ Hs4) in Hget.
  destruct Hget as [[-> ->]|[? _]]; [|done]. cbn [unwrap_or].
  destruct (loaded_can_load _ _ _ _ _ _ _ _ Hs4) as (Hc & Hb & Hh).
  apply wp_try. eapply wp_mono;
    [|apply cmd_load_done; [done|apply (ls_iface _ _ _ _ _ _ _ _ Hs4)]].
  intros r s6 (-> & p' & Hs6). cbn [unwrap_or] in Hs6. rewrite Hb, Hh, Hn in Hs6.
  apply wp_try. eapply wp_loaded_attached; [done|]. intros s7 Hs7.
  rewrite bool_decide_eq_false_2 by done. cbn [negb].
  apply wp_try. eapply wp_loaded_heartbeat; [done|]. intros t s8 Ht Hs8.
  apply wp_seq. eapply wp_loaded_eprintln; [done|]. intros s9 Hs9.
  split; [done|]. eauto.
Qed.

(** ** Health *)

(** The wall clock as [now_epoch_s] reads it. *)
Definition wall (s : os) : Z := if epoch_s s <? 0 then 0 else epoch_s s.

Lemma wp_epoch flt (Q : Z -> os -> Prop) s :
  (forall s', quiet s s' -> Q (wall s') s') -> wp (@sys_spec flt) quiet now_epoch_s Q s.
Proof. intros HQ s1 Hq x s2 [-> ->]. by apply HQ. Qed.

(** The verdict of [health] on a heartbeat. *)
Definition healthy (last now max_age : Z) : bool :=
  (last =? 0) || (saturating_sub now last <=? max_age).

Lemma wp_health_map flt dir t (Q : result map_id -> os -> Prop) s :
  heartbeat dir s = Some t ->
  (forall e s', flt = true -> Q (Err e) s') ->
  (forall m s', quiet s s' -> maps s' !! m = Some (MHealth t) -> Q (Ok m) s') ->
  wp (@sys_spec flt) quiet (health_map dir) Q s.
Proof.
  intros Hh HE HQ. unfold health_map, open_map, with_context.
  intros s1 Hq1 x s2 Hc. simpl in Hc.
  change (path_join dir (lit "shield_health")) with (pin_path dir KHealth) in Hc.
  pose proof (quiet_heartbeat s s1 dir t Hq1 Hh) as Hh1.
  unfold heartbeat, pinned_obj in Hh1.
  destruct (pins s1 !! pin_path dir KHealth) as [m|] eqn:Ep; [|done]. simpl in Hh1.
  destruct (maps s1 !! m) as [o|] eqn:Em; [|done]. destruct o; try done. simplify_eq.
  destruct Hc as [[-> ->]|(-> & -> & e & ->)]; [|by apply HE].
  intros s3 Hq3 x s4 Hc. simpl in Hc.
  pose proof (quiet_map_eq s1 s3 m (MHealth t) Hq3 Em) as Em3.
  rewrite Em3 in Hc by done.
  destruct Hc as [(-> & _ & ->)|[[? _]|(-> & -> & e & ->)]]; [|done|by apply HE].
  apply HQ; [by eapply quiet_trans|by apply Em3].
Qed.

Lemma cmd_health_answers dir max_age t s :
  heartbeat dir s = Some t ->
  wpq (cmd_health dir max_age)
    (fun r s' => exists s1, quiet s s1 /\ r = Ok (healthy t (wall s1) max_age) /\
       heartbeat dir s' = Some t) s.
Proof.
  intros Hh. unfold cmd_health.
  assert (Hpr : forall l b s1 s2, quiet s s1 -> quiet s1 s2 -> b = healthy t (wall s1) max_age ->
    wpq (println l ;;; Ret (Ok b))
      (fun (r : result bool) s' => exists s1, quiet s s1 /\ r = Ok (healthy t (wall s1) max_age) /\
        heartbeat dir s' = Some t) s2).
  { intros l b s1 s2 Hq1 Hq2 -> s3 Hq3 [] s4 Hc. simpl in Hc. subst s4.
    exists s1. split_and!; [done|done|]. apply (quiet_heartbeat s s3 dir t); [|done].
    eauto using quiet_trans. }
  apply wp_try. eapply wp_health_map; [done|done|]. intros m s1 Hq1 Hm1.
  apply wp_seq, wp_call. intros s2 Hq2 x s3 Hc. simpl in Hc.
  rewrite (quiet_map_eq s1 s2 m (MHealth t) Hq2 Hm1) in Hc by done.
  destruct Hc as [[-> ->]|[? _]]; [|done].
  cbn beta zeta. change (@unwrap_or err Z 0 (Ok t)) with t.
  destruct (t =? 0) eqn:E.
  - apply wp_seq, wp_call. intros s4 Hq4 [] s5 Hc. simpl in Hc. subst s5.
    apply wp_seq, wp_call. intros s5 Hq5 [] s6 Hc. simpl in Hc. subst s6.
    exists s. split_and!; [apply quiet_refl|unfold healthy; by rewrite E|].
    apply (quiet_heartbeat (add_stderr _ s4) s5 dir t Hq5), (quiet_heartbeat s s4); [|done].
    eauto using quiet_trans.
  - apply wp_seq, wp_epoch. intros s4 Hq4. cbn beta zeta.
    change (@unwrap_or err Z 0 (Ok t)) with t.
    assert (Hq : quiet s s4) by eauto using quiet_trans.
    destruct (max_age <? saturating_sub (wall s4) t) eqn:Ea.
    + apply (Hpr _ _ s4 s4 Hq (quiet_refl s4)). unfold healthy. rewrite E. simpl. bool_facts. lia.
    + apply (Hpr _ _ s4 s4 Hq (quiet_refl s4)). unfold healthy. rewrite E. simpl. bool_facts. lia.
Qed.
