(* ===== verification/GuardUnload.v ===== *)
(** * Unloading the guard, and answers under faults

    What [unload] detaches and unpins, with and without [--purge], and what
    the answer of [check] is worth when calls may fail. *)
From S2P Require Import Prelude Prog Text Net Bpf Sys Guard GuardBans GuardLoad.
Local Open Scope prog_scope.

(** ** The pin paths are distinct *)

Lemma path_join_inj dir n1 n2 :
  head n1 <> Some SLASH -> head n2 <> Some SLASH -> path_join dir n1 = path_join dir n2 -> n1 = n2.
Proof.
  assert (Hpre : exists pre, forall n, head n <> Some SLASH -> path_join dir n = pre ++ n).
  { destruct dir as [|c dir].
    - exists []. intros n Hn. unfold path_join. repeat case_match; subst; done.
    - exists (if ends_with_char SLASH (c :: dir) then c :: dir else (c :: dir) ++ [SLASH]).
      intros n Hn. unfold path_join. rewrite (app_assoc (c :: dir) [SLASH] n).
      destruct (ends_with_char SLASH (c :: dir)); repeat case_match; subst; done. }
  destruct Hpre as [pre Hpre]. intros H1 H2. rewrite !Hpre by done. apply app_inv_head.
Qed.

Lemma map_name_head k : head (map_name k) <> Some SLASH.
Proof. destruct k; vm_compute; congruence. Qed.

Lemma map_name_inj k k' : map_name k = map_name k' -> k = k'.
Proof. destruct k, k'; try done; intros H; vm_compute in H; discriminate. Qed.

Lemma pin_path_inj dir k k' : pin_path dir k = pin_path dir k' -> k = k'.
Proof. intros H. apply map_name_inj, (path_join_inj dir); auto using map_name_head. Qed.

(** The kinds of map [--purge] unpins: all but the heartbeat. *)
Definition purged : list map_kind := [KBans; KThrottle; KConfig; KStats].

Lemma purge_names_kinds : purge_names = map map_name purged.
Proof. reflexivity. Qed.

Lemma health_not_purged dir k : k ∈ purged -> pin_path dir KHealth <> pin_path dir k.
Proof.
  intros Hk H%pin_path_inj. subst k. revert Hk. apply (bool_decide_unpack (KHealth ∉ purged)), I.
Qed.

(** ** The state during [unload] *)

Record unload_st (s0 : os) (iface : str) (ps : gmap str map_id) (s : os) : Prop := {
  us_pins : pins s = ps;
  us_dirs : dirs s = dirs s0;
  us_ifaces : ifaces s = ifaces s0;
  us_filters : filters_on s iface = [];
  us_others : forall j, j <> iface -> filters_on s j = filters_on s0 j;
  us_maps : forall m, option_Forall2 traffic_map (maps s0 !! m) (maps s !! m);
}.

Lemma unload_quiet s0 iface ps s s' : quiet s s' -> unload_st s0 iface ps s -> unload_st s0 iface ps s'.
Proof.
  intros Hq []. pose proof Hq as (_ & _ & ? & ? & ? & _ & _ & _ & Hm).
  split; try congruence.
  - by rewrite (quiet_filters s s').
  - intros j Hj. rewrite (quiet_filters s s' j Hq). auto.
  - intros m. eapply traffic_opt_trans; eauto.
Qed.

Lemma wp_unload_println s0 iface ps l (Q : unit -> os -> Prop) s :
  unload_st s0 iface ps s -> (forall s', unload_st s0 iface ps s' -> Q tt s') -> wpq (println l) Q s.
Proof.
  intros Hs HQ s1 Hq [] s2 Hc. simpl in Hc. subst s2. apply HQ.
  destruct (unload_quiet _ _ _ _ _ Hq Hs). by split.
Qed.

(** One pin of the sweep, present or not. *)
Lemma wp_purge_pins s0 iface dir names : forall ps (Q : result unit -> os -> Prop) s,
  unload_st s0 iface ps s ->
  (forall s', unload_st s0 iface (foldl (fun ps n => delete (path_join dir n) ps) ps names) s' ->
     Q (Ok tt) s') ->
  wpq (purge_pins dir names) Q s.
Proof.
  induction names as [|n names IH]; intros ps Q s Hs HQ; cbn [purge_pins]; [by apply HQ|].
  apply wp_seq, wp_call. intros s1 Hq1 x s2 [-> ->].
  pose proof (unload_quiet _ _ _ _ _ Hq1 Hs) as Hs1.
  rewrite (us_pins _ _ _ _ Hs1).
  destruct (ps !! path_join dir n) as [m|] eqn:E.
  - rewrite bool_decide_eq_true_2 by done. apply wp_try, wp_with_context.
    apply wp_call. intros s3 Hq3 x s4 Hc. simpl in Hc.
    pose proof (unload_quiet _ _ _ _ _ Hq3 Hs1) as Hs3.
    rewrite (us_pins _ _ _ _ Hs3), E in Hc. destruct Hc as [[-> ->]|[? _]]; [|done].
    eexists; split; [done|]. apply (IH (delete (path_join dir n) ps)); [|done].
    destruct Hs3. by split.
  - rewrite bool_decide_eq_false_2 by (by intros [? ?]). apply (IH ps); [done|].
    intros s' Hs'. apply HQ. cbn [foldl]. by rewrite delete_id.
Qed.

Definition purged_pins (dir : str) (ps : gmap str map_id) : gmap str map_id :=
  foldl (fun ps n => delete (path_join dir n) ps) ps purge_names.

Lemma lookup_purged_pins dir ps path :
  purged_pins dir ps !! path =
  if decide (path ∈ map (pin_path dir) purged) then None else ps !! path.
Proof.
  unfold purged_pins. rewrite purge_names_kinds. unfold pin_path.
  generalize purged as ks. intros ks. revert ps.
  induction ks as [|k ks IH]; intros ps; cbn [map foldl]; [by rewrite decide_False by set_solver|].
  rewrite IH. destruct (decide (path ∈ map (fun k0 => path_join dir (map_name k0)) ks)) as [H|H].
  - rewrite decide_True by (by apply elem_of_cons; right). done.
  - destruct (decide (path = path_join dir (map_name k))) as [->|Hne].
    + rewrite decide_True by (by apply elem_of_cons; left). apply lookup_delete_eq.
    + rewrite decide_False by (intros [?|?]%elem_of_cons; done).
      by apply lookup_delete_ne.
Qed.

(** After the detach call. *)
Lemma wp_unload_detach iface (Q : result unit -> os -> Prop) s :
  (forall s', unload_st s iface (pins s) s' ->
     filters_on s iface <> [] -> Q (Ok tt) s') ->
  (forall e s', unload_st s iface (pins s) s' -> filters_on s iface = [] -> Q (Err e) s') ->
  wpq (call (QdiscDetachProgram iface PROG_NAME)) Q s.
Proof.
  intros HO HE s1 Hq x s2 Hc. simpl in Hc.
  pose proof Hq as (_ & _ & Hd & Hp & Hi & _ & _ & _ & Hm). pose proof (quiet_filters s s1) as Hf.
  destruct Hc as [(Hne & -> & ->)|[(He & -> & e & ->)|[? _]]]; [| |done].
  - apply HO; [|by rewrite <- (Hf iface Hq)]. split; auto; unfold filters_on; simpl.
    + by rewrite lookup_insert_eq.
    + intros j Hj. rewrite lookup_insert_ne by done. exact (Hf j Hq).
  - apply HE; [|by rewrite <- (Hf iface Hq)]. split; auto.
Qed.

Lemma cmd_unload_keeps dir iface s :
  wpq (cmd_unload dir iface false) (fun r s' => r = Ok tt /\ unload_st s iface (pins s) s') s.
Proof.
  unfold cmd_unload. apply wp_seq, wp_unload_detach.
  - intros s1 Hs1 _. apply wp_seq, wp_seq. eapply wp_unload_println; [done|]. intros s2 Hs2.
    cbn [negb]. apply wp_seq. eapply wp_unload_println; [done|]. by intros s3 Hs3.
  - intros e s1 Hs1 _. apply wp_seq, wp_seq, wp_call. intros s2 Hq [] s3 Hc. simpl in Hc. subst s3.
    cbn [negb]. apply wp_seq. eapply (wp_unload_println s iface (pins s)); [|by intros].
    destruct (unload_quiet _ _ _ _ _ Hq Hs1). by split.
Qed.

(** [unload --purge], whole. *)
Lemma cmd_unload_purges dir iface s :
  wpq (cmd_unload dir iface true)
    (fun r s' =>
       if bool_decide (filters_on s iface = [])
       then (exists e, r = Err e) /\ unload_st s iface (pins s) s'
       else r = Ok tt /\ pins s' = purged_pins dir (pins s) /\ filters_on s' iface = [] /\
            (forall j, j <> iface -> filters_on s' j = filters_on s j) /\
            (forall m, option_Forall2 traffic_map (maps s !! m) (maps s' !! m)) /\
            (is_Some (pins s !! pin_path dir KHealth) -> dirs s' = dirs s)) s.
Proof.
  unfold cmd_unload. apply wp_seq, wp_unload_detach.
  - intros s1 Hs1 Hne. rewrite bool_decide_eq_false_2 by done.
    apply wp_seq, wp_seq. eapply wp_unload_println; [done|]. intros s2 Hs2. cbn [negb].
    apply wp_try. eapply wp_purge_pins; [done|]. intros s3 Hs3. fold (purged_pins dir (pins s)) in Hs3.
    apply wp_seq, wp_call. intros s4 Hq4 x s5 Hc.
    pose proof (unload_quiet _ _ _ _ _ Hq4 Hs3) as Hs4.
    apply wp_seq, wp_call. intros s6 Hq6 [] s7 Hc7. simpl in Hc7. subst s7.
    assert (Hd5 : is_Some (pins s !! pin_path dir KHealth) -> dirs s5 = dirs s).
    { intros [m Hm]. destruct Hc as [[Hnone _]|[-> _]]; [|apply Hs4].
      specialize (Hnone KHealth). rewrite (us_pins _ _ _ _ Hs4), lookup_purged_pins in Hnone.
      case_decide as Hin; [|congruence]. apply list_elem_of_fmap in Hin as (k & Hk & Hin).
      by destruct (health_not_purged dir k). }
    assert (H5 : pins s5 = purged_pins dir (pins s) /\ filters_on s5 iface = [] /\
      (forall j, j <> iface -> filters_on s5 j = filters_on s j) /\
      (forall m, option_Forall2 traffic_map (maps s !! m) (maps s5 !! m))).
    { destruct Hs4. destruct Hc as [(_ & -> & _)|[-> _]]; done. }
    destruct H5 as (Hp & Hf & Ho & Hm). split; [done|].
    split; [by rewrite <- Hp, <- (quiet_pins s5 s6 Hq6)|].
    change (filters_on (add_stdout _ s6)) with (filters_on s6).
    rewrite (quiet_filters s5 s6 iface Hq6). split; [done|]. split; [|split].
    + intros j Hj. rewrite (quiet_filters s5 s6 j Hq6). auto.
    + intros m. destruct Hq6 as (_ & _ & _ & _ & _ & _ & _ & _ & Hm6).
      eapply traffic_opt_trans; eauto.
    + change (dirs (add_stdout (lit "unpinned maps") s6)) with (dirs s6). by destruct Hq6 as (_ & _ & -> & _).
  - intros e s1 Hs1 He. rewrite bool_decide_eq_true_2 by done.
    apply wp_seq, wp_seq, wp_call. intros s2 Hq [] s3 Hc. simpl in Hc. subst s3.
    cbn [negb]. split; [eauto|]. destruct (unload_quiet _ _ _ _ _ Hq Hs1). by split.
Qed.

(** ** [check] when calls may fail *)

(** The ban map behind the pin, whatever fails: no answer but the pinned map. *)
Lemma wp_bans_map_faults dir m bm (Q : result map_id -> os -> Prop) s :
  has_bans dir m bm s ->
  (forall s', quiet s s' -> Q (Ok m) s') -> (forall e s', Q (Err e) s') ->
  wp (@sys_spec true) quiet (bans_map dir) Q s.
Proof.
  intros (_ & Hp & Hm) HQ HE. unfold bans_map, open_map, with_context.
  intros s1 Hq1 x s2 Hc. simpl in Hc.
  change (path_join dir (lit "shield_bans")) with (pin_path dir KBans) in Hc.
  rewrite (quiet_pins s s1 Hq1), Hp in Hc.
  destruct Hc as [[-> ->]|(_ & -> & e & ->)]; [|apply HE].
  intros s3 Hq3 x s4 Hc. simpl in Hc. pose proof (quiet_trans s s1 s3 Hq1 Hq3) as Hq.
  rewrite (quiet_map_eq s s3 m _ Hq Hm) in Hc by done.
  destruct Hc as [(-> & _ & ->)|[[? _]|(_ & -> & e & ->)]]; [by apply HQ|done|apply HE].
Qed.

Lemma wp_hash_get_faults m bm k (Q : result BanVal -> os -> Prop) s :
  maps s !! m = Some (MBans bm) ->
  (forall v s', quiet s s' -> bm !! k = Some v -> Q (Ok v) s') ->
  (forall e s', quiet s s' -> Q (Err e) s') ->
  wp (@sys_spec true) quiet (call (HashGet m k)) Q s.
Proof.
  intros Hm HQ HE s1 Hq x s2 Hc. simpl in Hc. unfold hash_call, bans_of in Hc.
  rewrite (quiet_map_eq s s1 m _ Hq Hm) in Hc by done.
  destruct Hc as [[-> ->]|(_ & -> & e & ->)]; [|by apply HE].
  destruct (bm !! k) eqn:E; [by apply HQ|by apply HE].
Qed.

Lemma wp_mono_faults flt (Q : Z -> os -> Prop) s :
  uptime_ok s -> (forall s', quiet s s' -> Q (mono_ns s') s') ->
  wp (@sys_spec flt) quiet now_mono_ns Q s.
Proof.
  intros Hup HQ s1 Hq x s2 [-> ->].
  assert (Hup1 : uptime_ok s1) by (by apply Hq). unfold uptime_ok in Hup1.
  simpl.
  replace (wrap64 (wrap64 (mono_ns s1 / 1000000000 * 1000000000) + mono_ns s1 mod 1000000000))
    with (mono_ns s1); [by apply HQ|].
  unfold wrap64. rewrite Zplus_mod_idemp_l.
  replace (_ + _) with (mono_ns s1) by (pose proof (Z.div_mod (mono_ns s1) 1000000000); lia).
  symmetry. by apply wrap64_small.
Qed.

(** A positive answer is never the effect of a fault. *)
Lemma cmd_check_positive dir ip m bm s :
  has_bans dir m bm s ->
  wp (@sys_spec true) quiet (cmd_check dir ip)
    (fun r s' => r = Ok true -> exists a v t,
       parse_ip ip = Some (V6 a) /\ bm !! mk_addr6 (octets a) = Some v /\
       mono_ns s <= t /\ ban_active t v = true) s.
Proof.
  intros Hb. pose proof Hb as (Hup & _ & Hm). unfold cmd_check, parse_v6.
  destruct (parse_ip ip) as [[o|a]|] eqn:Ep.
  - apply wp_seq, wp_any. intros _ s1. done.
  - apply wp_try. eapply wp_bans_map_faults; [done| |by intros].
    intros s1 Hq1. apply wp_seq.
    eapply wp_hash_get_faults; [by eapply (quiet_map_eq s)| |].
    + intros v s2 Hq2 Hv. pose proof (quiet_trans s s1 s2 Hq1 Hq2) as Hq.
      apply wp_seq. destruct (expires_mono_ns v =? 0) eqn:E0.
      * apply wp_seq, wp_any. intros _ s3 _. exists a, v, (mono_ns s).
        split_and!; [done|done|lia|]. unfold ban_active. by rewrite E0.
      * apply wp_seq, wp_mono_faults; [by apply Hq|]. intros s3 Hq3. cbn beta.
        destruct (mono_ns s3 <? expires_mono_ns v) eqn:E1.
        -- apply wp_seq, wp_any. intros _ s4 _. exists a, v, (mono_ns s3).
           pose proof (quiet_trans s s2 s3 Hq Hq3) as [? _].
           split_and!; [done|done|lia|]. unfold ban_active. by rewrite E1, orb_true_r.
        -- apply wp_seq, wp_any. intros _ s4. apply wp_seq, wp_any. by intros.
    + intros e s2 _. apply wp_seq, wp_any. by intros.
  - by intros.
Qed.

Lemma answer_success (r : result bool) :
  returns (fun c => c = SUCCESS -> r = Ok true) (answer r).
Proof. destruct r as [[]|e]; [done|done|]. by intros []. Qed.
