(* ===== verification/GuardFaults.v ===== *)
(** * Banning under faults

    [ban] when any call may fail: what it inserts, what its sweep may remove,
    and what a successful exit code is worth. *)
From S2P Require Import Prelude Prog Text Net Bpf Sys Guard GuardBans GuardLoad GuardUnload.
Local Open Scope prog_scope.

(** Any call may fail; no other process interferes. *)
Abbreviation wpf := (wp (@sys_spec true) quiet).

Lemma sys_mono flt X (e : sys X) s x s' : sys_spec flt e s x s' -> mono_ns s' = mono_ns s.
Proof.
  intros Hs. destruct e; simpl in *; unfold hash_call, refused, fault, load_extends, set_pins in *;
    try done; repeat match goal with
    | H : _ /\ _ |- _ => destruct H
    | H : _ \/ _ |- _ => destruct H
    | H : exists _, _ |- _ => destruct H
    | H : context [match ?o with Some _ => _ | None => _ end] |- _ => destruct o eqn:?
    | H : context [match ?o with MBans _ => _ | _ => _ end] |- _ => destruct o eqn:?
    | H : load_done _ _ _ _ |- _ => destruct H as [(? & ? & ? & ? & ? & ?) _]
    end; subst; simpl; auto.
Qed.

Lemma lapsed_later t t' v : t <= t' -> lapsed t v = true -> lapsed t' v = true.
Proof. unfold lapsed. destruct (_ =? 0); simpl; [done|]. lia. Qed.

Section faults.
Context (dir : str) (m : map_id) (key : Addr6) (bm0 : gmap Addr6 BanVal) (s0 : os).

(** The entries of [bm0] other than [key]'s that have not lapsed at [t] are in [bm]. *)
Definition survivors (t : Z) (bm : gmap Addr6 BanVal) : Prop :=
  forall k v, k <> key -> bm0 !! k = Some v -> lapsed t v = false -> bm !! k = Some v.

(** The ban map holds these, and satisfies [P]. *)
Definition guarded (P : gmap Addr6 BanVal -> Prop) (s : os) : Prop :=
  mono_ns s0 <= mono_ns s /\ exists bm, has_bans dir m bm s /\ P bm /\ survivors (mono_ns s) bm.

Definition anything_stored (bm : gmap Addr6 BanVal) : Prop := True.

Lemma survivors_later t t' bm : t <= t' -> survivors t bm -> survivors t' bm.
Proof.
  intros Ht H k v Hk Hv Hl. apply H; [done|done|].
  destruct (lapsed t v) eqn:E; [|done]. by rewrite (lapsed_later t t' v) in Hl.
Qed.

Lemma guarded_quiet P s s' : quiet s s' -> guarded P s -> guarded P s'.
Proof.
  intros Hq (Ht & bm & Hb & HP & Hs). pose proof (proj1 Hq). split; [lia|]. exists bm.
  split; [by eapply quiet_has_bans|]. split; [done|]. by eapply survivors_later.
Qed.

(** Code that never writes the ban map. *)
Lemma wpf_keeps {A} P (p : io A) (Q : A -> os -> Prop) s :
  safe keeps_bans p -> guarded P s -> (forall a s', guarded P s' -> mono_ns s <= mono_ns s' -> Q a s') ->
  wpf p Q s.
Proof.
  intros Hsafe Hg HQ. eapply (wp_mono _ _ _ (fun _ s' => guarded P s' /\ mono_ns s <= mono_ns s')); [intros a s' []; by apply HQ|].
  apply (wp_safe_invariant _ _ keeps_bans (fun s' => guarded P s' /\ mono_ns s <= mono_ns s')); [| |done|split; [done|lia]].
  - intros s1 s2 Hq [H1 H2]. split; [by eapply guarded_quiet|]. pose proof (proj1 Hq). lia.
  - intros X e s1 x s2 He Hx [(Ht & bm & Hb & HP & Hs) H2].
    pose proof (sys_mono _ _ _ _ _ _ Hx) as Hm. split; [|lia]. split; [lia|]. exists bm.
    split; [by eapply keeps_bans_step|]. by rewrite Hm.
Qed.

Lemma wpf_remove k (Q : result unit -> os -> Prop) s :
  (k = key \/ forall v, bm0 !! k = Some v -> lapsed (mono_ns s) v = true) ->
  guarded anything_stored s ->
  (forall r s', guarded anything_stored s' -> mono_ns s <= mono_ns s' -> Q r s') ->
  wpf (call (HashRemove m k)) Q s.
Proof.
  intros Hk Hg HQ s1 Hq x s2 Hx. pose proof (proj1 Hq) as Ht1.
  destruct (guarded_quiet _ _ _ Hq Hg) as (Ht & bm & Hb & _ & Hs).
  pose proof (sys_mono _ _ _ _ _ _ Hx) as Hm2. apply HQ; [|lia].
  assert (Hsame : s2 = s1 -> guarded anything_stored s2) by (intros ->; by split; [|exists bm]).
  cbn [sys_spec] in Hx. unfold hash_call, bans_of in Hx. pose proof Hb as (Hup & Hp & Hmap).
  rewrite Hmap in Hx. destruct Hx as [Hx|(_ & ? & _)]; [|by apply Hsame].
  destruct (bm !! k) as [v|] eqn:E; [|by apply Hsame, Hx]. destruct Hx as [-> _].
  split; [done|]. exists (delete k bm). split_and!; [|done|].
  - split; [done|]. split; [done|]. apply lookup_insert_eq.
  - intros k' v' Hk' Hv' Hl'. rewrite lookup_delete_ne; [by apply Hs|]. intros ->.
    destruct Hk as [?|Hk]; [done|]. specialize (Hk v' Hv').
    simpl in Hl'. by rewrite (lapsed_later (mono_ns s) (mono_ns s1) v') in Hl'.
Qed.

Lemma wpf_remove_all keys : forall (Q : unit -> os -> Prop) s,
  (forall k, k ∈ keys -> k = key \/ forall v, bm0 !! k = Some v -> lapsed (mono_ns s) v = true) ->
  guarded anything_stored s ->
  (forall s', guarded anything_stored s' -> mono_ns s <= mono_ns s' -> Q tt s') ->
  wpf (remove_all m keys) Q s.
Proof.
  induction keys as [|k keys IH]; intros Q s Hk Hg HQ; cbn [remove_all]; [apply HQ; [done|lia]|].
  apply wp_seq, wpf_remove; [apply Hk; left|done|]. intros r s' Hg' Ht. apply IH; [|done|].
  - intros k' Hk'. destruct (Hk k') as [?|Hl]; [by right|by left|right].
    intros v Hv. by eapply lapsed_later, Hl.
  - intros s2 Hg2 Ht2. apply HQ; [done|lia].
Qed.

Lemma collect_expired_some t l : forall ks,
  collect_expired t l = Ok ks ->
  forall k, k ∈ ks -> exists v, Ok (k, v) ∈ l /\ lapsed t v = true.
Proof.
  induction l as [|[[k v]|e] l IH]; intros ks; cbn [collect_expired]; [|destruct (collect_expired t l) as [ks'|e]|done].
  - intros [= <-] k Hk. by apply elem_of_nil in Hk.
  - intros [= <-] k' Hk'. destruct (lapsed t v) eqn:E; [apply elem_of_cons in Hk' as [->|Hk']|].
    + exists v. split; [left|done].
    + destruct (IH ks' eq_refl k' Hk') as (v' & ? & ?). exists v'. split; [by right|done].
    + destruct (IH ks' eq_refl k' Hk') as (v' & ? & ?). exists v'. split; [by right|done].
  - done.
Qed.

Lemma collect_expired_fault t l e r : exists e', collect_expired t (map Ok l ++ Err e :: r) = Err e'.
Proof. induction l as [|[k v] l [e' IH]]; simpl; [by eexists|]. rewrite IH. by eexists. Qed.

(** The keys a sweep may delete have lapsed. *)
Definition sweepable (t : Z) (ks : list Addr6) : Prop :=
  forall k, k ∈ ks -> k = key \/ forall v, bm0 !! k = Some v -> lapsed t v = true.

Lemma wpf_iter P (Q : list (result (Addr6 * BanVal)) -> os -> Prop) s :
  guarded P s ->
  (forall l s', guarded P s' -> mono_ns s <= mono_ns s' ->
     (forall t ks, t <= mono_ns s' -> collect_expired t l = Ok ks -> sweepable (mono_ns s') ks) -> Q l s') ->
  wpf (call (HashIter m)) Q s.
Proof.
  intros Hg HQ s1 Hq x s2 [-> Hx]. pose proof (guarded_quiet _ _ _ Hq Hg) as Hg1.
  apply HQ; [done|apply Hq|]. destruct Hg1 as (_ & bm & (_ & _ & Hm) & _ & Hs).
  unfold bans_of in Hx. rewrite Hm in Hx. intros t ks Ht Hks.
  destruct Hx as [(l & Hl & ->)|(_ & l & e & r & _ & ->)];
    [|destruct (collect_expired_fault t l e r) as [? ?]; congruence].
  intros k Hk. destruct (decide (k = key)) as [|Hne]; [by left|right]. intros v0 Hv0.
  destruct (lapsed (mono_ns s1) v0) eqn:E; [done|].
  destruct (collect_expired_some _ _ _ Hks k Hk) as (v & Hin & Hv).
  apply list_elem_of_fmap in Hin as ([k' v'] & [= <- <-] & Hin).
  rewrite Hl in Hin. apply elem_of_map_to_list in Hin. rewrite (Hs k v0) in Hin by done.
  simplify_eq. by rewrite (lapsed_later t (mono_ns s1)) in E.
Qed.

Lemma guarded_uptime P s : guarded P s -> uptime_ok s.
Proof. by intros (_ & bm & (? & _) & _). Qed.

Lemma wpf_prune (Q : result nat -> os -> Prop) s :
  guarded anything_stored s ->
  (forall r s', guarded anything_stored s' -> mono_ns s <= mono_ns s' -> Q r s') ->
  wpf (prune_expired m) Q s.
Proof.
  intros Hg HQ. unfold prune_expired. apply wp_seq, wp_mono_faults; [by eapply guarded_uptime|].
  intros s1 Hq1. apply wp_seq. eapply wpf_iter; [by eapply guarded_quiet|].
  pose proof (proj1 Hq1). intros l s2 Hg2 Ht2 Hk.
  destruct (collect_expired (mono_ns s1) l) as [ks|e] eqn:E; [|apply HQ; [done|lia]].
  apply wp_seq. apply wpf_remove_all; [by eapply Hk|done|].
  intros s3 Hg3 Ht3. apply HQ; [done|lia].
Qed.

Lemma wpf_insert v (Q : result unit -> os -> Prop) s :
  guarded anything_stored s ->
  (forall s', guarded (fun bm => bm !! key = Some v) s' -> mono_ns s <= mono_ns s' -> Q (Ok tt) s') ->
  (forall e s', guarded anything_stored s' -> mono_ns s <= mono_ns s' -> Q (Err e) s') ->
  wpf (call (HashInsert m key v)) Q s.
Proof.
  intros Hg HQ HE s1 Hq x s2 Hx. pose proof (proj1 Hq) as Ht1.
  pose proof (guarded_quiet _ _ _ Hq Hg) as Hg1. pose proof Hg1 as (Ht & bm & Hb & _ & Hs).
  pose proof Hb as (Hup & Hp & Hm). cbn [sys_spec] in Hx. unfold hash_call, bans_of in Hx. rewrite Hm in Hx.
  destruct Hx as [[(_ & -> & ->)|(_ & _ & -> & e & ->)]|(_ & -> & e & ->)]; [|by apply HE..].
  apply HQ; [|done]. split; [done|]. exists (<[key := v]> bm). split_and!.
  - split; [done|]. split; [done|]. apply lookup_insert_eq.
  - apply lookup_insert_eq.
  - intros k' v' Hk' Hv' Hl'. rewrite lookup_insert_ne by done. by apply Hs.
Qed.

Lemma wpf_ban_value secs (Q : BanVal -> os -> Prop) s :
  secs <= I64_MAX -> guarded anything_stored s ->
  (forall v s', guarded anything_stored s' -> stored_ban secs (mono_ns s) (mono_ns s') v ->
     mono_ns s <= mono_ns s' -> Q v s') ->
  wpf (ban_value secs) Q s.
Proof.
  intros Hsecs Hg HQ. unfold ban_value. destruct (secs <=? 0) eqn:E.
  - apply HQ; [done| |lia]. unfold stored_ban. by rewrite E.
  - apply wp_seq, wp_mono_faults; [by eapply guarded_uptime|]. intros s1 Hq1.
    pose proof (guarded_quiet _ _ _ Hq1 Hg) as Hg1. pose proof (proj1 Hq1).
    apply wp_seq. eapply wpf_keeps; [apply safe_now_epoch|done|]. intros t s2 Hg2 Ht2.
    pose proof (guarded_uptime _ _ Hg). pose proof (guarded_uptime _ _ Hg1).
    apply HQ; [done| |lia]. unfold stored_ban, i64_as_u64. rewrite E. bool_facts. simpl.
    rewrite wrap64_small by (unfold I64_MAX, is_u64_spec, U64_MAX in *; lia).
    split; [split; apply deadline_mono; lia|]. unfold uptime_ok in *. word_lia.
Qed.

(** The postcondition of [ban] under faults. *)
Definition ban_outcome (secs : Z) (r : result unit) (s' : os) : Prop :=
  guarded (fun bm => r = Ok tt -> exists v, bm !! key = Some v /\ stored_ban secs (mono_ns s0) (mono_ns s') v) s'.

Lemma guarded_impl (P P' : gmap Addr6 BanVal -> Prop) s :
  (forall bm, P bm -> P' bm) -> guarded P s -> guarded P' s.
Proof. intros HP (Ht & bm & Hb & Hbm & Hs). split; [done|]. exists bm. auto. Qed.

Lemma ban_outcome_err secs e P s' : guarded P s' -> ban_outcome secs (Err e) s'.
Proof. by apply guarded_impl. Qed.

Lemma wpf_banned secs v ip (s : os) (rest : io unit) t1 :
  safe keeps_bans rest -> guarded (fun bm => bm !! key = Some v) s ->
  stored_ban secs (mono_ns s0) t1 v -> t1 <= mono_ns s ->
  wpf (rest ;;; println (lit "banned " ++ ip ++ lit " until " ++ to_string (expires_epoch_s v)) ;;;
       Ret (Ok tt)) (ban_outcome secs) s.
Proof.
  intros Hr Hg Hv Ht. apply wp_seq. eapply wpf_keeps; [done|done|]. intros _ s1 Hg1 Ht1.
  apply wp_seq. eapply wpf_keeps; [by apply safe_call|done|]. intros _ s2 Hg2 Ht2.
  eapply guarded_impl, Hg2. intros bm Hbm _. exists v. split; [done|].
  eapply stored_ban_weaken; [done|..]; lia.
Qed.

Lemma wpf_ban_insert secs v ip s :
  guarded anything_stored s -> stored_ban secs (mono_ns s0) (mono_ns s) v ->
  wpf (ban_insert m key v ip) (ban_outcome secs) s.
Proof.
  intros Hg Hv. unfold ban_insert. apply wp_seq, wpf_insert; [done| |].
  - intros s1 Hg1 Ht1. apply (wpf_banned secs v ip s1 (Ret tt) (mono_ns s)); done.
  - intros e s1 Hg1 Ht1. apply wp_try. unfold with_context. apply wp_seq, wpf_prune; [done|].
    intros [n|e'] s2 Hg2 Ht2; [|by eapply ban_outcome_err].
    apply wp_try, wp_seq, wpf_insert; [done| |].
    + intros s3 Hg3 Ht3. eapply (wpf_banned secs v ip s3 (eprintln _) (mono_ns s)); [|done|done|lia].
      by apply safe_call.
    + intros e' s3 Hg3 _. by eapply ban_outcome_err.
Qed.

End faults.

Lemma wpf_bans_map dir m bm s :
  has_bans dir m bm s -> wpf (bans_map dir) (fun r _ => match r with Ok i => i = m | Err _ => True end) s.
Proof. intros Hb. by eapply wp_bans_map_faults. Qed.

Lemma safe_bans_map dir : safe keeps_bans (bans_map dir).
Proof. safe_def bans_map. Qed.

(** [ban] under faults: success means that the ban is stored, and no entry in
    force is lost either way. *)
Lemma cmd_ban_faults dir m ip secs a bm s :
  parse_ip ip = Some (V6 a) -> has_bans dir m bm s -> secs <= I64_MAX ->
  wpf (cmd_ban dir ip secs) (ban_outcome dir m (mk_addr6 (octets a)) bm s secs) s.
Proof.
  intros Hp Hb Hsecs.
  assert (Hg : guarded dir m (mk_addr6 (octets a)) bm s anything_stored s).
  { split; [lia|]. exists bm. split; [done|]. split; [done|]. by intros k v. }
  unfold cmd_ban, parse_v6. rewrite Hp. apply wp_try.
  eapply wp_mono; [|apply wp_conj; [apply (wpf_bans_map dir m bm s Hb)|]].
  2: { eapply (wpf_keeps _ _ _ _ _ _ _ (fun _ s' => guarded dir m (mk_addr6 (octets a)) bm s anything_stored s' /\
                                              mono_ns s <= mono_ns s'));
         [apply safe_bans_map|exact Hg|done]. }
  intros [i|e] s1 [Hi [Hg1 Ht1]]; [|by eapply ban_outcome_err]. subst i.
  apply wp_seq. eapply wpf_ban_value; [done|done|]. intros v s2 Hg2 Hv Ht2.
  apply wpf_ban_insert; [done|]. eapply stored_ban_weaken; [done|..]; lia.
Qed.
