(* ===== verification/Host.v ===== *)
(** * A reference host

    An executable environment for the guard: every call of [Sys.sys] computed
    on the state [os].  [host_exec_ok] shows that it behaves as [sys_spec]
    documents, so the specification can be met, every theorem about a command
    says something about its runs here ([host_run]), and whole commands can be
    evaluated. *)
From S2P Require Import Prelude Prog Text Bpf Sys Guard GuardBans GuardUnload.

(** The object of a map under the loader's hands: reuse the pin or create it. *)
Definition ensure_pin (dir : str) (s : os) (k : map_kind) : os :=
  match pins s !! pin_path dir k with
  | Some _ => s
  | None =>
    let m := fresh (dom (maps s)) in
    set_pins (<[pin_path dir k := m]> (pins s)) (<[m := empty_map k]> (maps s)) s
  end.

Definition load_pins (dir : str) (s : os) : os := foldl (ensure_pin dir) s all_kinds.

Definition kind_loadable (dir : str) (s : os) (k : map_kind) : bool :=
  match pinned_obj s dir k with
  | Some o => bool_decide (kind_of o = k)
  | None => bool_decide (pins s !! pin_path dir k = None)
  end.

Definition host_loadable (dir : str) (s : os) : bool :=
  bool_decide (dir ∈ dirs s) && forallb (kind_loadable dir s) all_kinds.

Definition pinned_id (dir : str) (s : os) (k : map_kind) : map_id := default 0%nat (pins s !! pin_path dir k).

Definition loaded_program (dir : str) (s : os) : program :=
  mk_program (pinned_id dir s KBans) (pinned_id dir s KThrottle)
             (pinned_id dir s KConfig) (pinned_id dir s KStats).

Definition host_error : err := lit "call failed".

(** What [tc filter show] prints: a line per filter of the guard. *)
Definition tc_output (s : os) (iface : str) : cmd_output :=
  if bool_decide (iface ∈ ifaces s) then
    mk_output true (if bool_decide (filters_on s iface = []) then []
                    else as_bytes (lit "filter protocol all bpf shield_guard direct-action")) []
  else mk_output false [] (as_bytes (lit "Cannot find device")).

Definition with_bans {A} (s : os) (m : map_id) (f : gmap Addr6 BanVal -> result A * os) : result A * os :=
  match bans_of s m with Some bm => f bm | None => (Err host_error, s) end.

Definition host_exec {X} (e : sys X) (s : os) : X * os :=
  match e in sys T return T * os with
  | ClockMonotonic => ((mono_ns s / 1000000000, mono_ns s mod 1000000000), s)
  | SystemTime => (epoch_s s, s)
  | MapFromPin path => (match pins s !! path with Some m => Ok m | None => Err host_error end, s)
  | MapTryFrom k m =>
      (match maps s !! m with
       | Some o => if bool_decide (kind_of o = k) then Ok m else Err host_error
       | None => Err host_error
       end, s)
  | MapInfo m => (Ok (Z.of_nat MAX_TRACKED), s)
  | HashGet m k =>
      with_bans s m (fun bm => (match bm !! k with Some v => Ok v | None => Err key_not_found end, s))
  | HashInsert m k v =>
      with_bans s m (fun bm =>
        if bool_decide (is_Some (bm !! k)) || (size bm <? MAX_TRACKED)%nat
        then (Ok tt, set_map m (MBans (<[k := v]> bm)) s) else (Err host_error, s))
  | HashRemove m k =>
      with_bans s m (fun bm =>
        match bm !! k with
        | Some _ => (Ok tt, set_map m (MBans (delete k bm)) s)
        | None => (Err key_not_found, s)
        end)
  | HashIter m =>
      (match bans_of s m with
       | Some bm => map Ok (map_to_list bm) | None => [Err host_error] end, s)
  | ConfigGet m => (match maps s !! m with Some (MConfig c) => Ok c | _ => Err host_error end, s)
  | ConfigSet m c =>
      match maps s !! m with
      | Some (MConfig _) => (Ok tt, set_map m (MConfig c) s) | _ => (Err host_error, s) end
  | HealthGet m => (match maps s !! m with Some (MHealth t) => Ok t | _ => Err host_error end, s)
  | HealthSet m t =>
      match maps s !! m with
      | Some (MHealth _) => (Ok tt, set_map m (MHealth t) s) | _ => (Err host_error, s) end
  | StatsGet m slot =>
      (match maps s !! m with
       | Some (MStats st) =>
         match st !! Z.to_nat slot with Some cpus => Ok cpus | None => Err host_error end
       | _ => Err host_error
       end, s)
  | CreateDirAll dir => (Ok tt, set_dirs ({[dir]} ∪ dirs s) s)
  | EbpfLoad dir =>
      if host_loadable dir s
      then (Ok (loaded_program dir (load_pins dir s)), load_pins dir s) else (Err host_error, s)
  | ProgramMut p _ => (Some p, s)
  | AsClassifier p => (Ok p, s)
  | ProgLoad _ => (Ok tt, s)
  | QdiscAddClsact _ => (Ok tt, s)
  | QdiscDetachProgram iface _ =>
      if bool_decide (filters_on s iface = [])
      then (Err host_error, s) else (Ok tt, set_filters iface [] s)
  | Attach iface p =>
      if bool_decide (iface ∈ ifaces s)
      then (Ok tt, set_filters iface (p :: filters_on s iface) s) else (Err host_error, s)
  | TakeLink _ _ => (Ok tt, s)
  | DropLink iface _ => (tt, set_filters iface (tail (filters_on s iface)) s)
  | Output bin args => (Ok (tc_output s (default [] (args !! 3%nat))), s)
  | PathExists path => (bool_decide (is_Some (pins s !! path)), s)
  | RemoveFile path =>
      match pins s !! path with
      | Some _ => (Ok tt, set_pins (delete path (pins s)) (maps s) s)
      | None => (Err host_error, s)
      end
  | RemoveDir dir =>
      if forallb (fun k => bool_decide (pins s !! pin_path dir k = None)) all_kinds
      then (Ok tt, set_dirs (dirs s ∖ {[dir]}) s) else (Err host_error, s)
  | Println l => (tt, add_stdout l s)
  | Eprintln l => (tt, add_stderr l s)
  end.

(** ** Loading *)

Lemma load_extends_refl dir s : load_extends dir s s.
Proof. exists (pins s), (maps s). by destruct s. Qed.

Lemma load_extends_trans dir s1 s2 s3 :
  load_extends dir s1 s2 -> load_extends dir s2 s3 -> load_extends dir s1 s3.
Proof.
  intros (ps1 & ms1 & -> & Hp1 & Hm1 & Ho1) (ps2 & ms2 & -> & Hp2 & Hm2 & Ho2).
  exists ps2, ms2. simpl in *. split_and!; [done|by etrans|by etrans|].
  intros path Hpath. rewrite (Ho2 path Hpath). by apply Ho1.
Qed.

Lemma extends_pinned dir s s' k o :
  load_extends dir s s' -> pinned_obj s dir k = Some o -> pinned_obj s' dir k = Some o.
Proof.
  intros (ps & ms & -> & Hp & Hm & _). unfold pinned_obj. simpl.
  destruct (pins s !! _) as [m|] eqn:E; [|done]. simpl. intros Ho.
  rewrite (lookup_weaken _ _ _ _ E Hp). simpl. by eapply lookup_weaken.
Qed.

Lemma ensure_pin_extends dir s k : load_extends dir s (ensure_pin dir s k).
Proof.
  unfold ensure_pin. destruct (pins s !! _) eqn:E; [apply load_extends_refl|].
  eexists _, _. split; [done|]. split_and!.
  - by apply insert_subseteq.
  - apply insert_subseteq, not_elem_of_dom, is_fresh.
  - intros path Hp. apply lookup_insert_ne. congruence.
Qed.

Lemma ensure_pin_pinned dir s k :
  kind_loadable dir s k = true ->
  exists o, pinned_obj (ensure_pin dir s k) dir k = Some o /\ kind_of o = k /\
            (pins s !! pin_path dir k = None -> o = empty_map k).
Proof.
  unfold kind_loadable, ensure_pin, pinned_obj.
  destruct (pins s !! pin_path dir k) as [m|] eqn:E; simpl.
  - rewrite E. simpl. destruct (maps s !! m) as [o|]; [|done]. intros H%bool_decide_eq_true.
    by exists o.
  - rewrite lookup_insert_eq. simpl. rewrite lookup_insert_eq. intros _.
    exists (empty_map k). by destruct k.
Qed.

Lemma ensure_pin_other dir s k k' :
  k <> k' -> kind_loadable dir s k' = true ->
  kind_loadable dir (ensure_pin dir s k) k' = true /\
  pins (ensure_pin dir s k) !! pin_path dir k' = pins s !! pin_path dir k'.
Proof.
  intros Hk Hl. assert (Hpath : pin_path dir k <> pin_path dir k') by (by intros ?%pin_path_inj).
  assert (Hpins : pins (ensure_pin dir s k) !! pin_path dir k' = pins s !! pin_path dir k').
  { unfold ensure_pin. case_match; [done|]. simpl. by apply lookup_insert_ne. }
  split; [|done]. revert Hl. unfold kind_loadable. rewrite Hpins.
  destruct (pinned_obj s dir k') as [o|] eqn:E.
  - by rewrite (extends_pinned _ _ _ _ _ (ensure_pin_extends dir s k) E).
  - intros Hn%bool_decide_eq_true. unfold pinned_obj. rewrite Hpins, Hn. by apply bool_decide_eq_true.
Qed.

Lemma load_pins_fold dir ks : forall s,
  NoDup ks -> (forall k, k ∈ ks -> kind_loadable dir s k = true) ->
  load_extends dir s (foldl (ensure_pin dir) s ks) /\
  forall k, k ∈ ks -> exists o, pinned_obj (foldl (ensure_pin dir) s ks) dir k = Some o /\
    kind_of o = k /\ (pins s !! pin_path dir k = None -> o = empty_map k).
Proof.
  induction ks as [|k ks IH]; intros s Hnd Hl; simpl.
  { split; [apply load_extends_refl|]. intros k Hk. by apply elem_of_nil in Hk. }
  apply NoDup_cons in Hnd as [Hk Hnd].
  assert (Ho : forall k', k' ∈ ks -> kind_loadable dir (ensure_pin dir s k) k' = true /\
            pins (ensure_pin dir s k) !! pin_path dir k' = pins s !! pin_path dir k').
  { intros k' Hk'. apply ensure_pin_other; [by intros ->|]. apply Hl. by right. }
  destruct (IH (ensure_pin dir s k)) as [He Hp]; [done|by intros k' [? _]%Ho|].
  split; [by eapply load_extends_trans, He; apply ensure_pin_extends|].
  intros k' [->|Hk']%elem_of_cons.
  - destruct (ensure_pin_pinned dir s k) as (o & Hpo & ?); [apply Hl; left|].
    exists o. split; [|done]. by eapply extends_pinned, Hpo.
  - destruct (Ho k' Hk') as [_ <-]. by apply Hp.
Qed.

Lemma elem_of_all_kinds k : k ∈ all_kinds.
Proof. apply (bool_decide_unpack (k ∈ all_kinds)). by destruct k. Qed.

Lemma kind_loadable_spec dir s k :
  kind_loadable dir s k = true <->
  match pinned_obj s dir k with Some o => kind_of o = k | None => pins s !! pin_path dir k = None end.
Proof. unfold kind_loadable. by case_match; rewrite bool_decide_eq_true. Qed.

Lemma host_loadable_spec dir s : host_loadable dir s = true <-> loadable dir s.
Proof.
  unfold host_loadable, loadable. rewrite andb_true_iff, bool_decide_eq_true, forallb_forall.
  split; (intros [Hd Hk]; split; [done|]); intros k; [|intros _; apply kind_loadable_spec, Hk].
  apply kind_loadable_spec, Hk, list_elem_of_In, elem_of_all_kinds.
Qed.

Lemma host_load_done dir s :
  host_loadable dir s = true -> load_done dir s (loaded_program dir (load_pins dir s)) (load_pins dir s).
Proof.
  intros Hl. destruct (load_pins_fold dir all_kinds s) as [He Hp].
  - apply (bool_decide_unpack _). vm_compute. exact I.
  - intros k _. apply kind_loadable_spec, (proj1 (host_loadable_spec _ _) Hl).
  - assert (Hid : forall k, pins (load_pins dir s) !! pin_path dir k
                            = Some (pinned_id dir (load_pins dir s) k)).
    { intros k. destruct (Hp k (elem_of_all_kinds k)) as (o & Ho & _).
      unfold pinned_obj in Ho. unfold pinned_id, load_pins. by destruct (pins _ !! _). }
    split; [done|]. split_and!; try apply Hid. intros k. apply Hp, elem_of_all_kinds.
Qed.

(** ** The reference host behaves as documented *)

Lemma contains_tc_line :
  contains PROG_NAME (from_utf8_lossy (as_bytes (lit "filter protocol all bpf shield_guard direct-action"))) = true.
Proof. vm_compute. reflexivity. Qed.

Lemma tc_output_spec flt (s : os) bin args :
  @sys_spec flt _ (Output bin args) s (host_exec (Output bin args) s).1 s.
Proof.
  split; [done|]. cbn [host_exec fst]. intros iface _ ->. cbn [lookup tc_show default].
  unfold tc_output. change (default [] (tc_show iface !! 3%nat)) with iface.
  case_bool_decide; [|done]. split; [|done]. intros _. simpl o_stdout.
  case_bool_decide; [done|]. apply contains_tc_line.
Qed.

Lemma host_load_ok flt dir s :
  @sys_spec flt _ (EbpfLoad dir) s (host_exec (EbpfLoad dir) s).1 (host_exec (EbpfLoad dir) s).2.
Proof.
  cbn [sys_spec host_exec]. destruct (host_loadable dir s) eqn:E.
  - left. eexists. split; [by apply host_load_done|done].
  - right. split; [right; rewrite <- host_loadable_spec; by rewrite E|].
    split; [apply load_extends_refl|by eexists].
Qed.

Lemma host_hash_ok flt s m {A} (f : gmap Addr6 BanVal -> result A * os)
    (P : gmap Addr6 BanVal -> result A -> os -> Prop) :
  (forall bm, P bm (f bm).1 (f bm).2) ->
  hash_call flt s m P (with_bans s m f).1 (with_bans s m f).2.
Proof.
  intros Hf. unfold hash_call, with_bans. destruct (bans_of s m); [by left|].
  split; [done|by eexists].
Qed.

(** Split on an innermost match or condition, and close the easy leaves. *)
Ltac host_case :=
  match goal with
  | |- context [bool_decide ?P] => destruct (bool_decide_reflect P)
  | |- context [match ?x with _ => _ end] =>
    lazymatch x with context [match _ with _ => _ end] => fail | _ => destruct x eqn:? end
  end; cbn [fst snd orb].

Ltac host_leaf := solve [ done | split; [done|by eexists] | left; split_and?; done
                        | right; left; split_and?; first [done | by eexists] | right; split; [done|by eexists] ].

Lemma host_exec_ok flt X (e : sys X) s : @sys_spec flt _ e s (host_exec e s).1 (host_exec e s).2.
Proof.
  destruct e; try (by apply tc_output_spec); try apply host_load_ok;
    cbn [host_exec sys_spec]; unfold refused, failed; try (apply host_hash_ok; intros bm);
    cbn [fst snd]; try (by repeat host_case; host_leaf).
  - (* HashInsert *)
    destruct (bool_decide_reflect (is_Some (bm !! k))) as [?|Hn]; cbn [orb fst snd]; [left; auto|].
    destruct (Nat.ltb_spec (size bm) MAX_TRACKED); cbn [fst snd]; [left; auto|right].
    split; [by apply eq_None_not_Some|]. split; [done|]. split; [done|by eexists].
  - (* HashIter *)
    split; [done|]. destruct (bans_of s m) as [bm|]; [left; by exists (map_to_list bm)|by eexists].
  - (* ProgramMut *) split; [done|by left].
  - (* RemoveDir *)
    destruct (forallb _ _) eqn:E; cbn [fst snd]; [left|right; split; [done|by eexists]].
    split; [|done]. intros k. rewrite forallb_forall in E.
    eapply bool_decide_eq_true_1, E, list_elem_of_In, elem_of_all_kinds.
Qed.

(** What holds of every run of a program holds of its run on this host. *)
Lemma host_run {A} flt (m : io A) (Q : A -> os -> Prop) s :
  wp (@sys_spec flt) quiet m Q s -> Q (run (@host_exec) m s).1 (run (@host_exec) m s).2.
Proof. apply wp_run; [apply quiet_refl|apply host_exec_ok]. Qed.

(** ** A life of the guard, evaluated *)

Section evaluation.
Let dir : str := lit "/sys/fs/bpf/fips-shield".
Let peer : str := lit "fd00::1".

(** A host that has just booted. *)
Definition booted : os :=
  {| mono_ns := 5000000000; epoch_s := 1700000000; dirs := ∅; pins := ∅; maps := ∅;
     ifaces := {[lit "fips0"]}; filters := ∅; stdout := []; stderr := [] |}.

(** [ns] nanoseconds pass. *)
Definition wait (ns : Z) (s : os) : os :=
  {| mono_ns := mono_ns s + ns; epoch_s := epoch_s s + ns / 1000000000; dirs := dirs s;
     pins := pins s; maps := maps s; ifaces := ifaces s; filters := filters s;
     stdout := stdout s; stderr := stderr s |}.

Definition guard_run (c : Cmd) (s : os) : ExitCode * os := run (@host_exec) (main (mk_cli dir c)) s.

Example guard_life :
  let s1 := (guard_run (Load (lit "fips0") 100 200) booted).2 in
  let s2 := (guard_run (Ban peer 60) s1).2 in
  let s3 := wait 59000000000 s2 in
  let s4 := wait 1000000000 s3 in
  (guard_run (Check peer) booted).1 = FAILURE /\
  (guard_run (Check peer) s1).1 = FAILURE /\
  (guard_run (Check peer) s2).1 = SUCCESS /\
  (guard_run (Check peer) s3).1 = SUCCESS /\
  (guard_run (Check peer) s4).1 = FAILURE /\
  (guard_run (Status (lit "fips0")) s1).1 = SUCCESS /\
  (guard_run (Status (lit "fips0")) (guard_run (Unload (lit "fips0") false) s2).2).1 = FAILURE /\
  (guard_run (Check peer) (guard_run (Unload (lit "fips0") false) s2).2).1 = SUCCESS /\
  length (filters_on (guard_run (Load (lit "fips0") 0 0) s1).2 (lit "fips0")) = 1%nat.
Proof. vm_compute. intuition reflexivity. Qed.

End evaluation.
