(* ===== verification/BanContract.v ===== *)
(** * The ban contract

    [docs/verdict-schema.md] fixes the command line between detection and
    enforcement: [ban], [unban], [check] and [list].  Here that contract is an
    abstract transition system on the bans in force ([contract]), what a
    backend owes its callers is the class [BanBackend], and what a caller gets
    from any backend is proved against the class ([session_history],
    [history_ban_stands]).  [guard_backend] discharges the class for the
    guard's commands: every session with it is a sequential history of the
    contract, each call taking effect at one instant between its start and its
    end. *)
From S2P Require Import Prelude Prog Text Net Bpf Sys Guard GuardBans.
Local Open Scope prog_scope.

(** ** The contract *)

Inductive BanCall :=
| CBan (ip : str) (secs : Z)
| CUnban (ip : str)
| CCheck (ip : str)
| CList.

Record Reply := mk_reply { status : ExitCode; printed : list str }.

(** The bans a backend promises, by address. *)
Abbreviation Bans := (gmap Addr6 BanVal).

(** The address a text names, when it is one the mesh can have. *)
Definition key_of (ip : str) : option Addr6 :=
  match parse_ip ip with Some (V6 a) => Some (mk_addr6 (octets a)) | _ => None end.

(** The value stored by a ban for [secs] seconds that takes effect at [t]. *)
Definition ban_at (secs t : Z) (v : BanVal) : Prop :=
  if secs <=? 0 then v = {| expires_mono_ns := 0; expires_epoch_s := 0 |}
  else expires_mono_ns v = deadline secs t /\ 0 < expires_mono_ns v.

(** [contract t A c r A']: at instant [t], with the bans [A], the call [c] may
    be answered [r] and leave the bans [A'].  Only the bans in force at [t]
    matter to an answer. *)
Inductive contract (t : Z) (A : Bans) : BanCall -> Reply -> Bans -> Prop :=
| contract_ban ip secs key v ls :
    key_of ip = Some key -> ban_at secs t v ->
    contract t A (CBan ip secs) (mk_reply SUCCESS ls) (<[key := v]> A)
| contract_ban_full ip secs key ls :
    key_of ip = Some key -> active_bans t A !! key = None ->
    (MAX_TRACKED <= size (active_bans t A))%nat ->
    contract t A (CBan ip secs) (mk_reply FAILURE ls) A
| contract_unban ip key ls :
    key_of ip = Some key -> contract t A (CUnban ip) (mk_reply SUCCESS ls) (delete key A)
| contract_check_banned ip key v :
    key_of ip = Some key -> active_bans t A !! key = Some v ->
    contract t A (CCheck ip)
      (mk_reply SUCCESS [lit "banned " ++ ip ++ lit " until " ++ to_string (expires_epoch_s v)]) A
| contract_check_clear ip key :
    key_of ip = Some key -> active_bans t A !! key = None ->
    contract t A (CCheck ip) (mk_reply FAILURE [lit "not banned " ++ ip]) A
| contract_list ls :
    ls ≡ₚ map entry_line (map_to_list (active_bans t A)) ->
    contract t A CList (mk_reply SUCCESS ls) A
| contract_not_mesh c ip r :
    (c = CUnban ip \/ c = CCheck ip \/ exists secs, c = CBan ip secs) -> key_of ip = None ->
    (status r = SUCCESS <-> parse_ip ip <> None /\ c <> CCheck ip) -> contract t A c r A.

(** Seconds are an [i64] on the command line. *)
Definition call_ok (c : BanCall) : Prop :=
  match c with CBan _ secs => secs <= I64_MAX | _ => True end.

(** ** Bans that agree from an instant on *)

Definition same_from (t : Z) (A B : Bans) : Prop := active_bans t A = active_bans t B.

#[export] Instance same_from_equiv t : Equivalence (same_from t).
Proof. split; unfold same_from; [done|by intros ? ?|intros ? ? ?; congruence]. Qed.

Lemma lookup_active t (A : Bans) k v :
  active_bans t A !! k = Some v <-> A !! k = Some v /\ ban_active t v = true.
Proof. unfold active_bans. by rewrite map_lookup_filter_Some. Qed.

Lemma ban_active_before t t' v : t <= t' -> ban_active t' v = true -> ban_active t v = true.
Proof. unfold ban_active. intros Ht. destruct (_ =? 0); simpl; [done|]. lia. Qed.

Lemma active_later t t' (A : Bans) : t <= t' -> active_bans t' (active_bans t A) = active_bans t' A.
Proof.
  intros Ht. apply map_eq. intros k. apply option_eq. intros v. rewrite !lookup_active.
  split; [intros [[? ?] ?]|intros [? ?]]; eauto using ban_active_before.
Qed.

Lemma same_from_later t t' A B : t <= t' -> same_from t A B -> same_from t' A B.
Proof.
  intros Ht H. unfold same_from. rewrite <- (active_later t t' A), <- (active_later t t' B) by done.
  by rewrite H.
Qed.

Lemma active_insert t k v (A : Bans) :
  active_bans t (<[k := v]> A) =
  if ban_active t v then <[k := v]> (active_bans t A) else delete k (active_bans t A).
Proof.
  unfold active_bans. rewrite map_filter_insert. simpl. destruct (ban_active t v) eqn:E.
  - by rewrite decide_True.
  - rewrite decide_False by done. by rewrite map_filter_delete.
Qed.

#[export] Instance insert_same_from t k v : Proper (same_from t ==> same_from t) (<[k := v]>).
Proof. intros A B H. unfold same_from. by rewrite !active_insert, H. Qed.

#[export] Instance delete_same_from t k : Proper (same_from t ==> same_from t) (delete k).
Proof. intros A B H. unfold same_from, active_bans in *. by rewrite !map_filter_delete, H. Qed.

Lemma unlapsed_same t (A : Bans) : same_from t (unlapsed t A) A.
Proof. unfold same_from. by rewrite active_unlapsed by lia. Qed.

Lemma delete_inactive t k v (A : Bans) :
  A !! k = Some v -> ban_active t v = false -> same_from t (delete k A) A.
Proof.
  intros Hv Ha. unfold same_from, active_bans. rewrite map_filter_delete. apply delete_id.
  apply map_lookup_filter_None. right. intros v' Hv'. simpl. congruence.
Qed.

(** An answer depends only on the bans in force when the call takes effect. *)
Lemma contract_same t A B c r A' :
  same_from t A B -> contract t A c r A' -> exists B', contract t B c r B' /\ same_from t A' B'.
Proof.
  intros H Hc. destruct Hc.
  - eexists. split; [by eapply contract_ban|by apply insert_same_from].
  - exists B. split; [|done]. eapply contract_ban_full; by rewrite <- ?H.
  - eexists. split; [by eapply contract_unban|by apply delete_same_from].
  - exists B. split; [|done]. eapply contract_check_banned; by rewrite <- ?H.
  - exists B. split; [|done]. eapply contract_check_clear; by rewrite <- ?H.
  - exists B. split; [|done]. apply contract_list. by rewrite <- H.
  - exists B. split; [|done]. by eapply contract_not_mesh.
Qed.

(** ** What a backend owes its callers *)

Class BanBackend (S : Type) := {
  clock : S -> Z;
  keeps : S -> Bans -> Prop;
  invoke : BanCall -> S -> (Reply -> S -> Prop) -> Prop;
  keeps_same : forall s A B, same_from (clock s) A B -> keeps s A -> keeps s B;
  invoke_mono : forall c s (Q Q' : Reply -> S -> Prop),
    (forall r s', Q r s' -> Q' r s') -> invoke c s Q -> invoke c s Q';
  invoke_contract : forall c s A, call_ok c -> keeps s A ->
    invoke c s (fun r s' => exists t A', clock s <= t <= clock s' /\ contract t A c r A' /\ keeps s' A');
}.

(** A history of calls and replies, with their instants in order. *)
Inductive history (t : Z) (A : Bans) : list (BanCall * Reply) -> Z -> Bans -> Prop :=
| history_nil t' : t <= t' -> history t A [] t' A
| history_cons t1 c r A1 h t' A' :
    t <= t1 -> contract t1 A c r A1 -> history t1 A1 h t' A' -> history t A ((c, r) :: h) t' A'.

Lemma history_earlier t0 t A h t' A' : t0 <= t -> history t A h t' A' -> history t0 A h t' A'.
Proof.
  intros Ht Hh. destruct Hh; [constructor; lia|]. eapply history_cons; [|done..]. lia.
Qed.

Lemma history_forward t A h t' A' : history t A h t' A' -> t <= t'.
Proof. induction 1; lia. Qed.

Section clients.
Context {S : Type} `{BanBackend S}.

(** A caller runs calls one after the other. *)
Fixpoint session (cs : list BanCall) (s : S) (Q : list Reply -> S -> Prop) : Prop :=
  match cs with
  | [] => Q [] s
  | c :: rest => invoke c s (fun r s' => session rest s' (fun rs s2 => Q (r :: rs) s2))
  end.

Lemma session_mono cs : forall s (Q Q' : list Reply -> S -> Prop),
  (forall rs s', Q rs s' -> Q' rs s') -> session cs s Q -> session cs s Q'.
Proof.
  induction cs as [|c cs IH]; intros s Q Q' HQ; simpl; [auto|].
  apply invoke_mono. intros r s'. apply IH. auto.
Qed.

(** Every session is a history of the contract. *)
Lemma session_history cs : forall s A,
  Forall call_ok cs -> keeps s A ->
  session cs s (fun rs s' => length rs = length cs /\ exists A',
    history (clock s) A (zip cs rs) (clock s') A' /\ keeps s' A').
Proof.
  induction cs as [|c cs IH]; intros s A Hok Hk; simpl.
  { split; [done|]. exists A. split; [constructor; lia|done]. }
  apply Forall_cons in Hok as [Hc Hok].
  eapply invoke_mono; [|by apply invoke_contract].
  intros r s1 (t & A1 & Ht & Hcon & Hk1). eapply session_mono; [|by apply IH].
  intros rs s2 (Hl & A2 & Hh & Hk2). simpl. split; [lia|]. exists A2. split; [|done].
  econstructor; [apply Ht|done|]. eapply history_earlier; [|done]. apply Ht.
Qed.

End clients.

(** A call that may change the ban of [key]. *)
Definition edits (key : Addr6) (c : BanCall) : Prop :=
  match c with CBan ip _ | CUnban ip => key_of ip = Some key | _ => False end.

Lemma contract_other t A c r A' key : contract t A c r A' -> ~ edits key c -> A' !! key = A !! key.
Proof.
  intros Hc He. destruct Hc; try done; simpl in He.
  - apply lookup_insert_ne. congruence.
  - apply lookup_delete_ne. congruence.
Qed.

(** A ban stands through any calls about other addresses. *)
Lemma history_ban_stands t A h t' A' key :
  history t A h t' A' -> Forall (fun cr => ~ edits key cr.1) h -> A' !! key = A !! key.
Proof.
  induction 1 as [|t t1 c r A A1 h t' A' Ht Hc Hh IH]; [done|]. intros [He Hr]%Forall_cons.
  rewrite IH by done. by eapply contract_other.
Qed.

(** ** The guard as a backend *)

(** The guard's command for a call of the contract: [guard/shield-ban] passes
    its arguments on unchanged. *)
Definition guard_cmd (c : BanCall) : Cmd :=
  match c with
  | CBan ip secs => Ban ip secs
  | CUnban ip => Unban ip
  | CCheck ip => Check ip
  | CList => List
  end.

(** The lines a run added to standard output. *)
Definition new_output (s s' : os) : list str := drop (length (stdout s)) (stdout s').

Lemma new_output_added s s' out : stdout s' = stdout s ++ out -> new_output s s' = out.
Proof. intros H. unfold new_output. by rewrite H, drop_app_length. Qed.

Definition guard_invoke (dir : str) (c : BanCall) (s : os) (Q : Reply -> os -> Prop) : Prop :=
  wpq (main (mk_cli dir (guard_cmd c))) (fun code s' => Q (mk_reply code (new_output s s')) s') s.

(** The ban map [m] holds what is promised, up to entries that have lapsed. *)
Definition guard_keeps (dir : str) (m : map_id) (s : os) (A : Bans) : Prop :=
  exists bm, has_bans dir m bm s /\ same_from (mono_ns s) A bm.

Section guard.
Context (dir : str) (m : map_id).

Lemma ban_at_intermediate secs t0 t1 v :
  t0 <= t1 -> stored_ban secs t0 t1 v -> exists t, t0 <= t <= t1 /\ ban_at secs t v.
Proof.
  unfold stored_ban, ban_at. intros Ht. destruct (secs <=? 0); [exists t0; split; [lia|done]|].
  intros [[Hl Hu] Hp]. unfold deadline, saturating_add in *.
  set (d := saturating_mul secs 1000000000) in *.
  exists (Z.max t0 (expires_mono_ns v - d)). lia.
Qed.

(** What a command must establish to be a call of the contract. *)
Definition contract_post (c : BanCall) (s : os) (bm : Bans) (code : ExitCode) (s' : os) : Prop :=
  exists t out bm', mono_ns s <= t <= mono_ns s' /\ bans_st s m bm' out s' /\
    exists B, contract t bm c (mk_reply code out) B /\ same_from (mono_ns s') B bm'.

Lemma wp_finish (s0 : os) bm out (Q : ExitCode -> os -> Prop) e s :
  bans_st s0 m bm out s -> (forall s', mono_ns s <= mono_ns s' -> bans_st s0 m bm out s' -> Q FAILURE s') ->
  wpq (finish (Err e)) Q s.
Proof.
  intros Hs HQ. unfold finish. apply wp_seq. eapply wp_eprintln; [done|]. intros s1 Ht Hs1. by apply HQ.
Qed.

(** A command on a text that is no mesh address changes nothing. *)
Lemma parse_v6_key ip :
  match parse_ip ip with
  | Some (V6 a) => parse_v6 ip = Ok (Some a) /\ key_of ip = Some (mk_addr6 (octets a))
  | Some (V4 _) => parse_v6 ip = Ok None /\ key_of ip = None
  | None => (exists e, parse_v6 ip = Err e) /\ key_of ip = None
  end.
Proof.
  unfold parse_v6, key_of. destruct (parse_ip ip) as [[?|?]|]; (split; [|done]); by try eexists.
Qed.

Lemma contract_post_same c s bm code s' t out B :
  mono_ns s <= t <= mono_ns s' -> contract t bm c (mk_reply code out) B -> bans_st s m B out s' ->
  contract_post c s bm code s'.
Proof. intros. exists t, out, B. split; [done|]. split; [done|]. by exists B. Qed.

Lemma not_mesh_post c ip s bm code s' out :
  (c = CUnban ip \/ c = CCheck ip \/ exists secs, c = CBan ip secs) -> key_of ip = None ->
  (code = SUCCESS <-> parse_ip ip <> None /\ c <> CCheck ip) -> bans_st s m bm out s' ->
  contract_post c s bm code s'.
Proof.
  intros Hc Hk Hcode Hs. pose proof (bs_mono _ _ _ _ _ Hs).
  apply (contract_post_same _ _ _ _ _ (mono_ns s) out bm); [lia| |done].
  by eapply contract_not_mesh.
Qed.

(** What [finish] and [answer] make of a failed command. *)
Lemma wp_failed c ip s bm e s1 :
  (c = CUnban ip \/ c = CCheck ip \/ exists secs, c = CBan ip secs) -> parse_ip ip = None ->
  bans_st s m bm [] s1 -> wpq (finish (Err e)) (contract_post c s bm) s1.
Proof.
  intros Hc Hp Hs. eapply wp_finish; [done|]. intros s2 _ Hs2.
  eapply not_mesh_post; [done|by unfold key_of; rewrite Hp| |done].
  rewrite Hp. split; [done|by intros []].
Qed.


Lemma active_eq_unlapsed t bm : active_bans t bm = unlapsed t bm.
Proof.
  apply map_eq. intros k. apply option_eq. intros v. rewrite lookup_active, lookup_unlapsed.
  rewrite ban_active_lapsed. destruct (lapsed t v); split; intros [? ?]; done.
Qed.

Lemma same_from_sweep t t' bm : t <= t' -> same_from t' bm (unlapsed t bm).
Proof. intros Ht. symmetry. eapply same_from_later; [done|]. apply unlapsed_same. Qed.

Lemma guard_ban_full ip secs a bm s :
  parse_ip ip = Some (V6 a) -> secs <= I64_MAX -> has_bans dir m bm s ->
  bm !! mk_addr6 (octets a) = None -> (MAX_TRACKED <= size bm)%nat ->
  wpq (main (mk_cli dir (Ban ip secs))) (contract_post (CBan ip secs) s bm) s.
Proof.
  intros Hp Hsecs Hb Hn Hfull. cbn [main cmd pin_dir]. apply wp_seq.
  assert (Hk : key_of ip = Some (mk_addr6 (octets a))) by (unfold key_of; by rewrite Hp).
  eapply wp_mono; [|by eapply cmd_ban_full_map]. intros r s1 (t & v & Ht & Hst & Hc).
  destruct (Nat.ltb_spec (size (unlapsed t bm)) MAX_TRACKED) as [Hr|Hr].
  - destruct Hc as [-> Hs1].
    destruct (ban_at_intermediate secs _ _ v (bs_mono _ _ _ _ _ Hs1) Hst) as (t1 & Ht1 & Hat).
    eexists t1, _, _. split; [done|]. split; [exact Hs1|]. eexists. split; [by constructor|].
    apply insert_same_from, same_from_sweep. lia.
  - destruct Hc as [[e ->] Hs1]. eapply wp_finish; [exact Hs1|]. intros s2 Ht2 Hs2.
    eexists t, _, _. split; [lia|]. split; [exact Hs2|]. exists bm.
    split; [|apply same_from_sweep; lia]. eapply contract_ban_full; [done| |by rewrite active_eq_unlapsed].
    apply map_lookup_filter_None. by left.
Qed.

Lemma guard_ban ip secs bm s :
  secs <= I64_MAX -> has_bans dir m bm s ->
  wpq (main (mk_cli dir (Ban ip secs))) (contract_post (CBan ip secs) s bm) s.
Proof.
  intros Hsecs Hb. pose proof (bans_st_init _ _ _ _ Hb) as Hs. pose proof (parse_v6_key ip) as Hk.
  destruct (parse_ip ip) as [[a|a]|] eqn:Hp.
  - destruct Hk as [Hv Hk]. cbn [main cmd pin_dir]. unfold cmd_ban. rewrite Hv. apply wp_seq, wp_seq.
    eapply wp_eprintln; [done|]. intros s1 _ Hs1. eapply not_mesh_post; eauto.
    rewrite Hp. done.
  - destruct Hk as [Hv Hk].
    destruct (decide (is_Some (bm !! mk_addr6 (octets a)) \/ (size bm < MAX_TRACKED)%nat)) as [Hr|Hr].
    + cbn [main cmd pin_dir]. apply wp_seq.
      eapply wp_mono; [|by eapply cmd_ban_room]. intros r s1 (-> & v & Hst & Hs1).
      destruct (ban_at_intermediate secs _ _ v (bs_mono _ _ _ _ _ Hs1) Hst) as (t & Ht & Hat).
      eapply contract_post_same; [exact Ht| |exact Hs1]. by constructor.
    + apply Decidable.not_or in Hr as [Hn Hf]. eapply guard_ban_full; eauto; [by apply eq_None_not_Some|lia].
  - destruct Hk as [[e Hv] Hk]. cbn [main cmd pin_dir]. unfold cmd_ban. rewrite Hv. apply wp_seq.
    eapply (wp_failed _ ip); eauto.
Qed.

Lemma guard_unban ip bm s :
  has_bans dir m bm s -> wpq (main (mk_cli dir (Unban ip))) (contract_post (CUnban ip) s bm) s.
Proof.
  intros Hb. pose proof (bans_st_init _ _ _ _ Hb) as Hs. pose proof (parse_v6_key ip) as Hk.
  cbn [main cmd pin_dir]. apply wp_seq. destruct (parse_ip ip) as [[a|a]|] eqn:Hp.
  - destruct Hk as [Hv Hk]. unfold cmd_unban. rewrite Hv. apply wp_seq.
    eapply wp_eprintln; [done|]. intros s1 _ Hs1. eapply not_mesh_post; eauto. rewrite Hp. done.
  - destruct Hk as [Hv Hk]. eapply wp_mono; [|by eapply cmd_unban_deletes]. intros r s1 [-> Hs1].
    pose proof (bs_mono _ _ _ _ _ Hs1).
    eapply (contract_post_same _ _ _ _ _ (mono_ns s)); [lia| |exact Hs1]. by constructor.
  - destruct Hk as [[e Hv] Hk]. unfold cmd_unban. rewrite Hv. eapply (wp_failed _ ip); eauto.
Qed.

Lemma guard_check ip bm s :
  has_bans dir m bm s -> wpq (main (mk_cli dir (Check ip))) (contract_post (CCheck ip) s bm) s.
Proof.
  intros Hb. pose proof (bans_st_init _ _ _ _ Hb) as Hs. pose proof (parse_v6_key ip) as Hk.
  cbn [main cmd pin_dir]. apply wp_seq. destruct (parse_ip ip) as [[a|a]|] eqn:Hp.
  - destruct Hk as [Hv Hk]. unfold cmd_check. rewrite Hv. apply wp_seq.
    eapply wp_println; [done|]. intros s1 _ Hs1. eapply not_mesh_post; eauto.
    split; [done|]. by intros [_ ?].
  - destruct Hk as [Hv Hk]. eapply wp_mono; [|by eapply cmd_check_answers]. intros r s1 (t & Ht & Hc).
    destruct (bm !! mk_addr6 (octets a)) as [v|] eqn:E; [destruct (ban_active t v) eqn:Ea|];
      destruct Hc as [-> Hs1]; eexists t, _, _; (split; [done|]); (split; [exact Hs1|]); exists bm.
    + split; [|done]. eapply contract_check_banned; [done|]. by apply lookup_active.
    + split; [eapply contract_check_clear; [done|]|].
      * apply map_lookup_filter_None. right. intros v'. rewrite E. simpl. congruence.
      * symmetry. eapply same_from_later; [apply Ht|]. by eapply delete_inactive.
    + split; [|done]. eapply contract_check_clear; [done|]. apply map_lookup_filter_None. by left.
  - destruct Hk as [[e Hv] Hk]. unfold cmd_check. rewrite Hv. eapply (wp_failed _ ip); eauto.
Qed.

Lemma guard_list bm s :
  has_bans dir m bm s -> wpq (main (mk_cli dir List)) (contract_post CList s bm) s.
Proof.
  intros Hb. cbn [main cmd pin_dir]. apply wp_seq.
  eapply wp_mono; [|by apply cmd_list_prints].
  intros r s1 (t & t' & ls & Ht & Ht' & -> & Hls & Hs1).
  eexists t', _, _. split; [lia|]. split; [exact Hs1|]. exists bm.
  split; [by constructor|]. apply same_from_sweep. lia.
Qed.

(** Every call of the contract, run by the guard, follows it. *)
Lemma guard_follows c s A :
  call_ok c -> guard_keeps dir m s A ->
  guard_invoke dir c s (fun r s' => exists t A',
    mono_ns s <= t <= mono_ns s' /\ contract t A c r A' /\ guard_keeps dir m s' A').
Proof.
  intros Hok (bm & Hb & Hsame). unfold guard_invoke.
  eapply (wp_mono _ _ _ (contract_post c s bm)); [|destruct c; simpl; auto using guard_ban, guard_unban, guard_check, guard_list].
  intros code s' (t & out & bm' & Ht & Hs' & B & Hc & HB).
  rewrite (new_output_added s s' out) by apply Hs'.
  destruct (contract_same t bm A c (mk_reply code out) B) as (A' & Hc' & HA').
  { symmetry. eapply same_from_later, Hsame. lia. }
  { done. }
  exists t, A'. split; [done|]. split; [done|]. exists bm'. split.
  - destruct Hb as (_ & Hp & _), Hs'. split; [done|]. split; [congruence|done].
  - etrans; [|done]. symmetry. eapply same_from_later, HA'. lia.
Qed.

End guard.

(** The guard over the pin directory [dir], whose ban map is [m]. *)
#[export] Program Instance guard_backend (dir : str) (m : map_id) : BanBackend os := {|
  clock := mono_ns;
  keeps := guard_keeps dir m;
  invoke := guard_invoke dir;
|}.
Next Obligation.
  intros dir m s A B H (bm & Hb & Hs). exists bm. split; [done|]. etrans; [|done]. by symmetry.
Qed.
Next Obligation. intros dir m c s Q Q' HQ. apply wp_mono. auto. Qed.
Next Obligation. intros dir m c s A. apply guard_follows. Qed.
