(* ===== verification/GuardStats.v ===== *)
(** * The counters the guard prints

    [stats] on a host where nothing else runs: the sums of the counters, the
    configuration and the number of bans, as lines. *)
From S2P Require Import Prelude Prog Text Net Bpf Sys Guard GuardBans.
Local Open Scope prog_scope.

(** ** What [stats] prints *)

(** Time passes; no packet arrives and no other process acts. *)
Definition idle (s s' : os) : Prop := quiet s s' /\ maps s' = maps s.

Abbreviation wpi := (wp (@sys_spec false) idle).

(** The sum over the CPUs that [stats] shows for a slot. *)
Definition counter (st : list (list Z)) (slot : Z) : Z :=
  foldr (fun v a => wrap64 (v + a)) 0 (default [] (st !! Z.to_nat slot)).

Definition throttle_text (c : Config) : str :=
  if 0 <? rate_pps c
  then to_string (rate_pps c) ++ lit " pkt/s per source, burst " ++ to_string (burst_pkts c)
  else lit "disabled".

Definition bans_text (active stale : Z) : str :=
  to_string active ++ lit "/" ++ to_string (Z.of_nat MAX_TRACKED)
  ++ lit " active (" ++ to_string stale ++ lit " expired reclaimed)".

Definition stat_lines (st : list (list Z)) (c : Config) (active stale : Z) : list str :=
  [lit "passed             " ++ to_string (counter st ST_PASSED);
   lit "dropped (ban)      " ++ to_string (counter st ST_DROPPED_BAN);
   lit "dropped (throttle) " ++ to_string (counter st ST_DROPPED_THROTTLE);
   lit "not ipv6           " ++ to_string (counter st ST_NOT_IPV6);
   lit "parse failed       " ++ to_string (counter st ST_PARSE_FAILED);
   lit "throttle           " ++ throttle_text c;
   lit "bans               " ++ bans_text active stale].

(** A loaded guard: the counters, configuration and bans pinned under [dir]. *)
Record counting (dir : str) (st : list (list Z)) (c : Config) (mb : map_id) (bm : gmap Addr6 BanVal) (s : os) : Prop := {
  ct_stats : pinned_obj s dir KStats = Some (MStats st);
  ct_slots : length st = Z.to_nat ST_COUNT;
  ct_config : pinned_obj s dir KConfig = Some (MConfig c);
  ct_bans : has_bans dir mb bm s;
}.

Section stats.
Context (dir : str) (st : list (list Z)) (c : Config) (mb : map_id) (bm : gmap Addr6 BanVal) (s0 : os).
Context (Hct : counting dir st c mb bm s0).

(** Since [s0] only time has passed, and [out] was printed. *)
Definition idle_st (out : list str) (s : os) : Prop := bans_st s0 mb bm out s /\ maps s = maps s0.

Lemma idle_st_idle out s s' : idle_st out s -> idle s s' -> idle_st out s'.
Proof. intros [Hs Hm] [Hq Hm']. split; [by eapply bans_st_quiet|congruence]. Qed.

(** A call with one possible answer that leaves the state alone. *)
Lemma wpi_call {X} (e : sys X) (v : X) out (Q : X -> os -> Prop) s :
  (forall s1 x s2, idle_st out s1 -> @sys_spec false _ e s1 x s2 -> s2 = s1 /\ x = v) ->
  idle_st out s -> (forall s', mono_ns s <= mono_ns s' -> idle_st out s' -> Q v s') ->
  wpi (call e) Q s.
Proof.
  intros He Hs HQ s1 Hi x s2 Hx. pose proof (idle_st_idle _ _ _ Hs Hi) as Hs1.
  destruct (He s1 x s2 Hs1 Hx) as [-> ->]. apply HQ; [apply Hi|done].
Qed.

Lemma wpi_println l out (Q : unit -> os -> Prop) s :
  idle_st out s -> (forall s', mono_ns s <= mono_ns s' -> idle_st (out ++ [l]) s' -> Q tt s') ->
  wpi (println l) Q s.
Proof.
  intros Hs HQ s1 Hi [] s2 Hx. simpl in Hx. subst s2. apply HQ; [apply Hi|].
  destruct (idle_st_idle _ _ _ Hs Hi). split; [by apply bans_st_println|done].
Qed.

Lemma wpi_open_map k o out (Q : result map_id -> os -> Prop) s :
  pinned_obj s0 dir k = Some o -> idle_st out s ->
  (forall i s', mono_ns s <= mono_ns s' -> maps s0 !! i = Some o -> pins s0 !! pin_path dir k = Some i ->
     idle_st out s' -> Q (Ok i) s') ->
  wpi (open_map dir (map_name k)) Q s.
Proof.
  intros Ho Hs HQ. unfold pinned_obj in Ho. destruct (pins s0 !! pin_path dir k) as [i|] eqn:Ep; [|done].
  simpl in Ho. unfold open_map, with_context. apply wp_seq.
  eapply (wpi_call _ (Ok i)); [|done|].
  - intros s1 x s2 [Hs1 _] Hx. cbn [sys_spec] in Hx.
    change (path_join dir (map_name k)) with (pin_path dir k) in Hx.
    rewrite (bs_pins _ _ _ _ _ Hs1), Ep in Hx. by destruct Hx as [?|[? _]].
  - intros s' Ht Hs'. by apply (HQ i).
Qed.

Lemma wpi_try_from k i o out (Q : result map_id -> os -> Prop) s :
  maps s0 !! i = Some o -> kind_of o = k -> idle_st out s ->
  (forall s', mono_ns s <= mono_ns s' -> idle_st out s' -> Q (Ok i) s') ->
  wpi (call (MapTryFrom k i)) Q s.
Proof.
  intros Ho Hk Hs HQ. eapply (wpi_call _ (Ok i)); [|done|done].
  intros s1 x s2 [_ Hm] Hx. cbn [sys_spec] in Hx. rewrite Hm, Ho in Hx.
  destruct Hx as [(? & _ & ?)|[[? _]|[? _]]]; done.
Qed.

Lemma wpi_stats_sum i slot out (Q : result Z -> os -> Prop) s :
  maps s0 !! i = Some (MStats st) -> 0 <= slot < ST_COUNT -> idle_st out s ->
  (forall s', mono_ns s <= mono_ns s' -> idle_st out s' -> Q (Ok (counter st slot)) s') ->
  wpi (stats_sum i slot) Q s.
Proof.
  intros Ho Hslot Hs HQ. unfold stats_sum. apply wp_try.
  destruct (lookup_lt_is_Some_2 st (Z.to_nat slot)) as [cpus Hc]; [rewrite (ct_slots _ _ _ _ _ _ Hct); lia|].
  eapply (wpi_call _ (Ok cpus)); [|done|].
  - intros s1 x s2 [_ Hm] Hx. cbn [sys_spec] in Hx. rewrite Hm, Ho, Hc in Hx.
    by destruct Hx as [?|[? _]].
  - intros s' Ht Hs'. specialize (HQ s' Ht Hs'). unfold counter in HQ. by rewrite Hc in HQ.
Qed.

Lemma wpi_config i out (Q : result Config -> os -> Prop) s :
  maps s0 !! i = Some (MConfig c) -> idle_st out s ->
  (forall s', mono_ns s <= mono_ns s' -> idle_st out s' -> Q (Ok c) s') ->
  wpi (call (ConfigGet i)) Q s.
Proof.
  intros Ho Hs HQ. eapply (wpi_call _ (Ok c)); [|done|done].
  intros s1 x s2 [_ Hm] Hx. cbn [sys_spec] in Hx. rewrite Hm, Ho in Hx. by destruct Hx as [?|[? _]].
Qed.

Lemma active_count t : Z.of_nat (size bm) - Z.of_nat (lapsed_count t bm) = Z.of_nat (size (active_bans t bm)).
Proof.
  unfold lapsed_count, active_bans. rewrite <- !length_map_to_list.
  rewrite <- (Permutation_length (map_to_list_filter_perm (fun kv => ban_active t kv.2 = true) bm)).
  induction (map_to_list bm) as [|kv l IH]; [done|]. rewrite !filter_cons.
  rewrite ban_active_lapsed. destruct (lapsed t kv.2); simpl in *; lia.
Qed.

(** The sweep at the end of [stats], and the line it reports. *)
Lemma wpi_report out s :
  idle_st out s ->
  wpi (entries <- call (HashIter mb) ;;
       stale <-? prune_expired mb ;;
       println (lit "bans               "
                ++ to_string (saturating_sub (Z.of_nat (length entries)) (Z.of_nat stale))
                ++ lit "/" ++ to_string (Z.of_nat MAX_TRACKED) ++ lit " active ("
                ++ to_string (Z.of_nat stale) ++ lit " expired reclaimed)") ;;;
       Ret (Ok tt))
    (fun r s' => r = Ok tt /\ exists t, mono_ns s0 <= t <= mono_ns s' /\
       stdout s' = stdout s0 ++ out ++
         [lit "bans               " ++ bans_text (Z.of_nat (size (active_bans t bm))) (Z.of_nat (lapsed_count t bm))]) s.
Proof.
  intros [Hs _]. eapply (wp_weaken _ quiet); [by intros ? ? [? _]|done|].
  apply wp_seq. eapply wp_hash_iter; [done|]. intros l s1 Ht1 Hl Hs1.
  rewrite length_map, (Permutation_length Hl), length_map_to_list.
  apply wp_try. eapply wp_prune_expired; [done|]. intros t s2 Ht Hs2.
  apply wp_seq. eapply wp_println; [done|]. intros s3 Ht3 Hs3. split; [done|].
  exists t. pose proof (bs_mono _ _ _ _ _ Hs). split; [lia|].
  rewrite (bs_out _ _ _ _ _ Hs3). unfold bans_text.
  rewrite <- (active_count t). unfold saturating_sub.
  rewrite Z.max_r; [done|]. rewrite active_count. lia.
Qed.

Lemma wpi_throttle_line out (Q : unit -> os -> Prop) s :
  idle_st out s ->
  (forall s', mono_ns s <= mono_ns s' -> idle_st (out ++ [lit "throttle           " ++ throttle_text c]) s' -> Q tt s') ->
  wpi (if 0 <? rate_pps c
       then println (lit "throttle           " ++ to_string (rate_pps c)
                     ++ lit " pkt/s per source, burst " ++ to_string (burst_pkts c))
       else println (lit "throttle           disabled")) Q s.
Proof.
  unfold throttle_text. intros Hs HQ. destruct (0 <? rate_pps c); by eapply wpi_println.
Qed.

Lemma wpi_map_info i out (Q : result Z -> os -> Prop) s :
  idle_st out s ->
  (forall s', mono_ns s <= mono_ns s' -> idle_st out s' -> Q (Ok (Z.of_nat MAX_TRACKED)) s') ->
  wpi (call (MapInfo i)) Q s.
Proof.
  intros Hs HQ. eapply (wpi_call _ (Ok (Z.of_nat MAX_TRACKED))); [|done|done].
  intros s1 x s2 _ Hx. cbn [sys_spec] in Hx. by destruct Hx as [?|[? _]].
Qed.

Lemma cmd_stats_prints :
  wpi (cmd_stats dir) (fun r s' => r = Ok tt /\ exists t, mono_ns s0 <= t <= mono_ns s' /\
    stdout s' = stdout s0 ++
      stat_lines st c (Z.of_nat (size (active_bans t bm))) (Z.of_nat (lapsed_count t bm))) s0.
Proof.
  destruct Hct as [Hst Hlen Hcfg Hb].
  assert (H0 : idle_st [] s0) by (split; [by eapply bans_st_init|done]).
  assert (Hbm : pinned_obj s0 dir KBans = Some (MBans bm)).
  { destruct Hb as (_ & Hp & Hm). unfold pinned_obj. by rewrite Hp. }
  unfold cmd_stats. apply wp_try. eapply (wpi_open_map KStats); [exact Hst|exact H0|].
  intros i s1 _ Hi _ H1. apply wp_try. eapply wpi_try_from; [exact Hi|done|exact H1|]. intros s2 _ H2.
  clear H0 H1. rename H2 into Hs.
  do 5 (apply wp_try; eapply wpi_stats_sum; [exact Hi|done|exact Hs|];
        clear Hs; intros ? _ Hs; apply wp_seq; eapply wpi_println; [exact Hs|];
        clear Hs; intros ? _ Hs).
  apply wp_try. unfold config_map. apply wp_try.
  eapply (wpi_open_map KConfig); [exact Hcfg|exact Hs|]. clear Hs. intros j s3 _ Hj _ Hs.
  eapply wpi_try_from; [exact Hj|done|exact Hs|]. clear Hs. intros s4 _ Hs.
  apply wp_try. eapply wpi_config; [exact Hj|exact Hs|]. clear Hs. intros s5 _ Hs.
  apply wp_seq. eapply wpi_throttle_line; [exact Hs|]. clear Hs. intros s6 _ Hs.
  apply wp_try. eapply (wpi_open_map KBans); [exact Hbm|exact Hs|]. clear Hs. intros i' s7 _ _ Hi' Hs.
  destruct Hb as (_ & Hp & Hm). rewrite Hp in Hi'. injection Hi' as <-.
  apply wp_seq. eapply wpi_map_info; [exact Hs|]. clear Hs. intros s8 _ Hs.
  apply wp_try. eapply wpi_try_from; [exact Hm|done|exact Hs|]. clear Hs. intros s9 _ Hs.
  eapply wp_mono; [|exact (wpi_report _ _ Hs)].
  intros r s10 (-> & t & Ht & Hout). split; [done|]. exists t. split; [done|].
  rewrite Hout. unfold stat_lines. by rewrite <- !app_assoc.
Qed.

End stats.
