(* ===== verification/GuardTheorems.v ===== *)
(** * What the guard's commands guarantee

    Bans as the kernel enforces them, the answers of [check] and [list],
    attachment and liveness, and what survives reloads and failing calls.
    Unless a statement says otherwise, no other process interferes and calls
    fail only for their documented reasons; time and traffic always move on. *)
From S2P Require Import Prelude Prog Text Net NetSpec Bpf BpfTheorems Sys Guard GuardBans GuardLoad GuardUnload GuardFaults BanContract.
Local Open Scope prog_scope.

(** ** A concrete host, for the witnesses *)

Definition DIR : str := lit "/sys/fs/bpf/fips-shield".
Definition FIPS0 : str := lit "fips0".
Definition prog0 : program := mk_program 0%nat 1%nat 2%nat 3%nat.

(** The guard loaded on [fips0], with bans [bm], throttle [c], heartbeat [t]
    and the attached programs [fs]. *)
Definition host (bm : gmap Addr6 BanVal) (c : Config) (t : Z) (fs : list program) : os :=
  {| mono_ns := 1000000000; epoch_s := 1700000000; dirs := {[DIR]};
     pins := list_to_map (zip (map (pin_path DIR) all_kinds) (seq 0 5));
     maps := list_to_map (zip (seq 0 5)
       [MBans bm; MThrottle ∅; MConfig c; MStats (replicate 5 [0; 0]); MHealth t]);
     ifaces := {[FIPS0]}; filters := {[FIPS0 := fs]}; stdout := []; stderr := [] |}.

Definition no_throttle : Config := {| rate_pps := 0; burst_pkts := 0 |}.
Definition ban_until (ns : Z) : BanVal := {| expires_mono_ns := ns; expires_epoch_s := 1700000060 |}.

(** [peer1] of the classifier's examples, as it is written. *)
Definition PEER1 : str := lit "fd00::1".

Lemma host_bans bm c t fs : has_bans DIR 0%nat bm (host bm c t fs).
Proof. split; [vm_compute; intuition congruence|]. split; [vm_compute; reflexivity|done]. Qed.

Lemma parse_peer1 : parse_ip PEER1 = Some (V6 [64768; 0; 0; 0; 0; 0; 0; 1]).
Proof. vm_compute. reflexivity. Qed.

Lemma host_loaded bm c t fs :
  loaded_st DIR FIPS0 prog0 (MBans bm) (MHealth t) c fs (host bm c t fs).
Proof.
  split; [vm_compute; reflexivity..| | | | | |].
  - split; vm_compute; reflexivity.
  - split; vm_compute; reflexivity.
  - vm_compute. reflexivity.
  - intros []; eexists; (split; [vm_compute; reflexivity|reflexivity]).
  - vm_compute. reflexivity.
  - change (FIPS0 ∈ ({[FIPS0]} : gset str)). by apply elem_of_singleton.
Qed.

(** ** Helper facts on deadlines *)

Lemma stored_ban_active secs t0 t1 v t :
  stored_ban secs t0 t1 v -> secs <= 0 \/ t < deadline secs t0 -> ban_active t v = true.
Proof.
  unfold stored_ban, ban_active. destruct (secs <=? 0) eqn:E; bool_facts.
  - by intros ->.
  - intros [[Hl _] _] [?|Ht]; [lia|]. apply orb_true_iff. right. lia.
Qed.

Lemma stored_ban_lapses secs t0 t1 v t :
  stored_ban secs t0 t1 v -> 0 < secs -> deadline secs t1 <= t -> ban_active t v = false.
Proof.
  unfold stored_ban, ban_active. destruct (secs <=? 0) eqn:E; bool_facts; [lia|].
  intros [[_ Hu] Hp] _ Ht. apply orb_false_iff. split; lia.
Qed.

Lemma bans_st_quiet_map s0 m bm out s s2 :
  bans_st s0 m bm out s -> quiet s s2 -> maps s2 !! m = Some (MBans bm).
Proof. intros [] Hq. by apply (quiet_map_eq s s2). Qed.

Lemma bans_st_has_bans dir m bm bm' out s s' :
  has_bans dir m bm s -> bans_st s m bm' out s' -> has_bans dir m bm' s'.
Proof. intros (_ & Hp & _) []. split; [done|]. split; [congruence|done]. Qed.

(** Sweeping lapsed entries changes nothing the classifier enforces later. *)
Lemma unlapsed_enforced t t' bm k :
  t <= t' ->
  match unlapsed t bm !! k with Some v => ban_active t' v | None => false end =
  match bm !! k with Some v => ban_active t' v | None => false end.
Proof.
  intros Ht. destruct (unlapsed t bm !! k) as [v|] eqn:E.
  - apply lookup_unlapsed in E as [-> _]. done.
  - destruct (bm !! k) as [v|] eqn:Eb; [|done].
    assert (Hl : lapsed t v = true).
    { destruct (lapsed t v) eqn:El; [done|].
      assert (unlapsed t bm !! k = Some v) by (by apply lookup_unlapsed). congruence. }
    unfold lapsed in Hl. unfold ban_active. symmetry. apply andb_true_iff in Hl as [H1 H2].
    apply orb_false_iff. split; [by apply negb_true_iff|lia].
Qed.

(** ** Bans *)

(** C10.  A successful [ban] is enforced by every program attached over the ban
    map, from the moment the command returns until the deadline computed from
    the clock at its start (forever for a non-positive duration), and not past
    the deadline computed from the clock at its end: from then on only the
    throttle can drop the source's packets.  The command succeeds whenever the
    map has room or already holds the address. *)
Theorem ban_is_enforced `{LruHash} dir ip secs a m bm s :
  parse_ip ip = Some (V6 a) -> has_bans dir m bm s -> secs <= I64_MAX ->
  is_Some (bm !! mk_addr6 (octets a)) \/ (size bm < MAX_TRACKED)%nat ->
  wpq (cmd_ban dir ip secs)
    (fun r s' => r = Ok tt /\ forall s2 p cpu skb k,
       quiet s' s2 -> pg_bans p = m -> kernel_view s2 p = Some k ->
       source skb = Some (mk_addr6 (octets a)) ->
       (secs <= 0 \/ mono_ns s2 < deadline secs (mono_ns s) ->
          verdict_now s2 p cpu skb = Some TC_ACT_SHOT) /\
       (0 < secs -> deadline secs (mono_ns s') <= mono_ns s2 ->
          verdict_now s2 p cpu skb = Some TC_ACT_SHOT ->
          throttled (mono_ns s2) (mk_addr6 (octets a)) k)) s.
Proof.
  intros Hp Hb Hsecs Hroom. eapply wp_mono; [|by apply (cmd_ban_room dir ip secs a m bm s)].
  intros r s' (-> & v & Hv & Hs'). split; [done|].
  intros s2 p cpu skb k Hq Hm Hk Hsrc. pose proof (bans_st_quiet_map _ _ _ _ _ _ Hs' Hq) as Hm2.
  split.
  - intros Ht. eapply (verdict_banned s2 p cpu skb); eauto.
    + apply lookup_insert_eq.
    + by eapply stored_ban_active.
  - intros Hpos Ht Hshot. eapply verdict_not_banned; eauto. unfold ban_hit.
    rewrite (kernel_view_bans _ _ _ _ _ Hk Hm Hm2), lookup_insert_eq.
    by eapply stored_ban_lapses.
Qed.

Lemma ban_is_enforced_witness :
  wpq (cmd_ban DIR PEER1 60)
    (fun r s' => r = Ok tt /\ forall s2 p cpu skb k,
       quiet s' s2 -> pg_bans p = 0%nat -> kernel_view s2 p = Some k ->
       source skb = Some peer1 ->
       (60 <= 0 \/ mono_ns s2 < deadline 60 1000000000 ->
          verdict_now s2 p cpu skb = Some TC_ACT_SHOT) /\
       (0 < 60 -> deadline 60 (mono_ns s') <= mono_ns s2 ->
          verdict_now s2 p cpu skb = Some TC_ACT_SHOT ->
          throttled (mono_ns s2) peer1 k)) (host ∅ no_throttle 0 [prog0]).
Proof.
  apply (ban_is_enforced DIR PEER1 60 [64768; 0; 0; 0; 0; 0; 0; 1] 0%nat ∅).
  - exact parse_peer1.
  - apply host_bans.
  - unfold I64_MAX. lia.
  - right. apply Nat2Z.inj_lt. unfold MAX_TRACKED. rewrite Z2Nat.id by lia. reflexivity.
Defined.

(** A [ban] against a full map sweeps the lapsed entries once and retries:
    it succeeds exactly when some entry had lapsed, the new entry is then
    stored, and in either case no entry that had not lapsed is lost. *)
Theorem ban_reclaims_full_map dir ip secs a m bm s :
  parse_ip ip = Some (V6 a) -> has_bans dir m bm s -> secs <= I64_MAX ->
  bm !! mk_addr6 (octets a) = None -> (MAX_TRACKED <= size bm)%nat ->
  wpq (cmd_ban dir ip secs)
    (fun r s' => exists t bm', mono_ns s <= t <= mono_ns s' /\ maps s' !! m = Some (MBans bm') /\
       (r = Ok tt <-> (size (unlapsed t bm) < MAX_TRACKED)%nat) /\
       (forall k, k <> mk_addr6 (octets a) -> bm' !! k = unlapsed t bm !! k) /\
       (r = Ok tt -> exists v, bm' !! mk_addr6 (octets a) = Some v /\
                     stored_ban secs (mono_ns s) (mono_ns s') v)) s.
Proof.
  intros Hp Hb Hsecs Hn Hfull.
  eapply wp_mono; [|by apply (cmd_ban_full_map dir ip secs a m bm s)].
  intros r s' (t & v & Ht & Hv & Hcase). exists t.
  destruct (Nat.ltb_spec (size (unlapsed t bm)) MAX_TRACKED) as [Hr|Hr].
  - destruct Hcase as [-> []]. exists (<[mk_addr6 (octets a) := v]> (unlapsed t bm)).
    split_and!; try done; try lia.
    + intros k Hk. by rewrite lookup_insert_ne.
    + intros _. exists v. by rewrite lookup_insert_eq.
  - destruct Hcase as [[e ->] []]. exists (unlapsed t bm). split_and!; try done; try lia.
    split; [done|]. intros Hlt. lia.
Qed.

(** [n] lapsed entries, of distinct addresses. *)
Definition old_bans (n : nat) : gmap Addr6 BanVal :=
  list_to_map (map (fun i => (mk_addr6 [254; Z.of_nat i], ban_until 5)) (seq 0 n)).

Lemma old_bans_size n : size (old_bans n) = n.
Proof.
  unfold old_bans. rewrite map_size_list_to_map, length_map, length_seq; [done|].
  rewrite map_map. apply NoDup_fmap_2_strong; [|apply NoDup_seq].
  intros i j _ _ [= Hij]. lia.
Qed.

Lemma old_bans_none n i l : i <> 254 -> old_bans n !! mk_addr6 (i :: l) = None.
Proof.
  intros Hi. apply not_elem_of_list_to_map_1. rewrite map_map.
  intros (j & Hj & _)%list_elem_of_fmap. simpl in Hj. congruence.
Qed.

Lemma ban_reclaims_full_map_witness :
  let bm := old_bans MAX_TRACKED in
  wpq (cmd_ban DIR PEER1 60)
    (fun r s' => exists t bm', 1000000000 <= t <= mono_ns s' /\ maps s' !! 0%nat = Some (MBans bm') /\
       (r = Ok tt <-> (size (unlapsed t bm) < MAX_TRACKED)%nat) /\
       (forall k, k <> peer1 -> bm' !! k = unlapsed t bm !! k) /\
       (r = Ok tt -> exists v, bm' !! peer1 = Some v /\
                     stored_ban 60 1000000000 (mono_ns s') v)) (host bm no_throttle 0 [prog0]).
Proof.
  intros bm. apply (ban_reclaims_full_map DIR PEER1 60 [64768; 0; 0; 0; 0; 0; 0; 1] 0%nat bm).
  - exact parse_peer1.
  - apply host_bans.
  - unfold I64_MAX. lia.
  - by apply old_bans_none.
  - unfold bm. by rewrite old_bans_size.
Defined.

(** [unban] succeeds, whether or not there was a ban; afterwards the
    address has no entry, so the classifier drops its packets only through the
    throttle, and every other ban is exactly as it was. *)
Theorem unban_lifts_ban `{LruHash} dir ip a m bm s :
  parse_ip ip = Some (V6 a) -> has_bans dir m bm s ->
  wpq (cmd_unban dir ip)
    (fun r s' => r = Ok tt /\ has_bans dir m (delete (mk_addr6 (octets a)) bm) s' /\
       forall s2 p cpu skb k, quiet s' s2 -> pg_bans p = m -> kernel_view s2 p = Some k ->
         source skb = Some (mk_addr6 (octets a)) -> verdict_now s2 p cpu skb = Some TC_ACT_SHOT ->
         throttled (mono_ns s2) (mk_addr6 (octets a)) k) s.
Proof.
  intros Hp Hb. eapply wp_mono; [|by apply (cmd_unban_deletes dir ip a m bm s)].
  intros r s' [-> Hs']. split; [done|]. split; [by eapply bans_st_has_bans|].
  intros s2 p cpu skb k Hq Hm Hk Hsrc Hv. eapply verdict_not_banned; eauto.
  pose proof (bans_st_quiet_map _ _ _ _ _ _ Hs' Hq) as Hm2. unfold ban_hit.
  by rewrite (kernel_view_bans _ _ _ _ _ Hk Hm Hm2), lookup_delete_eq.
Qed.

Lemma unban_lifts_ban_witness :
  let bm : gmap Addr6 BanVal := {[peer1 := ban_until 0; peer2 := ban_until 0]} in
  wpq (cmd_unban DIR PEER1)
    (fun r s' => r = Ok tt /\ has_bans DIR 0%nat (delete peer1 bm) s' /\
       forall s2 p cpu skb k, quiet s' s2 -> pg_bans p = 0%nat -> kernel_view s2 p = Some k ->
         source skb = Some peer1 -> verdict_now s2 p cpu skb = Some TC_ACT_SHOT ->
         throttled (mono_ns s2) peer1 k) (host bm no_throttle 0 [prog0]).
Proof.
  intros bm. apply (unban_lifts_ban DIR PEER1 [64768; 0; 0; 0; 0; 0; 0; 1] 0%nat bm).
  - exact parse_peer1.
  - apply host_bans.
Defined.

(** [check] answers what the classifier does with the address: its answer
    is the classifier's ban test at an instant during the command, and the
    entries it may remove change nothing that is enforced from then on. *)
Theorem check_agrees_with_classifier dir ip a m bm s :
  parse_ip ip = Some (V6 a) -> has_bans dir m bm s ->
  wpq (cmd_check dir ip)
    (fun r s' => exists t bm', mono_ns s <= t <= mono_ns s' /\ has_bans dir m bm' s' /\
       forall k k', k_bans k = bm -> k_bans k' = bm' ->
         r = Ok (ban_hit t (mk_addr6 (octets a)) k) /\
         forall t' src, t <= t' -> ban_hit t' src k' = ban_hit t' src k) s.
Proof.
  intros Hp Hb. eapply wp_mono; [|by apply (cmd_check_answers dir ip a m bm s)].
  intros r s' (t & Ht & Hcase). exists t. destruct (bm !! mk_addr6 (octets a)) as [v|] eqn:E.
  - destruct Hcase as [-> Hs']. eexists. split; [done|]. split; [by eapply bans_st_has_bans|].
    intros k k' Hk Hk'. unfold ban_hit. rewrite Hk, E. split; [done|].
    intros t' src Htt. rewrite Hk'. destruct (ban_active t v) eqn:Ea; [done|].
    destruct (decide (src = mk_addr6 (octets a))) as [->|Hne].
    + rewrite lookup_delete_eq, E. unfold ban_active in *.
      destruct (expires_mono_ns v =? 0); [done|]. simpl in *. lia.
    + by rewrite lookup_delete_ne.
  - destruct Hcase as [-> Hs']. exists bm. split; [done|]. split; [by eapply bans_st_has_bans|].
    intros k k' Hk Hk'. unfold ban_hit. by rewrite Hk, Hk', E.
Qed.

Lemma check_agrees_with_classifier_witness :
  let bm : gmap Addr6 BanVal := {[peer1 := ban_until 1000000500]} in
  wpq (cmd_check DIR PEER1)
    (fun r s' => exists t bm', 1000000000 <= t <= mono_ns s' /\ has_bans DIR 0%nat bm' s' /\
       forall k k', k_bans k = bm -> k_bans k' = bm' ->
         r = Ok (ban_hit t peer1 k) /\
         forall t' src, t <= t' -> ban_hit t' src k' = ban_hit t' src k)
    (host bm no_throttle 0 [prog0]).
Proof.
  intros bm.
  apply (check_agrees_with_classifier DIR PEER1 [64768; 0; 0; 0; 0; 0; 0; 1] 0%nat bm).
  - exact parse_peer1.
  - apply host_bans.
Defined.

(** [list] prints exactly the bans in force at an instant during the
    command, each once, as an address and its wall-clock deadline, and its
    sweep changes nothing that is enforced from then on. *)
Theorem list_is_exact dir m bm s :
  has_bans dir m bm s ->
  wpq (cmd_list dir)
    (fun r s' => exists t ls bm', mono_ns s <= t <= mono_ns s' /\ r = Ok tt /\
       stdout s' = stdout s ++ ls /\
       ls ≡ₚ map entry_line (map_to_list (active_bans t bm)) /\
       has_bans dir m bm' s' /\
       forall k k' t' src, k_bans k = bm -> k_bans k' = bm' -> t <= t' ->
         ban_hit t' src k' = ban_hit t' src k) s.
Proof.
  intros Hb. eapply wp_mono; [|by apply (cmd_list_prints dir m bm s)].
  intros r s' (t & t' & ls & Ht & Ht' & -> & Hls & Hs').
  exists t', ls, (unlapsed t bm). split; [lia|]. split; [done|].
  split; [apply Hs'|]. split; [done|]. split; [by eapply bans_st_has_bans|].
  intros k k' t2 src Hk Hk' Ht2. unfold ban_hit. rewrite Hk, Hk'.
  apply unlapsed_enforced. lia.
Qed.

Lemma list_is_exact_witness :
  let bm : gmap Addr6 BanVal := {[peer1 := ban_until 0; peer2 := ban_until 5]} in
  wpq (cmd_list DIR)
    (fun r s' => exists t ls bm', 1000000000 <= t <= mono_ns s' /\ r = Ok tt /\
       stdout s' = [] ++ ls /\
       ls ≡ₚ map entry_line (map_to_list (active_bans t bm)) /\
       has_bans DIR 0%nat bm' s' /\
       forall k k' t' src, k_bans k = bm -> k_bans k' = bm' -> t <= t' ->
         ban_hit t' src k' = ban_hit t' src k) (host bm no_throttle 0 [prog0]).
Proof. intros bm. apply (list_is_exact DIR 0%nat bm), host_bans. Defined.

(** A positive exit code of [check] is never the effect of a failing
    call: whatever calls fail, if the process exits with success then the
    address is an IPv6 address with an entry in force. *)
Theorem check_exit_code_sound dir ip m bm s :
  has_bans dir m bm s ->
  wp (@sys_spec true) quiet (main (mk_cli dir (Check ip)))
    (fun c s' => c = SUCCESS -> exists a v t,
       parse_ip ip = Some (V6 a) /\ bm !! mk_addr6 (octets a) = Some v /\
       mono_ns s <= t /\ ban_active t v = true) s.
Proof.
  intros Hb. apply wp_seq. eapply wp_mono; [|by apply (cmd_check_positive dir ip m bm s)].
  intros r s1 Hr. eapply wp_mono; [|apply returns_wp, answer_success].
  intros c s2 Hc Hs. by apply Hr, Hc.
Qed.

Lemma check_exit_code_sound_witness :
  let bm : gmap Addr6 BanVal := {[peer1 := ban_until 0]} in
  wp (@sys_spec true) quiet (main (mk_cli DIR (Check PEER1)))
    (fun c s' => c = SUCCESS -> exists a v t,
       parse_ip PEER1 = Some (V6 a) /\ bm !! mk_addr6 (octets a) = Some v /\
       1000000000 <= t /\ ban_active t v = true) (host bm no_throttle 0 [prog0]).
Proof. intros bm. apply (check_exit_code_sound DIR PEER1 0%nat bm), host_bans. Defined.

(** C17.  Whatever calls fail during a [ban], its exit code is sound and
    nothing in force is lost: if the process exits with success, the ban map
    holds the address with a deadline computed during the command; in any case
    every other entry that has not lapsed by the end is still there. *)
Theorem ban_exit_code_sound dir ip secs a m bm s :
  parse_ip ip = Some (V6 a) -> has_bans dir m bm s -> secs <= I64_MAX ->
  wp (@sys_spec true) quiet (main (mk_cli dir (Ban ip secs)))
    (fun c s' => exists bm', has_bans dir m bm' s' /\
       (c = SUCCESS -> exists v, bm' !! mk_addr6 (octets a) = Some v /\
          stored_ban secs (mono_ns s) (mono_ns s') v) /\
       forall k v, k <> mk_addr6 (octets a) -> bm !! k = Some v ->
         lapsed (mono_ns s') v = false -> bm' !! k = Some v) s.
Proof.
  intros Hp Hb Hsecs. cbn [main cmd pin_dir]. apply wp_seq.
  eapply wp_mono; [|by apply (cmd_ban_faults dir m ip secs a bm s)].
  intros [[]|e] s1 Ho.
  - destruct Ho as (_ & bm1 & Hb1 & Hv & Hs). exists bm1. split; [done|]. split; [|done].
    intros _. by apply Hv.
  - apply wp_seq. eapply wpf_keeps; [by apply safe_call|exact Ho|].
    intros [] s2 (_ & bm2 & Hb2 & _ & Hs2) _. exists bm2. split; [done|]. split; [done|done].
Qed.

Lemma ban_exit_code_sound_witness :
  let bm : gmap Addr6 BanVal := {[peer2 := ban_until 0]} in
  wp (@sys_spec true) quiet (main (mk_cli DIR (Ban PEER1 60)))
    (fun c s' => exists bm', has_bans DIR 0%nat bm' s' /\
       (c = SUCCESS -> exists v, bm' !! peer1 = Some v /\ stored_ban 60 1000000000 (mono_ns s') v) /\
       forall k v, k <> peer1 -> bm !! k = Some v ->
         lapsed (mono_ns s') v = false -> bm' !! k = Some v) (host bm no_throttle 0 [prog0]).
Proof.
  intros bm. apply (ban_exit_code_sound DIR PEER1 60 [64768; 0; 0; 0; 0; 0; 0; 1] 0%nat bm).
  - exact parse_peer1.
  - apply host_bans.
  - unfold I64_MAX. lia.
Defined.


(** ** Configuration, loading and liveness *)

(** C18.  Loading, reloading, changing the throttle, [status], [watchdog],
    [health] and a plain [unload] keep every ban, on any pin directory and
    interface, whichever of their calls fail. *)
Theorem other_commands_keep_bans cli dir m bm s :
  touches_bans (cmd cli) = false -> has_bans dir m bm s ->
  wp (@sys_spec true) quiet (main cli) (fun _ s' => has_bans dir m bm s') s.
Proof.
  intros Hc. apply (wp_safe_invariant _ _ keeps_bans); [|eauto using keeps_bans_step|by apply safe_main].
  intros s1 s2 Hq. by apply quiet_has_bans.
Qed.

Lemma other_commands_keep_bans_witness :
  let bm : gmap Addr6 BanVal := {[peer1 := ban_until 0]} in
  wp (@sys_spec true) quiet (main (mk_cli DIR (Load FIPS0 100 50)))
    (fun _ s' => has_bans DIR 0%nat bm s') (host bm no_throttle 0 [prog0]).
Proof.
  intros bm. apply (other_commands_keep_bans (mk_cli DIR (Load FIPS0 100 50)) DIR 0%nat bm);
    [reflexivity|apply host_bans].
Defined.

(** [load] on an existing interface, with absent or usable pins,
    succeeds and leaves the new program as the only filter of the interface,
    over the pinned maps: the bans and the heartbeat that were pinned (empty
    ones if none were), and the requested throttle with a burst of at least
    one packet. *)
Theorem load_attaches_and_reuses dir iface rate burst s :
  can_load dir s -> iface ∈ ifaces s -> 0 <= burst ->
  wpq (cmd_load dir iface rate burst)
    (fun r s' => r = Ok tt /\ exists p c,
       loaded_st dir iface p (or_created s dir KBans) (or_created s dir KHealth) c [p] s' /\
       rate_pps c = rate /\ (0 < rate -> 0 < burst_pkts c) /\
       (burst <> 0 \/ rate <= 0 -> burst_pkts c = burst)) s.
Proof.
  intros Hc Hi Hb. eapply wp_mono; [|by apply (cmd_load_done dir iface rate burst s)].
  intros r s' (-> & p & Hp). split; [done|]. exists p, (stored_config rate burst).
  split_and!; [done|done|by apply stored_config_burst|].
  intros Hcase. unfold stored_config. simpl. destruct Hcase as [Hne|Hr].
  - apply Z.eqb_neq in Hne. by rewrite Hne, andb_false_r.
  - by replace (0 <? rate) with false by (symmetry; lia).
Qed.

Lemma load_attaches_and_reuses_witness :
  let bm : gmap Addr6 BanVal := {[peer1 := ban_until 0]} in
  let s := host bm no_throttle 7 [] in
  wpq (cmd_load DIR FIPS0 100 0)
    (fun r s' => r = Ok tt /\ exists p c,
       loaded_st DIR FIPS0 p (or_created s DIR KBans) (or_created s DIR KHealth) c [p] s' /\
       rate_pps c = 100 /\ (0 < 100 -> 0 < burst_pkts c) /\
       (0 <> 0 \/ 100 <= 0 -> burst_pkts c = 0)) s.
Proof.
  intros bm s. apply (load_attaches_and_reuses DIR FIPS0 100 0 s); [| |lia].
  - by destruct (loaded_can_load _ _ _ _ _ _ _ _ (host_loaded bm no_throttle 7 [])) as [? _].
  - apply (ls_iface _ _ _ _ _ _ _ _ (host_loaded bm no_throttle 7 [])).
Defined.

(** C19.  Whatever calls fail, a [watchdog] run that exits with success has
    left the classifier attached to the interface, and a heartbeat. *)
Theorem watchdog_success_means_attached dir iface s :
  wp (@sys_spec true) quiet (main (mk_cli dir (Watchdog iface)))
    (fun c s' => c = SUCCESS ->
       attached iface s' = true /\ exists t, 0 <= t /\ heartbeat dir s' = Some t) s.
Proof.
  apply wp_seq. eapply wp_mono; [|apply cmd_watchdog_attached].
  intros [[]|e] s1 H; [intros _; by apply H|].
  apply wp_seq, wp_any. by intros _ s2.
Qed.

(** A [watchdog] that finds the classifier detached attaches it again:
    one filter, over the same bans, with the throttle it was configured with
    (not the defaults), and a fresh heartbeat. *)
Theorem watchdog_restores_enforcement dir iface p ob oh oc s :
  loaded_st dir iface p ob oh oc [] s -> config_normal oc ->
  wpq (cmd_watchdog dir iface)
    (fun r s' => r = Ok tt /\ exists p' t, 0 <= t /\
       loaded_st dir iface p' ob (MHealth t) oc [p'] s') s.
Proof. intros. by eapply cmd_watchdog_repairs. Qed.

Lemma watchdog_restores_enforcement_witness :
  let bm : gmap Addr6 BanVal := {[peer1 := ban_until 0]} in
  let c := {| rate_pps := 200; burst_pkts := 400 |} in
  wpq (cmd_watchdog DIR FIPS0)
    (fun r s' => r = Ok tt /\ exists p' t, 0 <= t /\
       loaded_st DIR FIPS0 p' (MBans bm) (MHealth t) c [p'] s') (host bm c 7 []).
Proof.
  intros bm c.
  apply (watchdog_restores_enforcement DIR FIPS0 prog0 (MBans bm) (MHealth 7) c (host bm c 7 [])).
  - apply host_loaded.
  - reflexivity.
Defined.

(** [health] reads the heartbeat and answers "stale" exactly when there
    is one older than the limit by the wall clock of the moment; it never
    writes it. *)
Theorem health_reports_age dir max_age t s :
  heartbeat dir s = Some t -> 0 <= max_age ->
  wpq (cmd_health dir max_age)
    (fun r s' => heartbeat dir s' = Some t /\ exists s1, quiet s s1 /\
       (r = Ok true \/ r = Ok false) /\
       (r = Ok false <-> t <> 0 /\ max_age < wall s1 - t)) s.
Proof.
  intros Ht Ha. eapply wp_mono; [|by apply (cmd_health_answers dir max_age t s)].
  intros r s' (s1 & Hq & -> & Hh). split; [done|]. exists s1. split; [done|].
  unfold healthy, saturating_sub. destruct (t =? 0) eqn:E; simpl; bool_facts.
  - split; [by left|]. split; [done|]. by intros [? _].
  - destruct (_ <=? max_age) eqn:E2; bool_facts; (split; [auto|]);
      (split; [intros; (done || (split; [done|lia]))|intros [_ ?]; (done || lia)]).
Qed.

Lemma health_reports_age_witness :
  let s := host ∅ no_throttle 1600000000 [prog0] in
  wpq (cmd_health DIR 180)
    (fun r s' => heartbeat DIR s' = Some 1600000000 /\ exists s1, quiet s s1 /\
       (r = Ok true \/ r = Ok false) /\
       (r = Ok false <-> 1600000000 <> 0 /\ 180 < wall s1 - 1600000000)) s.
Proof.
  intros s. apply (health_reports_age DIR 180 1600000000 s); [vm_compute; reflexivity|lia].
Defined.

(** A plain [unload] succeeds and leaves no filter of the guard on the
    interface, every pin in place, the filters of other interfaces and, up to
    traffic, the contents of every map as they were. *)
Theorem unload_keeps_pins dir iface s :
  wpq (cmd_unload dir iface false)
    (fun r s' => r = Ok tt /\ attached iface s' = false /\ pins s' = pins s /\
       (forall j, j <> iface -> filters_on s' j = filters_on s j) /\
       forall m, option_Forall2 traffic_map (maps s !! m) (maps s' !! m)) s.
Proof.
  eapply wp_mono; [|apply cmd_unload_keeps]. intros r s' [-> Hs']. unfold attached.
  rewrite (us_filters _ _ _ _ Hs'). destruct Hs'. by split_and!.
Qed.

(** [unload --purge] unpins only after it has detached the program from
    the given interface: with no filter there it fails and every pin stays.
    When it succeeds, the pins of the bans, buckets, configuration and
    counters are gone and every other pin stays: in particular the heartbeat,
    whose pin keeps the directory; filters on other interfaces are untouched,
    so a program attached there goes on enforcing maps no command can reach. *)
Theorem unload_purge_effect dir iface s :
  wpq (cmd_unload dir iface true)
    (fun r s' =>
       (r = Ok tt <-> attached iface s = true) /\ attached iface s' = false /\
       (r <> Ok tt -> pins s' = pins s) /\
       (r = Ok tt ->
          (forall k, pins s' !! pin_path dir k =
             if decide (k = KHealth) then pins s !! pin_path dir KHealth else None) /\
          (forall path, path ∉ map (pin_path dir) purged -> pins s' !! path = pins s !! path) /\
          (is_Some (pins s !! pin_path dir KHealth) -> dirs s' = dirs s)) /\
       (forall j, j <> iface -> filters_on s' j = filters_on s j)) s.
Proof.
  eapply wp_mono; [|apply cmd_unload_purges]. intros r s'. unfold attached.
  destruct (bool_decide (filters_on s iface = [])) eqn:Ef.
  - apply bool_decide_eq_true in Ef. intros [[e ->] Hs']. rewrite (us_filters _ _ _ _ Hs'). destruct Hs'. by split_and!.
  - intros (-> & Hp & Hf & Ho & _ & Hd). rewrite Hf. split_and!; try done. intros _.
    assert (Hpath : forall path, path ∉ map (pin_path dir) purged -> pins s' !! path = pins s !! path).
    { intros path Hn. rewrite Hp, lookup_purged_pins. by rewrite decide_False. }
    split_and!; [|done|done]. intros k. rewrite Hp, lookup_purged_pins.
    destruct (decide (k = KHealth)) as [->|Hk].
    + rewrite decide_False; [done|]. intros (k & Hk & Hin)%list_elem_of_fmap.
      by destruct (health_not_purged dir k).
    + rewrite decide_True; [done|]. apply list_elem_of_fmap_2.
      destruct k; try done; unfold purged; repeat constructor.
Qed.

(** ** Addresses *)

(** Addresses survive being printed and read: what [list] prints for a
    key of the ban map is parsed by [ban], [unban] and [check] as an IPv6
    address, and the key they compute from it is that key. *)
Theorem listed_address_names_its_key key :
  sixteen_bytes (b key) ->
  exists a, parse_v6 (show_v6 (from_octets (b key))) = Ok (Some a) /\ mk_addr6 (octets a) = key.
Proof.
  intros Hk. destruct (octets_from_octets _ Hk) as [Hv Ho]. exists (from_octets (b key)).
  unfold parse_v6. rewrite parse_ip_show_v6 by done. split; [done|].
  rewrite Ho. by destruct key.
Qed.

Lemma listed_address_names_its_key_witness :
  exists a, parse_v6 (show_v6 (from_octets (b peer1))) = Ok (Some a) /\ mk_addr6 (octets a) = peer1.
Proof. apply (listed_address_names_its_key peer1). split; [done|]. repeat constructor; lia. Defined.

(** ** Where [unban] falls short of its comment *)

(** The read-back takes any lookup error for absence: when the lookups and
    the delete all fail (the pinned map opened, but map calls are refused),
    [unban] prints "unbanned", succeeds, and the ban is still in force. *)
Example unban_trusts_failed_lookups :
  let s := host {[peer1 := ban_until 0]} no_throttle 7 [prog0] in
  ~ wp (@sys_spec true) quiet (cmd_unban DIR PEER1)
      (fun r s' => r = Ok tt -> bans_of s' 0%nat <> Some {[peer1 := ban_until 0]}) s.
Proof.
  intros s H. unfold cmd_unban, parse_v6 in H. rewrite parse_peer1 in H.
  set (dead := (lit "EPERM") : err) in *.
  assert (Hb : bans_of s 0%nat = Some {[peer1 := ban_until 0]}) by reflexivity.
  assert (Hp : pins s !! pin_path DIR KBans = @Some map_id 0%nat) by (vm_compute; reflexivity).
  assert (Hfail : forall A (P : gmap Addr6 BanVal -> result A -> os -> Prop),
    hash_call true s 0%nat P (Err dead) s).
  { intros A P. unfold hash_call. rewrite Hb. right. split; [done|]. split; [done|]. by exists dead. }
  assert (Hopen : sys_spec true (MapFromPin (pin_path DIR KBans)) s (@Ok err map_id 0%nat) s).
  { unfold sys_spec. rewrite Hp. by left. }
  specialize (H s (quiet_refl s) (Ok 0%nat) s Hopen s (quiet_refl s) (Ok 0%nat) s
    (or_introl (conj eq_refl (conj eq_refl eq_refl)))).
  specialize (H s (quiet_refl s) (Err dead) s (Hfail _ _)).
  specialize (H s (quiet_refl s) (Err dead) s (Hfail _ _)).
  specialize (H s (quiet_refl s) (Err dead) s (Hfail _ _)).
  specialize (H s (quiet_refl s) tt _ eq_refl).
  specialize (H (add_stdout (lit "unbanned " ++ PEER1) s) (quiet_refl _) tt _ eq_refl).
  by apply (H eq_refl).
Qed.

(** ** Sessions *)

(** C6.  The guard implements the ban contract: any sequence of [ban],
    [unban], [check] and [list] calls, with time and traffic passing between
    and during them, is a history of the contract.  Each call takes effect at
    one instant between its start and its end, its exit code (and, for [check]
    and [list], its output) is the contract's answer to the bans in force at
    that instant, and at the end the ban map agrees with the history on every
    ban that is in force from then on. *)
Theorem guard_session_is_history dir m cs s bm :
  Forall call_ok cs -> has_bans dir m bm s ->
  @session os (guard_backend dir m) cs s (fun rs s' =>
    length rs = length cs /\ exists A bm',
      history (mono_ns s) bm (zip cs rs) (mono_ns s') A /\
      has_bans dir m bm' s' /\ same_from (mono_ns s') A bm').
Proof.
  intros Hok Hb. eapply session_mono; [|apply (session_history cs s bm Hok); by exists bm].
  intros rs s' (Hl & A & Hh & bm' & Hb' & HA). split; [done|]. by exists A, bm'.
Qed.

Definition a_session : list BanCall :=
  [CBan PEER1 60; CCheck PEER1; CList; CUnban PEER1; CCheck PEER1; CBan (lit "10.0.0.1") 60].

Lemma guard_session_is_history_witness :
  @session os (guard_backend DIR 0%nat) a_session (host ∅ no_throttle 0 [prog0]) (fun rs s' =>
    length rs = length a_session /\ exists A bm',
      history 1000000000 ∅ (zip a_session rs) (mono_ns s') A /\
      has_bans DIR 0%nat bm' s' /\ same_from (mono_ns s') A bm').
Proof.
  apply (guard_session_is_history DIR 0%nat a_session (host ∅ no_throttle 0 [prog0]) ∅).
  - repeat (apply Forall_cons; split); try done; unfold call_ok, I64_MAX; lia.
  - apply host_bans.
Defined.

(** A history of the contract that starts with an accepted ban, and does not
    touch its address again, leaves the address dropped. *)
Lemma accepted_ban_drops `{LruHash} dir m ip key secs cs rs t bm A s' bm' :
  key_of ip = Some key -> Forall (fun c => ~ edits key c) cs ->
  history t bm (zip (CBan ip secs :: cs) rs) (mono_ns s') A ->
  has_bans dir m bm' s' -> same_from (mono_ns s') A bm' ->
  status <$> head rs = Some SUCCESS -> forall s2 p cpu skb k,
    quiet s' s2 -> pg_bans p = m -> kernel_view s2 p = Some k -> source skb = Some key ->
    secs <= 0 \/ mono_ns s2 < deadline secs t ->
    verdict_now s2 p cpu skb = Some TC_ACT_SHOT.
Proof.
  intros Hkey Hed Hh Hb' HA Hst s2 p cpu skb k Hq Hp Hk Hsrc Ht.
  destruct rs as [|[code ls] rs]; [done|]. simpl in Hst. simplify_eq.
  simpl in Hh. inversion Hh as [|t1 c r A1 h t' A' Ht1 Hc Hrest]; subst.
  assert (Hv : exists v, A1 !! key = Some v /\ ban_at secs t1 v).
  { inversion Hc; subst; [|naive_solver]. simplify_eq.
    eexists. split; [apply lookup_insert_eq|done]. }
  destruct Hv as (v & Hv & Hat).
  assert (HAv : A !! key = Some v).
  { erewrite history_ban_stands; [exact Hv|exact Hrest|].
    apply Forall_forall. intros [c' r'] Hin%elem_of_zip_l. by eapply Forall_forall in Hed. }
  pose proof (proj1 Hq) as Hclock.
  assert (Ha : ban_active (mono_ns s2) v = true).
  { unfold ban_at in Hat. unfold ban_active. destruct (secs <=? 0) eqn:E; [by subst v|].
    destruct Hat as [-> _]. pose proof (deadline_mono secs _ _ Ht1). bool_facts.
    apply orb_true_iff. right. lia. }
  assert (Hbv : active_bans (mono_ns s') bm' !! key = Some v).
  { rewrite <- HA. apply lookup_active. split; [done|]. by eapply ban_active_before. }
  apply lookup_active in Hbv as [Hbv _].
  eapply (verdict_banned s2 p cpu skb key v (pg_bans p) bm' k); try done.
  destruct Hb' as (_ & _ & Hm'). eapply quiet_map_eq; eauto; done.
Qed.

(** C7.  A ban that was accepted stands: whatever calls about other addresses
    follow it, and however long they take, the classifier drops every packet
    of the source until the deadline counted from the start of the ban. *)
Theorem ban_stands_through_session `{LruHash} dir m ip key secs cs s bm :
  key_of ip = Some key -> secs <= I64_MAX -> Forall call_ok cs ->
  Forall (fun c => ~ edits key c) cs -> has_bans dir m bm s ->
  @session os (guard_backend dir m) (CBan ip secs :: cs) s (fun rs s' =>
    status <$> head rs = Some SUCCESS -> forall s2 p cpu skb k,
      quiet s' s2 -> pg_bans p = m -> kernel_view s2 p = Some k -> source skb = Some key ->
      secs <= 0 \/ mono_ns s2 < deadline secs (mono_ns s) ->
      verdict_now s2 p cpu skb = Some TC_ACT_SHOT).
Proof.
  intros Hkey Hsecs Hok Hed Hb.
  eapply session_mono; [|apply (session_history (CBan ip secs :: cs) s bm); [by constructor|by exists bm]].
  intros rs s' (Hl & A & Hh & bm' & Hb' & HA). by apply (accepted_ban_drops dir m ip key secs cs rs (mono_ns s) bm A s' bm').
Qed.

Lemma ban_stands_through_session_witness :
  @session os (guard_backend DIR 0%nat) [CBan PEER1 60; CUnban (lit "fd00::2"); CList]
    (host ∅ no_throttle 0 [prog0]) (fun rs s' =>
    status <$> head rs = Some SUCCESS -> forall s2 p cpu skb k,
      quiet s' s2 -> pg_bans p = 0%nat -> kernel_view s2 p = Some k -> source skb = Some peer1 ->
      60 <= 0 \/ mono_ns s2 < deadline 60 1000000000 ->
      verdict_now s2 p cpu skb = Some TC_ACT_SHOT).
Proof.
  apply (ban_stands_through_session DIR 0%nat PEER1 peer1 60
           [CUnban (lit "fd00::2"); CList] (host ∅ no_throttle 0 [prog0]) ∅).
  - vm_compute. reflexivity.
  - unfold I64_MAX. lia.
  - by repeat constructor.
  - repeat (apply Forall_cons; split); try constructor; vm_compute; [congruence|done].
  - apply host_bans.
Defined.
