(* ===== verification/Json.v ===== *)
(** * The dashboard's JSON writer: [ui/src/json.rs]

    The writer appends to a string buffer; a method that takes [&mut self]
    returns the new object.  [JsonSpec] reads the output back. *)
From S2P Require Import Prelude Text.

(** One character of a quoted string. *)
Definition escape (c : char) : str :=
  if c =? 34 then [92; 34]
  else if c =? 92 then [92; 92]
  else if c =? 10 then [92; 110]
  else if c =? 13 then [92; 114]
  else if c =? 9 then [92; 116]
  else if c <? 32 then [92; 117] ++ format_hex_pad 4 c
  else [c].

Definition push_str (out s : str) : str :=
  out ++ [34] ++ concat (map escape s) ++ [34].

(** An object under construction, and whether a separator is due. *)
Record Obj := mk_obj { buf : str; first : bool }.

Module Obj.

Definition new : Obj := {| buf := lit "{"; first := true |}.

Definition key (o : Obj) (k : str) : Obj :=
  let out := if first o then buf o else buf o ++ [44] in
  {| buf := push_str out k ++ [58]; first := false |}.

Definition str (o : Obj) (k v : list Z) : Obj :=
  let o := key o k in {| buf := push_str (buf o) v; first := first o |}.

Definition num (o : Obj) (k : list Z) (v : Z) : Obj :=
  let o := key o k in {| buf := buf o ++ to_string v; first := first o |}.

Definition bool (o : Obj) (k : list Z) (v : Datatypes.bool) : Obj :=
  let o := key o k in
  {| buf := buf o ++ (if v then lit "true" else lit "false"); first := first o |}.

Definition raw (o : Obj) (k v : list Z) : Obj :=
  let o := key o k in {| buf := buf o ++ v; first := first o |}.

(** [done] takes the buffer out of the object. *)
Definition done (o : Obj) : list Z * Obj :=
  (buf o ++ [125], {| buf := []; first := first o |}).

End Obj.

(** The text [o.done()] returns. *)
Definition finished (o : Obj) : str := fst (Obj.done o).

(** The loop of [arr]: [i] is the index [enumerate] gives. *)
Fixpoint arr_loop (out : str) (i : nat) (items : list str) : str :=
  match items with
  | [] => out
  | it :: r => arr_loop ((if (0 <? i)%nat then out ++ [44] else out) ++ it) (S i) r
  end.

Definition arr (items : list str) : str := arr_loop [91] 0 items ++ [93].

Fixpoint str_arr_loop (out : str) (i : nat) (items : list str) : str :=
  match items with
  | [] => out
  | it :: r => str_arr_loop (push_str (if (0 <? i)%nat then out ++ [44] else out) it) (S i) r
  end.

Definition str_arr (items : list str) : str := str_arr_loop [91] 0 items ++ [93].

(** The shapes of the source's own tests; an apostrophe stands for a quote. *)
Definition quoted (s : string) : str := map (fun c => if c =? 39 then 34 else c) (lit s).

Example push_str_ex :
  push_str [] [97; 34; 98; 92; 99; 10; 100; 9; 101; 1; 102] = quoted "'a\'b\\c\nd\te\u0001f'".
Proof. vm_compute. reflexivity. Qed.

Example obj_ex :
  finished (Obj.bool (Obj.num (Obj.str Obj.new (lit "a") (lit "1")) (lit "b") 2) (lit "c") true)
  = quoted "{'a':'1','b':2,'c':true}".
Proof. vm_compute. reflexivity. Qed.

Example arr_ex : arr [lit "1"; lit "2"] = lit "[1,2]".
Proof. vm_compute. reflexivity. Qed.
