(* ===== verification/JsonSpec.v ===== *)
(** * Reading the dashboard's JSON back

    A reference reader for JSON text (RFC 8259, with integers as the only
    numbers), written independently of the writer, and the proof that what the
    writer of [Json] composes is read back as what was put in: a relation
    [denotes t v] that strings, numbers, arrays and objects preserve. *)
From S2P Require Import Prelude Text Json.

#[warnings="-register-all"]
Inductive json :=
| JBool (b : bool)
| JNum (n : Z)
| JStr (s : str)
| JArr (l : list json)
| JObj (l : list (str * json)).

(** ** The reader *)

Definition is_ws (c : char) : bool := (c =? 32) || (c =? 9) || (c =? 10) || (c =? 13).

Fixpoint skip_ws (s : str) : str :=
  match s with
  | c :: r => if is_ws c then skip_ws r else s
  | [] => []
  end.

Definition hex4 (a b c d : char) : option Z :=
  match to_digit 16 a, to_digit 16 b, to_digit 16 c, to_digit 16 d with
  | Some a, Some b, Some c, Some d => Some (((a * 16 + b) * 16 + c) * 16 + d)
  | _, _, _, _ => None
  end.

(** A two-character escape. *)
Definition simple_escape (e : char) : option char :=
  if (e =? 34) || (e =? 92) || (e =? 47) then Some e
  else if e =? 98 then Some 8
  else if e =? 102 then Some 12
  else if e =? 110 then Some 10
  else if e =? 114 then Some 13
  else if e =? 116 then Some 9
  else None.

Definition cons_char (c : char) (o : option (str * str)) : option (str * str) :=
  match o with Some (s, r) => Some (c :: s, r) | None => None end.

(** The characters of a string after its opening quote, up to the closing
    one, and the rest of the text.  A surrogate pair is one character. *)
Fixpoint read_chars (s : str) : option (str * str) :=
  match s with
  | [] => None
  | c :: r =>
    if c =? 34 then Some ([], r)
    else if c =? 92 then
      match r with
      | [] => None
      | e :: r1 =>
        if e =? 117 then
          match r1 with
          | a :: b :: c :: d :: r2 =>
            match hex4 a b c d with
            | None => None
            | Some u =>
              if in_range 55296 56319 u then
                match r2 with
                | b1 :: b2 :: a' :: b' :: c' :: d' :: r3 =>
                  match hex4 a' b' c' d' with
                  | Some l =>
                    if (b1 =? 92) && (b2 =? 117) && in_range 56320 57343 l
                    then cons_char (65536 + (u - 55296) * 1024 + (l - 56320)) (read_chars r3)
                    else None
                  | None => None
                  end
                | _ => None
                end
              else if in_range 56320 57343 u then None
              else cons_char u (read_chars r2)
            end
          | _ => None
          end
        else match simple_escape e with
             | Some c' => cons_char c' (read_chars r1)
             | None => None
             end
      end
    else if c <? 32 then None
    else cons_char c (read_chars r)
  end.

(** The digits of a number, and the rest. *)
Fixpoint read_digits_acc (acc : Z) (s : str) : Z * str :=
  match s with
  | c :: r => match to_digit 10 c with
              | Some d => read_digits_acc (acc * 10 + d) r
              | None => (acc, s)
              end
  | [] => (acc, [])
  end.

(** A non-negative integer without leading zeros. *)
Definition read_nat (s : str) : option (Z * str) :=
  match s with
  | c :: r =>
    match to_digit 10 c with
    | Some d =>
      if d =? 0 then
        match r with
        | c' :: _ => if is_ok (match to_digit 10 c' with Some x => Ok x | None => Err tt end)
                     then None else Some (0, r)
        | [] => Some (0, [])
        end
      else Some (read_digits_acc d r)
    | None => None
    end
  | [] => None
  end.

Fixpoint read_value (fuel : nat) (s : str) {struct fuel} : option (json * str) :=
  match fuel with
  | O => None
  | S f =>
    match skip_ws s with
    | [] => None
    | c :: r =>
      if c =? 34 then
        match read_chars r with Some (t, r') => Some (JStr t, r') | None => None end
      else if c =? 91 then
        match skip_ws r with
        | d :: r' => if d =? 93 then Some (JArr [], r')
                     else match read_elems f r with
                          | Some (l, r'') => Some (JArr l, r'')
                          | None => None
                          end
        | [] => None
        end
      else if c =? 123 then
        match skip_ws r with
        | d :: r' => if d =? 125 then Some (JObj [], r')
                     else match read_members f r with
                          | Some (l, r'') => Some (JObj l, r'')
                          | None => None
                          end
        | [] => None
        end
      else if starts_with (lit "true") (c :: r) then Some (JBool true, drop 3 r)
      else if starts_with (lit "false") (c :: r) then Some (JBool false, drop 4 r)
      else if c =? 45 then
        match read_nat r with Some (n, r') => Some (JNum (- n), r') | None => None end
      else match read_nat (c :: r) with Some (n, r') => Some (JNum n, r') | None => None end
    end
  end
with read_elems (fuel : nat) (s : str) {struct fuel} : option (list json * str) :=
  match fuel with
  | O => None
  | S f =>
    match read_value f s with
    | None => None
    | Some (v, r) =>
      match skip_ws r with
      | c :: r' =>
        if c =? 44 then
          match read_elems f r' with Some (l, r'') => Some (v :: l, r'') | None => None end
        else if c =? 93 then Some ([v], r')
        else None
      | [] => None
      end
    end
  end
with read_members (fuel : nat) (s : str) {struct fuel} : option (list (str * json) * str) :=
  match fuel with
  | O => None
  | S f =>
    match skip_ws s with
    | q :: r0 =>
      if q =? 34 then
        match read_chars r0 with
        | None => None
        | Some (k, r1) =>
          match skip_ws r1 with
          | col :: r2 =>
            if col =? 58 then
              match read_value f r2 with
              | None => None
              | Some (v, r3) =>
                match skip_ws r3 with
                | c :: r4 =>
                  if c =? 44 then
                    match read_members f r4 with
                    | Some (l, r5) => Some ((k, v) :: l, r5)
                    | None => None
                    end
                  else if c =? 125 then Some ([(k, v)], r4)
                  else None
                | [] => None
                end
              end
            else None
          | [] => None
          end
        end
      else None
    | [] => None
    end
  end.

(** A whole text. *)
Definition read_json (s : str) : option json :=
  match read_value (S (length s)) s with
  | Some (v, r) => match skip_ws r with [] => Some v | _ => None end
  | None => None
  end.

Example read_json_ex :
  read_json (quoted "{'a' : [1, 20, true, false], 'b':'\u0041\ud83d\ude00\n'}") =
  Some (JObj [(lit "a", JArr [JNum 1; JNum 20; JBool true; JBool false]);
              (lit "b", JStr [65; 128512; 10])]).
Proof. vm_compute. reflexivity. Qed.

Example read_json_rejects :
  read_json (quoted "{'a':1,}") = None /\ read_json (quoted "[1 2]") = None /\
  read_json (quoted "'a") = None /\ read_json (quoted "01") = None.
Proof. vm_compute. done. Qed.

(** ** What a piece of text denotes *)

Definition no_digit (s : str) : Prop :=
  match s with c :: _ => to_digit 10 c = None | [] => True end.

Definition value_start (t : str) : Prop :=
  match t with c :: _ => is_ws c = false /\ c <> 93 | [] => False end.

(** [t] is the text of the value [v], wherever it is followed by something
    that cannot extend a number; its length is enough fuel. *)
Definition denotes (t : str) (v : json) : Prop :=
  value_start t /\
  forall n rest, (length t <= n)%nat -> no_digit rest -> read_value n (t ++ rest) = Some (v, rest).

Fixpoint sep (ts : list str) : str :=
  match ts with
  | [] => []
  | [t] => t
  | t :: r => t ++ 44 :: sep r
  end.

(** The text of a member, and the state of an object under construction. *)
Definition member (m : str) (kv : str * json) : Prop :=
  is_text kv.1 /\ exists t, m = push_str [] kv.1 ++ 58 :: t /\ denotes t kv.2.

Definition obj_holds (o : Obj) (kvs : list (str * json)) : Prop :=
  exists ms, buf o = 123 :: sep ms /\ first o = bool_decide (ms = []) /\ Forall2 member ms kvs.

Lemma skip_ws_start t rest : value_start t -> skip_ws (t ++ rest) = t ++ rest.
Proof. destruct t as [|c t]; simpl; [done|]. by intros [-> _]. Qed.

Lemma read_chars_escape c x :
  is_char c = true -> read_chars (escape c ++ x) = cons_char c (read_chars x).
Proof.
  intros Hc. unfold is_char in Hc. unfold escape.
  destruct (c =? 34) eqn:E1; [bool_facts; by subst|].
  destruct (c =? 92) eqn:E2; [bool_facts; by subst|].
  destruct (c =? 10) eqn:E3; [bool_facts; by subst|].
  destruct (c =? 13) eqn:E4; [bool_facts; by subst|].
  destruct (c =? 9) eqn:E5; [bool_facts; by subst|].
  destruct (c <? 32) eqn:E6.
  - assert (Hb : 0 <= c < 32) by lia. clear -Hb.
    replace c with (Z.of_nat (Z.to_nat c)) by lia.
    assert (Hn : (Z.to_nat c < 32)%nat) by lia. revert Hn. generalize (Z.to_nat c). intros n Hn.
    do 32 (destruct n as [|n]; [reflexivity|]). lia.
  - simpl. by rewrite E1, E2, E6.
Qed.

Lemma read_chars_string s rest :
  is_text s -> read_chars (concat (map escape s) ++ 34 :: rest) = Some (s, rest).
Proof.
  induction 1 as [|c s Hc _ IH]; [done|]. cbn [map concat].
  rewrite <- app_assoc, read_chars_escape by done. by rewrite IH.
Qed.

Lemma push_str_app out s : push_str out s = out ++ push_str [] s.
Proof. done. Qed.

Lemma push_str_cons s rest :
  push_str [] s ++ rest = 34 :: concat (map escape s) ++ 34 :: rest.
Proof. unfold push_str. simpl. by rewrite <- !app_assoc. Qed.

Lemma denotes_str s : is_text s -> denotes (push_str [] s) (JStr s).
Proof.
  intros Hs. split; [done|]. intros [|n] rest Hn _; [simpl in Hn; lia|].
  rewrite push_str_cons. cbn [read_value skip_ws]. change (is_ws 34) with false. cbn iota.
  change (34 =? 34) with true. cbn iota. by rewrite read_chars_string.
Qed.

Lemma denotes_bool (b : bool) : denotes (if b then lit "true" else lit "false") (JBool b).
Proof.
  assert (Ht : lit "true" = [116; 114; 117; 101]) by reflexivity.
  assert (Hf : lit "false" = [102; 97; 108; 115; 101]) by reflexivity.
  destruct b; rewrite ?Ht, ?Hf; (split; [done|]); intros [|n] rest Hn _; simpl in Hn; try lia;
    cbn [read_value app skip_ws]; rewrite ?Ht, ?Hf; reflexivity.
Qed.

(** Numbers. *)

Lemma read_digits_acc_digits ds acc rest :
  Forall (fun d => 0 <= d < 10) ds -> no_digit rest ->
  read_digits_acc acc (map digit_char ds ++ rest) = (foldl (fun a d => a * 10 + d) acc ds, rest).
Proof.
  intros Hds Hr. revert acc. induction Hds as [|d ds Hd _ IH]; intros acc.
  - simpl. destruct rest as [|c r]; [done|]. simpl in *. by rewrite Hr.
  - simpl. rewrite to_digit_char by lia. apply IH.
Qed.

Lemma foldl_digits_value ds acc :
  foldl (fun a d => a * 10 + d) acc (reverse ds) = acc * 10 ^ Z.of_nat (length ds) + digits_value 10 ds.
Proof.
  induction ds as [|d ds IH]; [simpl; lia|].
  rewrite reverse_cons, foldl_app, IH. cbn [foldl length].
  change (digits_value 10 (d :: ds)) with (d + 10 * digits_value 10 ds).
  rewrite Nat2Z.inj_succ, Z.pow_succ_r by lia. lia.
Qed.

Lemma denotes_num n : is_u64_spec n -> denotes (to_string n) (JNum n).
Proof.
  intros Hn. assert (Hn0 : 0 <= n) by (unfold is_u64_spec in Hn; lia).
  unfold to_string, format_radix. set (ds := digits_rev (digits_fuel n) 10 n).
  assert (Hr : Forall (fun d => 0 <= d < 10) (reverse ds)).
  { apply Forall_reverse. apply digits_rev_range; lia. }
  assert (Hv : digits_value 10 ds = n).
  { apply digits_rev_value; [lia|]. split; [done|by apply digits_fuel_enough]. }
  assert (Hne : reverse ds <> []) by apply reverse_digits_rev_nonempty.
  assert (Hz : n = 0 -> ds = [0]) by (by intros ->).
  assert (Hlead : 0 < n -> exists d l, reverse ds = d :: l /\ d <> 0).
  { intros Hp. destruct (digits_rev_last (digits_fuel n) n Hp (digits_fuel_enough n Hn0)) as (d & Hd & ?).
    fold ds in Hd. apply last_Some in Hd as [l ->]. exists d, (reverse l).
    by rewrite reverse_snoc. }
  pose proof (foldl_digits_value ds 0) as Hf. rewrite Hv, Z.mul_0_l, Z.add_0_l in Hf.
  destruct (reverse ds) as [|d l] eqn:El; [done|].
  apply Forall_cons in Hr as [Hd Hl].
  assert (Hc : 48 <= digit_char d <= 57) by (unfold digit_char; case_if; lia).
  split; [simpl; unfold is_ws; split; lia|].
  intros [|f] rest Hlen Hrest; [simpl in Hlen; lia|].
  assert (Hnat : read_nat (map digit_char (d :: l) ++ rest) = Some (n, rest)).
  { cbn [map app read_nat]. rewrite to_digit_char by lia. destruct (d =? 0) eqn:E0; bool_facts.
    - assert (n = 0) as ->.
      { destruct (Z.lt_total 0 n) as [Hp|[|]]; [|done|lia].
        destruct (Hlead Hp) as (d' & l' & Heq & ?). congruence. }
      rewrite (Hz eq_refl) in El. injection El as <- <-. simpl.
      destruct rest as [|c' r']; [done|]. simpl in Hrest. by rewrite Hrest.
    - rewrite read_digits_acc_digits by done. cbn [foldl] in Hf.
      rewrite Z.mul_0_l, Z.add_0_l in Hf. by rewrite Hf. }
  cbn [read_value]. rewrite (skip_ws_start (map digit_char (d :: l))) by (simpl; unfold is_ws; split; lia).
  cbn [map app] in Hnat |- *.
  replace (digit_char d =? 34) with false by lia.
  replace (digit_char d =? 91) with false by lia.
  replace (digit_char d =? 123) with false by lia.
  assert (Hs : forall c' p, c' <> digit_char d -> starts_with (c' :: p) (digit_char d :: map digit_char l ++ rest) = false).
  { intros c' p Hne'. simpl. apply andb_false_iff. left. lia. }
  change (lit "true") with [116; 114; 117; 101]. change (lit "false") with [102; 97; 108; 115; 101].
  rewrite !Hs by lia. replace (digit_char d =? 45) with false by lia. by rewrite Hnat.
Qed.

(** ** Arrays *)

Lemma sep_cons t ts : ts <> [] -> sep (t :: ts) = t ++ 44 :: sep ts.
Proof. by destruct ts. Qed.

Lemma sep_snoc ts t : sep (ts ++ [t]) = match ts with [] => t | _ => sep ts ++ 44 :: t end.
Proof.
  induction ts as [|t1 ts IH]; [done|]. rewrite <- app_comm_cons, sep_cons by (by destruct ts).
  rewrite IH. destruct ts as [|t2 ts]; [done|]. rewrite (sep_cons t1) by done.
  by rewrite <- app_assoc.
Qed.

Lemma arr_loop_sep items : forall out i, (0 < i)%nat ->
  arr_loop out i items = out ++ match items with [] => [] | _ => 44 :: sep items end.
Proof.
  induction items as [|it items IH]; intros out i Hi; cbn [arr_loop]; [by rewrite app_nil_r|].
  apply Nat.ltb_lt in Hi as ->. rewrite IH by lia. destruct items.
  - by rewrite app_nil_r, <- app_assoc.
  - rewrite (sep_cons it) by done. rewrite <- !app_assoc. done.
Qed.

Lemma arr_sep items : arr items = 91 :: sep items ++ [93].
Proof.
  unfold arr. destruct items as [|it items]; [done|].
  change (arr_loop [91] 0 (it :: items)) with (arr_loop ([91] ++ it) 1 items).
  rewrite arr_loop_sep by lia. destruct items; [by rewrite app_nil_r|].
  rewrite (sep_cons it) by done. by rewrite <- !app_assoc.
Qed.

Lemma str_arr_loop_arr items : forall out i,
  str_arr_loop out i items = arr_loop out i (map (push_str []) items).
Proof.
  induction items as [|it items IH]; intros out i; cbn [str_arr_loop map arr_loop]; [done|].
  by rewrite <- IH, push_str_app.
Qed.

Lemma str_arr_arr items : str_arr items = arr (map (push_str []) items).
Proof. unfold str_arr, arr. by rewrite str_arr_loop_arr. Qed.

Lemma read_elems_sep ts vs n rest :
  ts <> [] -> Forall2 denotes ts vs -> (length (sep ts) < n)%nat ->
  read_elems n (sep ts ++ 93 :: rest) = Some (vs, rest).
Proof.
  intros Hne Hd. revert n Hne. induction Hd as [|t v ts vs [_ Hv] Hd IH]; intros n Hne Hn; [done|].
  destruct n as [|n]; [lia|]. cbn [read_elems].
  destruct ts as [|t2 ts].
  - apply Forall2_nil_inv_l in Hd as ->. simpl in Hn |- *. by rewrite Hv by (done || lia).
  - rewrite sep_cons in Hn |- * by done. rewrite length_app in Hn. cbn [length] in Hn.
    rewrite <- app_assoc, <- app_comm_cons, Hv by (done || lia). cbn [skip_ws].
    change (is_ws 44) with false. cbn iota. change (44 =? 44) with true. cbn iota.
    by rewrite IH by (done || lia).
Qed.

Lemma sep_start t ts rest : value_start t -> exists c r, sep (t :: ts) ++ rest = c :: r /\
  is_ws c = false /\ c <> 93 /\ sep (t :: ts) ++ rest = skip_ws (sep (t :: ts) ++ rest).
Proof.
  destruct t as [|c t]; [done|]. intros [Hw Hc]. destruct ts as [|t2 ts].
  - exists c, (t ++ rest). split; [done|]. split; [done|]. split; [done|]. simpl. by rewrite Hw.
  - exists c, (t ++ 44 :: sep (t2 :: ts) ++ rest). rewrite sep_cons by done.
    rewrite <- app_assoc. split; [done|]. split; [done|]. split; [done|]. simpl. by rewrite Hw.
Qed.

Lemma denotes_arr ts vs : Forall2 denotes ts vs -> denotes (arr ts) (JArr vs).
Proof.
  intros Hd. rewrite arr_sep. split; [done|]. intros [|n] rest Hn _; [simpl in Hn; lia|].
  cbn [read_value app skip_ws]. change (is_ws 91) with false. cbn iota.
  change (91 =? 34) with false. change (91 =? 91) with true. cbn iota.
  rewrite <- app_assoc. cbn [app length] in *. rewrite length_app in Hn. cbn [length] in Hn.
  destruct ts as [|t ts].
  { apply Forall2_nil_inv_l in Hd as ->. done. }
  pose proof Hd as Hd0. apply Forall2_cons_inv_l in Hd0 as (v & vs' & [Hst _] & _ & Hvs).
  destruct (sep_start t ts (93 :: rest) Hst) as (c & r & Heq & _ & Hc & Hskip).
  rewrite <- Hskip. rewrite read_elems_sep with (vs := vs) by (done || lia).
  rewrite Heq. by replace (c =? 93) with false by lia.
Qed.

(** ** Objects *)

Lemma read_members_sep ms kvs n rest :
  ms <> [] -> Forall2 member ms kvs -> (length (sep ms) < n)%nat ->
  read_members n (sep ms ++ 125 :: rest) = Some (kvs, rest).
Proof.
  intros Hne Hd. revert n Hne.
  induction Hd as [|m [k v] ms kvs (Hk & t & -> & Hst & Hv) Hd IH]; intros n Hne Hn; [done|].
  cbn [fst snd] in *. destruct n as [|n]; [lia|]. cbn [read_members].
  assert (Hlen : forall x, length (push_str [] k ++ 58 :: t ++ x) = (length (push_str [] k) + S (length t + length x))%nat).
  { intros x. rewrite length_app. cbn [length]. by rewrite length_app. }
  destruct ms as [|m2 ms].
  - apply Forall2_nil_inv_l in Hd as ->. cbn [sep] in Hn |- *.
    specialize (Hlen []). rewrite app_nil_r in Hlen. rewrite Hlen in Hn. cbn [length] in Hn.
    rewrite <- app_assoc, <- app_comm_cons, push_str_cons. cbn [skip_ws].
    change (is_ws 34) with false. cbn iota. change (34 =? 34) with true. cbn iota.
    rewrite read_chars_string by done. cbn [skip_ws]. change (is_ws 58) with false. cbn iota.
    change (58 =? 58) with true. cbn iota. rewrite Hv by (done || lia). done.
  - rewrite sep_cons in Hn |- * by done.
    replace ((push_str [] k ++ 58 :: t) ++ 44 :: sep (m2 :: ms))
      with (push_str [] k ++ 58 :: t ++ 44 :: sep (m2 :: ms)) in Hn |- * by (by rewrite <- app_assoc).
    rewrite Hlen in Hn. cbn [length] in Hn.
    rewrite <- app_assoc, <- app_comm_cons, push_str_cons. cbn [skip_ws].
    change (is_ws 34) with false. cbn iota. change (34 =? 34) with true. cbn iota.
    rewrite read_chars_string by done. cbn [skip_ws]. change (is_ws 58) with false. cbn iota.
    change (58 =? 58) with true. cbn iota.
    rewrite <- app_assoc, <- app_comm_cons, Hv by (done || lia). cbn [skip_ws].
    change (is_ws 44) with false. cbn iota. change (44 =? 44) with true. cbn iota.
    by rewrite IH by (done || lia).
Qed.

Lemma obj_new : obj_holds Obj.new [].
Proof. exists []. split_and!; [reflexivity|reflexivity|constructor]. Qed.

Lemma obj_add o kvs k t v o' :
  obj_holds o kvs -> is_text k -> denotes t v ->
  buf o' = buf (Obj.key o k) ++ t -> first o' = false -> obj_holds o' (kvs ++ [(k, v)]).
Proof.
  intros (ms & Hb & Hf & Hms) Hk Ht Hb' Hf'. exists (ms ++ [push_str [] k ++ 58 :: t]).
  assert (Hm : member (push_str [] k ++ 58 :: t) (k, v)) by (split; [done|by exists t]).
  split_and!.
  - rewrite Hb', sep_snoc. unfold Obj.key. rewrite Hf, Hb. cbn [buf].
    destruct ms as [|m ms]; [by rewrite (push_str_app [123]), <- !app_assoc|].
    rewrite bool_decide_eq_false_2, (push_str_app (_ ++ [44])), <- !app_assoc by done.
    cbn [app]. by rewrite <- ?app_assoc.
  - rewrite Hf'. symmetry. apply bool_decide_eq_false. by destruct ms.
  - apply Forall2_app; [done|by constructor].
Qed.

Lemma obj_str o kvs k v :
  obj_holds o kvs -> is_text k -> is_text v -> obj_holds (Obj.str o k v) (kvs ++ [(k, JStr v)]).
Proof. intros Ho Hk Hv. eapply obj_add; eauto using denotes_str. Qed.

Lemma obj_num o kvs k n :
  obj_holds o kvs -> is_text k -> is_u64_spec n -> obj_holds (Obj.num o k n) (kvs ++ [(k, JNum n)]).
Proof. intros Ho Hk Hn. eapply obj_add; eauto using denotes_num. Qed.

Lemma obj_bool o kvs k (v : bool) :
  obj_holds o kvs -> is_text k -> obj_holds (Obj.bool o k v) (kvs ++ [(k, JBool v)]).
Proof. intros Ho Hk. eapply obj_add; eauto using denotes_bool. Qed.

Lemma obj_raw o kvs k t v :
  obj_holds o kvs -> is_text k -> denotes t v -> obj_holds (Obj.raw o k t) (kvs ++ [(k, v)]).
Proof. intros Ho Hk Ht. eapply obj_add; eauto. Qed.

Lemma denotes_obj o kvs : obj_holds o kvs -> denotes (finished o) (JObj kvs).
Proof.
  intros (ms & Hb & _ & Hms). unfold finished, Obj.done. cbn [fst]. rewrite Hb.
  split; [done|]. intros [|n] rest Hn _; [simpl in Hn; lia|].
  rewrite <- app_comm_cons in Hn |- *. cbn [length] in Hn. rewrite length_app in Hn. cbn [length] in Hn.
  rewrite <- app_comm_cons, <- app_assoc. cbn [read_value skip_ws app].
  change (is_ws 123) with false. cbn iota.
  change (123 =? 34) with false. change (123 =? 91) with false. change (123 =? 123) with true. cbn iota.
  destruct ms as [|m ms]; [by apply Forall2_nil_inv_l in Hms as ->|].
  rewrite read_members_sep with (kvs := kvs) by (done || lia).
  apply Forall2_cons_inv_l in Hms as (kv & kvs' & (_ & t & -> & _) & _ & _).
  destruct ms as [|m2 ms].
  - cbn [sep]. rewrite <- app_assoc, push_str_cons. done.
  - rewrite sep_cons by done. rewrite <- !app_assoc, push_str_cons. done.
Qed.

(** A whole text that denotes a value is read as that value. *)
Lemma read_json_denotes t v : denotes t v -> read_json t = Some v.
Proof.
  intros [_ Hv]. unfold read_json.
  specialize (Hv (S (length t)) [] ltac:(lia) I). rewrite app_nil_r in Hv. by rewrite Hv.
Qed.

Lemma denotes_str_arr ss : Forall is_text ss -> denotes (str_arr ss) (JArr (map JStr ss)).
Proof.
  intros Hs. rewrite str_arr_arr. apply denotes_arr, Forall2_fmap.
  apply Forall_Forall2_diag. eapply Forall_impl; [exact Hs|]. apply denotes_str.
Qed.

#[export] Hint Resolve obj_new obj_str obj_num obj_bool obj_raw denotes_obj denotes_arr denotes_str_arr : shield.
