(* ===== verification/Http.v ===== *)
(** * The dashboard's HTTP server: [ui/src/http.rs]

    A connection is what the peer will send on it: the bytes that arrive
    before it closes its side, or before a read fails (timeout, reset).
    [read_request] consumes a prefix of them through a bounded [read_line];
    a response is the bytes written back.  The request handler is a program
    over an effect signature of its own (the dashboard's is in [Collect]). *)
From S2P Require Import Prelude Prog Text Json.
Local Open Scope prog_scope.

Definition MAX_REQUEST_LINE : Z := 8 * 1024.
Definition MAX_HEADER_BYTES : Z := 32 * 1024.
Definition MAX_HEADERS : nat := Z.to_nat 100.
Definition READ_TIMEOUT : Z := 10.      (* seconds *)
Definition WRITE_TIMEOUT : Z := 30.

Record Request := mk_request {
  path : str;
  query : list (str * str);
}.

(** The value of the first parameter named [key]. *)
Definition param (req : Request) (key : str) : option str :=
  snd <$> List.find (fun kv => str_eqb kv.1 key) (query req).

Record Response := mk_response {
  status : Z;
  content_type : str;
  body : str;
}.

Definition response_json (body : str) : Response :=
  {| status := 200; content_type := lit "application/json; charset=utf-8"; body := body |}.

Definition response_html (body : str) : Response :=
  {| status := 200; content_type := lit "text/html; charset=utf-8"; body := body |}.

Definition response_error (status : Z) (msg : str) : Response :=
  {| status := status; content_type := lit "application/json; charset=utf-8";
     body := finished (Obj.str Obj.new (lit "error") msg) |}.

Definition reason (status : Z) : str :=
  if status =? 200 then lit "OK"
  else if status =? 400 then lit "Bad Request"
  else if status =? 404 then lit "Not Found"
  else if status =? 405 then lit "Method Not Allowed"
  else if status =? 413 then lit "Payload Too Large"
  else if status =? 500 then lit "Internal Server Error"
  else lit "Unknown".

(** ** Decoding *)

(** [u8::from_str_radix(h, 16)] of the two bytes of an escape. *)
Definition hex_escape (h1 h2 : Z) : option Z :=
  match from_utf8 [h1; h2] with
  | Some h => from_str_radix 16 U8_MAX h
  | None => None
  end.

(** The loop of [percent_decode]: [i] walks over the remaining bytes. *)
Fixpoint percent_bytes (b : bytes) : bytes :=
  match b with
  | [] => []
  | c :: r =>
    if c =? 43 then 32 :: percent_bytes r
    else if c =? 37 then
      match r with
      | h1 :: h2 :: r' =>
        match hex_escape h1 h2 with
        | Some v => v :: percent_bytes r'
        | None => c :: percent_bytes r
        end
      | _ => c :: percent_bytes r
      end
    else c :: percent_bytes r
  end.

Definition percent_decode (s : str) : str := from_utf8_lossy (percent_bytes (as_bytes s)).

Definition is_nil {A} (l : list A) : bool := match l with [] => true | _ => false end.

Definition parse_query (q : str) : list (str * str) :=
  map (fun p => match split_once 61 p with
                | Some (k, v) => (percent_decode k, percent_decode v)
                | None => (percent_decode p, [])
                end)
      (List.filter (fun p => negb (is_nil p)) (split_char 38 q)).

(** ** Reading *)

(** How the peer's bytes end: it closes its side, or the next read fails. *)
Inductive ending := Closed | Failed.

Record stream := mk_stream { pending : bytes; ends : ending }.

(** The bytes [read_line] takes: up to and including a newline, at most [n].
    [true] when it needs no more: a newline was found or the limit reached. *)
Fixpoint take_line (n : nat) (bs : bytes) : bytes * bytes * bool :=
  match n with
  | O => ([], bs, true)
  | S m =>
    match bs with
    | [] => ([], [], false)
    | c :: r =>
      if c =? 10 then ([c], r, true)
      else let '(l, r', d) := take_line m r in (c :: l, r', d)
    end
  end.

(** [(&mut r).take(limit).read_line(&mut line)]: the number of bytes and the
    text appended, or an I/O error (text that is not UTF-8 is one too). *)
Definition read_line (limit : Z) (st : stream) : res unit (Z * str) * stream :=
  let '(l, r, enough) := take_line (Z.to_nat limit) (pending st) in
  let st' := {| pending := r; ends := ends st |} in
  if enough || (match ends st with Closed => true | Failed => false end) then
    match from_utf8 l with
    | Some s => (Ok (Z.of_nat (length l), s), st')
    | None => (Err tt, st')
    end
  else (Err tt, st').

(** The header loop, with [left] iterations left before the cap. *)
Fixpoint drain_headers (left : nat) (total : Z) (st : stream) : res Response unit * stream :=
  match left with
  | O => (Err (response_error 413 (lit "too many headers")), st)
  | S left' =>
    match read_line MAX_REQUEST_LINE st with
    | (Err _, st1) => (Err (response_error 400 (lit "unreadable headers")), st1)
    | (Ok (n, h), st1) =>
      if (n =? 0) || str_eqb h [13; 10] || str_eqb h [10] then (Ok tt, st1)
      else
        let total := total + n in
        if MAX_HEADER_BYTES <? total
        then (Err (response_error 413 (lit "headers too large")), st1)
        else drain_headers left' total st1
    end
  end.

Definition read_request (st : stream) : res Response Request * stream :=
  match read_line MAX_REQUEST_LINE st with
  | (Err _, st1) => (Err (response_error 400 (lit "unreadable request")), st1)
  | (Ok (n, line), st1) =>
    if n =? 0 then (Err (response_error 400 (lit "empty request")), st1)
    else if (MAX_REQUEST_LINE <=? n) && negb (ends_with_char 10 line)
    then (Err (response_error 413 (lit "request line too long")), st1)
    else
      let parts := split_char 32 (trim_end line) in
      let method := default [] (parts !! 0%nat) in
      let target := default [] (parts !! 1%nat) in
      if negb (str_eqb method (lit "GET"))
      then (Err (response_error 405 (lit "only GET is served")), st1)
      else
        match drain_headers MAX_HEADERS 0 st1 with
        | (Err e, st2) => (Err e, st2)
        | (Ok _, st2) =>
          let '(p, q) := match split_once 63 target with
                         | Some (p, q) => (p, parse_query q)
                         | None => (target, [])
                         end in
          (Ok {| path := percent_decode p; query := q |}, st2)
        end
  end.

(** ** Writing *)

Definition CRLF : str := [13; 10].

Definition response_head (resp : Response) : str :=
  lit "HTTP/1.1 " ++ to_string (status resp) ++ lit " " ++ reason (status resp) ++ CRLF
  ++ lit "Content-Type: " ++ content_type resp ++ CRLF
  ++ lit "Content-Length: " ++ to_string (Z.of_nat (length (as_bytes (body resp)))) ++ CRLF
  ++ lit "Connection: close" ++ CRLF
  ++ lit "Cache-Control: no-store" ++ CRLF
  ++ lit "X-Content-Type-Options: nosniff" ++ CRLF
  ++ lit "X-Frame-Options: DENY" ++ CRLF
  ++ lit "Referrer-Policy: no-referrer" ++ CRLF
  ++ lit "Content-Security-Policy: default-src 'none'; style-src 'unsafe-inline'; script-src 'unsafe-inline'; connect-src 'self'" ++ CRLF
  ++ CRLF.

(** The bytes of a response, when the peer reads them all. *)
Definition write_response (resp : Response) : bytes :=
  as_bytes (response_head resp) ++ as_bytes (body resp).

(** What a connection of [serve] is answered, from the bytes it is read. *)
Definition serve_connection {E : Type -> Type} (handler : Request -> prog E Response) (st : stream) :
    prog E bytes :=
  resp <- match (read_request st).1 with
          | Ok req => handler req
          | Err e => Ret e
          end ;;
  Ret (write_response resp).

(** The tests of the source. *)
Example decodes_percent_and_plus :
  percent_decode (lit "a%20b+c") = lit "a b c" /\
  percent_decode (lit "%2e%2e%2f") = lit "../" /\
  percent_decode (lit "100%zz") = lit "100%zz" /\ percent_decode (lit "trailing%") = lit "trailing%".
Proof. vm_compute. done. Qed.

Example parses_query_pairs :
  parse_query (lit "service=web&n=50&flag") =
  [(lit "service", lit "web"); (lit "n", lit "50"); (lit "flag", [])] /\
  parse_query [] = [].
Proof. vm_compute. done. Qed.

Example request_param_lookup :
  let r := {| path := lit "/api/logs"; query := parse_query (lit "service=web&n=10") |} in
  param r (lit "service") = Some (lit "web") /\ param r (lit "missing") = None.
Proof. vm_compute. done. Qed.

Example reads_a_request :
  (read_request {| pending := as_bytes (lit "GET /api/logs?service=a%20b HTTP/1.1" ++ CRLF
                     ++ lit "Host: localhost" ++ CRLF ++ CRLF ++ lit "rest"); ends := Failed |}) =
  (Ok {| path := lit "/api/logs"; query := [(lit "service", lit "a b")] |},
   {| pending := as_bytes (lit "rest"); ends := Failed |}).
Proof. vm_compute. done. Qed.
