(* ===== verification/HttpSpec.v ===== *)
(** * HTTP text: what the server reads and writes

    A client's encoding of paths, queries and requests, a reader of response
    heads, and the lemmas that relate them to [Http]: percent-encoding and
    requests are read back, reading is bounded, responses are well framed. *)
From S2P Require Import Prelude Prog Text Json Http.

(** ** Percent-encoding, from the client's side *)

(** Characters a client sends as they are (RFC 3986 unreserved, and slash). *)
Definition unreserved (c : Z) : bool :=
  in_range 48 57 c || in_range 65 90 c || in_range 97 122 c
  || (c =? 45) || (c =? 46) || (c =? 95) || (c =? 126) || (c =? 47).

Definition upper_digit (d : Z) : Z := if d <? 10 then 48 + d else 55 + d.

Definition encode_byte (c : Z) : bytes :=
  if unreserved c then [c] else [37; upper_digit (c / 16); upper_digit (c mod 16)].

Definition percent_encode (s : str) : str := concat (map encode_byte (as_bytes s)).

Fixpoint encode_query (kvs : list (str * str)) : str :=
  match kvs with
  | [] => []
  | [(k, v)] => percent_encode k ++ 61 :: percent_encode v
  | (k, v) :: r => percent_encode k ++ 61 :: percent_encode v ++ 38 :: encode_query r
  end.

(** ASCII text is its own encoding. *)
Definition ascii (s : str) : Prop := Forall (fun c => 0 <= c < 128) s.

Lemma as_bytes_ascii s : ascii s -> as_bytes s = s.
Proof.
  induction 1 as [|c s Hc _ IH]; [done|].
  change (as_bytes (c :: s)) with (encode_char c ++ as_bytes s). rewrite IH.
  unfold encode_char. by replace (c <? 128) with true by lia.
Qed.

Lemma encode_byte_ascii c : is_byte c = true -> ascii (encode_byte c).
Proof.
  unfold is_byte, encode_byte, unreserved, in_range. intros Hc.
  pose proof (Z.div_mod c 16 ltac:(lia)). pose proof (Z.mod_pos_bound c 16 ltac:(lia)).
  case_if; repeat constructor; unfold upper_digit; try case_if; lia.
Qed.

Lemma encode_bytes_ascii bs : are_bytes bs -> ascii (concat (map encode_byte bs)).
Proof.
  induction 1; [constructor|]. simpl. apply Forall_app. by split; [apply encode_byte_ascii|].
Qed.

Lemma hex_digit_upper d : 0 <= d < 16 -> digit_val (upper_digit d) = Some d.
Proof.
  intros Hd. unfold upper_digit, digit_val, in_range.
  destruct (d <? 10) eqn:E; bool_facts.
  - replace ((48 <=? 48 + d) && (48 + d <=? 57)) with true by lia. f_equal. lia.
  - replace ((48 <=? 55 + d) && (55 + d <=? 57)) with false by lia.
    replace ((97 <=? 55 + d) && (55 + d <=? 122)) with false by lia.
    replace ((65 <=? 55 + d) && (55 + d <=? 90)) with true by lia. f_equal. lia.
Qed.

Lemma hex_escape_upper a b :
  0 <= a < 16 -> 0 <= b < 16 -> hex_escape (upper_digit a) (upper_digit b) = Some (a * 16 + b).
Proof.
  intros Ha Hb. unfold hex_escape.
  assert (Hr : forall d, 0 <= d < 16 -> 48 <= upper_digit d < 128).
  { intros d Hd. unfold upper_digit. case_if; lia. }
  assert (Hu : from_utf8 [upper_digit a; upper_digit b] = Some [upper_digit a; upper_digit b]).
  { pose proof (Hr a Ha). pose proof (Hr b Hb).
    assert (Hasc : ascii [upper_digit a; upper_digit b]) by (repeat constructor; lia).
    rewrite <- (as_bytes_ascii _ Hasc) at 1. apply from_utf8_as_bytes.
    repeat constructor; unfold is_char; lia. }
  rewrite Hu. unfold from_str_radix. pose proof (Hr a Ha).
  destruct (upper_digit a =? 43) eqn:E; bool_facts; [lia|].
  assert (Hp : parse_digits 16 U8_MAX 0 [upper_digit a; upper_digit b] = Some (a * 16 + b)).
  { cbn [parse_digits]. unfold to_digit. rewrite !hex_digit_upper by done.
    replace (a <? 16) with true by lia. replace (0 * 16 + a <=? U8_MAX) with true by word_lia.
    replace (b <? 16) with true by lia.
    replace ((0 * 16 + a) * 16 + b <=? U8_MAX) with true by word_lia. f_equal. }
  repeat case_match; subst; try done; congruence.
Qed.

Lemma percent_bytes_encode bs rest :
  are_bytes bs -> percent_bytes (concat (map encode_byte bs) ++ rest) = bs ++ percent_bytes rest.
Proof.
  induction 1 as [|c bs Hc _ IH]; [done|]. cbn [map concat]. rewrite <- app_assoc.
  unfold encode_byte at 1. destruct (unreserved c) eqn:Eu; cbn [app percent_bytes].
  - unfold unreserved, in_range in Eu.
    replace (c =? 43) with false by lia. replace (c =? 37) with false by lia. by rewrite IH.
  - change (37 =? 43) with false. change (37 =? 37) with true. cbn iota.
    unfold is_byte in Hc.
    rewrite hex_escape_upper by (split; (apply Z.div_pos || apply Z.div_lt_upper_bound || apply Z.mod_pos_bound); lia).
    rewrite IH. f_equal. pose proof (Z.div_mod c 16 ltac:(lia)). lia.
Qed.

Lemma percent_encode_ascii s : is_text s -> ascii (percent_encode s).
Proof. intros Hs. by apply encode_bytes_ascii, as_bytes_bytes. Qed.

Lemma percent_decode_encode s : is_text s -> percent_decode (percent_encode s) = s.
Proof.
  intros Hs. unfold percent_decode. rewrite as_bytes_ascii by by apply percent_encode_ascii.
  unfold percent_encode. pose proof (percent_bytes_encode (as_bytes s) [] (as_bytes_bytes s Hs)) as H.
  rewrite app_nil_r in H. rewrite H. cbn [percent_bytes]. rewrite app_nil_r.
  by apply from_utf8_lossy_as_bytes.
Qed.

(** ** Queries *)

(** The characters of an encoded text. *)
Lemma percent_encode_chars s : is_text s -> Forall (fun c => unreserved c || (c =? 37) = true) (percent_encode s).
Proof.
  intros Hs. pose proof (as_bytes_bytes s Hs) as Hb. unfold percent_encode.
  induction Hb as [|c bs Hc _ IH]; [constructor|]. cbn [map concat]. apply Forall_app. split; [|done].
  unfold encode_byte. destruct (unreserved c) eqn:Eu; [by repeat constructor; rewrite Eu|].
  unfold is_byte in Hc. pose proof (Z.mod_pos_bound c 16 ltac:(lia)).
  pose proof (Z.div_pos c 16 ltac:(lia) ltac:(lia)).
  pose proof (Z.div_lt_upper_bound c 16 16 ltac:(lia) ltac:(lia)).
  assert (Hr : forall d, 0 <= d < 16 -> unreserved (upper_digit d) || (upper_digit d =? 37) = true).
  { intros d Hd. unfold unreserved, upper_digit, in_range. case_if; bool_facts; lia. }
  repeat constructor; auto with lia.
Qed.

Lemma percent_encode_not c s :
  is_text s -> unreserved c || (c =? 37) = false -> c ∉ percent_encode s.
Proof.
  intros Hs Hc Hin. pose proof (percent_encode_chars s Hs) as Hall.
  rewrite Forall_forall in Hall. specialize (Hall c Hin). congruence.
Qed.

Definition texts (kv : str * str) : Prop := is_text kv.1 /\ is_text kv.2.

Lemma parse_query_pair k v :
  is_text k -> is_text v ->
  match split_once 61 (percent_encode k ++ 61 :: percent_encode v) with
  | Some (k, v) => (percent_decode k, percent_decode v)
  | None => (percent_decode (percent_encode k ++ 61 :: percent_encode v), [])
  end = (k, v).
Proof.
  intros Hk Hv. rewrite split_once_app by (by apply percent_encode_not).
  by rewrite !percent_decode_encode.
Qed.

Lemma parse_query_encode kvs : Forall texts kvs -> parse_query (encode_query kvs) = kvs.
Proof.
  induction 1 as [|[k v] kvs [Hk Hv] Hkvs IH]; [done|]. cbn [fst snd] in *.
  assert (Hne : forall r, negb (is_nil (percent_encode k ++ 61 :: r)) = true)
    by (intros r; by destruct (percent_encode k)).
  assert (Hamp : 38 ∉ (percent_encode k ++ 61 :: percent_encode v)).
  { rewrite not_elem_of_app, not_elem_of_cons.
    split_and!; [by apply percent_encode_not|done|by apply percent_encode_not]. }
  destruct kvs as [|kv2 kvs].
  - unfold parse_query. cbn [encode_query]. rewrite split_char_none by done.
    cbn [List.filter]. rewrite Hne. cbn [map]. by rewrite parse_query_pair.
  - assert (He : encode_query ((k, v) :: kv2 :: kvs) =
                 (percent_encode k ++ 61 :: percent_encode v) ++ 38 :: encode_query (kv2 :: kvs))
      by (by rewrite <- app_assoc).
    rewrite He. unfold parse_query in *. rewrite split_char_app by done.
    cbn [List.filter]. rewrite Hne. cbn [map]. by rewrite IH, parse_query_pair.
Qed.

(** ** Lines *)

Lemma take_line_found l n rest :
  (10:Z) ∉ l -> (length l < n)%nat -> take_line n (l ++ 10 :: rest) = (l ++ [10], rest, true).
Proof.
  revert n. induction l as [|c l IH]; intros [|n] Hn Hlen; simpl in Hlen; try lia; [done|].
  apply not_elem_of_cons in Hn as [Hc Hn]. cbn [app take_line].
  replace (c =? 10) with false by lia. by rewrite IH by (done || lia).
Qed.

(** A line is never longer than the limit, and is a prefix of the input. *)
Lemma take_line_bound n : forall bs l r d,
  take_line n bs = (l, r, d) -> bs = l ++ r /\ (length l <= n)%nat.
Proof.
  induction n as [|n IH]; intros bs l r d H; cbn [take_line] in H; [by simplify_eq|].
  destruct bs as [|c bs]; [simplify_eq; split; [done|simpl; lia]|].
  destruct (c =? 10); [simplify_eq; split; [done|simpl; lia]|].
  destruct (take_line n bs) as [[l1 r1] d1] eqn:E. simplify_eq.
  destruct (IH _ _ _ _ E) as [-> ?]. split; [done|simpl; lia].
Qed.

Lemma as_bytes_no_newline s : is_text s -> 10 ∉ s -> 10 ∉ as_bytes s.
Proof.
  induction 1 as [|c s Hc _ IH]; intros Hn; [apply not_elem_of_nil|].
  apply not_elem_of_cons in Hn as [Hc10 Hn].
  change (as_bytes (c :: s)) with (encode_char c ++ as_bytes s).
  rewrite not_elem_of_app. split; [|by apply IH].
  unfold is_char in Hc. unfold encode_char.
  assert (Hm : forall z, 0 <= z mod 64) by (intros z; apply Z.mod_pos_bound; lia).
  pose proof (Hm c). pose proof (Hm (c / 64)). pose proof (Hm (c / 4096)).
  assert (0 <= c / 64) by (apply Z.div_pos; lia).
  assert (0 <= c / 4096) by (apply Z.div_pos; lia).
  assert (0 <= c / 262144) by (apply Z.div_pos; lia).
  repeat case_if; rewrite ?not_elem_of_cons; split_and!; try lia; apply not_elem_of_nil.
Qed.

Lemma read_line_found s limit rest e :
  is_text s -> 10 ∉ s -> Z.of_nat (length (as_bytes s)) < limit ->
  read_line limit {| pending := as_bytes s ++ 10 :: rest; ends := e |} =
  (Ok (Z.of_nat (length (as_bytes s)) + 1, s ++ [10]), {| pending := rest; ends := e |}).
Proof.
  intros Hs Hn Hl. unfold read_line. cbn [pending ends].
  rewrite take_line_found by (try lia; by apply as_bytes_no_newline). cbn [orb].
  assert (Hb : as_bytes (s ++ [10]) = as_bytes s ++ [10]) by apply as_bytes_app.
  rewrite <- Hb, from_utf8_as_bytes.
  - rewrite Hb, length_app, Nat2Z.inj_add. done.
  - apply Forall_app. split; [done|]. by repeat constructor.
Qed.

(** ** Requests *)

Definition target (p : str) (kvs : list (str * str)) : str :=
  percent_encode p ++ match kvs with [] => [] | _ => 63 :: encode_query kvs end.

Definition request_line (p : str) (kvs : list (str * str)) : str :=
  lit "GET " ++ target p kvs ++ lit " HTTP/1.1".

(** A whole request, with its header lines. *)
Definition encode_request (p : str) (kvs : list (str * str)) (headers : list str) : bytes :=
  as_bytes (request_line p kvs ++ CRLF) ++ concat (map (fun h => as_bytes (h ++ CRLF)) headers)
  ++ as_bytes CRLF.

Definition header_ok (h : str) : Prop :=
  is_text h /\ (10 ∉ h) /\ h <> [] /\ Z.of_nat (length (as_bytes h)) + 2 <= MAX_REQUEST_LINE.

(** The bytes of the header lines, line ends included. *)
Definition headers_size (headers : list str) : Z :=
  foldr (fun h n => Z.of_nat (length (as_bytes h)) + 2 + n) 0 headers.

Lemma trim_start_ws w x : Forall (fun c => is_whitespace c = true) w -> trim_start (w ++ x) = trim_start x.
Proof. induction 1 as [|c w Hc _ IH]; [done|]. simpl. by rewrite Hc. Qed.

Lemma trim_end_ws x w c :
  Forall (fun c => is_whitespace c = true) w -> is_whitespace c = false ->
  trim_end ((x ++ [c]) ++ w) = x ++ [c].
Proof.
  intros Hw Hc. unfold trim_end. rewrite reverse_app, trim_start_ws by by apply Forall_reverse.
  rewrite reverse_app. simpl. rewrite Hc. change (c :: reverse x) with ([c] ++ reverse x).
  by rewrite reverse_app, reverse_involutive.
Qed.

Lemma crlf_split s rest : (s ++ CRLF) ++ rest = (s ++ [13]) ++ 10 :: rest.
Proof. unfold CRLF. by rewrite <- !app_assoc. Qed.

Lemma read_line_crlf s limit rest e :
  is_text s -> 10 ∉ s -> Z.of_nat (length (as_bytes s)) + 2 <= limit ->
  read_line limit {| pending := as_bytes (s ++ CRLF) ++ rest; ends := e |} =
  (Ok (Z.of_nat (length (as_bytes s)) + 2, s ++ CRLF), {| pending := rest; ends := e |}).
Proof.
  intros Hs Hn Hl.
  assert (Hlen : length (as_bytes (s ++ [13])) = (length (as_bytes s) + 1)%nat)
    by (rewrite as_bytes_app, length_app; done).
  assert (Hb : as_bytes (s ++ CRLF) ++ rest = as_bytes (s ++ [13]) ++ 10 :: rest).
  { rewrite !as_bytes_app, <- !app_assoc. done. }
  rewrite Hb, read_line_found.
  - unfold CRLF. rewrite <- app_assoc, Hlen. do 3 f_equal. lia.
  - apply Forall_app. split; [done|]. by repeat constructor.
  - rewrite not_elem_of_app. split; [done|]. by intros ?%list_elem_of_singleton.
  - lia.
Qed.

Lemma drain_headers_done headers : forall left total rest e,
  Forall header_ok headers -> (length headers < left)%nat ->
  total + headers_size headers <= MAX_HEADER_BYTES ->
  drain_headers left total
    {| pending := concat (map (fun h => as_bytes (h ++ CRLF)) headers) ++ as_bytes CRLF ++ rest; ends := e |} =
  (Ok tt, {| pending := rest; ends := e |}).
Proof.
  induction headers as [|h hs IH]; intros [|left] total rest e Hok Hleft Ht; simpl in Hleft; try lia.
  - cbn [map concat app drain_headers].
    pose proof (read_line_crlf [] MAX_REQUEST_LINE rest e) as Hend. cbn [app] in Hend.
    rewrite Hend; [reflexivity|constructor|apply not_elem_of_nil|vm_compute; discriminate].
  - apply Forall_cons in Hok as [(Htx & Hnl & Hne & Hl) Hok].
    cbn [map concat drain_headers]. rewrite <- app_assoc, read_line_crlf by done.
    assert (0 <= headers_size hs) by (clear; induction hs; simpl; lia).
    cbn [headers_size foldr] in Ht. fold (headers_size hs) in Ht.
    replace (_ + 2 =? 0) with false by lia.
    assert (Hneq : str_eqb (h ++ CRLF) [13; 10] = false /\ str_eqb (h ++ CRLF) [10] = false).
    { unfold str_eqb, CRLF. rewrite !bool_decide_eq_false.
      destruct h as [|c1 [|c2 h]]; [done|..]; (split; [|intros [=]]); try by destruct h.
      intros [= ? ? ?]. }
    destruct Hneq as [-> ->]. cbn [orb].
    replace (MAX_HEADER_BYTES <? _) with false by lia. apply IH; [done|lia|lia].
Qed.

Lemma encode_query_not c kvs :
  Forall texts kvs -> unreserved c || (c =? 37) || (c =? 61) || (c =? 38) = false ->
  c ∉ encode_query kvs.
Proof.
  intros Hkv Hc. rewrite !orb_false_iff in Hc. destruct Hc as [[[H1 H2] H3] H4]. bool_facts.
  assert (Hu : unreserved c || (c =? 37) = false) by (rewrite H1; apply Z.eqb_neq; done).
  induction Hkv as [|[k v] kvs [Hk Hv] _ IH]; [apply not_elem_of_nil|]. cbn [fst snd] in *.
  pose proof (percent_encode_not c k Hk Hu). pose proof (percent_encode_not c v Hv Hu).
  cbn [encode_query]. destruct kvs;
    repeat (rewrite not_elem_of_app || rewrite not_elem_of_cons); auto.
Qed.

Lemma target_not c p kvs :
  is_text p -> Forall texts kvs ->
  unreserved c || (c =? 37) || (c =? 61) || (c =? 38) || (c =? 63) = false -> c ∉ target p kvs.
Proof.
  intros Hp Hkv Hc. rewrite orb_false_iff in Hc. destruct Hc as [Hc H63]. apply Z.eqb_neq in H63.
  unfold target. rewrite not_elem_of_app. split.
  - apply percent_encode_not; [done|]. by apply orb_false_iff in Hc as [[Hc _]%orb_false_iff _].
  - destruct kvs as [|kv kvs]; [apply not_elem_of_nil|].
    rewrite not_elem_of_cons. split; [done|]. by apply encode_query_not.
Qed.

Lemma target_ascii p kvs : is_text p -> Forall texts kvs -> ascii (target p kvs).
Proof.
  intros Hp Hkv. apply Forall_app. split; [by apply percent_encode_ascii|].
  destruct kvs as [|kv kvs]; [constructor|]. constructor; [lia|].
  induction Hkv as [|[k v] l [Hk Hv] _ IH]; [constructor|]. cbn [fst snd] in *.
  cbn [encode_query]. pose proof (percent_encode_ascii k Hk). pose proof (percent_encode_ascii v Hv).
  destruct l; (apply Forall_app; split; [done|]; constructor; [lia|]); [done|].
  apply Forall_app. split; [done|]. constructor; [lia|done].
Qed.

Lemma ascii_text s : ascii s -> is_text s.
Proof.
  intros Hs. eapply Forall_impl; [exact Hs|]. intros c Hc. cbv beta in Hc. unfold is_char. lia.
Qed.

Lemma request_line_trim p kvs : trim_end (request_line p kvs ++ CRLF) = request_line p kvs.
Proof.
  unfold request_line. replace (lit " HTTP/1.1") with (lit " HTTP/1." ++ [49]) by reflexivity.
  rewrite (app_assoc (target p kvs)), (app_assoc (lit "GET ")).
  apply trim_end_ws; [|reflexivity]. by repeat constructor.
Qed.

Lemma request_line_parts p kvs :
  is_text p -> Forall texts kvs ->
  split_char 32 (request_line p kvs) = [lit "GET"; target p kvs; lit "HTTP/1.1"].
Proof.
  intros Hp Hkv. unfold request_line.
  change (lit "GET " ++ target p kvs ++ lit " HTTP/1.1")
    with (lit "GET" ++ 32 :: target p kvs ++ 32 :: lit "HTTP/1.1").
  rewrite split_char_app; [|apply (bool_decide_unpack (32 ∉ lit "GET")); reflexivity].
  rewrite split_char_app; [|by apply target_not].
  rewrite split_char_none; [done|apply (bool_decide_unpack (32 ∉ lit "HTTP/1.1")); reflexivity].
Qed.

Lemma target_split p kvs :
  is_text p -> Forall texts kvs ->
  match split_once 63 (target p kvs) with
  | Some (p, q) => (p, parse_query q)
  | None => (target p kvs, [])
  end = (percent_encode p, kvs).
Proof.
  intros Hp Hkv. unfold target. pose proof (percent_encode_not 63 p Hp eq_refl).
  destruct kvs as [|kv kvs].
  - rewrite app_nil_r. by rewrite split_once_none.
  - rewrite split_once_app by done. by rewrite parse_query_encode.
Qed.

Lemma read_request_encoded p kvs headers rest e :
  is_text p -> Forall texts kvs -> Forall header_ok headers ->
  Z.of_nat (length (request_line p kvs)) + 2 <= MAX_REQUEST_LINE ->
  (length headers < MAX_HEADERS)%nat -> headers_size headers <= MAX_HEADER_BYTES ->
  read_request {| pending := encode_request p kvs headers ++ rest; ends := e |} =
  (Ok {| path := p; query := kvs |}, {| pending := rest; ends := e |}).
Proof.
  intros Hp Hkv Hh Hl Hn Hs.
  assert (Hasc : ascii (request_line p kvs)).
  { unfold request_line. apply Forall_app. split; [apply (bool_decide_unpack _); reflexivity|].
    apply Forall_app. split; [by apply target_ascii|apply (bool_decide_unpack _); reflexivity]. }
  assert (Hnl : 10 ∉ request_line p kvs).
  { unfold request_line. rewrite !not_elem_of_app.
    split_and!; [|by apply target_not|]; apply (bool_decide_unpack _); reflexivity. }
  unfold encode_request, read_request. rewrite <- !app_assoc.
  rewrite read_line_crlf; [|by apply ascii_text|done|by rewrite as_bytes_ascii].
  rewrite (proj2 (Z.eqb_neq (Z.of_nat (length (as_bytes (request_line p kvs))) + 2) 0)) by lia.
  assert (Hend : ends_with_char 10 (request_line p kvs ++ CRLF) = true).
  { unfold ends_with_char, CRLF. by rewrite last_app. }
  rewrite Hend, andb_false_r, request_line_trim, request_line_parts by done.
  cbn [lookup list_lookup default from_option id]. change (str_eqb (lit "GET") (lit "GET")) with true.
  cbn [negb]. rewrite drain_headers_done by (done || lia).
  rewrite target_split by done. by rewrite percent_decode_encode.
Qed.

(** ** Bounded reading *)

Lemma read_line_bound limit st r st' :
  0 <= limit -> read_line limit st = (r, st') ->
  exists l, pending st = l ++ pending st' /\ Z.of_nat (length l) <= limit /\
    match r with Ok (n, s) => n = Z.of_nat (length l) /\ from_utf8 l = Some s | Err _ => True end.
Proof.
  intros Hlim. unfold read_line. destruct (take_line _ _) as [[l rest] d] eqn:E.
  apply take_line_bound in E as [Hb Hl]. intros H. exists l.
  assert (Z.of_nat (length l) <= limit) by lia.
  repeat case_match; simplify_eq; done.
Qed.

Lemma drain_headers_bound left : forall total st r st',
  total <= MAX_HEADER_BYTES -> drain_headers left total st = (r, st') ->
  exists l, pending st = l ++ pending st' /\
    Z.of_nat (length l) <= MAX_HEADER_BYTES - total + MAX_REQUEST_LINE.
Proof.
  induction left as [|left IH]; intros total st r st' Ht H; cbn [drain_headers] in H.
  { simplify_eq. exists []. split; [done|]. simpl. unfold MAX_REQUEST_LINE. lia. }
  destruct (read_line MAX_REQUEST_LINE st) as [r1 st1] eqn:E.
  apply read_line_bound in E as (l & Hp & Hl & Hr); [|by unfold MAX_REQUEST_LINE].
  assert (Hdone : st1 = st' ->
    exists l0, pending st = l0 ++ pending st' /\
      Z.of_nat (length l0) <= MAX_HEADER_BYTES - total + MAX_REQUEST_LINE).
  { intros <-. exists l. split; [done|lia]. }
  destruct r1 as [[n h]|e]; [|simplify_eq; by apply Hdone].
  destruct Hr as [-> _]. case_match; [simplify_eq; by apply Hdone|].
  destruct (MAX_HEADER_BYTES <? total + Z.of_nat (length l)) eqn:Em; [simplify_eq; by apply Hdone|].
  bool_facts. apply IH in H as (l2 & Hp2 & Hl2); [|done].
  exists (l ++ l2). split; [by rewrite Hp, Hp2, app_assoc|]. rewrite length_app. lia.
Qed.

Lemma read_request_bound st r st' :
  read_request st = (r, st') ->
  exists l, pending st = l ++ pending st' /\
    Z.of_nat (length l) <= 2 * MAX_REQUEST_LINE + MAX_HEADER_BYTES.
Proof.
  unfold read_request. destruct (read_line MAX_REQUEST_LINE st) as [r1 st1] eqn:E.
  apply read_line_bound in E as (l & Hp & Hl & Hr); [|by unfold MAX_REQUEST_LINE].
  assert (Hdone : st1 = st' ->
    exists l0, pending st = l0 ++ pending st' /\
      Z.of_nat (length l0) <= 2 * MAX_REQUEST_LINE + MAX_HEADER_BYTES).
  { intros <-. exists l. split; [done|]. unfold MAX_REQUEST_LINE, MAX_HEADER_BYTES in *. lia. }
  intros H. destruct r1 as [[n line]|e]; [|simplify_eq; by apply Hdone].
  case_match; [simplify_eq; by apply Hdone|].
  case_match; [simplify_eq; by apply Hdone|].
  case_match; [simplify_eq; by apply Hdone|].
  destruct (drain_headers MAX_HEADERS 0 st1) as [r2 st2] eqn:Ed.
  apply drain_headers_bound in Ed as (l2 & Hp2 & Hl2); [|by unfold MAX_HEADER_BYTES].
  assert (st2 = st') as -> by (repeat case_match; simplify_eq; done).
  exists (l ++ l2). split; [by rewrite Hp, Hp2, app_assoc|]. rewrite length_app. lia.
Qed.

(** ** Only GET *)

Lemma next_char_low b r c k : next_char b r = (Some c, k) -> c < 128 -> b = c /\ k = 0%nat.
Proof.
  unfold next_char, second3, second4, is_cont, in_range. intros H Hc.
  repeat case_match; simplify_eq; bool_facts; try done; exfalso; lia.
Qed.

Lemma from_utf8_ascii_prefix a : forall l r,
  Forall (fun c => c < 128) a -> from_utf8 l = Some (a ++ r) -> exists r', l = a ++ r'.
Proof.
  induction a as [|c a IH]; intros l r Ha Hl; [by exists l|].
  apply Forall_cons in Ha as [Hc Ha]. unfold from_utf8 in Hl.
  destruct l as [|b l]; [done|]. rewrite utf8_decode_cons in Hl.
  destruct (next_char b l) as [o k] eqn:En. cbn [fst snd app all_some] in Hl.
  destruct o as [c'|]; [|done].
  destruct (all_some _) as [s|] eqn:Es; [|done]. simplify_eq.
  apply next_char_low in En as [-> ->]; [|done]. rewrite drop_0 in Es.
  destruct (IH l r Ha Es) as [r' ->]. by exists r'.
Qed.

Lemma split_char_head sep s p ps : split_char sep s = p :: ps -> exists r, s = p ++ r.
Proof.
  revert p ps. induction s as [|c s IH]; intros p ps H; cbn [split_char] in H; [simplify_eq; by exists []|].
  destruct (c =? sep); [simplify_eq; by eexists|].
  destruct (split_char sep s) as [|p1 ps1] eqn:E; simplify_eq; [by exists s|].
  destruct (IH _ _ eq_refl) as [r ->]. by exists r.
Qed.

Lemma trim_start_suffix s : exists w, s = w ++ trim_start s.
Proof.
  induction s as [|c s [w IH]]; [by exists []|]. simpl. destruct (is_whitespace c); [|by exists []].
  exists (c :: w). by rewrite IH at 1.
Qed.

Lemma trim_end_prefix s : exists w, s = trim_end s ++ w.
Proof.
  destruct (trim_start_suffix (reverse s)) as [w Hw]. exists (reverse w). unfold trim_end.
  by rewrite <- reverse_app, <- Hw, reverse_involutive.
Qed.

Lemma read_request_get st req st' :
  read_request st = (Ok req, st') -> exists r, pending st = lit "GET" ++ r.
Proof.
  unfold read_request. destruct (read_line MAX_REQUEST_LINE st) as [r1 st1] eqn:E.
  apply read_line_bound in E as (l & Hp & _ & Hr); [|by unfold MAX_REQUEST_LINE].
  intros H. destruct r1 as [[n line]|e]; [|done]. destruct Hr as [_ Hu].
  case_match; [done|]. case_match; [done|].
  destruct (split_char 32 (trim_end line)) as [|m ps] eqn:Es.
  { done. }
  cbn [lookup list_lookup default from_option id] in H.
  destruct (str_eqb m (lit "GET")) eqn:Em; [|done]. clear H.
  apply bool_decide_eq_true in Em as ->.
  apply split_char_head in Es as [r Hr]. destruct (trim_end_prefix line) as [w Hw].
  rewrite Hr, <- app_assoc in Hw. rewrite Hw in Hu.
  apply from_utf8_ascii_prefix in Hu as [r' ->]; [|by repeat constructor].
  exists (r' ++ pending st1). by rewrite Hp, app_assoc.
Qed.

(** ** Framing of responses *)

(** The bytes before the first CRLF, and those after it. *)
Fixpoint split_crlf (bs : bytes) : option (bytes * bytes) :=
  match bs with
  | [] => None
  | c :: r =>
    match r with
    | d :: r' =>
      if (c =? 13) && (d =? 10) then Some ([], r')
      else match split_crlf r with Some (l, r'') => Some (c :: l, r'') | None => None end
    | [] => None
    end
  end.

(** The lines of a head up to the empty one, and what follows. *)
Fixpoint read_head (fuel : nat) (bs : bytes) : option (list bytes * bytes) :=
  match fuel with
  | O => None
  | S f =>
    match split_crlf bs with
    | None => None
    | Some ([], r) => Some ([], r)
    | Some (l, r) =>
      match read_head f r with Some (ls, r') => Some (l :: ls, r') | None => None end
    end
  end.

(** Printable ASCII: what can stand in a header line. *)
Definition printable (s : str) : Prop := Forall (fun c => in_range 32 126 c = true) s.

Lemma printable_ascii s : printable s -> ascii s.
Proof. intros Hs. eapply Forall_impl; [exact Hs|]. unfold in_range. intros c Hc. cbv beta in *. lia. Qed.

Lemma split_crlf_line l r : printable l -> split_crlf (l ++ CRLF ++ r) = Some (l, r).
Proof.
  induction 1 as [|c l Hc Hl IH]; [done|].
  change ((c :: l) ++ CRLF ++ r) with (c :: (l ++ CRLF ++ r)). cbn [split_crlf].
  unfold in_range in Hc. destruct (l ++ CRLF ++ r) as [|d x] eqn:E.
  { by destruct l. }
  replace (c =? 13) with false by lia. cbn [andb]. by rewrite IH.
Qed.

Lemma read_head_lines ls body : forall fuel,
  Forall (fun l => printable l /\ l <> []) ls -> (length ls < fuel)%nat ->
  read_head fuel (concat (map (fun l => l ++ CRLF) ls) ++ CRLF ++ body) = Some (ls, body).
Proof.
  induction ls as [|l ls IH]; intros [|fuel] Hls Hf; simpl in Hf; try lia; [done|].
  apply Forall_cons in Hls as [[Hl Hne] Hls]. cbn [map concat read_head].
  rewrite <- !app_assoc, split_crlf_line by done. destruct l; [done|].
  by rewrite IH by (done || lia).
Qed.

Lemma to_string_printable n : 0 <= n -> printable (to_string n).
Proof.
  intros Hn. eapply Forall_impl; [by apply (format_radix_digits 10 n)|].
  unfold in_range. intros c Hc. cbv beta in *. lia.
Qed.

Lemma reason_printable n : printable (reason n).
Proof. unfold reason. repeat case_if; apply (bool_decide_unpack _); vm_compute; exact I. Qed.

(** The nine header lines after the status line. *)
Definition head_lines (resp : Response) : list str :=
  [ lit "HTTP/1.1 " ++ to_string (status resp) ++ lit " " ++ reason (status resp);
    lit "Content-Type: " ++ content_type resp;
    lit "Content-Length: " ++ to_string (Z.of_nat (length (as_bytes (body resp))));
    lit "Connection: close";
    lit "Cache-Control: no-store";
    lit "X-Content-Type-Options: nosniff";
    lit "X-Frame-Options: DENY";
    lit "Referrer-Policy: no-referrer";
    lit "Content-Security-Policy: default-src 'none'; style-src 'unsafe-inline'; script-src 'unsafe-inline'; connect-src 'self'" ].

Lemma response_head_lines resp :
  response_head resp = concat (map (fun l => l ++ CRLF) (head_lines resp)) ++ CRLF.
Proof.
  unfold response_head, head_lines. cbn [map concat].
  generalize CRLF as nl. intros nl. rewrite app_nil_r, <- !app_assoc. reflexivity.
Qed.

Lemma head_lines_printable resp :
  0 <= status resp -> printable (content_type resp) ->
  Forall (fun l => printable l /\ l <> []) (head_lines resp).
Proof.
  intros Hs Hc.
  assert (Hlit : forall s, bool_decide (printable (lit s)) = true -> printable (lit s))
    by (intros s H; by apply bool_decide_eq_true in H).
  assert (Happ : forall a b, printable a -> printable b -> printable (a ++ b))
    by (intros a b0 ? ?; by apply Forall_app).
  repeat (apply Forall_cons; split); try constructor; try done;
    try (apply Hlit; vm_compute; reflexivity);
    repeat apply Happ; try (apply Hlit; vm_compute; reflexivity); try done.
  - by apply to_string_printable.
  - apply reason_printable.
  - apply to_string_printable. lia.
Qed.

(** ** Two corners *)

(** An escape with a sign is decoded: [%+f] is the byte 15. *)
Example percent_decode_accepts_sign : percent_decode (lit "%+f") = [15].
Proof. vm_compute. reflexivity. Qed.

(** A hundred short headers are one too many: the cap is tested before the
    empty line is read. *)
Example hundred_headers_rejected :
  let headers n := concat (replicate n (lit "a: b" ++ CRLF)) in
  is_ok (drain_headers MAX_HEADERS 0
    {| pending := headers 99%nat ++ CRLF; ends := Closed |}).1 = true /\
  (drain_headers MAX_HEADERS 0 {| pending := headers 100%nat ++ CRLF; ends := Closed |}).1
  = Err (response_error 413 (lit "too many headers")).
Proof. vm_compute. done. Qed.
