(* ===== verification/Collect.v ===== *)
(** * What the dashboard reads: [ui/src/collect.rs]

    The calls the dashboard makes (running a tool, the clock, opening and
    reading a log, listening) are the effect signature [ui]; the functions of
    the file are programs over it, the parsers of the tools' output plain
    functions.  A path is the byte string of the operating system: it has a
    text only when it is UTF-8. *)
From S2P Require Import Prelude Prog Text Net Json Http.
Local Open Scope prog_scope.

(** ** The calls *)

Record ui_output := mk_ui_output {
  success : bool;
  exit_status : str;         (* as [ExitStatus] is displayed *)
  out_stdout : bytes;
  out_stderr : bytes;
}.

Inductive io_error := NotFound | OtherError (msg : str).
#[export] Instance io_error_eq_dec : EqDecision io_error.
Proof. solve_decision. Defined.

Definition handle_id : Type := nat.

Inductive ui : Type -> Type :=
| RunCommand (bin : str) (args : list str) : ui (res str ui_output)
| UnixTime : ui Z                                   (* seconds from the epoch *)
| FileOpen (path : bytes) : ui (res io_error handle_id)
| FileSeekEnd (f : handle_id) (off : Z) : ui (res io_error Z)
| FileReadExact (f : handle_id) (n : Z) : ui (res io_error bytes)
| FileExists (path : bytes) : ui bool
| TcpBind (addr : SocketAddr) : ui (res str unit)
| Warn (line : str) : ui unit
| Accept : ui unit                                  (* the next connection *)
| SetReadTimeout (d : option Z) : ui unit           (* of the connection's socket, seconds *)
| SetWriteTimeout (d : option Z) : ui unit
| Receive : ui stream                               (* what the reads of the request see *)
| Send (bs : bytes) : ui (res str unit).            (* write and flush, then shut down *)

Definition call {X} (e : ui X) : prog ui X := Vis e Ret.

(** [Path::to_str], [Path::display] and [Path::join] of a relative component. *)
Definition to_str (p : bytes) : option str := from_utf8 p.
Definition display (p : bytes) : str := from_utf8_lossy p.
Definition join (p : bytes) (name : str) : bytes := path_join p (as_bytes name).

(** ** Running a tool *)

Definition run_error (bin : str) (o : ui_output) : str :=
  let err := from_utf8_lossy (out_stderr o) in
  let first := default [] (List.find (fun l => negb (is_nil (trim l))) (lines err)) in
  if is_nil first then bin ++ lit " exited " ++ exit_status o
  else bin ++ lit ": " ++ first.

Definition run (bin : str) (args : list str) : prog ui (res str str) :=
  r <- call (RunCommand bin args) ;;
  Ret (match r with
       | Err e => Err (bin ++ lit ": " ++ e)
       | Ok o => if success o then Ok (from_utf8_lossy (out_stdout o)) else Err (run_error bin o)
       end).

(** ** Configuration *)

(** SOURCE, KEY, VALUE. *)
Record Config := mk_config { entries : list (str * str * str) }.

Definition parse_entry (l : str) : option (str * str * str) :=
  match splitn 3 9 l with
  | s :: k :: r => Some (s, k, default [] (head r))
  | _ => None
  end.

Fixpoint filter_map {A B} (f : A -> option B) (l : list A) : list B :=
  match l with
  | [] => []
  | a :: r => match f a with Some b => b :: filter_map f r | None => filter_map f r end
  end.

Definition load (shield_config : bytes) (env_file : option bytes) : prog ui (res str Config) :=
  match to_str shield_config with
  | None => Ret (Err (lit "shield-config path is not valid UTF-8"))
  | Some bin =>
    out <-? match (p ← env_file; to_str p) with
            | Some f => run bin [lit "show"; lit "--porcelain"; lit "-f"; f]
            | None => run bin [lit "show"; lit "--porcelain"]
            end ;;
    Ret (Ok {| entries := filter_map parse_entry (lines out) |})
  end.

Definition entry_for (cfg : Config) (key : str) : option (str * str * str) :=
  List.find (fun e => str_eqb e.1.2 key) (entries cfg).

Definition get (cfg : Config) (key : str) : option str := (fun e => e.2) <$> entry_for cfg key.
Definition source (cfg : Config) (key : str) : option str := (fun e => e.1.1) <$> entry_for cfg key.

Definition profiles (cfg : Config) : list str :=
  List.filter (fun s => negb (is_nil s))
    (map trim (split_char 44 (default (lit "strfry") (get cfg (lit "SHIELD_PROFILES"))))).

(** ** Services *)

Record Service := mk_service {
  profile : str;
  log_name : str;
  listen_port : str;
  upstream : str;
  preset : str;
  limits : list (str * str * str);
}.

Definition keys_for (profile : str) : str * str * str * str :=
  if str_eqb profile (lit "strfry") then
    ([], lit "SHIELD_LISTEN_PORT", lit "SHIELD_UPSTREAM", lit "SHIELD_STRFRY_CONN_RATE")
  else if str_eqb profile (lit "http") then
    (lit "SHIELD_HTTP_SERVICE", lit "SHIELD_HTTP_LISTEN_PORT", lit "SHIELD_HTTP_UPSTREAM",
     lit "SHIELD_HTTP_CONN_RATE")
  else if str_eqb profile (lit "tcp") then
    (lit "SHIELD_TCP_SERVICE", lit "SHIELD_TCP_LISTEN_PORT", lit "SHIELD_TCP_UPSTREAM",
     lit "SHIELD_TCP_CONN_RATE")
  else ([], [], [], []).

Definition relevant_to (key profile : str) : bool :=
  if str_eqb profile (lit "http") then starts_with (lit "SHIELD_HTTP_") key
  else if str_eqb profile (lit "tcp") then starts_with (lit "SHIELD_TCP_") key
  else if str_eqb profile (lit "strfry") then
    starts_with (lit "SHIELD_WS_") key || starts_with (lit "SHIELD_STRFRY_") key
    || str_eqb key (lit "SHIELD_MAX_CONNS_PER_NODE")
    || starts_with (lit "SHIELD_HANDSHAKE_") key
  else false.

Definition is_limit (key : str) : bool :=
  contains (lit "RATE") key || contains (lit "MAX") key
  || contains (lit "TIMEOUT") key || contains (lit "BURST") key.

Definition preset_of (cfg : Config) (rate_key : str) : str :=
  default (lit "custom")
    (s ← source cfg rate_key; s ← strip_prefix (lit "preset:") s; split_char SLASH s !! 1%nat).

Definition service_of (cfg : Config) (profile : str) : Service :=
  let '(svc_key, port_key, up_key, rate_key) := keys_for profile in
  {| profile := profile;
     log_name := if is_nil svc_key then profile else default profile (get cfg svc_key);
     listen_port := default [] (get cfg port_key);
     upstream := default [] (get cfg up_key);
     preset := preset_of cfg rate_key;
     limits := map (fun e => (e.1.2, e.2, e.1.1))
                 (List.filter (fun e => is_limit e.1.2 && relevant_to e.1.2 profile) (entries cfg)) |}.

Definition services (cfg : Config) : list Service := map (service_of cfg) (profiles cfg).

(** ** Bans and statistics *)

Record Ban := mk_ui_ban { addr : str; until : Z }.

Definition parse_ban (l : str) : option Ban :=
  match split_whitespace l with
  | a :: u :: _ => match parse_u64 u with Some u => Some {| addr := a; until := u |} | None => None end
  | _ => None
  end.

Definition bans (shield_ban : bytes) : prog ui (res str (list Ban)) :=
  match to_str shield_ban with
  | None => Ret (Err (lit "shield-ban path is not valid UTF-8"))
  | Some bin =>
    out <-? run bin [lit "list"] ;;
    Ret (Ok (filter_map parse_ban (lines out)))
  end.

Definition parse_stat (l : str) : option (str * str) :=
  let l := trim_end l in
  match find_sub (lit "  ") l with
  | Some idx => Some (trim (take idx l), trim (drop idx l))
  | None => None
  end.

Definition guard_stats (fips_guard : bytes) : prog ui (res str (list (str * str))) :=
  match to_str fips_guard with
  | None => Ret (Err (lit "fips-guard path is not valid UTF-8"))
  | Some bin =>
    out <-? run bin [lit "stats"] ;;
    Ret (Ok (filter_map parse_stat (lines out)))
  end.

(** ** Logs *)

(** What [tail] makes of the window [buf] of a file of length [len]. *)
Definition tail_lines (n : nat) (len : Z) (buf : bytes) : list str :=
  let ls := lines (from_utf8_lossy buf) in
  let ls := if (Z.of_nat (length buf) <? len) && negb (is_nil ls) then drop 1 ls else ls in
  drop (length ls - n) ls.

Definition tail (path : bytes) (n : nat) (max_bytes : Z) : prog ui (res io_error (list str)) :=
  f <-? call (FileOpen path) ;;
  len <-? call (FileSeekEnd f 0) ;;
  let want := Z.min max_bytes len in
  _ <-? call (FileSeekEnd f (- want)) ;;
  buf <-? call (FileReadExact f want) ;;
  let ls := lines (from_utf8_lossy buf) in
  let ls := if (want <? len) && negb (is_nil ls) then drop 1 ls else ls in
  Ret (Ok (drop (length ls - n) ls)).

Definition log_path (log_dir : bytes) (name kind : str) : bytes :=
  join log_dir (lit "shield-" ++ name ++ lit "." ++ kind ++ lit ".log").

(** ** JSON *)

Definition limit_json (e : str * str * str) : str :=
  finished (Obj.str (Obj.str (Obj.str Obj.new (lit "key") e.1.1) (lit "value") e.1.2)
              (lit "source") e.2).

Definition service_json (s : Service) : str :=
  let limits := arr (map limit_json (limits s)) in
  let o := Obj.str Obj.new (lit "profile") (profile s) in
  let o := Obj.str o (lit "name") (log_name s) in
  let o := Obj.str o (lit "port") (listen_port s) in
  let o := Obj.str o (lit "upstream") (upstream s) in
  let o := Obj.str o (lit "preset") (preset s) in
  let o := Obj.raw o (lit "limits") limits in
  finished o.

Definition ban_json (b : Ban) (now : Z) : str :=
  let o := Obj.num (Obj.str Obj.new (lit "addr") (addr b)) (lit "until") (until b) in
  let o := Obj.bool o (lit "permanent") (until b =? 0) in
  let o := Obj.num o (lit "remaining") (saturating_sub (until b) now) in
  finished o.

Definition now : prog ui Z :=
  t <- call UnixTime ;;
  Ret (if t <? 0 then 0 else t).

Lemma filter_map_forall {A B} (f : A -> option B) (P : A -> Prop) (Q : B -> Prop) l :
  (forall a b, P a -> f a = Some b -> Q b) -> Forall P l -> Forall Q (filter_map f l).
Proof.
  intros Hf. induction 1 as [|a l Ha _ IH]; [constructor|]. cbn [filter_map].
  destruct (f a) eqn:E; [constructor; eauto|done].
Qed.
