(* ===== verification/Ui.v ===== *)
(** * The dashboard: [ui/src/main.rs]

    Routing, the three endpoints and the start-up check, over the calls of
    [Collect].  [PAGE] is the static page the build includes: a parameter. *)
From S2P Require Import Prelude Prog Text Net Json Http Collect.
Local Open Scope prog_scope.

Definition MAX_TAIL_BYTES : Z := 2 * 1024 * 1024.
Definition MAX_TAIL_LINES : nat := Z.to_nat 1000.

Record Args := mk_args {
  bind : str;
  insecure_bind : bool;
  env_file : option bytes;
  log_dir : bytes;
  shield_config : bytes;
  shield_ban : bytes;
  fips_guard : bytes;
}.

Record State := mk_state { args : Args }.

Definition config (st : State) : prog ui (res str Config) :=
  load (shield_config (args st)) (env_file (args st)).

Definition known_services (st : State) : prog ui (list str) :=
  r <- config st ;;
  Ret (match r with Ok c => map log_name (services c) | Err _ => [] end).

Definition hint (st : State) (what : str) : str :=
  if str_eqb what (lit "config") then
    lit "shield-ui runs `" ++ display (shield_config (args st))
    ++ lit " show --porcelain`. Install it with `sudo make install` (host mode), or point --shield-config at it. In container mode it lives inside the image, so the host needs its own copy plus presets/. If it is installed, it may simply not have found a shield.env — pass --env-file."
  else if str_eqb what (lit "bans") then
    lit "shield-ui runs `" ++ display (shield_ban (args st))
    ++ lit " list`. Install it with `sudo make install` or `sudo make install-guard`. With the eBPF backend it execs fips-guard, which needs CAP_BPF to open the pinned maps — a unit with an empty CapabilityBoundingSet cannot, even as root."
  else
    lit "shield-ui runs `" ++ display (fips_guard (args st))
    ++ lit " stats`. This is optional: without the eBPF guard, bans are enforced by the banlist file. If you do run it, note that reading the pinned maps needs CAP_BPF.".

(** The sort key of a ban: a permanent one is the latest. *)
Definition ban_key (b : Ban) : Z := if until b =? 0 then U64_MAX else until b.

Definition recent_bans (bans : list Ban) : list Ban :=
  take 20 (reverse (sort_by_key ban_key bans)).

(** ** [/api/status], section by section *)

Definition status_config (st : State) (o : Obj) (r : res str Config) : Obj :=
  match r with
  | Ok cfg =>
    let o := Obj.raw o (lit "services") (arr (map service_json (services cfg))) in
    let o := Obj.str o (lit "bind_addr") (default [] (get cfg (lit "SHIELD_BIND_ADDR"))) in
    let o := Obj.str o (lit "preset") (default (lit "default") (get cfg (lit "SHIELD_PRESET"))) in
    Obj.bool o (lit "config_ok") true
  | Err e =>
    let o := Obj.raw o (lit "services") (lit "[]") in
    let o := Obj.bool o (lit "config_ok") false in
    let o := Obj.str o (lit "config_error") e in
    Obj.str o (lit "config_hint") (hint st (lit "config"))
  end.

Definition status_bans (o : Obj) (bans : list Ban) (now : Z) : Obj :=
  let o := Obj.num o (lit "ban_count") (Z.of_nat (length bans)) in
  let o := Obj.bool o (lit "bans_ok") true in
  Obj.raw o (lit "bans") (arr (map (fun b => ban_json b now) (recent_bans bans))).

Definition status_no_bans (st : State) (o : Obj) (e : str) : Obj :=
  let o := Obj.bool o (lit "bans_ok") false in
  let o := Obj.num o (lit "ban_count") 0 in
  let o := Obj.raw o (lit "bans") (lit "[]") in
  let o := Obj.str o (lit "bans_error") e in
  Obj.str o (lit "bans_hint") (hint st (lit "bans")).

Definition stat_json (kv : str * str) : str :=
  finished (Obj.str (Obj.str Obj.new (lit "label") kv.1) (lit "value") kv.2).

Definition status_guard (o : Obj) (stats : list (str * str)) : Obj :=
  let o := Obj.bool o (lit "guard_ok") true in
  Obj.raw o (lit "guard") (arr (map stat_json stats)).

Definition status_no_guard (st : State) (o : Obj) (e : str) (installed : bool) : Obj :=
  let o := Obj.bool o (lit "guard_ok") false in
  let o := Obj.raw o (lit "guard") (lit "[]") in
  let o := Obj.bool o (lit "guard_installed") installed in
  let o := Obj.str o (lit "guard_error") e in
  Obj.str o (lit "guard_hint") (hint st (lit "guard")).

Definition api_status (st : State) : prog ui Response :=
  c <- config st ;;
  let o := status_config st Obj.new c in
  b <- bans (shield_ban (args st)) ;;
  o <- match b with
       | Ok bans => t <- now ;; Ret (status_bans o bans t)
       | Err e => Ret (status_no_bans st o e)
       end ;;
  g <- guard_stats (fips_guard (args st)) ;;
  o <- match g with
       | Ok stats => Ret (status_guard o stats)
       | Err e =>
         installed <- call (FileExists (fips_guard (args st))) ;;
         Ret (status_no_guard st o e installed)
       end ;;
  t <- now ;;
  Ret (response_json (finished (Obj.num o (lit "now") t))).

(** ** [/api/bans] *)

Definition bans_body (bans : list Ban) (now : Z) : str :=
  finished (Obj.raw (Obj.num Obj.new (lit "count") (Z.of_nat (length bans)))
              (lit "bans") (arr (map (fun b => ban_json b now) bans))).

Definition api_bans (st : State) : prog ui Response :=
  t <- now ;;
  r <- bans (shield_ban (args st)) ;;
  Ret (match r with
       | Ok bans => response_json (bans_body bans t)
       | Err e => response_error 500 e
       end).

(** ** [/api/logs] *)

(** The number of lines asked for, clamped. *)
Definition tail_count (req : Request) : nat :=
  let n := default 100 (v ← param req (lit "n"); parse_u64 v) in
  Z.to_nat (Z.max 1 (Z.min n (Z.of_nat MAX_TAIL_LINES))).

Definition logs_body (service kind lines : str) : str :=
  finished (Obj.raw (Obj.str (Obj.str Obj.new (lit "service") service) (lit "kind") kind)
              (lit "lines") lines).

Definition api_logs (st : State) (req : Request) : prog ui Response :=
  match param req (lit "service") with
  | None => Ret (response_error 400 (lit "service is required"))
  | Some service =>
    let kind := default (lit "stream") (param req (lit "kind")) in
    if negb (str_eqb kind (lit "access") || str_eqb kind (lit "stream")) then
      Ret (response_error 400 (lit "kind must be access or stream"))
    else
      known <- known_services st ;;
      if negb (existsb (fun s => str_eqb s service) known) then
        Ret (response_error 404 (lit "unknown service"))
      else
        r <- tail (log_path (log_dir (args st)) service kind) (tail_count req) MAX_TAIL_BYTES ;;
        Ret (match r with
             | Ok lines => response_json (logs_body service kind (str_arr lines))
             | Err NotFound => response_json (logs_body service kind (lit "[]"))
             | Err (OtherError _) => response_error 500 (lit "log could not be read")
             end)
  end.

Section routes.
Context (PAGE : str).

Definition handle (st : State) (req : Request) : prog ui Response :=
  if str_eqb (path req) (lit "/") || str_eqb (path req) (lit "/index.html") then
    Ret (response_html PAGE)
  else if str_eqb (path req) (lit "/api/status") then api_status st
  else if str_eqb (path req) (lit "/api/bans") then api_bans st
  else if str_eqb (path req) (lit "/api/logs") then api_logs st req
  else Ret (response_error 404 (lit "no such endpoint")).

(** The thread of a connection: bound the waits on its socket, read, handle,
    write, close.  What becomes of the write is ignored. *)
Definition connection (st : State) : prog ui unit :=
  call (SetReadTimeout (Some READ_TIMEOUT)) ;;;
  call (SetWriteTimeout (Some WRITE_TIMEOUT)) ;;;
  s <- call Receive ;;
  bs <- serve_connection (handle st) s ;;
  call (Send bs) ;;;
  Ret tt.

(** The first [n] connections of the server's endless loop, each one's thread
    run to its end before the next is accepted; [UiThreads] interleaves them. *)
Fixpoint serve (n : nat) (st : State) : prog ui unit :=
  match n with
  | O => Ret tt
  | S m =>
    call Accept ;;;
    connection st ;;;
    serve m st
  end.

Definition sock_loopback (a : SocketAddr) : bool :=
  match sock_ip a with
  | V4 v4 => is_loopback_v4 v4
  | V6 v6 => is_loopback_v6 v6
  end.

Definition refusal (a : SocketAddr) : str :=
  lit "refusing to bind " ++ show_socket_addr a
  ++ lit " — it is not a loopback address and this page has no authentication. It lists banned node identities and serves log contents, so exposing it on the mesh hands an attacker the shield's own view."
  ++ [10; 10] ++ lit "Reach it over an ssh tunnel instead:" ++ [10] ++ lit "    ssh -N -L "
  ++ to_string (sock_port a) ++ lit ":127.0.0.1:" ++ to_string (sock_port a) ++ lit " <node>"
  ++ [10; 10] ++ lit "If you have put real authentication in front of it, pass --insecure-bind.".

Definition main (connections : nat) (args : Args) : prog ui (res str unit) :=
  match parse_socket_addr (bind args) with
  | None => Ret (Err (lit "not a valid address: " ++ bind args
                      ++ lit ": invalid socket address syntax"))
  | Some addr =>
    let loopback := sock_loopback addr in
    if negb loopback && negb (insecure_bind args) then Ret (Err (refusal addr))
    else
      r <- call (TcpBind addr) ;;
      match r with
      | Err e => Ret (Err (lit "cannot bind " ++ show_socket_addr addr ++ lit ": " ++ e))
      | Ok _ =>
        call (Warn (lit "shield-ui: read-only dashboard on http://" ++ show_socket_addr addr)) ;;;
        (if negb loopback
         then call (Warn (lit "shield-ui: WARNING - bound a routable address with no authentication"))
         else Ret tt) ;;;
        serve connections {| args := args |} ;;;
        Ret (Ok tt)
      end
  end.

End routes.
