(* ===== verification/UiSafety.v ===== *)
(** * What the dashboard may do

    The calls a request can cause, whatever the tools and the file system
    answer; which logs a request can open; which address the server binds. *)
From S2P Require Import Prelude Prog Text Net Json Http Collect Ui.
Local Open Scope prog_scope.

(** ** Calls *)

(** The query verbs of the three tools. *)
Definition query_verb (a : Args) (bin : str) (argv : list str) : Prop :=
  (to_str (shield_config a) = Some bin /\
     (argv = [lit "show"; lit "--porcelain"] \/
      exists p f, env_file a = Some p /\ to_str p = Some f /\
        argv = [lit "show"; lit "--porcelain"; lit "-f"; f])) \/
  (to_str (shield_ban a) = Some bin /\ argv = [lit "list"]) \/
  (to_str (fips_guard a) = Some bin /\ argv = [lit "stats"]).

Definition log_kind (kind : str) : Prop := kind = lit "access" \/ kind = lit "stream".

(** A call that only reads: a query verb, the clock, or a log file. *)
Definition read_only (a : Args) (X : Type) (e : ui X) : Prop :=
  match e with
  | RunCommand bin argv => query_verb a bin argv
  | FileOpen p => exists service kind, log_kind kind /\ p = log_path (log_dir a) service kind
  | FileExists p => p = fips_guard a
  | UnixTime | FileSeekEnd _ _ | FileReadExact _ _ => True
  | TcpBind _ | Warn _ | Accept | SetReadTimeout _ | SetWriteTimeout _ | Receive | Send _ => False
  end.

Lemma safe_run a bin argv : query_verb a bin argv -> safe (read_only a) (run bin argv).
Proof. intros Hq. by split. Qed.

Lemma safe_now a : safe (read_only a) now.
Proof. by split. Qed.

Lemma safe_load a : safe (read_only a) (load (shield_config a) (env_file a)).
Proof.
  unfold load. destruct (to_str (shield_config a)) as [bin|] eqn:E; [|done].
  apply safe_try_bind; [|done].
  destruct (env_file a) as [p|] eqn:Ef; [|apply safe_run; left; auto].
  change (p0 ← Some p; to_str p0) with (to_str p).
  destruct (to_str p) as [f|] eqn:Et; apply safe_run; left; split; try done; [right|by left].
  by exists p, f.
Qed.

Lemma safe_bans a : safe (read_only a) (bans (shield_ban a)).
Proof.
  unfold bans. destruct (to_str (shield_ban a)) eqn:E; [|done].
  apply safe_try_bind; [|done]. apply safe_run. right. by left.
Qed.

Lemma safe_guard_stats a : safe (read_only a) (guard_stats (fips_guard a)).
Proof.
  unfold guard_stats. destruct (to_str (fips_guard a)) eqn:E; [|done].
  apply safe_try_bind; [|done]. apply safe_run. right. by right.
Qed.

Lemma safe_tail a p n m :
  (exists service kind, log_kind kind /\ p = log_path (log_dir a) service kind) ->
  safe (read_only a) (tail p n m).
Proof.
  intros Hp. unfold tail. apply safe_try_bind; [by split|]. intros f.
  apply safe_try_bind; [by split|]. intros len. apply safe_try_bind; [by split|]. intros _.
  apply safe_try_bind; [by split|]. done.
Qed.

Lemma kind_ok kind :
  negb (str_eqb kind (lit "access") || str_eqb kind (lit "stream")) = false -> log_kind kind.
Proof.
  intros H%negb_false_iff. apply orb_true_iff in H as [H|H]; apply bool_decide_eq_true in H;
    [by left|by right].
Qed.

#[export] Hint Resolve safe_now safe_load safe_bans safe_guard_stats : shield.

Lemma safe_handle PAGE st req : safe (read_only (args st)) (handle PAGE st req).
Proof.
  unfold handle. case_if; [done|]. case_if.
  { unfold api_status, config. apply safe_bind; [auto with shield|]. intros c.
    apply safe_bind; [auto with shield|]. intros b.
    apply safe_bind; [destruct b; [apply safe_bind; auto with shield; done|done]|]. intros o.
    apply safe_bind; [auto with shield|]. intros g.
    apply safe_bind; [destruct g; [done|by split]|]. intros o2.
    apply safe_bind; [auto with shield|done]. }
  case_if; [unfold api_bans; apply safe_bind; [auto with shield|]; intros t;
            apply safe_bind; [auto with shield|done]|].
  case_if; [|done]. unfold api_logs.
  destruct (param req (lit "service")) as [service|]; [|done].
  destruct (negb (str_eqb _ (lit "access") || _)) eqn:Ek; [done|].
  apply safe_bind; [apply safe_bind; [apply safe_load|done]|]. intros known.
  case_if; [done|]. apply safe_bind; [|done]. apply safe_tail.
  apply kind_ok in Ek. by eexists _, _.
Qed.

(** A thread's calls: those of its handler, and those on its own socket. *)
Definition thread_call (a : Args) (X : Type) (e : ui X) : Prop :=
  match e with
  | SetReadTimeout _ | SetWriteTimeout _ | Receive | Send _ => True
  | _ => read_only a X e
  end.

Lemma safe_serve_connection PAGE st s :
  safe (read_only (args st)) (serve_connection (handle PAGE st) s).
Proof.
  unfold serve_connection. apply safe_bind; [|done].
  destruct ((read_request s).1) as [req|e]; [|done]. apply safe_handle.
Qed.

Lemma safe_connection PAGE st : safe (thread_call (args st)) (connection PAGE st).
Proof.
  unfold connection. do 3 (apply safe_bind; [by split|intros ?]).
  apply safe_bind; [|intros bs; by split].
  eapply safe_weaken; [|apply safe_serve_connection]. by intros X [] ?.
Qed.

(** ** Logs *)

(** The service names [shield-config] last reported, and the files opened. *)
Record access := mk_access { reported : list str; opened : list bytes }.

Definition reported_by (o : ui_output) : list str :=
  map log_name (services {| entries := filter_map parse_entry (lines (from_utf8_lossy (out_stdout o))) |}).

(** Any answers, recorded. *)
Definition recording (X : Type) (e : ui X) (s : access) (x : X) (s' : access) : Prop :=
  match e in ui T return T -> Prop with
  | RunCommand _ _ => fun x =>
      s' = {| reported := match x with
                          | Ok o => if success o then reported_by o else []
                          | Err _ => []
                          end;
              opened := opened s |}
  | FileOpen p => fun _ => s' = {| reported := reported s; opened := opened s ++ [p] |}
  | _ => fun _ => s' = s
  end x.

(** Only logs of services the configuration named in this request. *)
Definition whitelisted (a : Args) (s : access) : Prop :=
  Forall (fun p => exists service kind,
    service ∈ reported s /\ log_kind kind /\ p = log_path (log_dir a) service kind) (opened s).

Abbreviation wpr := (wp recording eq).

Lemma wp_recording_run bin argv (Q : res str str -> access -> Prop) s :
  (forall o, success o = true ->
     Q (Ok (from_utf8_lossy (out_stdout o))) {| reported := reported_by o; opened := opened s |}) ->
  (forall e, Q (Err e) {| reported := []; opened := opened s |}) ->
  wpr (run bin argv) Q s.
Proof.
  intros HO HE s1 <- x s2 Hs. simpl in Hs. subst s2. destruct x as [o|e]; [|apply HE].
  destruct (success o) eqn:Eo; simpl; rewrite Eo; [by apply HO|apply HE].
Qed.

Lemma wp_known_services st (Q : list str -> access -> Prop) s :
  opened s = [] -> (forall r, Q r {| reported := r; opened := [] |}) -> (Q [] s) ->
  wpr (known_services st) Q s.
Proof.
  intros Ho HQ Hn. unfold known_services, config, load. apply wp_seq.
  destruct (to_str (shield_config (args st))) as [bin|]; [|by apply Hn].
  apply wp_try.
  destruct (p ← env_file (args st); to_str p) as [f|];
    apply wp_recording_run; rewrite Ho; [intros o _|intros e|intros o _|intros e]; apply HQ.
Qed.

Lemma wp_record_tail p n m s :
  wpr (tail p n m) (fun _ s' => s' = {| reported := reported s; opened := opened s ++ [p] |}) s.
Proof.
  unfold tail. apply wp_try. intros s1 <- x s2 Hs. simpl in Hs. subst s2. destruct x; [|done].
  apply wp_try. intros s1 <- x s2 Hs. simpl in Hs. subst s2. destruct x; [|done].
  apply wp_try. intros s1 <- x s2 Hs. simpl in Hs. subst s2. destruct x; [|done].
  apply wp_try. intros s1 <- x s2 Hs. simpl in Hs. subst s2. by destruct x.
Qed.

(** A call that opens nothing, and a program of such calls. *)
Definition opens_nothing (X : Type) (e : ui X) : Prop :=
  match e with FileOpen _ => False | _ => True end.

Lemma wp_opens_nothing {A} (m : prog ui A) s :
  safe opens_nothing m -> opened s = [] -> wpr m (fun _ s' => opened s' = []) s.
Proof.
  intros Hm. apply (wp_safe_invariant recording eq opens_nothing (fun s => opened s = [])); [| |done].
  - by intros s1 s2 <-.
  - intros X e s1 x s2 He Hs Ho. destruct e; simpl in *; subst; done.
Qed.

Ltac open_safe :=
  repeat first
    [ exact I
    | apply safe_bind; [|intros]
    | apply safe_try_bind; [|intros]
    | match goal with
      | |- safe _ (call _) => by split
      | |- safe _ (Vis _ _) => split; [|intros]
      | |- safe _ (match ?x with _ => _ end) => destruct x
      | |- safe _ (let _ := _ in _) => cbv zeta
      end ].

Lemma api_status_opens_nothing st : safe opens_nothing (api_status st).
Proof. unfold api_status, config, load, bans, guard_stats, run, now. open_safe. Qed.

Lemma api_bans_opens_nothing st : safe opens_nothing (api_bans st).
Proof. unfold api_bans, bans, run, now. open_safe. Qed.

Lemma api_logs_whitelisted st req s :
  opened s = [] -> wpr (api_logs st req) (fun _ s' => whitelisted (args st) s') s.
Proof.
  intros Ho. unfold api_logs. assert (Hn : whitelisted (args st) s).
  { unfold whitelisted. by rewrite Ho. }
  destruct (param req (lit "service")) as [service|]; [|done].
  destruct (negb (str_eqb _ (lit "access") || _)) eqn:Ek; [done|]. apply kind_ok in Ek.
  apply wp_seq, wp_known_services; [done| |by apply Hn].
  intros known. destruct (negb (existsb _ known)) eqn:Ex; [by apply Forall_nil|].
  apply wp_seq. eapply wp_mono; [|apply wp_record_tail].
  intros r s' ->. unfold whitelisted. cbn [reported opened app].
  apply Forall_singleton. exists service. eexists. split; [|split; [exact Ek|done]].
  apply negb_false_iff, existsb_exists in Ex as (s' & Hin & Heq).
  apply bool_decide_eq_true in Heq as ->. by apply list_elem_of_In.
Qed.
