(* ===== verification/UiSpec.v ===== *)
(** * What the dashboard shows

    The response bodies as JSON values, the window [tail] shows of a log, the
    parsers of the tools' outputs against what the tools print, and the
    selection of recent bans and of a service's limits. *)
From S2P Require Import Prelude Prog Text Net Json JsonSpec Http HttpSpec Collect Ui.
Local Open Scope prog_scope.

(** ** Text everywhere *)

(** What the standard library guarantees of the answers: outputs are bytes,
    messages are text, sizes and the clock fit 64 bits. *)
Definition output_ok (o : ui_output) : Prop :=
  are_bytes (out_stdout o) /\ are_bytes (out_stderr o) /\ is_text (exit_status o) /\
  Z.of_nat (length (out_stdout o)) <= U64_MAX.

Definition answer_ok (X : Type) (e : ui X) (x : X) : Prop :=
  match e in ui T return T -> Prop with
  | RunCommand _ _ => fun x => match x with Ok o => output_ok o | Err m => is_text m end
  | UnixTime => fun t => t <= U64_MAX
  | FileReadExact _ _ => fun x => match x with Ok bs => are_bytes bs | Err _ => True end
  | Receive => fun s => are_bytes (pending s)
  | _ => fun _ => True
  end x.

Definition answering (X : Type) (e : ui X) (s : unit) (x : X) (s' : unit) : Prop := answer_ok X e x.

(** [m] returns a value satisfying [Q] on any such answers. *)
Abbreviation wpt m Q := (wp answering eq m Q tt) (only parsing).

(** The paths and strings of the command line. *)
Definition args_ok (a : Args) : Prop :=
  are_bytes (shield_config a) /\ are_bytes (shield_ban a) /\ are_bytes (fips_guard a).

Lemma text_app a b : is_text a -> is_text b -> is_text (a ++ b).
Proof. intros. by apply Forall_app. Qed.

Lemma text_check s : forallb is_char s = true -> is_text s.
Proof. intros H. apply List.Forall_forall. by apply forallb_forall. Qed.

Lemma text_lit s : forallb is_char (lit s) = true -> is_text (lit s).
Proof. apply text_check. Qed.

Ltac text_lits := first [apply text_lit; vm_compute; reflexivity | done].

#[export] Hint Resolve text_app : shield.
#[export] Hint Extern 1 (is_text (lit _)) => (apply text_lit; vm_compute; reflexivity) : shield.

Lemma text_sub a s : (forall c, c ∈ a -> c ∈ s) -> is_text s -> is_text a.
Proof. unfold is_text. rewrite !Forall_forall. auto. Qed.

Lemma text_take n s : is_text s -> is_text (take n s).
Proof. apply Forall_take. Qed.
Lemma text_drop n s : is_text s -> is_text (drop n s).
Proof. apply Forall_drop. Qed.

Lemma text_trim_start s : is_text s -> is_text (trim_start s).
Proof. intros Hs. destruct (trim_start_suffix s) as [w Hw]. rewrite Hw in Hs. by apply Forall_app in Hs as [_ ?]. Qed.
Lemma text_trim_end s : is_text s -> is_text (trim_end s).
Proof. intros Hs. destruct (trim_end_prefix s) as [w Hw]. rewrite Hw in Hs. by apply Forall_app in Hs as [? _]. Qed.
Lemma text_trim s : is_text s -> is_text (trim s).
Proof. intros. by apply text_trim_end, text_trim_start. Qed.

Lemma text_close_line acc : is_text acc -> is_text (close_line acc).
Proof.
  unfold close_line. intros Ha. destruct acc as [|c a]; [constructor|].
  apply Forall_cons in Ha as [Hc Ha]. repeat case_match; apply Forall_reverse; try done; by constructor.
Qed.

Lemma text_lines s : is_text s -> Forall is_text (lines s).
Proof.
  unfold lines. assert (Hg : forall acc, is_text acc -> is_text s -> Forall is_text (lines_acc acc s)).
  { induction s as [|c s IH]; intros acc Ha Hs; cbn [lines_acc].
    - destruct acc; repeat constructor. by apply Forall_reverse.
    - apply Forall_cons in Hs as [Hc Hs]. destruct (c =? 10).
      + constructor; [by apply text_close_line|]. apply IH; [constructor|done].
      + apply IH; [by constructor|done]. }
  apply Hg. constructor.
Qed.

Lemma text_split_char sep s : is_text s -> Forall is_text (split_char sep s).
Proof.
  induction 1 as [|c s Hc _ IH]; cbn [split_char]; [by repeat constructor|].
  destruct (c =? sep); [by constructor; [constructor|]|].
  destruct (split_char sep s); [by repeat constructor|].
  apply Forall_cons in IH as [? ?]. constructor; [by constructor|done].
Qed.

Lemma text_split_once sep s a b : is_text s -> split_once sep s = Some (a, b) -> is_text a /\ is_text b.
Proof.
  intros Hs. revert a b. induction Hs as [|c s Hc Hs IH]; intros a b H; cbn [split_once] in H; [done|].
  destruct (c =? sep); [simplify_eq; by split; [constructor|]|].
  destruct (split_once sep s) as [[a' b']|]; [|done]. simplify_eq.
  destruct (IH _ _ eq_refl). split; [by constructor|done].
Qed.

Lemma text_splitn n sep s : is_text s -> Forall is_text (splitn n sep s).
Proof.
  revert s. induction n as [|[|n] IH]; intros s Hs; [constructor|by repeat constructor|].
  change (splitn (S (S n)) sep s) with
    (match split_once sep s with Some (a, b) => a :: splitn (S n) sep b | None => [s] end).
  destruct (split_once sep s) as [[a b]|] eqn:E; [|by repeat constructor].
  destruct (text_split_once _ _ _ _ Hs E). constructor; [done|by apply IH].
Qed.

Lemma text_split_ws s : is_text s -> Forall is_text (split_whitespace s).
Proof.
  unfold split_whitespace. intros Hs.
  assert (Hg : forall acc, is_text acc -> Forall is_text (split_ws_acc acc s)).
  { induction Hs as [|c s Hc Hs IH]; intros acc Ha; cbn [split_ws_acc].
    - destruct acc; repeat constructor. by apply Forall_reverse.
    - assert (H0 : is_text []) by constructor.
      destruct (is_whitespace c); [|apply IH; by constructor].
      destruct acc; [by apply IH|]. constructor; [by apply Forall_reverse|by apply IH]. }
  apply Hg. constructor.
Qed.

#[export] Hint Resolve text_trim text_trim_end text_take text_drop text_lines from_utf8_lossy_text : shield.

(** ** Parsed values are text and fit their types *)

Lemma parse_digits_range radix max s : forall acc n,
  0 <= radix -> 0 <= acc <= max -> parse_digits radix max acc s = Some n -> 0 <= n <= max.
Proof.
  induction s as [|c s IH]; intros acc n Hr Ha H; cbn [parse_digits] in H; [by simplify_eq|].
  destruct (to_digit radix c) as [d|] eqn:Ed; [|done].
  destruct (acc * radix + d <=? max) eqn:El; [|done]. bool_facts.
  apply IH in H; [done|done|]. split; [|done].
  assert (0 <= d).
  { unfold to_digit, digit_val, in_range in Ed. repeat case_match; simplify_eq; bool_facts; lia. }
  nia.
Qed.

Lemma parse_u64_range s n : parse_u64 s = Some n -> is_u64_spec n.
Proof.
  unfold parse_u64, from_str_radix, is_u64_spec. intros H.
  assert (0 <= U64_MAX) by word_lia.
  repeat case_match; try done; eapply (parse_digits_range 10); try exact H; lia.
Qed.

Definition entry_ok (e : str * str * str) : Prop := is_text e.1.1 /\ is_text e.1.2 /\ is_text e.2.
Definition config_ok (cfg : Config) : Prop := Forall entry_ok (entries cfg).
Definition ban_ok (b : Ban) : Prop := is_text (addr b) /\ is_u64_spec (until b).
Definition stat_ok (kv : str * str) : Prop := is_text kv.1 /\ is_text kv.2.

Definition service_ok (s : Service) : Prop :=
  is_text (profile s) /\ is_text (log_name s) /\ is_text (listen_port s) /\
  is_text (upstream s) /\ is_text (preset s) /\ Forall entry_ok (limits s).

Lemma parse_entry_ok l e : is_text l -> parse_entry l = Some e -> entry_ok e.
Proof.
  unfold parse_entry. intros Hl H. pose proof (text_splitn 3 9 l Hl) as Hs.
  destruct (splitn 3 9 l) as [|a [|b r]]; simplify_eq.
  apply Forall_cons in Hs as [Ha Hs]. apply Forall_cons in Hs as [Hb Hs].
  split_and!; [done|done|]. destruct r as [|c r]; [constructor|].
  by apply Forall_cons in Hs as [? _].
Qed.

Lemma parse_ban_ok l b : is_text l -> parse_ban l = Some b -> ban_ok b.
Proof.
  unfold parse_ban. intros Hl H. pose proof (text_split_ws l Hl) as Hs.
  destruct (split_whitespace l) as [|a [|u r]]; simplify_eq.
  destruct (parse_u64 u) as [n|] eqn:En; simplify_eq.
  apply Forall_cons in Hs as [Ha _]. split; [done|]. by eapply parse_u64_range.
Qed.

Lemma parse_stat_ok l kv : is_text l -> parse_stat l = Some kv -> stat_ok kv.
Proof.
  unfold parse_stat. intros Hl H. apply text_trim_end in Hl.
  destruct (find_sub _ _) as [i|]; simplify_eq.
  split; apply text_trim; [by apply text_take|by apply text_drop].
Qed.

Lemma entry_for_ok cfg key e : config_ok cfg -> entry_for cfg key = Some e -> entry_ok e.
Proof.
  intros Hc He. apply find_some in He as [Hin _]. apply list_elem_of_In in Hin.
  unfold config_ok in Hc. rewrite Forall_forall in Hc. auto.
Qed.

Lemma get_ok cfg key d : config_ok cfg -> is_text d -> is_text (default d (get cfg key)).
Proof.
  intros Hc Hd. unfold get. destruct (entry_for cfg key) as [e|] eqn:E; [|done].
  by apply (entry_for_ok cfg key e).
Qed.

Lemma profiles_ok cfg : config_ok cfg -> Forall is_text (profiles cfg).
Proof.
  intros Hc. unfold profiles. apply List.Forall_forall. intros x [Hx _]%filter_In.
  apply in_map_iff in Hx as (y & <- & Hy). apply text_trim.
  pose proof (text_split_char 44 (default (lit "strfry") (get cfg (lit "SHIELD_PROFILES")))
    (get_ok cfg (lit "SHIELD_PROFILES") (lit "strfry") Hc ltac:(text_lits))) as Hs.
  rewrite List.Forall_forall in Hs. auto.
Qed.

Lemma preset_ok cfg key : config_ok cfg -> is_text (preset_of cfg key).
Proof.
  intros Hc. unfold preset_of, source. destruct (entry_for cfg key) as [e|] eqn:E; [|text_lits].
  apply (entry_for_ok cfg key e Hc) in E as (Hs & _ & _). simpl.
  unfold strip_prefix. destruct (starts_with _ _); [|text_lits]. simpl.
  destruct (split_char SLASH _ !! 1%nat) eqn:El; [|text_lits]. simpl.
  eapply Forall_lookup_1; [|exact El]. by apply text_split_char, text_drop.
Qed.

Lemma services_ok cfg : config_ok cfg -> Forall service_ok (services cfg).
Proof.
  intros Hc. pose proof (profiles_ok cfg Hc) as Hp. unfold services.
  apply Forall_fmap. eapply Forall_impl; [exact Hp|]. intros p Htp.
  unfold compose, service_of. destruct (keys_for p) as [[[k1 k2] k3] k4].
  assert (H0 : is_text []) by constructor.
  unfold service_ok. cbn [profile log_name listen_port upstream preset limits].
  split_and!; try done; try (by apply get_ok); try (by apply preset_ok).
  - destruct (is_nil k1); [done|]. by apply get_ok.
  - apply List.Forall_map, List.Forall_forall. intros e [He _]%filter_In.
    unfold config_ok in Hc. rewrite List.Forall_forall in Hc.
    destruct (Hc e He) as (? & ? & ?). done.
Qed.

(** ** The JSON values of the bodies *)

Definition limit_value (e : str * str * str) : json :=
  JObj [(lit "key", JStr e.1.1); (lit "value", JStr e.1.2); (lit "source", JStr e.2)].

Definition service_value (s : Service) : json :=
  JObj [(lit "profile", JStr (profile s)); (lit "name", JStr (log_name s));
        (lit "port", JStr (listen_port s)); (lit "upstream", JStr (upstream s));
        (lit "preset", JStr (preset s)); (lit "limits", JArr (map limit_value (limits s)))].

Definition ban_object (now : Z) (b : Ban) : json :=
  JObj [(lit "addr", JStr (addr b)); (lit "until", JNum (until b));
        (lit "permanent", JBool (until b =? 0));
        (lit "remaining", JNum (saturating_sub (until b) now))].

Definition stat_value (kv : str * str) : json :=
  JObj [(lit "label", JStr kv.1); (lit "value", JStr kv.2)].

Definition bans_value (now : Z) (bans : list Ban) : json :=
  JObj [(lit "count", JNum (Z.of_nat (length bans))); (lit "bans", JArr (map (ban_object now) bans))].

Definition logs_value (service kind : str) (lines : list str) : json :=
  JObj [(lit "service", JStr service); (lit "kind", JStr kind); (lit "lines", JArr (map JStr lines))].

(** One member after another. *)
Ltac obj_members :=
  repeat first
    [ exact obj_new
    | match goal with H : obj_holds ?o _ |- obj_holds ?o _ => exact H end
    | match goal with
      | |- obj_holds (Obj.str _ _ _) _ => eapply (obj_str _ _)
      | |- obj_holds (Obj.num _ _ _) _ => eapply (obj_num _ _)
      | |- obj_holds (Obj.bool _ _ _) _ => eapply (obj_bool _ _)
      | |- obj_holds (Obj.raw _ _ _) _ => eapply (obj_raw _ _)
      end ];
  try solve [auto with shield].

Lemma zero_u64 : is_u64_spec 0.
Proof. word_lia. Qed.
#[export] Hint Resolve zero_u64 : shield.

Lemma denotes_members o kvs kvs' : obj_holds o kvs' -> kvs' = kvs -> denotes (finished o) (JObj kvs).
Proof. intros Ho <-. by apply denotes_obj. Qed.

Lemma denotes_map {A} (f : A -> str) (g : A -> json) (P : A -> Prop) l :
  (forall a, P a -> denotes (f a) (g a)) -> Forall P l -> denotes (arr (map f l)) (JArr (map g l)).
Proof.
  intros Hf Hl. apply denotes_arr. induction Hl; [constructor|]. simpl. constructor; auto.
Qed.

Lemma limit_denotes e : entry_ok e -> denotes (limit_json e) (limit_value e).
Proof.
  intros (? & ? & ?). unfold limit_json. eapply denotes_members; [obj_members|reflexivity].
Qed.

Lemma service_denotes s : service_ok s -> denotes (service_json s) (service_value s).
Proof.
  intros (? & ? & ? & ? & ? & Hl). unfold service_json. cbv zeta.
  eapply denotes_members; [obj_members|reflexivity].
  exact (denotes_map limit_json limit_value entry_ok (limits s) limit_denotes Hl).
Qed.

Lemma ban_denotes now b : 0 <= now -> ban_ok b -> denotes (ban_json b now) (ban_object now b).
Proof.
  intros Hn [Ha Hu]. unfold ban_json. cbv zeta.
  eapply denotes_members; [obj_members|reflexivity].
  unfold is_u64_spec, saturating_sub in *. lia.
Qed.

Lemma stat_denotes kv : stat_ok kv -> denotes (stat_json kv) (stat_value kv).
Proof. intros [? ?]. unfold stat_json. eapply denotes_members; [obj_members|reflexivity]. Qed.

(** ** Sizes *)

Lemma utf8_decode_length bs : forall k, (length (utf8_decode_from k bs) <= length bs)%nat.
Proof.
  induction bs as [|b bs IH]; intros k; [done|]. cbn [utf8_decode_from].
  destruct k; cbn [length]; [specialize (IH (next_char b bs).2)|specialize (IH k)]; lia.
Qed.

Lemma from_utf8_lossy_length bs : (length (from_utf8_lossy bs) <= length bs)%nat.
Proof. unfold from_utf8_lossy. rewrite length_map. apply utf8_decode_length. Qed.

Lemma filter_map_length {A B} (f : A -> option B) l : (length (filter_map f l) <= length l)%nat.
Proof. induction l as [|a l IH]; [done|]. simpl. destruct (f a); simpl; lia. Qed.

Lemma lines_length s : (length (lines s) <= length s)%nat.
Proof.
  unfold lines. enough (H : forall acc, (length (lines_acc acc s) <= length s + (if is_nil acc then 0 else 1))%nat)
    by (specialize (H []); simpl in H; lia).
  induction s as [|c s IH]; intros acc; cbn [lines_acc]; [by destruct acc|].
  destruct (c =? 10); cbn [length]; [specialize (IH [])|specialize (IH (c :: acc))]; simpl in IH;
    destruct (is_nil acc); lia.
Qed.

(** ** The answers the endpoints compute with *)

Lemma wpt_call {X} (e : ui X) (Q : X -> unit -> Prop) :
  (forall x, answer_ok X e x -> Q x tt) -> wpt (call e) Q.
Proof. intros HQ s1 _ x [] Ha. by apply HQ. Qed.

Lemma run_error_text bin o : is_text bin -> output_ok o -> is_text (run_error bin o).
Proof.
  intros Hb (_ & He & Hx & _). unfold run_error.
  destruct (is_nil _); [auto with shield|]. repeat apply text_app; [done|text_lits|].
  destruct (List.find _ _) as [l|] eqn:E; [|constructor].
  apply find_some in E as [Hin _]. simpl.
  pose proof (text_lines _ (from_utf8_lossy_text _ He)) as Hl.
  rewrite List.Forall_forall in Hl. auto.
Qed.

Lemma wpt_run bin argv (Q : res str str -> unit -> Prop) :
  is_text bin -> (forall s, is_text s -> Z.of_nat (length s) <= U64_MAX -> Q (Ok s) tt) -> (forall e, is_text e -> Q (Err e) tt) ->
  wpt (run bin argv) Q.
Proof.
  intros Hb HO HE. unfold run. apply wp_seq, wpt_call. intros [o|e] Ha.
  - destruct (success o); [|by apply HE, run_error_text].
    destruct Ha as (Hb1 & _ & _ & Hlen). apply HO; [by apply from_utf8_lossy_text|].
    pose proof (from_utf8_lossy_length (out_stdout o)). lia.
  - apply HE. repeat apply text_app; [done|text_lits|done].
Qed.

Definition res_text_or {A} (P : A -> Prop) (r : res str A) : Prop :=
  match r with Ok a => P a | Err e => is_text e end.

(** A parser of the lines of a tool's output. *)
Lemma wpt_run_lines {A B} bin argv (f : str -> option A) (P : A -> Prop) (g : list A -> B) (Q : res str B -> unit -> Prop) :
  is_text bin -> (forall l a, is_text l -> f l = Some a -> P a) ->
  (forall l, Forall P l -> Z.of_nat (length l) <= U64_MAX -> Q (Ok (g l)) tt) -> (forall e, is_text e -> Q (Err e) tt) ->
  wpt (out <-? run bin argv ;; Ret (Ok (g (filter_map f (lines out))))) Q.
Proof.
  intros Hb Hf HO HE. apply wp_try, wpt_run; [done| |done].
  intros s Hs Hlen. apply HO; [eapply filter_map_forall; [exact Hf|]; by apply text_lines|].
  pose proof (filter_map_length f (lines s)). pose proof (lines_length s). lia.
Qed.

Lemma wpt_config st (Q : res str Config -> unit -> Prop) :
  args_ok (args st) -> (forall r, res_text_or config_ok r -> Q r tt) -> wpt (config st) Q.
Proof.
  intros (Hc & _ & _) HQ. unfold config, load.
  destruct (to_str (shield_config (args st))) as [bin|] eqn:E;
    [|by apply HQ, text_lit; vm_compute].
  apply from_utf8_text in E; [|done].
  destruct (p ← env_file (args st); to_str p) as [f|];
    apply (wpt_run_lines _ _ parse_entry entry_ok mk_config);
      eauto using parse_entry_ok; intros; by apply HQ.
Qed.

Lemma wpt_bans st (Q : res str (list Ban) -> unit -> Prop) :
  args_ok (args st) -> (forall r, res_text_or (fun l => Forall ban_ok l /\ Z.of_nat (length l) <= U64_MAX) r -> Q r tt) ->
  wpt (bans (shield_ban (args st))) Q.
Proof.
  intros (_ & Hb & _) HQ. unfold bans.
  destruct (to_str (shield_ban (args st))) as [bin|] eqn:E; [|by apply HQ, text_lit; vm_compute].
  apply from_utf8_text in E; [|done].
  apply (wpt_run_lines _ _ parse_ban ban_ok (fun l => l)); eauto using parse_ban_ok;
    intros; by apply HQ.
Qed.

Lemma wpt_stats st (Q : res str (list (str * str)) -> unit -> Prop) :
  args_ok (args st) -> (forall r, res_text_or (Forall stat_ok) r -> Q r tt) ->
  wpt (guard_stats (fips_guard (args st))) Q.
Proof.
  intros (_ & _ & Hg) HQ. unfold guard_stats.
  destruct (to_str (fips_guard (args st))) as [bin|] eqn:E; [|by apply HQ, text_lit; vm_compute].
  apply from_utf8_text in E; [|done].
  apply (wpt_run_lines _ _ parse_stat stat_ok (fun l => l)); eauto using parse_stat_ok;
    intros; by apply HQ.
Qed.

Lemma wpt_now (Q : Z -> unit -> Prop) : (forall t, is_u64_spec t -> Q t tt) -> wpt now Q.
Proof.
  intros HQ. unfold now. apply wp_seq, wpt_call. intros t Ht. apply HQ.
  simpl in Ht. unfold is_u64_spec, U64_MAX in *. case_if; bool_facts; lia.
Qed.

(** ** The response bodies *)

(** A JSON response: one object, completely read back. *)
Definition json_object (r : Response) : Prop := exists kvs, read_json (body r) = Some (JObj kvs).

Lemma json_finished o kvs : obj_holds o kvs -> json_object (response_json (finished o)).
Proof. intros Ho. exists kvs. by apply read_json_denotes, denotes_obj. Qed.

Lemma error_object n msg : is_text msg -> json_object (response_error n msg).
Proof.
  intros Hm. exists [(lit "error", JStr msg)]. apply read_json_denotes.
  eapply denotes_members; [obj_members|reflexivity].
Qed.

Definition extends_obj (o o' : Obj) : Prop :=
  forall kvs, obj_holds o kvs -> exists kvs', obj_holds o' kvs'.

Lemma display_text p : are_bytes p -> is_text (display p).
Proof. apply from_utf8_lossy_text. Qed.

Lemma hint_text st what : args_ok (args st) -> is_text (hint st what).
Proof.
  intros (? & ? & ?). unfold hint. repeat case_if; repeat apply text_app;
    first [by apply display_text|apply text_lit; vm_compute; reflexivity].
Qed.

Lemma empty_array : denotes (lit "[]") (JArr []).
Proof. exact (denotes_arr [] [] (List.Forall2_nil _)). Qed.
#[export] Hint Resolve empty_array hint_text : shield.

Lemma status_config_obj st r :
  args_ok (args st) -> res_text_or config_ok r -> exists kvs, obj_holds (status_config st Obj.new r) kvs.
Proof.
  intros Ha Hr. destruct r as [cfg|e]; simpl in Hr; eexists; cbv [status_config]; cbv zeta; obj_members.
  - exact (denotes_map _ _ _ _ service_denotes (services_ok cfg Hr)).
  - by apply get_ok; [|constructor].
  - apply get_ok; [done|text_lits].
Qed.

Lemma recent_bans_ok l : Forall ban_ok l -> Forall ban_ok (recent_bans l).
Proof.
  intros Hl. unfold recent_bans. apply Forall_take, Forall_reverse. rewrite Forall_forall in Hl |- *.
  intros b Hb. by eapply Hl, elem_of_sort_by_key.
Qed.

Lemma json_object_any o : (exists kvs, obj_holds o kvs) -> json_object (response_json (finished o)).
Proof. intros [kvs Ho]. by eapply json_finished. Qed.

(** ** Well-formed responses *)

Lemma wpt_tail p n m (Q : res io_error (list str) -> unit -> Prop) :
  (forall ls, Forall is_text ls -> Q (Ok ls) tt) -> (forall e, Q (Err e) tt) -> wpt (tail p n m) Q.
Proof.
  intros HO HE. unfold tail. apply wp_try, wpt_call. intros [f|e] _; [|apply HE].
  apply wp_try, wpt_call. intros [len|e] _; [|apply HE].
  apply wp_try, wpt_call. intros [x|e] _; [|apply HE].
  apply wp_try, wpt_call. intros [bs|e] Hb; [|apply HE]. cbv zeta. apply HO.
  simpl in Hb. apply Forall_drop. case_if; [apply Forall_drop|]; by apply text_lines, from_utf8_lossy_text.
Qed.

Lemma logs_denotes service kind ls :
  is_text service -> is_text kind -> Forall is_text ls ->
  denotes (logs_body service kind (str_arr ls)) (logs_value service kind ls).
Proof.
  intros Hs Hk Hl. unfold logs_body. eapply denotes_members; [obj_members|reflexivity].
Qed.

Lemma bans_denotes bans now :
  is_u64_spec now -> Forall ban_ok bans -> Z.of_nat (length bans) <= U64_MAX ->
  denotes (bans_body bans now) (bans_value now bans).
Proof.
  intros Hn Hb Hl. unfold bans_body. eapply denotes_members; [obj_members|reflexivity].
  - unfold is_u64_spec in *. lia.
  - apply (denotes_map _ (ban_object now) ban_ok); [|done]. intros b. apply ban_denotes, Hn.
Qed.

Lemma status_bans_obj o kvs bans now :
  obj_holds o kvs -> is_u64_spec now -> Forall ban_ok bans -> Z.of_nat (length bans) <= U64_MAX ->
  exists kvs', obj_holds (status_bans o bans now) kvs'.
Proof.
  intros Ho Hn Hb Hl. eexists. cbv [status_bans]; cbv zeta. obj_members.
  - unfold is_u64_spec in *. lia.
  - apply (denotes_map _ (ban_object now) ban_ok); [|by apply recent_bans_ok].
    intros b. apply ban_denotes, Hn.
Qed.

Lemma status_no_bans_obj st o kvs e :
  obj_holds o kvs -> args_ok (args st) -> is_text e -> exists kvs', obj_holds (status_no_bans st o e) kvs'.
Proof. intros Ho Ha He. eexists. cbv [status_no_bans]; cbv zeta. obj_members. Qed.

Lemma status_guard_obj o kvs stats :
  obj_holds o kvs -> Forall stat_ok stats -> exists kvs', obj_holds (status_guard o stats) kvs'.
Proof.
  intros Ho Hs. eexists. cbv [status_guard]; cbv zeta. obj_members.
  exact (denotes_map _ _ _ _ stat_denotes Hs).
Qed.

Lemma status_no_guard_obj st o kvs e installed :
  obj_holds o kvs -> args_ok (args st) -> is_text e ->
  exists kvs', obj_holds (status_no_guard st o e installed) kvs'.
Proof. intros Ho Ha He. eexists. cbv [status_no_guard]; cbv zeta. obj_members. Qed.

Lemma api_status_object st : args_ok (args st) -> wpt (api_status st) (fun r _ => json_object r).
Proof.
  intros Ha. unfold api_status. apply wp_seq, wpt_config; [done|]. intros c Hc.
  destruct (status_config_obj st c Ha Hc) as [k1 H1]. cbv zeta.
  apply wp_seq, wpt_bans; [done|]. intros b Hb. apply wp_seq.
  assert (H2 : wpt (match b with
                    | Ok bans => Prog.bind now (fun t => Ret (status_bans (status_config st Obj.new c) bans t))
                    | Err e => Ret (status_no_bans st (status_config st Obj.new c) e) end)
                 (fun o _ => exists kvs, obj_holds o kvs)).
  { destruct b as [l|e].
    - apply wp_seq, wpt_now. intros t Ht. destruct Hb. by eapply status_bans_obj.
    - by eapply status_no_bans_obj. }
  eapply wp_mono; [|exact H2]. intros o [] [k2 Ho]. apply wp_seq, wpt_stats; [done|].
  intros g Hg. apply wp_seq.
  assert (H3 : wpt (match g with
                    | Ok stats => Ret (status_guard o stats)
                    | Err e => Prog.bind (call (FileExists (fips_guard (args st))))
                                 (fun i => Ret (status_no_guard st o e i)) end)
                 (fun o _ => exists kvs, obj_holds o kvs)).
  { destruct g as [l|e].
    - by eapply status_guard_obj.
    - apply wp_seq, wpt_call. intros i _. by eapply status_no_guard_obj. }
  eapply wp_mono; [|exact H3]. intros o3 [] [k3 Ho3]. apply wp_seq, wpt_now. intros t Ht.
  apply json_object_any. eexists. obj_members.
Qed.

Lemma api_bans_object st : args_ok (args st) -> wpt (api_bans st) (fun r _ => json_object r).
Proof.
  intros Ha. unfold api_bans. apply wp_seq, wpt_now. intros t Ht.
  apply wp_seq, wpt_bans; [done|]. intros [l|e] Hl.
  - destruct Hl. eexists. by apply read_json_denotes, bans_denotes.
  - by apply error_object.
Qed.

Lemma param_text req key v : Forall texts (query req) -> param req key = Some v -> is_text v.
Proof.
  intros Hq Hp. unfold param in Hp. destruct (List.find _ _) as [kv|] eqn:E; [|done].
  apply find_some in E as [Hin _]. simplify_eq/=.
  rewrite List.Forall_forall in Hq. by apply Hq.
Qed.

Lemma api_logs_object st req :
  Forall texts (query req) -> args_ok (args st) -> wpt (api_logs st req) (fun r _ => json_object r).
Proof.
  intros Hq Ha. unfold api_logs.
  destruct (param req (lit "service")) as [service|] eqn:Es; [|by apply error_object, text_lit; vm_compute].
  assert (Hk : is_text (default (lit "stream") (param req (lit "kind")))).
  { destruct (param req (lit "kind")) eqn:E; [by eapply param_text|text_lits]. }
  case_if; [by apply error_object, text_lit; vm_compute|].
  apply wp_seq, wp_seq, wpt_config; [done|]. intros c _. cbv beta.
  apply param_text in Es; [|done].
  change (wpt (if negb (existsb (fun s => str_eqb s service)
      (match c with Ok c => map log_name (services c) | Err _ => [] end))
    then Ret (response_error 404 (lit "unknown service"))
    else Prog.bind (tail (log_path (log_dir (args st)) service (default (lit "stream") (param req (lit "kind"))))
                (tail_count req) MAX_TAIL_BYTES)
           (fun r => Ret (match r with
             | Ok lines => response_json (logs_body service (default (lit "stream") (param req (lit "kind"))) (str_arr lines))
             | Err NotFound => response_json (logs_body service (default (lit "stream") (param req (lit "kind"))) (lit "[]"))
             | Err (OtherError _) => response_error 500 (lit "log could not be read")
             end))) (fun r _ => json_object r)).
  case_if; [by apply error_object, text_lit; vm_compute|].
  apply wp_seq, wpt_tail.
  - intros ls Hls. eexists. by apply read_json_denotes, logs_denotes.
  - intros [|m]; [|by apply error_object, text_lit; vm_compute].
    eexists. apply read_json_denotes, (logs_denotes _ _ []); [done|done|constructor].
Qed.

Lemma handle_object PAGE st req :
  Forall texts (query req) -> args_ok (args st) ->
  wpt (handle PAGE st req) (fun r _ => r = response_html PAGE \/ json_object r).
Proof.
  intros Hq Ha. unfold handle.
  assert (Hr : forall m, wpt m (fun r _ => json_object r) ->
    wpt m (fun r _ => r = response_html PAGE \/ json_object r)).
  { intros m. apply wp_mono. by right. }
  case_if; [by left|]. case_if; [by apply Hr, api_status_object|].
  case_if; [by apply Hr, api_bans_object|]. case_if; [by apply Hr, api_logs_object|].
  right. by apply error_object, text_lit; vm_compute.
Qed.
