(* ===== verification/UiConnection.v ===== *)
(** * One connection of the dashboard

    From the bytes of a peer to the bytes it gets back: what is read from any
    bytes is text, and every answer is a framed response whose body is the
    page or a JSON object. *)
From S2P Require Import Prelude Prog Text Net Json JsonSpec Http HttpSpec Collect Ui UiSpec.
Local Open Scope prog_scope.

(** ** Requests are text *)

Lemma hex_escape_byte a b v : hex_escape a b = Some v -> is_byte v = true.
Proof.
  unfold hex_escape, from_str_radix. destruct (from_utf8 [a; b]) as [h|]; [|done]. intros H.
  enough (0 <= v <= U8_MAX) by (unfold is_byte, in_range, U8_MAX in *; lia).
  repeat case_match; try done; (eapply parse_digits_range; [| |exact H]; unfold U8_MAX; lia).
Qed.

Lemma percent_bytes_bytes n : forall bs,
  (length bs <= n)%nat -> are_bytes bs -> are_bytes (percent_bytes bs).
Proof.
  induction n as [|n IH]; intros [|c r] Hl Hb; simpl in Hl; try (constructor || lia).
  apply Forall_cons in Hb as [Hc Hr]. cbn [percent_bytes].
  destruct (c =? 43); [constructor; [done|]; apply IH; [lia|done]|].
  assert (Hcons : are_bytes (c :: percent_bytes r)) by (constructor; [done|]; apply IH; [lia|done]).
  destruct (c =? 37); [|done].
  destruct r as [|h1 [|h2 r]]; [done..|].
  destruct (hex_escape h1 h2) as [v|] eqn:E; [|done].
  constructor; [by eapply hex_escape_byte|]. do 2 apply Forall_cons in Hr as [_ Hr].
  apply IH; [simpl in Hl; lia|done].
Qed.

Lemma percent_decode_text s : is_text s -> is_text (percent_decode s).
Proof.
  intros Hs. apply from_utf8_lossy_text. eapply percent_bytes_bytes; [done|]. by apply as_bytes_bytes.
Qed.

Lemma parse_query_texts q : is_text q -> Forall texts (parse_query q).
Proof.
  intros Hq. unfold parse_query. apply List.Forall_map, List.Forall_forall.
  intros p [Hp _]%filter_In. pose proof (text_split_char 38 q Hq) as Hs.
  rewrite List.Forall_forall in Hs. specialize (Hs p Hp).
  destruct (split_once 61 p) as [[k v]|] eqn:E.
  - destruct (text_split_once _ _ _ _ Hs E). split; by apply percent_decode_text.
  - split; [by apply percent_decode_text|constructor].
Qed.

Lemma take_line_bytes n : forall bs l r d,
  take_line n bs = (l, r, d) -> are_bytes bs -> are_bytes l.
Proof.
  induction n as [|n IH]; intros bs l r d; cbn [take_line].
  { intros [= <- _ _] _. constructor. }
  destruct bs as [|c bs]; [intros [= <- _ _] _; constructor|].
  destruct (c =? 10); [intros [= <- _ _] [Hc _]%Forall_cons; by apply Forall_singleton|].
  destruct (take_line n bs) as [[l' r'] d'] eqn:E. intros [= <- _ _] [Hc Hb]%Forall_cons.
  constructor; [done|]. by eapply IH.
Qed.

Lemma read_line_text limit st n l st' :
  are_bytes (pending st) -> read_line limit st = (Ok (n, l), st') -> is_text l.
Proof.
  intros Hb. unfold read_line. destruct (take_line _ _) as [[bs r] d] eqn:E.
  apply take_line_bytes in E; [|done]. case_if; [|by intros ?].
  destruct (from_utf8 bs) as [s|] eqn:Es; [|by intros ?]. intros ?; simplify_eq.
  by eapply from_utf8_text.
Qed.

(** The parameters of a request are text, whatever bytes it came in. *)
Lemma read_request_texts st req st' :
  are_bytes (pending st) -> read_request st = (Ok req, st') -> Forall texts (query req).
Proof.
  intros Hb. unfold read_request. destruct (read_line MAX_REQUEST_LINE st) as [[[n line]|e] st1] eqn:E; [|by intros ?].
  apply read_line_text in E; [|done].
  case_if; [by intros ?|]. case_if; [by intros ?|]. case_if; [by intros ?|].
  destruct (drain_headers _ _ _) as [[u|e] st2]; [|by intros ?].
  assert (Ht : is_text (default [] (split_char 32 (trim_end line) !! 1%nat))).
  { destruct (_ !! 1%nat) as [t|] eqn:Et; [|constructor].
    eapply Forall_lookup_1; [|exact Et]. by apply text_split_char, text_trim_end. }
  destruct (split_once 63 _) as [[p q]|] eqn:Es; intros ?; simplify_eq; cbn [query]; [|constructor].
  apply parse_query_texts. by eapply text_split_once.
Qed.

(** ** Answers are framed *)

(** A response [http.rs] can build: one of its status codes, a fixed type. *)
Definition sendable (r : Response) : Prop := 0 <= status r /\ printable (content_type r).

Lemma sendable_json b : sendable (response_json b).
Proof. split; [vm_compute; congruence|]. apply (bool_decide_unpack _). vm_compute. exact I. Qed.
Lemma sendable_html b : sendable (response_html b).
Proof. split; [vm_compute; congruence|]. apply (bool_decide_unpack _). vm_compute. exact I. Qed.
Lemma sendable_error n m : 0 <= n -> sendable (response_error n m).
Proof. split; [done|]. apply (bool_decide_unpack _). vm_compute. exact I. Qed.

#[export] Hint Resolve sendable_json sendable_html : shield.
#[export] Hint Extern 1 (sendable (response_error _ _)) => (apply sendable_error; lia) : shield.

Lemma returns_any {E A B} (Q : B -> Prop) (m : prog E A) (k : A -> prog E B) :
  (forall a, returns Q (k a)) -> returns Q (Prog.bind m k).
Proof. intros Hk. apply returns_bind. by apply returns_true. Qed.

Ltac sendable_tac :=
  repeat first
    [ apply returns_any; intros ? | case_match | cbn [returns]; solve [auto with shield] ].

Lemma api_status_sendable st : returns sendable (api_status st).
Proof. unfold api_status. sendable_tac. Qed.

Lemma handle_sendable PAGE st req : returns sendable (handle PAGE st req).
Proof.
  unfold handle, api_bans, api_logs. pose proof (api_status_sendable st). sendable_tac; done.
Qed.

Lemma response_framed r :
  sendable r -> read_head 10 (write_response r) = Some (head_lines r, as_bytes (body r)).
Proof.
  intros [Hs Hc]. pose proof (head_lines_printable r Hs Hc) as Hp. unfold write_response.
  rewrite as_bytes_ascii.
  - rewrite response_head_lines, <- app_assoc. apply read_head_lines; [done|simpl; lia].
  - rewrite response_head_lines. apply Forall_app. split; [|repeat constructor; lia].
    apply Forall_concat, List.Forall_map. eapply Forall_impl; [exact Hp|].
    intros l [Hl _]. apply Forall_app. split; [by apply printable_ascii|repeat constructor; lia].
Qed.

(** What reading can answer on its own. *)
Definition read_error (e : Response) : Prop :=
  exists n msg, (n = 400 \/ n = 405 \/ n = 413) /\ is_text msg /\ e = response_error n msg.

Ltac read_error_tac :=
  match goal with |- read_error (response_error ?n ?m) =>
    exists n, m; split; [lia|split; [by apply text_lit; vm_compute|done]] end.

Lemma drain_headers_error left : forall total s e s',
  drain_headers left total s = (Err e, s') -> read_error e.
Proof.
  induction left as [|left IH]; intros total s e s'; cbn [drain_headers];
    [intros; simplify_eq; read_error_tac|].
  repeat case_match; intros; simplify_eq; try read_error_tac; eauto.
Qed.

Lemma read_request_error s e s' : read_request s = (Err e, s') -> read_error e.
Proof.
  unfold read_request. repeat case_match; intros; simplify_eq; try read_error_tac;
    eauto using drain_headers_error.
Qed.

Lemma read_error_answer e : read_error e -> sendable e /\ json_object e.
Proof.
  intros (n & msg & Hn & Hm & ->). split; [apply sendable_error; lia|by apply error_object].
Qed.

(** What a peer can be sent: a framed response whose body is the page or one
    JSON object. *)
Definition framed_answer (PAGE : str) (bs : bytes) : Prop :=
  exists r, read_head 10 bs = Some (head_lines r, as_bytes (body r)) /\
            (r = response_html PAGE \/ json_object r).

Lemma serve_connection_framed PAGE st s :
  are_bytes (pending s) -> args_ok (args st) ->
  wp answering eq (serve_connection (handle PAGE st) s) (fun bs _ => framed_answer PAGE bs) tt.
Proof.
  intros Hb Ha. unfold serve_connection. apply wp_bind.
  destruct (read_request s) as [[req|e] s'] eqn:E; cbn [fst].
  - pose proof (read_request_texts _ _ _ Hb E) as Hq.
    eapply wp_mono; [|apply wp_conj; [by apply (handle_object PAGE st req)|apply returns_wp, handle_sendable]].
    intros r u [Hr Hs]. exists r. split; [by apply response_framed|done].
  - apply read_request_error, read_error_answer in E as [Hs Hj].
    exists e. split; [by apply response_framed|by right].
Qed.

(** A dashboard with the default paths. *)
Definition default_args : Args :=
  {| bind := lit "127.0.0.1:8088"; insecure_bind := false; env_file := None;
     log_dir := as_bytes (lit "/var/log/nginx");
     shield_config := as_bytes (lit "/usr/local/bin/shield-config");
     shield_ban := as_bytes (lit "/usr/local/bin/shield-ban");
     fips_guard := as_bytes (lit "/usr/local/bin/fips-guard") |}.
Definition default_state : State := {| args := default_args |}.

Definition small_page : list Z := lit "<html></html>".

Lemma default_args_ok : args_ok default_args.
Proof. split; [|split]; apply as_bytes_bytes, text_check; vm_compute; reflexivity. Defined.
