(* ===== verification/UiViews.v ===== *)
(** * The dashboard's views of other tools' output

    The lines the guard's [list] prints and [shield-config show --porcelain]
    prints, read back; the window of a log that [tail] returns; which bans are
    recent and which settings are a service's limits. *)
From S2P Require Import Prelude Prog Text Net Bpf Sys Guard GuardBans.
From S2P Require Import Json JsonSpec Http HttpSpec Collect Ui.
Local Open Scope prog_scope.

(** ** Lines *)

(** What a tool that prints these lines leaves on its standard output. *)
Definition printed (ls : list str) : str := concat (map (fun l => l ++ [10]) ls).

Definition plain_line (l : str) : Prop := (10 ∉ l) /\ last l <> Some 13.

Lemma lines_printed ls : Forall plain_line ls -> lines (printed ls) = ls.
Proof.
  induction 1 as [|l ls [Hn Hc] _ IH]; [done|]. unfold printed in *. cbn [map concat].
  rewrite <- app_assoc. cbn [app]. by rewrite lines_cons, IH.
Qed.

Lemma filter_map_map {A B C} (f : B -> option C) (g : A -> B) (h : A -> C) (P : A -> Prop) l :
  (forall a, P a -> f (g a) = Some (h a)) -> Forall P l -> filter_map f (map g l) = map h l.
Proof.
  intros Hf. induction 1 as [|a l Ha _ IH]; [done|]. simpl. by rewrite Hf, IH.
Qed.

(** ** The output of [list] *)

(** Characters of an address or a number: no white space. *)
Definition word_char (c : Z) : bool := in_range 46 58 c || in_range 97 122 c.
Definition word (s : str) : Prop := s <> [] /\ Forall (fun c => word_char c = true) s.

Lemma word_char_not_space c : word_char c = true -> is_whitespace c = false.
Proof. unfold word_char, is_whitespace, in_range. lia. Qed.

Lemma format_radix_word b n : 2 <= b <= 36 -> 0 <= n -> word (format_radix b n).
Proof.
  intros Hb Hn. split; [apply format_radix_ne|].
  eapply Forall_impl; [by apply (format_radix_digits b n)|].
  unfold word_char, in_range. intros c Hc. cbv beta in *. lia.
Qed.

Lemma word_app a b : word a -> Forall (fun c => word_char c = true) b -> word (a ++ b).
Proof. intros [Hne Ha] Hb. split; [by destruct a|]. by apply Forall_app. Qed.

Lemma word_chars a : word a -> Forall (fun c => word_char c = true) a.
Proof. by intros [_ ?]. Qed.

Lemma fmt_subslice_chars l : Forall (fun g => 0 <= g < 65536) l -> Forall (fun c => word_char c = true) (fmt_subslice l).
Proof.
  induction 1 as [|g l Hg _ IH]; [constructor|]. cbn [fmt_subslice].
  pose proof (word_chars _ (format_radix_word 16 g ltac:(lia) ltac:(lia))).
  destruct l; [done|]. apply Forall_app. split; [done|]. by constructor.
Qed.

Lemma fmt_subslice_ne g l : fmt_subslice (g :: l) <> [].
Proof.
  cbn [fmt_subslice]. pose proof (format_radix_ne 16 g) as Hne. unfold format_hex.
  destruct l; [done|]. by destruct (format_radix 16 g).
Qed.

Lemma show_v4_word a b c d :
  0 <= a -> 0 <= b -> 0 <= c -> 0 <= d -> word (show_v4 [a; b; c; d]).
Proof.
  intros. unfold show_v4, to_string.
  pose proof (fun n H => format_radix_word 10 n ltac:(lia) H) as Hw.
  apply word_app; [by apply Hw|]. constructor; [done|].
  apply Forall_app. split; [apply word_chars; by apply Hw|]. constructor; [done|].
  apply Forall_app. split; [apply word_chars; by apply Hw|]. constructor; [done|].
  apply word_chars. by apply Hw.
Qed.

Lemma show_v6_word a : is_v6 a -> word (show_v6 a).
Proof.
  intros [Hlen Hr]. unfold show_v6. destruct (to_ipv4_mapped a) as [v4|] eqn:E.
  - assert (Hv : exists ab cd, v4 = [ab / 256; ab mod 256; cd / 256; cd mod 256] /\ 0 <= ab /\ 0 <= cd).
    { unfold to_ipv4_mapped in E. repeat case_match; simplify_eq. eexists _, _. split; [done|].
      do 6 (apply Forall_cons in Hr as [_ Hr]). apply Forall_cons in Hr as [? Hr].
      apply Forall_cons in Hr as [? _]. lia. }
    destruct Hv as (ab & cd & -> & ? & ?).
    pose proof (Z.mod_pos_bound ab 256). pose proof (Z.mod_pos_bound cd 256).
    pose proof (Z.div_pos ab 256). pose proof (Z.div_pos cd 256).
    apply word_app; [|apply word_chars, show_v4_word; lia].
    split; [done|]. by repeat constructor.
  - case_if.
    + split; [by destruct (fmt_subslice (take _ _))|]. apply Forall_app.
      split; [by apply fmt_subslice_chars, Forall_take|]. do 2 (constructor; [done|]).
      by apply fmt_subslice_chars, Forall_drop.
    + split; [|by apply fmt_subslice_chars]. destruct a; [done|]. apply fmt_subslice_ne.
Qed.

Lemma split_ws_word acc a s :
  Forall (fun c => word_char c = true) a -> split_ws_acc acc (a ++ s) = split_ws_acc (reverse a ++ acc) s.
Proof.
  intros Ha. revert acc. induction Ha as [|c a Hc _ IH]; intros acc; [done|].
  cbn [app split_ws_acc]. rewrite word_char_not_space by done.
  by rewrite IH, reverse_cons, <- app_assoc.
Qed.

Lemma split_two_words a u : word a -> word u -> split_whitespace (a ++ lit " " ++ u) = [a; u].
Proof.
  intros [Ha Hac] [Hu Huc]. unfold split_whitespace. rewrite split_ws_word by done.
  change (lit " " ++ u) with (32 :: u). cbn [split_ws_acc]. change (is_whitespace 32) with true. cbn iota.
  rewrite app_nil_r. destruct (reverse a) as [|c r] eqn:E.
  { apply (f_equal reverse) in E. rewrite reverse_involutive in E. done. }
  rewrite <- E, reverse_involutive. f_equal.
  rewrite <- (app_nil_r u) at 1. rewrite split_ws_word by done. cbn [split_ws_acc]. rewrite app_nil_r.
  destruct (reverse u) as [|c' r'] eqn:E'.
  { apply (f_equal reverse) in E'. rewrite reverse_involutive in E'. done. }
  by rewrite <- E', reverse_involutive.
Qed.

(** A ban map entry the classifier can hold: sixteen bytes, 64-bit fields. *)
Definition entry_valid (kv : Addr6 * BanVal) : Prop :=
  is_v6 (from_octets (b kv.1)) /\ is_u64_spec (expires_epoch_s kv.2).

(** The ban the dashboard shows for an entry. *)
Definition shown_ban (kv : Addr6 * BanVal) : Ban :=
  {| addr := show_v6 (from_octets (b kv.1)); until := expires_epoch_s kv.2 |}.

Lemma entry_line_words kv : entry_valid kv ->
  word (show_v6 (from_octets (b kv.1))) /\ word (to_string (expires_epoch_s kv.2)).
Proof.
  intros [Ha Hu]. split; [by apply show_v6_word|]. apply format_radix_word; [lia|].
  unfold is_u64_spec in Hu. lia.
Qed.

Lemma parse_ban_entry_line kv : entry_valid kv -> parse_ban (entry_line kv) = Some (shown_ban kv).
Proof.
  intros Hv. destruct (entry_line_words kv Hv) as [Ha Hu]. unfold parse_ban, entry_line, list_line.
  rewrite split_two_words by done. by rewrite parse_u64_to_string by apply Hv.
Qed.

Lemma word_not c s : word s -> word_char c = false -> c ∉ s.
Proof. intros [_ Hs] Hc Hin. rewrite Forall_forall in Hs. specialize (Hs c Hin). cbv beta in Hs. congruence. Qed.

Lemma entry_line_plain kv : entry_valid kv -> plain_line (entry_line kv).
Proof.
  intros Hv. destruct (entry_line_words kv Hv) as [Ha Hu]. unfold entry_line, list_line. split.
  - rewrite !not_elem_of_app. split_and!; [by apply word_not| |by apply word_not].
    by intros ?%list_elem_of_singleton.
  - rewrite last_app. destruct Hu as [Hne Hu].
    destruct (to_string (expires_epoch_s kv.2)) as [|c r] eqn:E using rev_ind; [done|].
    rewrite last_app, last_snoc. intros [= ->]. apply Forall_app in Hu as [_ Hu].
    by apply Forall_cons in Hu as [? _].
Qed.

Lemma entry_line_ascii kv : entry_valid kv -> ascii (entry_line kv).
Proof.
  intros Hv. destruct (entry_line_words kv Hv) as [[_ Ha] [_ Hu]]. unfold entry_line, list_line.
  assert (Hw : forall s, Forall (fun c => word_char c = true) s -> ascii s).
  { intros s Hs. eapply Forall_impl; [exact Hs|]. unfold word_char, in_range. intros c Hc. cbv beta in *. lia. }
  apply Forall_app. split; [by apply Hw|]. apply Forall_app. split; [by repeat constructor|by apply Hw].
Qed.

Lemma printed_ascii ls : Forall ascii ls -> ascii (printed ls).
Proof.
  induction 1 as [|l ls Hl _ IH]; [constructor|]. unfold printed in *. cbn [map concat].
  apply Forall_app. split; [|done]. apply Forall_app. split; [done|]. repeat constructor; lia.
Qed.

Lemma bans_of_listing kvs :
  Forall entry_valid kvs ->
  filter_map parse_ban (lines (from_utf8_lossy (as_bytes (printed (map entry_line kvs))))) =
  map shown_ban kvs.
Proof.
  intros Hv. rewrite from_utf8_lossy_as_bytes.
  - rewrite lines_printed.
    + by apply (filter_map_map parse_ban entry_line shown_ban entry_valid _ parse_ban_entry_line).
    + apply List.Forall_map. eapply Forall_impl; [exact Hv|]. apply entry_line_plain.
  - apply ascii_text, printed_ascii, List.Forall_map. eapply Forall_impl; [exact Hv|]. apply entry_line_ascii.
Qed.

(** ** The output of [shield-config show --porcelain] *)

Definition porcelain_line (e : str * str * str) : str := e.1.1 ++ 9 :: e.1.2 ++ 9 :: e.2.

(** What the tool prints: text, no tab in source and key, and one line. *)
Definition porcelain_ok (e : str * str * str) : Prop :=
  is_text (porcelain_line e) /\ (9 ∉ e.1.1) /\ (9 ∉ e.1.2) /\ plain_line (porcelain_line e).

Lemma parse_entry_line e : porcelain_ok e -> parse_entry (porcelain_line e) = Some e.
Proof.
  destruct e as [[s k] v]. intros (_ & Hs & Hk & _). cbn [fst snd] in *.
  unfold parse_entry, porcelain_line. cbn [splitn fst snd].
  rewrite split_once_app by done. by rewrite split_once_app.
Qed.

Lemma entries_of_listing es :
  Forall porcelain_ok es ->
  filter_map parse_entry (lines (from_utf8_lossy (as_bytes (printed (map porcelain_line es))))) = es.
Proof.
  intros Hes. rewrite from_utf8_lossy_as_bytes.
  - rewrite lines_printed.
    + rewrite (filter_map_map parse_entry porcelain_line id porcelain_ok); [by rewrite List.map_id| |done].
      apply parse_entry_line.
    + apply List.Forall_map. eapply Forall_impl; [exact Hes|]. by intros e (_ & _ & _ & ?).
  - induction Hes as [|e es (He & _) _ IH]; [constructor|]. unfold printed in *. cbn [map concat].
    apply Forall_app. split; [|done]. apply Forall_app. split; [done|]. by repeat constructor.
Qed.

(** ** The window of a log *)

Lemma in_lossy_newline bs : 10 ∈ from_utf8_lossy bs -> 10 ∈ bs.
Proof.
  unfold from_utf8_lossy, utf8_decode. generalize 0%nat as k. induction bs as [|b bs IH]; intros k; [done|].
  cbn [utf8_decode_from]. destruct k as [|k]; [|intros H%IH; by right].
  cbn [map]. rewrite elem_of_cons. intros [H|H%IH]; [|by right].
  destruct (next_char b bs) as [[c|] k] eqn:En; [|done]. cbn [fst default from_option id] in H. subst c.
  apply next_char_low in En as [-> _]; [by left|done].
Qed.

Lemma newline_split (bs : bytes) : 10 ∈ bs -> exists a r, bs = a ++ 10 :: r /\ 10 ∉ a.
Proof.
  induction bs as [|b bs IH]; [by intros ?%not_elem_of_nil|]. intros H.
  destruct (decide (b = 10)) as [->|Hb]; [exists [], bs; split; [done|apply not_elem_of_nil]|].
  destruct IH as (a & r & -> & Ha); [by apply elem_of_cons in H as [?|?]|].
  exists (b :: a), r. split; [done|]. rewrite not_elem_of_cons. by split.
Qed.

(** Cutting a text after a newline cuts its lines. *)
Lemma lines_lossy_split a r :
  lines (from_utf8_lossy (a ++ 10 :: r)) =
  lines (from_utf8_lossy a ++ [10]) ++ lines (from_utf8_lossy r).
Proof. rewrite from_utf8_lossy_ascii_split by done. apply lines_split. Qed.

(** A window that starts inside a file loses its first line; the others are
    the last lines of the file. *)
Lemma window_lines pre buf :
  drop 1 (lines (from_utf8_lossy buf)) `suffix_of` lines (from_utf8_lossy (pre ++ buf)).
Proof.
  destruct (decide (10 ∈ buf)) as [Hin|Hn].
  - apply newline_split in Hin as (a & r & -> & Ha).
    rewrite (app_assoc pre a (10 :: r)), !lines_lossy_split.
    assert (H10 : 10 ∉ from_utf8_lossy a) by (by intros ?%in_lossy_newline).
    pose proof (lines_acc_one [] _ H10) as H1. fold (lines (from_utf8_lossy a ++ [10])) in H1.
    destruct (lines (from_utf8_lossy a ++ [10])) as [|l [|l2 ls]]; simpl in H1; try lia.
    simpl. eexists. reflexivity.
  - assert (H10 : 10 ∉ from_utf8_lossy buf) by (by intros ?%in_lossy_newline).
    pose proof (lines_acc_none [] _ H10) as H1. fold (lines (from_utf8_lossy buf)) in H1.
    destruct (lines (from_utf8_lossy buf)) as [|l [|l2 ls]]; simpl in *; try lia; apply suffix_nil.
Qed.

(** The files and the open handles: the file and the position of each. *)
Record fs := mk_fs { files : gmap (list Z) bytes; handles : gmap handle_id (list Z * Z) }.

Definition set_handle (f : handle_id) (h : list Z * Z) (s : fs) : fs :=
  {| files := files s; handles := <[f := h]> (handles s) |}.

(** [File::open], [seek(SeekFrom::End(off))] and [read_exact]. *)
Definition fs_spec (X : Type) (e : ui X) (s : fs) (x : X) (s' : fs) : Prop :=
  match e in ui T return T -> Prop with
  | FileOpen p => fun x =>
      match files s !! p with
      | Some _ => exists f, handles s !! f = None /\ s' = set_handle f (p, 0) s /\ x = Ok f
      | None => s' = s /\ x = Err NotFound
      end
  | FileSeekEnd f off => fun x =>
      match h ← handles s !! f; c ← files s !! h.1; Some (h, c) with
      | Some ((p, _), c) =>
        let at_ := Z.of_nat (length c) + off in
        if 0 <=? at_ then s' = set_handle f (p, at_) s /\ x = Ok at_
        else s' = s /\ exists e, x = Err (OtherError e)
      | None => s' = s /\ exists e, x = Err (OtherError e)
      end
  | FileReadExact f n => fun x =>
      match h ← handles s !! f; c ← files s !! h.1; Some (h, c) with
      | Some ((p, pos), c) =>
        let rest := drop (Z.to_nat pos) c in
        if n <=? Z.of_nat (length rest)
        then s' = set_handle f (p, pos + n) s /\ x = Ok (take (Z.to_nat n) rest)
        else exists e, x = Err (OtherError e)
      | None => s' = s /\ exists e, x = Err (OtherError e)
      end
  | _ => fun _ => s' = s
  end x.

Lemma wp_tail path n max_bytes s :
  0 <= max_bytes ->
  wp fs_spec eq (tail path n max_bytes)
    (fun r _ => match files s !! path with
                | None => r = Err NotFound
                | Some c => r = Ok (tail_lines n (Z.of_nat (length c))
                              (drop (length c - Z.to_nat (Z.min max_bytes (Z.of_nat (length c)))) c))
                end) s.
Proof.
  intros Hm. unfold tail. apply wp_try, wp_call. intros s1 <- x s2 Hx. simpl in Hx.
  destruct (files s !! path) as [c|] eqn:Ec; [|destruct Hx as [_ ->]; done].
  assert (Hc0 : 0 <= Z.of_nat (length c)) by lia.
  destruct Hx as (f & _ & -> & ->).
  apply wp_try, wp_call. intros s3 <- x s4 Hx. simpl in Hx.
  rewrite lookup_insert_eq in Hx. simpl in Hx. rewrite Ec in Hx. simpl in Hx.
  replace (0 <=? Z.of_nat (length c) + 0) with true in Hx by lia. destruct Hx as [-> ->].
  rewrite Z.add_0_r. set (len := Z.of_nat (length c)) in *. set (want := Z.min max_bytes len).
  assert (Hw : 0 <= want <= len) by lia.
  apply wp_try, wp_call. intros s5 <- x s6 Hx. simpl in Hx.
  rewrite lookup_insert_eq in Hx. simpl in Hx. rewrite Ec in Hx. simpl in Hx. fold len want in Hx.
  replace (0 <=? len + - want) with true in Hx by lia. destruct Hx as [-> ->].
  apply wp_try, wp_call. intros s7 <- x s8 Hx. simpl in Hx.
  rewrite lookup_insert_eq in Hx. simpl in Hx. rewrite Ec in Hx. simpl in Hx. fold len want in Hx.
  assert (Hpos : Z.to_nat (len + - want) = (length c - Z.to_nat want)%nat) by lia.
  rewrite Hpos in Hx. set (buf := drop (length c - Z.to_nat want) c) in *.
  assert (Hlen : length buf = Z.to_nat want) by (unfold buf; rewrite length_drop; lia).
  assert (Hle : want <= Z.of_nat (length buf)) by (rewrite Hlen, Z2Nat.id; unfold want, len; lia).
  apply Z.leb_le in Hle. rewrite Hle in Hx. destruct Hx as [_ ->].
  rewrite take_ge by lia. unfold tail_lines. cbv zeta.
  replace (Z.of_nat (length buf)) with want by (rewrite Hlen, Z2Nat.id; lia). done.
Qed.

Lemma tail_lines_window n c want :
  (want <= length c)%nat ->
  let ls := tail_lines n (Z.of_nat (length c)) (drop (length c - want) c) in
  ls `suffix_of` lines (from_utf8_lossy c) /\ (length ls <= n)%nat /\
  (want = length c -> ls = last_n n (lines (from_utf8_lossy c))).
Proof.
  intros Hw. unfold tail_lines. cbv zeta. rewrite length_drop.
  replace (length c - (length c - want))%nat with want by lia.
  set (buf := drop (length c - want) c).
  set (ls := if (Z.of_nat want <? Z.of_nat (length c)) && negb (is_nil (lines (from_utf8_lossy buf)))
             then drop 1 (lines (from_utf8_lossy buf)) else lines (from_utf8_lossy buf)).
  assert (Hsuf : ls `suffix_of` lines (from_utf8_lossy c)).
  { subst ls. destruct (Z.ltb_spec (Z.of_nat want) (Z.of_nat (length c))) as [Hlt|Hge]; cbn [andb].
    - pose proof (window_lines (take (length c - want) c) buf) as Hwin.
      unfold buf in Hwin at 2. rewrite take_drop in Hwin.
      destruct (lines (from_utf8_lossy buf)) as [|l r] eqn:E; [apply suffix_nil|exact Hwin].
    - assert (Hz : (length c - want = 0)%nat) by lia. subst buf. by rewrite Hz, drop_0. }
  split_and!.
  - etrans; [apply suffix_drop|exact Hsuf].
  - rewrite length_drop. lia.
  - intros ->. subst ls buf. rewrite Nat.sub_diag, drop_0, Z.ltb_irrefl. done.
Qed.

(** ** Recent bans *)

(** Every ban left out ends no later than every ban shown. *)
Lemma recent_bans_latest bans :
  exists rest, recent_bans bans ++ rest ≡ₚ bans /\
    length (recent_bans bans) = Nat.min 20 (length bans) /\
    Forall (fun shown => Forall (fun other => ban_key other <= ban_key shown) rest) (recent_bans bans).
Proof.
  set (s := reverse (sort_by_key ban_key bans)).
  assert (Hp : s ≡ₚ bans) by (unfold s; by rewrite reverse_Permutation, sort_by_key_perm).
  assert (Hs : forall a c, s = a ++ c -> Forall (fun x => Forall (fun y => ban_key y <= ban_key x) c) a).
  { intros a c Hac. apply (f_equal reverse) in Hac. unfold s in Hac.
    rewrite reverse_involutive, reverse_app in Hac.
    pose proof (sort_by_key_ordered ban_key bans) as Ho. rewrite Hac in Ho.
    rewrite !Forall_forall. intros x Hx. rewrite Forall_forall. intros y Hy.
    unfold ordered in Ho. apply StronglySorted_app in Ho as (Ho & _ & _).
    apply (Ho y x); by rewrite elem_of_reverse. }
  exists (drop 20 s). unfold recent_bans. fold s. split_and!.
  - by rewrite take_drop.
  - rewrite length_take. by rewrite (Permutation_length Hp).
  - apply Hs. by rewrite take_drop.
Qed.

(** ** Limits *)

Lemma starts_with_take n p s : starts_with p s = true -> (n <= length p)%nat -> take n s = take n p.
Proof.
  revert n s. induction p as [|a p IH]; intros n s H Hn; simpl in Hn.
  { assert (n = 0%nat) as -> by lia. by rewrite !take_0. }
  destruct s as [|c s]; [done|]. apply andb_true_iff in H as [Hac%Z.eqb_eq H]. subst c.
  destruct n as [|n]; [done|]. simpl. by rewrite (IH n s) by (done || lia).
Qed.

(** The first nine characters of a key decide the profile it belongs to. *)
Definition profile_tags : list (str * str) :=
  [(lit "SHIELD_HT", lit "http"); (lit "SHIELD_TC", lit "tcp"); (lit "SHIELD_WS", lit "strfry");
   (lit "SHIELD_ST", lit "strfry"); (lit "SHIELD_MA", lit "strfry"); (lit "SHIELD_HA", lit "strfry")].

Lemma relevant_tag key p : relevant_to key p = true -> (take 9 key, p) ∈ profile_tags.
Proof.
  assert (Htag : forall s q, starts_with s key = true -> (9 <= length s)%nat ->
    (take 9 s, q) ∈ profile_tags -> (take 9 key, q) ∈ profile_tags).
  { intros s q Hs Hl Hin. by rewrite (starts_with_take 9 s key). }
  unfold relevant_to, str_eqb.
  assert (Hdec : forall s q, bool_decide ((take 9 s, q) ∈ profile_tags) = true -> (take 9 s, q) ∈ profile_tags)
    by (intros s q; apply bool_decide_eq_true_1).
  repeat case_bool_decide; subst; try discriminate; rewrite ?orb_true_iff; intros Hs;
    repeat destruct Hs as [Hs|Hs]; try discriminate; subst;
    first [ eapply Htag; [exact Hs|vm_compute; lia|] | idtac ];
    apply Hdec; vm_compute; reflexivity.
Qed.

(** No setting is relevant to two different profiles. *)
Lemma relevant_disjoint key p q : relevant_to key p = true -> relevant_to key q = true -> p = q.
Proof.
  intros Hp%relevant_tag Hq%relevant_tag. revert Hp Hq. generalize (take 9 key) as t. intros t.
  assert (Hall : Forall (fun x => Forall (fun y => x.1 = y.1 -> x.2 = y.2) profile_tags) profile_tags).
  { apply (bool_decide_unpack _). vm_compute. exact I. }
  rewrite Forall_forall in Hall. intros Hp Hq. specialize (Hall _ Hp).
  rewrite Forall_forall in Hall. by apply (Hall _ Hq).
Qed.

Lemma service_limits cfg s k v src :
  s ∈ services cfg -> (k, v, src) ∈ limits s ->
  (src, k, v) ∈ entries cfg /\ is_limit k = true /\ relevant_to k (profile s) = true.
Proof.
  unfold services. intros (p & -> & _)%list_elem_of_fmap Hl. unfold service_of in *.
  destruct (keys_for p) as [[[k1 k2] k3] k4]. cbn [limits profile] in *.
  apply list_elem_of_fmap in Hl as ([[a b'] c] & Heq & Hin). simplify_eq/=.
  apply list_elem_of_In, filter_In in Hin as [Hin Hc]. apply andb_true_iff in Hc as [? ?].
  split; [by apply list_elem_of_In|done].
Qed.
