(* ===== verification/UiStats.v ===== *)
(** * The counters, from the guard to the dashboard

    The rows [guard_stats] makes of the lines [fips-guard stats] prints. *)
From S2P Require Import Prelude Prog Text Net Bpf Sys Guard GuardBans GuardStats.
From S2P Require Import Json JsonSpec Http HttpSpec Collect UiViews.

(** ** Lines of a label and a value *)

(** A value without white space around it. *)
Definition tight (v : str) : Prop :=
  exists c r x d, v = c :: r /\ v = x ++ [d] /\ is_whitespace c = false /\ is_whitespace d = false.

Lemma tight_app a mid z : tight a -> tight z -> tight (a ++ mid ++ z).
Proof.
  intros (c & r & _ & _ & -> & _ & Hc & _) (_ & _ & x & d & _ & -> & _ & Hd).
  exists c, (r ++ mid ++ x ++ [d]), ((c :: r) ++ mid ++ x), d. split; [done|].
  split; [by rewrite <- !app_assoc|done].
Qed.

Lemma tight_word v : word v -> tight v.
Proof.
  intros [Hne Hw]. assert (Hs : Forall (fun c => is_whitespace c = false) v)
    by (eapply Forall_impl; [exact Hw|]; apply word_char_not_space).
  destruct v as [|c r] eqn:E; [done|]. rewrite <- E in *.
  assert (Hx : exists x d, v = x ++ [d]).
  { clear -E. revert E. induction v as [|d x _] using rev_ind; [done|]. intros _. by exists x, d. }
  destruct Hx as (x & d & Hx). exists c, r, x, d. split; [done|]. split; [done|].
  split; [rewrite E in Hs; by apply Forall_cons in Hs as [? _]|].
  rewrite Hx in Hs. apply Forall_app in Hs as [_ Hs]. by apply Forall_cons in Hs as [? _].
Qed.

Lemma tight_number n : 0 <= n -> tight (to_string n).
Proof. intros Hn. apply tight_word, format_radix_word; lia. Qed.

Lemma trim_end_tight a v : tight v -> trim_end (a ++ v) = a ++ v.
Proof.
  intros (_ & _ & x & d & _ & -> & _ & Hd). rewrite app_assoc.
  pose proof (trim_end_ws (a ++ x) [] d) as H. rewrite app_nil_r in H. by apply H.
Qed.

Lemma trim_spaces_tight n v : tight v -> trim (repeat 32 n ++ v) = v.
Proof.
  intros Hv. unfold trim. rewrite trim_start_ws by (induction n; constructor; done).
  pose proof Hv as (c & r & _ & _ & E & _ & Hc & _). rewrite E. cbn [trim_start]. rewrite Hc, <- E.
  apply (trim_end_tight [] v Hv).
Qed.

Lemma starts_with_app p s t : starts_with p s = true -> starts_with p (s ++ t) = true.
Proof.
  revert s. induction p as [|a p IH]; intros s; [done|]. destruct s as [|b s]; [done|]. simpl.
  intros [-> ?]%andb_true_iff. by rewrite IH.
Qed.

(** Two spaces are found where the padding starts. *)
Lemma find_padding label r :
  find_sub [32; 32] (label ++ [32; 32]) = Some (length label) ->
  find_sub [32; 32] (label ++ 32 :: 32 :: r) = Some (length label).
Proof.
  induction label as [|c l IH]; [done|]. cbn [app find_sub length].
  destruct (starts_with [32; 32] (c :: l ++ [32; 32])) eqn:E; [done|].
  destruct (find_sub [32; 32] (l ++ [32; 32])) as [i|] eqn:Ei; [|done]. intros [= ->].
  rewrite IH by done.
  destruct (starts_with [32; 32] (c :: l ++ 32 :: 32 :: r)) eqn:E2; [|done].
  exfalso. cbn [starts_with] in E, E2. destruct l as [|c2 l]; cbn [app] in E, E2; congruence.
Qed.

Lemma parse_stat_row label n v :
  find_sub [32; 32] (label ++ [32; 32]) = Some (length label) -> trim label = label -> tight v ->
  parse_stat (label ++ repeat 32 (2 + n) ++ v) = Some (label, v).
Proof.
  intros Hf Ht Hv. unfold parse_stat.
  assert (Hte : trim_end (label ++ repeat 32 (2 + n) ++ v) = label ++ repeat 32 (2 + n) ++ v).
  { rewrite app_assoc. by apply trim_end_tight. }
  rewrite Hte. change (lit "  ") with [32; 32].
  change (repeat 32 (2 + n) ++ v) with (32 :: 32 :: repeat 32 n ++ v).
  rewrite (find_padding label (repeat 32 n ++ v)) by done.
  rewrite take_app_length, drop_app_length, Ht.
  by rewrite <- (trim_spaces_tight (2 + n) v Hv) at 2.
Qed.

(** With a single space there is nothing to split at. *)
Lemma find_no_space v : 32 ∉ v -> find_sub [32; 32] v = None.
Proof.
  induction v as [|c v IH]; [done|]. intros [Hc Hv]%not_elem_of_cons. cbn [find_sub].
  rewrite IH by done. cbn [starts_with]. by replace (32 =? c) with false by lia.
Qed.

Lemma parse_stat_single label v :
  find_sub [32; 32] (label ++ [32; 33]) = None -> word v -> parse_stat (label ++ 32 :: v) = None.
Proof.
  intros Hf Hw. pose proof (tight_word v Hw) as Hv. unfold parse_stat.
  change (label ++ 32 :: v) with (label ++ [32] ++ v). rewrite app_assoc, trim_end_tight by done.
  change (lit "  ") with [32; 32]. rewrite <- app_assoc. simpl app.
  enough (find_sub [32; 32] (label ++ 32 :: v) = None) as -> by done.
  assert (H32 : 32 ∉ v).
  { destruct Hw as [_ Hw]. intros Hin. rewrite Forall_forall in Hw. by specialize (Hw 32 Hin). }
  destruct v as [|c r]; [by destruct Hw|].
  revert Hf. induction label as [|a l IH]; cbn [app].
  - intros _. pose proof (find_no_space (c :: r) H32) as Hn. cbn [find_sub] in Hn |- *.
    destruct (starts_with [32; 32] (c :: r)); [done|]. destruct (find_sub [32; 32] r); [done|].
    cbn [starts_with]. apply not_elem_of_cons in H32 as [H _]. by replace (32 =? c) with false by lia.
  - cbn [find_sub]. destruct (starts_with [32; 32] (a :: l ++ [32; 33])) eqn:E; [done|].
    destruct (find_sub [32; 32] (l ++ [32; 33])); [done|]. intros _. rewrite IH by done.
    destruct (starts_with [32; 32] (a :: l ++ 32 :: c :: r)) eqn:E2; [|done].
    exfalso. cbn [starts_with] in E, E2. destruct l as [|c2 l]; cbn [app] in E, E2; congruence.
Qed.

(** ** The rows of the dashboard *)

Definition stat_rows (st : list (list Z)) (c : Bpf.Config) (active stale : Z) : list (str * str) :=
  [(lit "passed", to_string (counter st ST_PASSED));
   (lit "dropped (ban)", to_string (counter st ST_DROPPED_BAN));
   (lit "not ipv6", to_string (counter st ST_NOT_IPV6));
   (lit "parse failed", to_string (counter st ST_PARSE_FAILED));
   (lit "throttle", throttle_text c);
   (lit "bans", bans_text active stale)].

Definition config_u64 (c : Bpf.Config) : Prop := is_u64_spec (rate_pps c) /\ is_u64_spec (burst_pkts c).

Lemma counter_nonneg st slot : 0 <= counter st slot.
Proof.
  unfold counter. destruct (default _ _); simpl; [lia|]. unfold wrap64.
  by apply Z.mod_pos_bound.
Qed.

Lemma printable_app a z : printable a -> printable z -> printable (a ++ z).
Proof. intros. by apply Forall_app. Qed.

Lemma printable_number n : 0 <= n -> printable (to_string n).
Proof.
  intros Hn. destruct (format_radix_word 10 n) as [_ Hw]; [lia|done|].
  eapply Forall_impl; [exact Hw|]. unfold word_char, in_range. intros c Hc. cbv beta in *. lia.
Qed.

Lemma printable_check s : forallb (in_range 32 126) s = true -> printable s.
Proof. rewrite forallb_forall. intros H. apply Forall_forall. intros x Hx. by apply H, list_elem_of_In. Qed.

Lemma printable_plain l : printable l -> plain_line l.
Proof.
  intros Hl. split.
  - intros Hin. unfold printable in Hl. rewrite Forall_forall in Hl. by specialize (Hl 10 Hin).
  - intros Hin. apply last_Some_elem_of in Hin. unfold printable in Hl. rewrite Forall_forall in Hl.
    by specialize (Hl 13 Hin).
Qed.

Ltac printable_tac :=
  repeat match goal with
  | |- printable (_ ++ _) => apply printable_app
  | |- printable (to_string _) => apply printable_number; lia
  | |- printable (lit _) => apply printable_check; vm_compute; reflexivity
  end.

Section rows.
Context (st : list (list Z)) (c : Bpf.Config) (active stale : Z).
Context (Hc : config_u64 c) (Ha : 0 <= active) (Hs : 0 <= stale).

Lemma throttle_text_tight : tight (throttle_text c) /\ printable (throttle_text c).
Proof.
  destruct Hc as [[Hr _] [Hb _]]. unfold throttle_text. destruct (0 <? rate_pps c).
  - split; [apply tight_app; by apply tight_number|printable_tac].
  - split; [apply tight_word; split; [done|by repeat constructor]|printable_tac].
Qed.

Lemma bans_text_tight : tight (bans_text active stale) /\ printable (bans_text active stale).
Proof.
  unfold bans_text. split.
  - rewrite !app_assoc. rewrite <- (app_assoc (to_string active)), <- !app_assoc.
    change (lit " expired reclaimed)") with (lit " expired " ++ lit "reclaimed)").
    rewrite !app_assoc. rewrite <- !(app_assoc (to_string active)).
    apply tight_app; [by apply tight_number|].
    exists 114, (lit "eclaimed)"), (lit "reclaimed"), 41. by repeat split.
  - printable_tac.
Qed.

Lemma stat_lines_printable : Forall printable (stat_lines st c active stale).
Proof.
  destruct throttle_text_tight as [_ Ht], bans_text_tight as [_ Hb].
  unfold stat_lines.
  repeat match goal with |- Forall printable (_ :: _) => apply Forall_cons_2 end;
    [| | | | | | |apply Forall_nil_2].
  all: apply printable_app; [apply printable_check; vm_compute; reflexivity|].
  1-5: apply printable_number, counter_nonneg.
  - exact Ht.
  - exact Hb.
Qed.

Lemma row_shown full label n v l :
  full = label ++ repeat 32 (2 + n) ->
  find_sub [32; 32] (label ++ [32; 32]) = Some (length label) -> trim label = label -> tight v ->
  filter_map parse_stat ((full ++ v) :: l) = (label, v) :: filter_map parse_stat l.
Proof.
  intros -> Hf Ht Hv. cbn [filter_map]. rewrite <- app_assoc. by rewrite parse_stat_row.
Qed.

Lemma row_hidden full label v l :
  full = label ++ [32] -> find_sub [32; 32] (label ++ [32; 33]) = None -> word v ->
  filter_map parse_stat ((full ++ v) :: l) = filter_map parse_stat l.
Proof.
  intros -> Hf Hv. cbn [filter_map]. rewrite <- app_assoc. cbn [app]. by rewrite parse_stat_single.
Qed.

Ltac row_tac label n := rewrite (row_shown _ (lit label) n); [|vm_compute; reflexivity..|].

(** Every line gives its row, except the one whose value is a single space
    from its label. *)
Lemma rows_of_stats :
  filter_map parse_stat (lines (from_utf8_lossy (as_bytes (printed (stat_lines st c active stale))))) =
  stat_rows st c active stale.
Proof.
  pose proof stat_lines_printable as Hp.
  destruct throttle_text_tight as [Ht _], bans_text_tight as [Hb _].
  pose proof (fun slot => tight_number _ (counter_nonneg st slot)) as Hn.
  rewrite from_utf8_lossy_as_bytes, lines_printed.
  - unfold stat_lines, stat_rows.
    row_tac "passed" 11%nat; [|apply Hn].
    row_tac "dropped (ban)" 4%nat; [|apply Hn].
    rewrite (row_hidden _ (lit "dropped (throttle)"));
      [|vm_compute; reflexivity..|apply format_radix_word; [lia|apply counter_nonneg]].
    row_tac "not ipv6" 9%nat; [|apply Hn].
    row_tac "parse failed" 5%nat; [|apply Hn].
    row_tac "throttle" 9%nat; [|exact Ht].
    row_tac "bans" 13%nat; [|exact Hb]. done.
  - eapply Forall_impl; [exact Hp|]. apply printable_plain.
  - apply ascii_text, printed_ascii. eapply Forall_impl; [exact Hp|]. apply printable_ascii.
Qed.

End rows.
