(* ===== verification/UiTheorems.v ===== *)
(** * What the dashboard guarantees

    Text that cannot break out of its field, bounded and GET-only request
    reading, well-framed responses, read-only behaviour, and views that agree
    with what the other tools print. *)
From S2P Require Import Prelude Prog Text Net Bpf Sys Guard GuardBans GuardStats.
From S2P Require Import Json JsonSpec Http HttpSpec Collect Ui UiSafety UiSpec UiConnection UiViews UiStats.
Local Open Scope prog_scope.

(** ** JSON and HTTP *)

(** C37.  Any text put into a JSON string is read back as that text, whatever
    quotes, backslashes, newlines or control characters it contains, and the
    reader stops exactly after the closing quote: nothing in the text can end
    the string early or add to the document. *)
Theorem json_string_roundtrip s rest :
  is_text s -> no_digit rest ->
  read_json (push_str [] s) = Some (JStr s) /\
  read_value (length (push_str [] s)) (push_str [] s ++ rest) = Some (JStr s, rest).
Proof.
  intros Hs Hr. split; [by apply read_json_denotes, denotes_str|].
  destruct (denotes_str s Hs) as [_ Hd]. by apply Hd.
Qed.

Lemma json_string_roundtrip_witness :
  let s := quoted "','admin':true,'x':'" ++ [10; 1; 92] in
  read_json (push_str [] s) = Some (JStr s) /\
  read_value (length (push_str [] s)) (push_str [] s ++ lit "}") = Some (JStr s, lit "}").
Proof.
  intros s. apply (json_string_roundtrip s (lit "}")); [|reflexivity].
  apply text_check. vm_compute. reflexivity.
Defined.

(** C38.  A request in the form clients send it (percent-encoded path and
    query, header lines within the limits) is read as that path and that
    query, and exactly its bytes are consumed. *)
Theorem http_request_roundtrip p kvs headers rest e :
  is_text p -> Forall texts kvs -> Forall header_ok headers ->
  Z.of_nat (length (request_line p kvs)) + 2 <= MAX_REQUEST_LINE ->
  (length headers < MAX_HEADERS)%nat -> headers_size headers <= MAX_HEADER_BYTES ->
  read_request {| pending := encode_request p kvs headers ++ rest; ends := e |} =
  (Ok {| path := p; query := kvs |}, {| pending := rest; ends := e |}).
Proof. intros. by apply read_request_encoded. Qed.

Lemma http_request_roundtrip_witness :
  let kvs := [(lit "service", lit "a&b=c"); (lit "n", lit "50")] in
  read_request {| pending := encode_request (lit "/api/logs") kvs [lit "Host: [::1]:8088"] ++ [1]; ends := Failed |} =
  (Ok {| path := lit "/api/logs"; query := kvs |}, {| pending := [1]; ends := Failed |}).
Proof.
  intros kvs. apply (http_request_roundtrip (lit "/api/logs") kvs [lit "Host: [::1]:8088"] [1] Failed).
  - apply text_check. vm_compute. reflexivity.
  - repeat (apply Forall_cons; split); try constructor; apply text_check; vm_compute; reflexivity.
  - apply Forall_singleton. split; [apply text_check; vm_compute; reflexivity|].
    split; [apply (bool_decide_unpack (10 ∉ lit "Host: [::1]:8088")); vm_compute; exact I|].
    split; vm_compute; congruence.
  - vm_compute. congruence.
  - simpl. unfold MAX_HEADERS. lia.
  - vm_compute. congruence.
Defined.

(** Whatever a peer sends, and for as long as it sends, reading a request
    consumes at most two request lines' worth of bytes and the header cap
    (48 KiB), and always the bytes in order. *)
Theorem http_read_is_bounded st r st' :
  read_request st = (r, st') ->
  exists l, pending st = l ++ pending st' /\
    Z.of_nat (length l) <= 2 * MAX_REQUEST_LINE + MAX_HEADER_BYTES.
Proof. apply read_request_bound. Qed.

Lemma http_read_is_bounded_witness :
  let st := {| pending := replicate (Z.to_nat 9000) 65; ends := Closed |} in
  exists l, pending st = l ++ pending (read_request st).2 /\ Z.of_nat (length l) <= 49152.
Proof.
  intros st. apply (http_read_is_bounded st (read_request st).1 (read_request st).2).
  by destruct (read_request st).
Defined.

(** Only GET is served: a connection whose bytes do not start with "GET"
    is answered without the handler being called, by an error response. *)
Theorem http_only_get_is_served {E} st :
  (forall r, pending st <> lit "GET" ++ r) ->
  exists n msg, (n = 400 \/ n = 405 \/ n = 413) /\
    forall handler : Request -> prog E Response,
      serve_connection handler st = Ret (write_response (response_error n msg)).
Proof.
  intros Hg. destruct (read_request st) as [r st'] eqn:E1.
  destruct r as [req|e].
  { apply read_request_get in E1 as [r Hr]. by destruct (Hg r). }
  apply read_request_error in E1 as He. destruct He as (n & msg & Hn & _ & ->). exists n, msg. split; [done|]. intros handler.
  unfold serve_connection. by rewrite E1.
Qed.

Lemma http_only_get_is_served_witness :
  exists n msg, (n = 400 \/ n = 405 \/ n = 413) /\
    forall handler : Request -> prog ui Response,
      serve_connection handler {| pending := as_bytes (lit "POST / HTTP/1.1" ++ CRLF); ends := Closed |}
      = Ret (write_response (response_error n msg)).
Proof. apply http_only_get_is_served. intros r H. vm_compute in H. discriminate H. Defined.

(** Every response is framed: its bytes are the status line and the eight
    fixed header lines, each a printable line of its own, an empty line, and
    then exactly the body, whose size in bytes is the Content-Length. *)
Theorem http_response_framed resp :
  0 <= status resp -> printable (content_type resp) ->
  read_head 10 (write_response resp) = Some (head_lines resp, as_bytes (body resp)) /\
  head_lines resp !! 2%nat =
    Some (lit "Content-Length: " ++ to_string (Z.of_nat (length (as_bytes (body resp))))).
Proof.
  intros Hs Hc. split; [|done]. by apply response_framed.
Qed.

Lemma http_response_framed_witness :
  let resp := response_json (quoted "{'a':'x'}" ++ CRLF ++ CRLF) in
  read_head 10 (write_response resp) = Some (head_lines resp, as_bytes (body resp)) /\
  head_lines resp !! 2%nat =
    Some (lit "Content-Length: " ++ to_string (Z.of_nat (length (as_bytes (body resp))))).
Proof.
  intros resp. apply (http_response_framed resp); [vm_compute; congruence|].
  apply (bool_decide_unpack _). vm_compute. exact I.
Defined.

(** ** Requests *)

(** C39.  Whatever the tools and the file system answer, every response is
    either the static page or one JSON object, complete and well formed. *)
Theorem responses_are_json PAGE st req :
  Forall texts (query req) -> args_ok (args st) ->
  wp answering eq (handle PAGE st req) (fun r _ => r = response_html PAGE \/ json_object r) tt.
Proof. apply handle_object. Qed.

Definition logs_request : Request :=
  {| path := lit "/api/logs"; query := [(lit "service", lit "../../etc/passwd"); (lit "n", lit "5")] |}.

Lemma responses_are_json_witness :
  wp answering eq (handle small_page default_state logs_request)
    (fun r _ => r = response_html small_page \/ json_object r) tt.
Proof.
  apply (responses_are_json small_page default_state logs_request).
  - repeat (apply Forall_cons; split); try constructor; apply text_check; vm_compute; reflexivity.
  - split; [|split]; apply as_bytes_bytes, text_check; vm_compute; reflexivity.
Defined.

(** Every connection gets exactly one answer: whatever bytes the peer
    sends and whatever the tools and the file system answer, the server writes
    one framed response, whose body is the page or one JSON object. *)
Theorem every_connection_is_answered PAGE st s :
  are_bytes (pending s) -> args_ok (args st) ->
  wp answering eq (serve_connection (handle PAGE st) s)
    (fun bs _ => exists r, read_head 10 bs = Some (head_lines r, as_bytes (body r)) /\
                           (r = response_html PAGE \/ json_object r)) tt.
Proof.
  apply serve_connection_framed.
Qed.

Lemma every_connection_is_answered_witness :
  wp answering eq (serve_connection (handle small_page default_state)
      {| pending := 255 :: 0 :: as_bytes (lit "GET /api/bans"); ends := Failed |})
    (fun bs _ => exists r, read_head 10 bs = Some (head_lines r, as_bytes (body r)) /\
                           (r = response_html small_page \/ json_object r)) tt.
Proof.
  apply (every_connection_is_answered small_page default_state).
  - apply (bool_decide_unpack (Forall (fun b => is_byte b = true) _)). vm_compute. exact I.
  - split; [|split]; apply as_bytes_bytes, text_check; vm_compute; reflexivity.
Defined.

(** The dashboard is read-only: on any answers, handling a request only
    runs the query verbs of the three configured tools, reads the clock, opens
    and reads access or stream logs under the log directory, and tests whether
    the guard binary exists. *)
Theorem requests_are_read_only PAGE st req :
  safe (read_only (args st)) (handle PAGE st req).
Proof. apply safe_handle. Qed.

(** C33.  A request only opens logs of services that shield-config reported
    during that request: the name in the path is one of them, so no parameter
    can make the dashboard open another file. *)
Theorem logs_are_whitelisted PAGE st req names :
  wp recording eq (handle PAGE st req) (fun _ s' => whitelisted (args st) s')
    {| reported := names; opened := [] |}.
Proof.
  assert (Hn : forall s', opened s' = [] -> whitelisted (args st) s').
  { intros s' Ho. unfold whitelisted. by rewrite Ho. }
  assert (Hno : forall m : prog ui Response, safe opens_nothing m ->
    wp recording eq m (fun _ s' => whitelisted (args st) s') {| reported := names; opened := [] |}).
  { intros m Hm. eapply wp_mono; [|by apply wp_opens_nothing]. auto. }
  unfold handle. case_if; [by apply Hno|].
  case_if; [apply Hno, api_status_opens_nothing|].
  case_if; [apply Hno, api_bans_opens_nothing|].
  case_if; [by apply api_logs_whitelisted|by apply Hno].
Qed.

(** The calls of the whole server: the address is loopback unless the operator
    insisted, and requests are read-only. *)
Definition server_call (a : Args) (X : Type) (e : ui X) : Prop :=
  match e with
  | TcpBind addr => sock_loopback addr = true \/ insecure_bind a = true
  | Warn _ | Accept | SetReadTimeout _ | SetWriteTimeout _ | Receive | Send _ => True
  | _ => read_only a X e
  end.

Lemma safe_serve PAGE n st : safe (server_call (args st)) (serve PAGE n st).
Proof.
  induction n as [|n IH]; [done|]. cbn [serve]. apply safe_bind; [by split|]. intros _.
  apply safe_bind; [|done].
  eapply safe_weaken; [|apply safe_connection]. by intros X [] ?.
Qed.

(** Without --insecure-bind the server binds no address but a loopback
    one, however the address is written, and through any number of
    connections everything else it does is read-only. *)
Theorem binds_loopback_only PAGE n a : safe (server_call a) (main PAGE n a).
Proof.
  unfold main. destruct (parse_socket_addr (bind a)) as [addr|]; [|done]. cbv zeta.
  destruct (negb (sock_loopback addr) && negb (insecure_bind a)) eqn:E; [done|].
  assert (Hb : sock_loopback addr = true \/ insecure_bind a = true).
  { destruct (sock_loopback addr), (insecure_bind a); auto. }
  apply safe_bind; [by split|]. intros [u|e]; [|done].
  apply safe_bind; [by split|]. intros _. apply safe_bind; [case_if; by repeat split|].
  intros _. apply safe_bind; [apply (safe_serve PAGE n {| args := a |})|done].
Qed.

(** ** Views of other tools *)

(** The ban tool answers with the lines the guard's [list] prints. *)
Definition listing (kvs : list (Addr6 * BanVal)) (X : Type) (e : ui X) (s : unit) (x : X) (s' : unit) : Prop :=
  match e in ui T return T -> Prop with
  | RunCommand _ argv => fun x => argv = [lit "list"] -> exists o, x = Ok o /\ success o = true /\
      out_stdout o = as_bytes (printed (map entry_line kvs))
  | UnixTime => fun t => t <= U64_MAX
  | _ => fun _ => True
  end x.

(** The dashboard's bans are the guard's: when the ban tool prints the
    lines of [fips-guard list] for a set of entries, the body of /api/bans is
    the JSON of exactly these bans, in that order, with their addresses and
    deadlines and the time they have left. *)
Theorem bans_view_matches_guard st kvs :
  are_bytes (shield_ban (args st)) -> is_Some (to_str (shield_ban (args st))) ->
  Forall entry_valid kvs -> Z.of_nat (length kvs) <= U64_MAX ->
  wp (listing kvs) eq (api_bans st)
    (fun r _ => exists t, status r = 200 /\ read_json (body r) = Some (bans_value t (map shown_ban kvs))) tt.
Proof.
  intros Hb [bin Hbin] Hv Hl. unfold api_bans, now. apply wp_seq, wp_seq, wp_call.
  intros [] _ t [] Ht. simpl in Ht. cbn beta.
  set (tt0 := if t <? 0 then 0 else t).
  assert (Hu : is_u64_spec tt0).
  { unfold tt0, is_u64_spec, U64_MAX in *. case_if; bool_facts; lia. }
  apply wp_seq. unfold bans. rewrite Hbin. apply wp_try. unfold run. apply wp_seq, wp_call.
  intros [] _ x [] Hx. destruct (Hx eq_refl) as (o & -> & Ho & Hout).
  rewrite Ho, Hout. exists tt0. split; [done|].
  rewrite bans_of_listing by done. apply read_json_denotes, bans_denotes; [done| |by rewrite length_map].
  apply List.Forall_map. eapply Forall_impl; [exact Hv|]. intros kv [Ha Hk].
  split; [|done]. destruct (show_v6_word _ Ha) as [_ Hw]. apply ascii_text.
  eapply Forall_impl; [exact Hw|]. unfold word_char, in_range. intros c Hc. cbv beta in *. lia.
Qed.

Lemma bans_view_matches_guard_witness :
  let kvs := [(mk_addr6 [253; 0; 0; 0; 0; 0; 0; 0; 0; 0; 0; 0; 0; 0; 0; 1],
               {| expires_mono_ns := 0; expires_epoch_s := 0 |})] in
  wp (listing kvs) eq (api_bans default_state)
    (fun r _ => exists t, status r = 200 /\ read_json (body r) = Some (bans_value t (map shown_ban kvs))) tt.
Proof.
  intros kvs. apply (bans_view_matches_guard default_state kvs).
  - apply as_bytes_bytes, text_check. vm_compute. reflexivity.
  - eexists. vm_compute. reflexivity.
  - repeat constructor; vm_compute; intuition congruence.
  - vm_compute. congruence.
Defined.

(** The configuration the dashboard shows is the one shield-config
    printed: sources, keys and values are read back exactly, values with tabs
    included, and a lookup gives the first entry of the key. *)
Theorem config_view_is_exact es key :
  Forall porcelain_ok es ->
  let cfg := {| entries := filter_map parse_entry
                  (lines (from_utf8_lossy (as_bytes (printed (map porcelain_line es))))) |} in
  entries cfg = es /\ get cfg key = snd <$> List.find (fun e => str_eqb e.1.2 key) es.
Proof. intros Hes cfg. unfold get, entry_for. subst cfg. cbn [entries]. by rewrite entries_of_listing. Qed.

Lemma config_view_is_exact_witness :
  let es := [(lit "env", lit "SHIELD_PROFILES", lit "strfry,http"); (lit "preset:default/strong", lit "K", [118; 9; 119])] in
  let cfg := {| entries := filter_map parse_entry
                  (lines (from_utf8_lossy (as_bytes (printed (map porcelain_line es))))) |} in
  entries cfg = es /\ get cfg (lit "K") = Some [118; 9; 119].
Proof.
  intros es. apply (config_view_is_exact es (lit "K")).
  repeat (apply Forall_cons; split); try apply Forall_nil_2; apply (bool_decide_unpack _); vm_compute; exact I.
Defined.

(** [tail] on a log that does not change meanwhile returns at most [n]
    lines, which are the last lines of the file, whole: it never shows the
    fragment its window cuts.  When the file fits the window they are exactly
    its last [n] lines; a missing file is reported as missing. *)
Theorem tail_shows_last_lines path n max_bytes s :
  0 <= max_bytes ->
  wp fs_spec eq (tail path n max_bytes)
    (fun r _ => match files s !! path with
                | None => r = Err NotFound
                | Some c => exists ls, r = Ok ls /\ ls `suffix_of` lines (from_utf8_lossy c) /\
                    (length ls <= n)%nat /\
                    (Z.of_nat (length c) <= max_bytes -> ls = last_n n (lines (from_utf8_lossy c)))
                end) s.
Proof.
  intros Hm. eapply wp_mono; [|by apply wp_tail]. intros r s1.
  destruct (files s !! path) as [c|]; [|done]. intros ->. eexists. split; [done|].
  assert (Hw : (Z.to_nat (Z.min max_bytes (Z.of_nat (length c))) <= length c)%nat) by lia.
  destruct (tail_lines_window n c _ Hw) as (H1 & H2 & H3). split_and!; [done|done|].
  intros Hle. apply H3. lia.
Qed.

Lemma tail_shows_last_lines_witness :
  let c := as_bytes (lit "one" ++ [10] ++ lit "two" ++ [10] ++ lit "three" ++ [10]) in
  let s := {| files := {[lit "/l" := c]}; handles := ∅ |} in
  wp fs_spec eq (tail (lit "/l") 2 100)
    (fun r _ => match files s !! lit "/l" with
                | None => r = Err NotFound
                | Some c => exists ls, r = Ok ls /\ ls `suffix_of` lines (from_utf8_lossy c) /\
                    (length ls <= 2)%nat /\
                    (Z.of_nat (length c) <= 100 -> ls = last_n 2 (lines (from_utf8_lossy c)))
                end) s.
Proof. intros c s. apply (tail_shows_last_lines (lit "/l") 2 100 s). lia. Defined.

(** The recent bans of the status page are twenty (or all) of the bans,
    and every ban left out ends no later than every ban shown, a permanent one
    counting as the latest. *)
Theorem recent_bans_are_latest bans :
  exists rest, recent_bans bans ++ rest ≡ₚ bans /\
    length (recent_bans bans) = Nat.min 20 (length bans) /\
    Forall (fun shown => Forall (fun other => ban_key other <= ban_key shown) rest) (recent_bans bans).
Proof. apply recent_bans_latest. Qed.

(** Limits do not leak between services: every limit a service shows is
    an entry of the configuration whose key belongs to that service's profile,
    and a key belongs to one profile only. *)
Theorem limits_do_not_leak cfg s s' k v src v' src' :
  s ∈ services cfg -> s' ∈ services cfg ->
  (k, v, src) ∈ limits s -> (k, v', src') ∈ limits s' ->
  profile s = profile s' /\ (src, k, v) ∈ entries cfg /\ is_limit k = true.
Proof.
  intros Hs Hs' Hl Hl'. destruct (service_limits _ _ _ _ _ Hs Hl) as (Hin & Hlim & Hr).
  destruct (service_limits _ _ _ _ _ Hs' Hl') as (_ & _ & Hr').
  split; [by eapply relevant_disjoint|done].
Qed.

Lemma limits_do_not_leak_witness :
  let cfg := {| entries := [(lit "env", lit "SHIELD_PROFILES", lit "http");
                            (lit "env", lit "SHIELD_HTTP_CONN_RATE", lit "5r/s")] |} in
  let s := service_of cfg (lit "http") in
  profile s = profile s /\ (lit "env", lit "SHIELD_HTTP_CONN_RATE", lit "5r/s") ∈ entries cfg /\
  is_limit (lit "SHIELD_HTTP_CONN_RATE") = true.
Proof.
  intros cfg s.
  assert (Hs : s ∈ services cfg).
  { apply list_elem_of_fmap. exists (lit "http"). split; [done|].
    apply (bool_decide_unpack _). vm_compute. exact I. }
  assert (Hl : (lit "SHIELD_HTTP_CONN_RATE", lit "5r/s", lit "env") ∈ limits s).
  { apply (bool_decide_unpack _). vm_compute. exact I. }
  exact (limits_do_not_leak cfg s s _ _ _ _ _ Hs Hs Hl Hl).
Defined.

(** C40.  The counters of the status page are the guard's: when [fips-guard
    stats] runs on a loaded guard and nothing else does, it succeeds, and the
    dashboard reads from its output the sums of the counters, the configured
    throttle, and the number of bans in force at an instant during the command
    and of lapsed entries swept.  One row is lost: the packets dropped by the
    throttle are printed a single space after their label, where the reader
    looks for two. *)
Theorem stats_view_matches_counters dir st c mb bm s :
  counting dir st c mb bm s -> config_u64 c ->
  wpi (Guard.main (mk_cli dir Stats)) (fun code s' => code = SUCCESS /\
    exists t ls, mono_ns s <= t <= mono_ns s' /\ stdout s' = stdout s ++ ls /\
      filter_map parse_stat (lines (from_utf8_lossy (as_bytes (printed ls)))) =
      stat_rows st c (Z.of_nat (size (active_bans t bm))) (Z.of_nat (lapsed_count t bm))) s.
Proof.
  intros Hct Hc. cbn [Guard.main cmd pin_dir]. apply wp_seq.
  eapply wp_mono; [|by eapply cmd_stats_prints]. intros r s' (-> & t & Ht & Hout). split; [done|].
  exists t. eexists. split; [done|]. split; [exact Hout|]. apply rows_of_stats; [done|lia..].
Qed.

(** A loaded guard with two bans, one of them lapsed, and a throttle. *)
Definition counted_bans : gmap Addr6 BanVal :=
  {[mk_addr6 [253; 1] := {| expires_mono_ns := 0; expires_epoch_s := 0 |};
    mk_addr6 [253; 2] := {| expires_mono_ns := 5; expires_epoch_s := 1700000000 |}]}.
Definition counted_config : Bpf.Config := {| rate_pps := 100; burst_pkts := 200 |}.
Definition counted_stats : list (list Z) := [[7; 8]; [1; 0]; [3; 2]; [0; 0]; [4; 0]].
Definition counted_host : os :=
  {| mono_ns := 1000000000; epoch_s := 1700000000; dirs := {[lit "/pins"]};
     pins := list_to_map (zip (map (pin_path (lit "/pins")) all_kinds) (seq 0 5));
     maps := list_to_map (zip (seq 0 5)
       [MBans counted_bans; MThrottle ∅; MConfig counted_config; MStats counted_stats; MHealth 0]);
     ifaces := ∅; filters := ∅; stdout := []; stderr := [] |}.

Lemma stats_view_matches_counters_witness :
  wpi (Guard.main (mk_cli (lit "/pins") Stats)) (fun code s' => code = SUCCESS /\
    exists t ls, 1000000000 <= t <= mono_ns s' /\ stdout s' = [] ++ ls /\
      filter_map parse_stat (lines (from_utf8_lossy (as_bytes (printed ls)))) =
      stat_rows counted_stats counted_config
        (Z.of_nat (size (active_bans t counted_bans))) (Z.of_nat (lapsed_count t counted_bans))) counted_host.
Proof.
  apply (stats_view_matches_counters (lit "/pins") counted_stats counted_config 0%nat counted_bans counted_host).
  - split; [vm_compute; reflexivity..|]. split; [vm_compute; intuition congruence|].
    split; vm_compute; reflexivity.
  - split; vm_compute; intuition congruence.
Defined.

Example counted_rows :
  stat_rows counted_stats counted_config 1 1 =
  [(lit "passed", lit "15"); (lit "dropped (ban)", lit "1"); (lit "not ipv6", lit "0");
   (lit "parse failed", lit "4"); (lit "throttle", lit "100 pkt/s per source, burst 200");
   (lit "bans", lit "1/65536 active (1 expired reclaimed)")].
Proof. vm_compute. reflexivity. Qed.
