(* ===== verification/UiThreads.v ===== *)
(** * The threads of the dashboard: [serve] of [ui/src/http.rs]

    The listener accepts connections and gives each one a thread; the threads'
    calls interleave in any order.  A thread is what is left of its program
    ([Ui.connection]).  Every interleaving answers every connection at most
    once.  A call may never return: a tool that hangs, a file that is never
    read, and a wait on the peer whose timeout was not set; a scheduler that
    starves no thread makes every other connection be answered. *)
From S2P Require Import Prelude Prog Text Json JsonSpec Http HttpSpec Collect Ui UiSafety UiSpec UiConnection.
Local Open Scope prog_scope.

(** ** Threads *)

(** A call with its answer. *)
Record event := mk_event { ev_type : Type; ev_call : ui ev_type; ev_answer : ev_type }.

(** The thread [m] makes its next call, is answered, and becomes [m']. *)
Definition call_step {A} (m : prog ui A) (ev : event) (m' : prog ui A) : Prop :=
  match m with
  | Ret _ => False
  | Vis e k => exists x, answer_ok _ e x /\ ev = mk_event _ e x /\ m' = k x
  end.

(** [m] alone makes the calls [evs] and is left with [m']. *)
Fixpoint follows {A} (m : prog ui A) (evs : list event) (m' : prog ui A) : Prop :=
  match evs with
  | [] => m' = m
  | ev :: r => exists m1, call_step m ev m1 /\ follows m1 r m'
  end.

Definition returned {A} (m : prog ui A) : bool := match m with Ret _ => true | _ => false end.

(** At most [n] more calls, whatever the answers. *)
Fixpoint at_most {A} (n : nat) (m : prog ui A) {struct m} : Prop :=
  match m with
  | Ret _ => True
  | Vis e k => match n with O => False | S n' => forall x, at_most n' (k x) end
  end.

(** The bytes an event sends to its peer. *)
Definition sent_by (ev : event) : list bytes :=
  match ev_call ev with Send bs => [bs] | _ => [] end.

Definition sent (evs : list event) : list bytes := mjoin (map sent_by evs).

(** ** The server *)

(** One entry of [threads] per connection; [log] is the calls made so far,
    each with the thread that made it. *)
Record server := mk_server {
  threads : list (prog ui unit);
  log : list (nat * event);
}.

Definition listening : server := {| threads := []; log := [] |}.

Inductive label := Idle | Accepts | Calls (i : nat) (ev : event).

(** The calls of thread [i]. *)
Definition own (i : nat) (l : list (nat * event)) : list event :=
  map snd (List.filter (fun p => Nat.eqb p.1 i) l).

Section server.
Context (PAGE : str) (st : State).

(** [incoming] gives the next connection to a new thread; a failed accept is
    skipped; any thread may run.  That a call may not return is the absence of
    its step. *)
Inductive serve_step : server -> label -> server -> Prop :=
| step_idle srv : serve_step srv Idle srv
| step_accept srv :
    serve_step srv Accepts
      {| threads := threads srv ++ [connection PAGE st]; log := log srv |}
| step_call srv i m ev m' :
    threads srv !! i = Some m -> call_step m ev m' ->
    serve_step srv (Calls i ev)
      {| threads := <[i := m']> (threads srv); log := log srv ++ [(i, ev)] |}.

Inductive reachable : server -> Prop :=
| reach_start : reachable listening
| reach_step srv l srv' : reachable srv -> serve_step srv l srv' -> reachable srv'.

Definition finished (i : nat) (srv : server) : Prop := threads srv !! i = Some (Ret tt).

(** A call that depends on something outside the dashboard and its peer: a
    tool, which is waited for without limit, or a file. *)
Definition outside (X : Type) (e : ui X) : bool :=
  match e with
  | RunCommand _ _ | FileOpen _ | FileSeekEnd _ _ | FileReadExact _ _ | FileExists _ => true
  | _ => false
  end.

Definition bounds_reads (ev : event) : bool :=
  match ev_call ev with SetReadTimeout (Some d) => 0 <? d | _ => false end.
Definition bounds_writes (ev : event) : bool :=
  match ev_call ev with SetWriteTimeout (Some d) => 0 <? d | _ => false end.

(** A call that may never return, after the thread's calls [evs]: one outside,
    or a wait on the peer without a timeout. *)
Definition endless (evs : list event) (X : Type) (e : ui X) : bool :=
  outside X e ||
  match e with
  | Receive => negb (existsb bounds_reads evs)
  | Send _ => negb (existsb bounds_writes evs)
  | _ => false
  end.

(** The thread's next call, if it is not finished. *)
Definition next_is {A} (P : forall X, ui X -> bool) (m : prog ui A) : Prop :=
  match m with Ret _ => False | Vis e _ => P _ e = true end.

Definition next_call (P : forall X, ui X -> bool) (i : nat) (srv : server) : Prop :=
  match threads srv !! i with Some m => next_is P m | None => False end.

(** The thread is in a call that may never return. *)
Definition held (i : nat) (srv : server) : Prop := next_call (endless (own i (log srv))) i srv.

(** An infinite execution, and a scheduler under which no thread waits for
    ever, unless in a call that never returns: a thread that has not finished
    makes its next call. *)
Definition execution (σ : nat -> server) (labels : nat -> label) : Prop :=
  σ 0%nat = listening /\ forall n, serve_step (σ n) (labels n) (σ (S n)).

Definition fair (σ : nat -> server) (labels : nat -> label) : Prop :=
  forall i n, (i < length (threads (σ n)))%nat ->
    (exists m, (n <= m)%nat /\ (finished i (σ m) \/ exists ev, labels m = Calls i ev)) \/
    (held i (σ n) /\ forall m ev, (n <= m)%nat -> labels m <> Calls i ev).

End server.

(** ** Runs of one thread *)

Lemma follows_app {A} (m : prog ui A) evs evs' m' :
  follows m (evs ++ evs') m' <-> exists m1, follows m evs m1 /\ follows m1 evs' m'.
Proof.
  revert m. induction evs as [|ev evs IH]; intros m; simpl.
  - split; [by exists m|]. by intros (? & -> & ?).
  - split.
    + intros (m1 & Hs & (m2 & ? & ?)%IH). eauto.
    + intros (m2 & (m1 & Hs & ?) & ?). exists m1. split; [done|]. apply IH. eauto.
Qed.

Lemma follows_snoc {A} (m : prog ui A) evs m1 ev m2 :
  follows m evs m1 -> call_step m1 ev m2 -> follows m (evs ++ [ev]) m2.
Proof. intros Hf Hs. apply follows_app. exists m1. split; [done|]. by exists m2. Qed.

Lemma follows_safe {A} (P : forall X, ui X -> Prop) evs : forall (m m' : prog ui A),
  safe P m -> follows m evs m' -> Forall (fun ev => P (ev_type ev) (ev_call ev)) evs.
Proof.
  induction evs as [|ev evs IH]; intros m m' Hm; simpl; [constructor|].
  intros (m1 & Hs & Hf). destruct m as [a|X e k]; [done|].
  destruct Hs as (x & _ & -> & ->), Hm as [He Hk]. constructor; [done|]. by eapply IH.
Qed.

Lemma follows_wp {A} (Q : A -> unit -> Prop) evs : forall (m : prog ui A) a,
  wp answering eq m Q tt -> follows m evs (Ret a) -> Q a tt.
Proof.
  induction evs as [|ev evs IH]; intros m a Hm; simpl.
  - intros <-. done.
  - intros (m1 & Hs & Hf). destruct m as [b|X e k]; [done|].
    destruct Hs as (x & Hx & -> & ->). eapply IH; [|done]. by apply (Hm tt).
Qed.

Lemma follows_at_most {A} n evs : forall (m m' : prog ui A),
  at_most n m -> follows m evs m' -> (length evs <= n)%nat.
Proof.
  revert n. induction evs as [|ev evs IH]; intros n m m' Hm; simpl; [lia|].
  intros (m1 & Hs & Hf). destruct m as [b|X e k]; [done|].
  destruct Hs as (x & Hx & -> & ->). destruct n as [|n]; [done|].
  specialize (IH n _ _ (Hm x) Hf). lia.
Qed.

(** A run of a composition is inside its first part, or has left it. *)
Lemma follows_bind {A B} (k : A -> prog ui B) evs : forall m r,
  follows (Prog.bind m k) evs r ->
  (exists m', follows m evs m' /\ returned m' = false /\ r = Prog.bind m' k) \/
  (exists evs1 evs2 a, evs = evs1 ++ evs2 /\ follows m evs1 (Ret a) /\ follows (k a) evs2 r).
Proof.
  induction evs as [|ev evs IH]; intros m r; simpl.
  - intros ->. destruct m as [a|X e c]; [right|left]; [by exists [], [], a|by exists (Vis e c)].
  - intros (m1 & Hs & Hf). destruct m as [a|X e c].
    + right. exists [], (ev :: evs), a. simpl. eauto.
    + destruct Hs as (x & Hx & -> & ->).
      assert (Hstep : call_step (Vis e c) (mk_event _ e x) (c x)) by (by exists x).
      destruct (IH _ _ Hf) as [(m' & ? & ? & ->)|(evs1 & evs2 & a & -> & ? & ?)]; [left|right].
      * exists m'. simpl. eauto.
      * exists (mk_event _ e x :: evs1), evs2, a. simpl. eauto.
Qed.

Lemma at_most_mono {A} (m : prog ui A) : forall n n', (n <= n')%nat -> at_most n m -> at_most n' m.
Proof.
  induction m as [a|X e k IH]; intros n n' Hn; simpl; [done|].
  destruct n; [done|]. destruct n'; [lia|]. intros H x. eapply IH; [|done]. lia.
Qed.

Lemma at_most_bind {A B} (m : prog ui A) (k : A -> prog ui B) n n' :
  at_most n m -> (forall a, at_most n' (k a)) -> at_most (n + n') (Prog.bind m k).
Proof.
  revert n. induction m as [a|X e c IH]; intros n Hm Hk; simpl in *.
  - eapply at_most_mono; [|apply Hk]. lia.
  - destruct n as [|n]; [done|]. simpl. auto.
Qed.

Lemma at_most_try {A B F} (m : prog ui (res F A)) (k : A -> prog ui (res F B)) n n' :
  at_most n m -> (forall a, at_most n' (k a)) -> at_most (n + n') (try_bind m k).
Proof. intros Hm Hk. apply at_most_bind; [done|]. by intros [a|e]. Qed.

Lemma at_most_call {X} (e : ui X) : at_most 1 (call e).
Proof. by intros x. Qed.

(** ** The calls of a connection *)

(** A tool runs once, or not at all. *)
Lemma at_most_run bin argv : at_most 1 (run bin argv).
Proof. by intros x. Qed.

Lemma at_most_config st : at_most 1 (config st).
Proof.
  unfold config, load. destruct (to_str _); [|done]. apply (at_most_try _ _ 1 0); [|done].
  destruct (p ← env_file (args st); to_str p); apply at_most_run.
Qed.

Lemma at_most_bans bin : at_most 1 (bans bin).
Proof.
  unfold bans. destruct (to_str bin); [|done]. apply (at_most_try _ _ 1 0); [apply at_most_run|done].
Qed.

Lemma at_most_stats bin : at_most 1 (guard_stats bin).
Proof.
  unfold guard_stats. destruct (to_str bin); [|done].
  apply (at_most_try _ _ 1 0); [apply at_most_run|done].
Qed.

Lemma at_most_tail p n m : at_most 4 (tail p n m).
Proof. unfold tail. repeat (apply (at_most_try _ _ 1); [apply at_most_call|intros ?]). done. Qed.

Lemma at_most_status st : at_most 6 (api_status st).
Proof.
  unfold api_status. apply (at_most_bind _ _ 1 5); [apply at_most_config|]. intros c. cbv zeta.
  apply (at_most_bind _ _ 1 4); [apply at_most_bans|]. intros b.
  apply (at_most_bind _ _ 1 3); [by destruct b|]. intros o.
  apply (at_most_bind _ _ 1 2); [apply at_most_stats|]. intros g.
  apply (at_most_bind _ _ 1 1); [by destruct g|]. intros o'. by intros t.
Qed.

Lemma at_most_handle PAGE st req : at_most 6 (handle PAGE st req).
Proof.
  unfold handle. case_if; [done|]. case_if; [apply at_most_status|].
  case_if; [apply (at_most_bind _ _ 1 5); [by intros t|]; intros t;
            apply (at_most_bind _ _ 1 4); [apply at_most_bans|done]|].
  case_if; [|done]. unfold api_logs. destruct (param _ _) as [service|]; [|done]. cbv zeta.
  case_if; [done|]. apply (at_most_bind _ _ 1 5).
  { apply (at_most_bind _ _ 1 0); [apply at_most_config|done]. }
  intros known. case_if; [done|]. apply (at_most_bind _ _ 4 1); [apply at_most_tail|done].
Qed.

(** The most calls any connection makes: two timeouts, its request, a status
    page, and its answer. *)
Definition connection_calls : nat := 10.

Lemma at_most_connection PAGE st : at_most connection_calls (connection PAGE st).
Proof.
  unfold connection. apply (at_most_bind _ _ 1 9); [apply at_most_call|intros _].
  apply (at_most_bind _ _ 1 8); [apply at_most_call|intros _].
  apply (at_most_bind _ _ 1 7); [apply at_most_call|intros s].
  apply (at_most_bind _ _ 6 1); [|by intros bs x].
  apply (at_most_bind _ _ 6 0); [|done].
  destruct (read_request s).1; [apply at_most_handle|done].
Qed.

Lemma read_only_sends_nothing a evs :
  Forall (fun ev => read_only a (ev_type ev) (ev_call ev)) evs -> sent evs = [].
Proof.
  unfold sent. induction 1 as [|[X e x] evs He _ IH]; [done|]. simpl. rewrite IH, app_nil_r.
  by destruct e.
Qed.

(** A connection's thread sends its framed answer as its last call. *)
Lemma connection_run PAGE st evs m :
  args_ok (args st) -> follows (connection PAGE st) evs m ->
  (m = Ret tt /\ exists bs, sent evs = [bs] /\ framed_answer PAGE bs) \/
  (returned m = false /\ sent evs = []).
Proof.
  intros Ha Hf. unfold connection in Hf.
  destruct evs as [|ev evs]; [right; by rewrite Hf|]. destruct Hf as (m1 & (u1 & _ & -> & ->) & Hf).
  destruct evs as [|ev evs]; [right; by rewrite Hf|]. destruct Hf as (m1 & (u2 & _ & -> & ->) & Hf).
  destruct evs as [|ev evs]; [right; by rewrite Hf|]. destruct Hf as (m1 & (s & Hb & -> & ->) & Hf).
  change (sent (mk_event _ _ u1 :: mk_event _ _ u2 :: mk_event _ _ s :: evs)) with (sent evs).
  simpl in Hb. cbn [Prog.bind call] in Hf.
  apply follows_bind in Hf as [(m' & Hf & Hr & ->)|(evs1 & evs2 & bs & -> & Hf & Hs)].
  - right. split; [by destruct m'|].
    eapply read_only_sends_nothing, follows_safe; [apply safe_serve_connection|exact Hf].
  - assert (Hq : sent evs1 = []).
    { eapply read_only_sends_nothing, follows_safe; [apply safe_serve_connection|exact Hf]. }
    assert (Hw : framed_answer PAGE bs).
    { eapply (follows_wp (fun bs _ => framed_answer PAGE bs)); [by apply serve_connection_framed|exact Hf]. }
    assert (Happ : forall e, sent (evs1 ++ e) = sent e).
    { intros e. unfold sent in *. rewrite map_app, join_app, Hq. done. }
    rewrite Happ. destruct evs2 as [|ev evs2]; [right; by rewrite Hs|].
    destruct Hs as (m1 & (x & _ & -> & ->) & Hs). left.
    destruct evs2 as [|ev evs2]; [|by destruct Hs as (? & [] & _)].
    simpl in Hs. subst m. split; [done|]. by exists bs.
Qed.

(** *** The waits of a connection are bounded *)

(** Along every path, the peer is waited for only after its timeout was set
    ([r], [w]: it already is). *)
Fixpoint armed {A} (r w : bool) (m : prog ui A) : Prop :=
  match m with
  | Ret _ => True
  | @Vis _ _ X e k =>
    match e with Receive => r = true | Send _ => w = true | _ => True end /\
    forall x, armed (r || bounds_reads (mk_event X e x)) (w || bounds_writes (mk_event X e x)) (k x)
  end.

Lemma armed_mono {A} (m : prog ui A) : forall r w r' w',
  (r = true -> r' = true) -> (w = true -> w' = true) -> armed r w m -> armed r' w' m.
Proof.
  induction m as [a|X e k IH]; intros r w r' w' Hr Hw; simpl; [done|]. intros [He Hk].
  split; [destruct e; auto|]. intros x. eapply IH; [| |exact (Hk x)]; rewrite !orb_true_iff; naive_solver.
Qed.

Lemma armed_bind {A B} (m : prog ui A) (k : A -> prog ui B) : forall r w,
  armed r w m -> (forall a, armed r w (k a)) -> armed r w (Prog.bind m k).
Proof.
  induction m as [a|X e c IH]; intros r w Hm Hk; simpl in *; [done|]. destruct Hm as [He Hc].
  split; [done|]. intros x. apply IH; [done|]. intros a. eapply armed_mono; [| |apply Hk]; intros ->; done.
Qed.

Lemma armed_read_only {A} a (m : prog ui A) : forall r w, safe (read_only a) m -> armed r w m.
Proof.
  induction m as [b|X e k IH]; intros r w; simpl; [done|]. intros [He Hk]. split; [by destruct e|]. auto.
Qed.

Lemma armed_connection PAGE st : armed false false (connection PAGE st).
Proof.
  unfold connection. split; [done|]. intros u. split; [done|]. intros u'. split; [done|]. intros s.
  cbn [Prog.bind call]. change (armed true true (Prog.bind (serve_connection (handle PAGE st) s) (fun bs => Prog.bind (call (Send bs)) (fun _ => Ret tt)))).
  apply armed_bind; [eapply armed_read_only, safe_serve_connection|]. by intros bs.
Qed.

Lemma armed_follows {A} evs : forall (m m' : prog ui A) r w,
  armed r w m -> follows m evs m' -> armed (r || existsb bounds_reads evs) (w || existsb bounds_writes evs) m'.
Proof.
  induction evs as [|ev evs IH]; intros m m' r w Hm; simpl.
  - intros ->. by rewrite !orb_false_r.
  - intros (m1 & Hs & Hf). destruct m as [a|X e k]; [done|]. destruct Hs as (x & _ & -> & ->), Hm as [_ Hk].
    rewrite !orb_assoc. by eapply IH.
Qed.

(** ** Every interleaving *)

Lemma own_snoc i l j ev : own i (l ++ [(j, ev)]) = own i l ++ (if Nat.eqb j i then [ev] else []).
Proof. unfold own. rewrite List.filter_app, map_app. simpl. by case_if. Qed.

Section interleavings.
Context (PAGE : str) (st : State).

#[local] Abbreviation serve_step := (serve_step PAGE st).
#[local] Abbreviation reachable := (reachable PAGE st).
#[local] Abbreviation connection := (connection PAGE st).

(** Thread [i] is its connection's program after its own calls. *)
Definition isolated (srv : server) : Prop :=
  Forall (fun p => (p.1 < length (threads srv))%nat) (log srv) /\
  forall i m, threads srv !! i = Some m -> follows connection (own i (log srv)) m.

Lemma own_fresh srv : isolated srv -> own (length (threads srv)) (log srv) = [].
Proof.
  intros (Hlog & _). unfold own.
  induction Hlog as [|[j ev] l Hj _ IH]; [done|]. simpl in *.
  destruct (Nat.eqb_spec j (length (threads srv))); [lia|done].
Qed.

Lemma isolated_step srv l srv' : serve_step srv l srv' -> isolated srv -> isolated srv'.
Proof.
  intros Hs Hi. pose proof (own_fresh srv Hi) as Hf. destruct Hi as (Hlog & Hr).
  destruct Hs as [srv|srv|srv i m ev m' Hm Hc]; unfold isolated; simpl; [done| |].
  - split.
    + eapply Forall_impl; [exact Hlog|]. intros p Hp. simpl in Hp |- *. rewrite length_app. simpl. lia.
    + intros i m' [Hi|[Hi [Hz <-]%list_lookup_singleton_Some]]%lookup_app_Some; [by apply Hr|].
      assert (i = length (threads srv)) as -> by lia. by rewrite Hf.
  - assert (i < length (threads srv))%nat by (by eapply lookup_lt_Some). split.
    + rewrite length_insert. apply Forall_app. split; [done|]. by apply Forall_singleton.
    + intros j m1 Hj. rewrite own_snoc. destruct (Nat.eqb_spec i j) as [->|Hne].
      * rewrite list_lookup_insert_eq in Hj by done. injection Hj as <-.
        eapply follows_snoc; [by apply Hr|done].
      * rewrite app_nil_r. rewrite list_lookup_insert_ne in Hj by done. by apply Hr.
Qed.

Lemma reachable_isolated srv : reachable srv -> isolated srv.
Proof.
  induction 1 as [|srv l srv' _ IH Hs]; [|by eapply isolated_step].
  split; [constructor|]. intros i s Hs%lookup_lt_Some. simpl in Hs. lia.
Qed.

Lemma thread_lookup srv i :
  isolated srv -> (i < length (threads srv))%nat -> exists m,
    threads srv !! i = Some m /\ follows connection (own i (log srv)) m.
Proof. intros (_ & Hr) Hi. apply lookup_lt_is_Some in Hi as [m Hm]. exists m. auto. Qed.

(** A thread that may wait for ever waits for a tool or a file. *)
Lemma held_outside srv i : isolated srv -> held i srv -> next_call outside i srv.
Proof.
  intros (_ & Hr). unfold held, next_call. destruct (threads srv !! i) as [[a|X e k]|] eqn:E; [done| |done].
  pose proof (armed_follows _ _ _ _ _ (armed_connection PAGE st) (Hr i _ E)) as [Ha _].
  unfold endless. destruct e; simpl in *; try done; by rewrite Ha.
Qed.

(** Every call has an admissible answer: a thread is never stuck. *)
Lemma answer_exists X (e : ui X) : exists x, answer_ok X e x.
Proof.
  destruct e; simpl; try (by eexists); try (by exists (Err NotFound)).
  - exists (Err []). constructor.
  - by exists false.
  - by exists (Err []).
  - exists {| pending := []; ends := Closed |}. constructor.
  - by exists (Err []).
Qed.

Lemma call_step_exists {A} (m : prog ui A) :
  returned m = false -> exists ev m', call_step m ev m'.
Proof.
  destruct m as [a|X e k]; [done|]. intros _. destruct (answer_exists X e) as [x Hx].
  exists (mk_event _ e x), (k x). by exists x.
Qed.

Lemma returned_finished srv i m :
  threads srv !! i = Some m -> returned m = true -> finished i srv.
Proof. unfold finished. intros ->. by destruct m as [[]|]. Qed.

(** C35.  Every interleaving of the connections' threads answers each
    connection on its own: a thread that has finished sent its peer exactly one
    framed response, whose body is the page or one JSON object, and one that
    has not has sent nothing; every other call of a thread is one of the
    read-only calls of its own handler, or sets a timeout of its own socket or
    reads from it.  (Sent is what is handed to the socket: what becomes of the
    write is ignored, as in the source.) *)
Theorem interleaved_connections_answered srv i :
  args_ok (args st) -> reachable srv -> (i < length (threads srv))%nat ->
  Forall (fun ev => thread_call (args st) (ev_type ev) (ev_call ev)) (own i (log srv)) /\
  ((finished i srv /\ exists bs, sent (own i (log srv)) = [bs] /\ framed_answer PAGE bs) \/
   (~ finished i srv /\ sent (own i (log srv)) = [])).
Proof.
  intros Ha Hr Hi. destruct (thread_lookup srv i (reachable_isolated _ Hr) Hi) as (m & Hm & Hf).
  split; [by eapply follows_safe; [apply safe_connection|]|].
  destruct (connection_run PAGE st _ m Ha Hf) as [[-> Hbs]|[Hm' Hs]]; [by left|right].
  split; [|done]. unfold finished. rewrite Hm. intros [= ->]. done.
Qed.

(** C36.  Threads terminate: whatever the answers and the interleaving, no
    connection makes more than ten calls, and one that has not been answered
    can always make its next call, whatever the others do. *)
Theorem threads_terminate srv i :
  reachable srv -> (i < length (threads srv))%nat ->
  (length (own i (log srv)) <= connection_calls)%nat /\
  (finished i srv \/ exists ev srv', serve_step srv (Calls i ev) srv').
Proof.
  intros Hr Hi. destruct (thread_lookup srv i (reachable_isolated _ Hr) Hi) as (m & Hm & Hf).
  split; [eapply follows_at_most; [apply at_most_connection|exact Hf]|].
  destruct (returned m) eqn:E; [left; by eapply returned_finished|right].
  destruct (call_step_exists m E) as (ev & m' & Hc). do 2 eexists. by eapply step_call.
Qed.

(** What no step undoes. *)
Lemma step_monotone srv l srv' i :
  serve_step srv l srv' ->
  (length (threads srv) <= length (threads srv'))%nat /\
  (finished i srv -> finished i srv') /\
  own i (log srv') =
    own i (log srv) ++ match l with Calls j ev => if Nat.eqb j i then [ev] else [] | _ => [] end.
Proof.
  destruct 1 as [srv|srv|srv j m ev m' Hm Hc]; simpl; [by rewrite app_nil_r| |].
  - rewrite length_app, app_nil_r. split; [lia|]. split; [|done]. by apply lookup_app_l_Some.
  - rewrite length_insert, own_snoc. split; [done|]. split; [|by case_if].
    unfold finished. simpl. intros Hi. destruct (decide (j = i)) as [->|].
    + rewrite Hm in Hi. by simplify_eq.
    + by rewrite list_lookup_insert_ne.
Qed.

(** ** Fair executions *)

Context (σ : nat -> server) (labels : nat -> label).
Context (Hexec : execution PAGE st σ labels).

Lemma execution_reachable n : reachable (σ n).
Proof.
  destruct Hexec as [H0 Hs]. induction n as [|n IH]; [rewrite H0; constructor|].
  by econstructor.
Qed.

Lemma execution_monotone i n k :
  (length (threads (σ n)) <= length (threads (σ (k + n)%nat)))%nat /\
  (finished i (σ n) -> finished i (σ (k + n)%nat)) /\
  own i (log (σ n)) `prefix_of` own i (log (σ (k + n)%nat)).
Proof.
  induction k as [|k (IH1 & IH2 & IH3)]; [done|]. cbn [Nat.add].
  destruct (step_monotone _ _ _ i (proj2 Hexec (k + n)%nat)) as (H1 & H2 & H3).
  split; [lia|]. split; [auto|]. rewrite H3. by apply prefix_app_r.
Qed.

(** While thread [i] makes no call, it is where it was. *)
Lemma waits i n k :
  (i < length (threads (σ n)))%nat -> (forall m ev, (n <= m)%nat -> labels m <> Calls i ev) ->
  threads (σ (k + n)%nat) !! i = threads (σ n) !! i.
Proof.
  intros Hi Hno. induction k as [|k IH]; [done|]. rewrite <- IH. clear IH. cbn [Nat.add].
  pose proof (proj1 (execution_monotone i n k)) as Hlen. specialize (Hno (k + n)%nat).
  destruct (proj2 Hexec (k + n)%nat) as [srv|srv|srv j m ev m' Hm Hc]; simpl in *; [done| |].
  - by rewrite lookup_app_l by lia.
  - apply list_lookup_insert_ne. intros ->. by apply (Hno ev); [lia|].
Qed.

(** The thread is from [n] on in a call to a tool or a file that does not
    return. *)
Definition stuck_outside (i n : nat) : Prop :=
  forall m, (n <= m)%nat -> next_call outside i (σ m) /\ forall ev, labels m <> Calls i ev.

Lemma held_stuck i n :
  held i (σ n) -> (forall m ev, (n <= m)%nat -> labels m <> Calls i ev) -> stuck_outside i n.
Proof.
  intros Hh Hno m Hm. split; [|by intros ev; apply Hno].
  pose proof (held_outside _ _ (reachable_isolated _ (execution_reachable n)) Hh) as Ho. unfold next_call in *.
  assert (Hi : (i < length (threads (σ n)))%nat).
  { destruct (threads (σ n) !! i) eqn:E; [by eapply lookup_lt_Some|done]. }
  replace m with (m - n + n)%nat by lia. by rewrite waits.
Qed.

(** Under a fair scheduler a thread finishes, makes any number of calls, or is
    stuck. *)
Lemma fair_calls i n : fair σ labels -> (i < length (threads (σ n)))%nat -> forall c,
  exists k, finished i (σ (k + n)%nat) \/ (c <= length (own i (log (σ (k + n)%nat))))%nat \/
            stuck_outside i (k + n).
Proof.
  intros Hfair Hi c. induction c as [|c (k & [IH|[IH|IH]])]; [exists 0%nat; right; left; lia|eauto| |eauto].
  destruct (Hfair i (k + n)%nat) as [(m & Hm & Hf)|[Hh Hno]].
  { pose proof (execution_monotone i n k). lia. }
  2: { exists k. right. right. by apply held_stuck. }
  destruct Hf as [Hf|[ev Hl]]; [exists (m - n)%nat; left; by replace (m - n + n)%nat with m by lia|].
  exists (S (m - n))%nat. right. left. replace (S (m - n) + n)%nat with (S m) by lia.
  destruct (execution_monotone i (k + n) (m - (k + n))) as (_ & _ & Hg).
  apply prefix_length in Hg. replace (m - (k + n) + (k + n))%nat with m in Hg by lia.
  destruct (step_monotone _ _ _ i (proj2 Hexec m)) as (_ & _ & Hc).
  rewrite Hl, Nat.eqb_refl in Hc. rewrite Hc, length_app. simpl. lia.
Qed.

Lemma fair_finishes i n :
  fair σ labels -> (i < length (threads (σ n)))%nat ->
  exists k, finished i (σ (k + n)%nat) \/ stuck_outside i (k + n).
Proof.
  intros Hfair Hi. destruct (fair_calls i n Hfair Hi (S connection_calls)) as (k & [?|[Hc|?]]); [eauto| |eauto].
  pose proof (execution_monotone i n k) as (Hl & _).
  destruct (thread_lookup _ i (reachable_isolated _ (execution_reachable (k + n)%nat)))
    as (m & _ & Hf); [lia|].
  pose proof (follows_at_most _ _ _ _ (at_most_connection PAGE st) Hf). lia.
Qed.

(** The answer of a thread that has finished. *)
Lemma finished_sent i n :
  args_ok (args st) -> finished i (σ n) ->
  exists bs, sent (own i (log (σ n))) = [bs] /\ framed_answer PAGE bs.
Proof.
  intros Ha Hf.
  destruct (thread_lookup _ i (reachable_isolated _ (execution_reachable n)))
    as (p & Hp & Hr); [by eapply lookup_lt_Some|].
  unfold finished in Hf. simplify_eq.
  by destruct (connection_run PAGE st _ _ Ha Hr) as [[_ ?]|[? _]].
Qed.

(** It is the same at any later time. *)
Lemma finished_sent_stable i n k bs :
  args_ok (args st) -> finished i (σ n) -> sent (own i (log (σ n))) = [bs] ->
  sent (own i (log (σ (k + n)%nat))) = [bs].
Proof.
  intros Ha Hf Hs. destruct (execution_monotone i n k) as (_ & Hk & [evs He]).
  destruct (finished_sent i (k + n) Ha (Hk Hf)) as (bs' & Hs' & _).
  rewrite He in Hs' |- *. unfold sent in *. rewrite map_app, join_app, Hs in *.
  simpl in Hs'. by destruct (mjoin (map sent_by evs)).
Qed.

(** C34.  Liveness: under a scheduler that starves no thread, every accepted
    connection is answered, once and for good, whatever its peer sends or does
    not send or take, and however the threads interleave; the one exception is
    a connection whose own handler waits for a tool or a file that never
    answers, for which the server has no limit.  A call on the socket is taken
    to return only where the connection has set its timeout before: a peer that
    stays silent or does not read holds no thread for ever. *)
Theorem fair_server_answers i n :
  args_ok (args st) -> fair σ labels -> (i < length (threads (σ n)))%nat ->
  exists k,
    (exists bs, framed_answer PAGE bs /\ forall m, (k <= m)%nat -> sent (own i (log (σ m))) = [bs]) \/
    (forall m, (k <= m)%nat -> next_call outside i (σ m) /\ forall ev, labels m <> Calls i ev).
Proof.
  intros Ha Hfair Hi. destruct (fair_finishes i n Hfair Hi) as [k [Hk|Hk]]; exists (k + n)%nat; [left|by right].
  destruct (finished_sent i (k + n) Ha Hk) as (bs & Hs & Hb). exists bs.
  split; [done|]. intros m Hm. replace m with (m - (k + n) + (k + n))%nat by lia.
  by apply finished_sent_stable.
Qed.

End interleavings.

(** ** Two connections, interleaved *)

Definition garbage : stream := {| pending := [255; 0; 10]; ends := Closed |}.
Definition garbage_answer : bytes :=
  write_response (response_error 400 (lit "unreadable request")).

(** The calls of a connection that is sent garbage; its peer is gone when it is
    answered. *)
Definition garbage_events : list event :=
  [mk_event unit (SetReadTimeout (Some READ_TIMEOUT)) tt;
   mk_event unit (SetWriteTimeout (Some WRITE_TIMEOUT)) tt;
   mk_event stream Receive garbage;
   mk_event (res str unit) (Send garbage_answer) (Err (lit "broken pipe"))].

#[local] Abbreviation small_connection := (connection small_page default_state).

(** What is left of it after the first [n]. *)
Definition garbage_left (n : nat) : prog ui unit :=
  match n with
  | O => small_connection
  | 1%nat => call (SetWriteTimeout (Some WRITE_TIMEOUT)) ;;; s <- call Receive ;;
             bs <- serve_connection (handle small_page default_state) s ;; call (Send bs) ;;; Ret tt
  | 2%nat => s <- call Receive ;;
             bs <- serve_connection (handle small_page default_state) s ;; call (Send bs) ;;; Ret tt
  | 3%nat => bs <- serve_connection (handle small_page default_state) garbage ;; call (Send bs) ;;; Ret tt
  | _ => Ret tt
  end.

Lemma garbage_step n ev : garbage_events !! n = Some ev -> call_step (garbage_left n) ev (garbage_left (S n)).
Proof.
  destruct n as [|[|[|[|n]]]]; simpl; intros [= <-].
  - by exists tt.
  - by exists tt.
  - exists garbage. split; [|done]. repeat constructor; by vm_compute.
  - unfold serve_connection.
    replace (read_request garbage).1 with (Err (A:=Request) (response_error 400 (lit "unreadable request")))
      by (vm_compute; reflexivity).
    by exists (Err (lit "broken pipe")).
Defined.

(** An execution: two connections are accepted; the second one's thread is
    answered; the first one's has not begun. *)
Definition two_connections (n : nat) : server :=
  {| threads := [small_connection; garbage_left n];
     log := map (fun ev => (1%nat, ev)) (take n garbage_events) |}.

Lemma two_reachable n : (n <= 4)%nat -> reachable small_page default_state (two_connections n).
Proof.
  induction n as [|n IH]; intros Hn.
  - eapply (reach_step _ _ _ Accepts); [eapply (reach_step _ _ listening Accepts); [constructor|]|]; apply step_accept.
  - destruct (lookup_lt_is_Some_2 garbage_events n) as [ev Hev]; [simpl; lia|].
    eapply (reach_step _ _ (two_connections n) (Calls 1 ev)); [apply IH; lia|].
    pose proof (step_call small_page default_state (two_connections n) 1 (garbage_left n) ev (garbage_left (S n))
                  eq_refl (garbage_step n ev Hev)) as Hs.
    unfold two_connections at 2. rewrite (take_S_r _ _ _ Hev), map_app. exact Hs.
Defined.

Lemma interleaved_connections_answered_witness :
  Forall (fun ev => thread_call default_args (ev_type ev) (ev_call ev)) (own 1 (log (two_connections 4))) /\
  ((finished 1 (two_connections 4) /\ exists bs, sent (own 1 (log (two_connections 4))) = [bs] /\ framed_answer small_page bs) \/
   (~ finished 1 (two_connections 4) /\ sent (own 1 (log (two_connections 4))) = [])).
Proof.
  apply (interleaved_connections_answered small_page default_state (two_connections 4) 1);
    [exact default_args_ok|apply two_reachable; lia|simpl; lia].
Defined.

Lemma threads_terminate_witness :
  (length (own 0 (log (two_connections 4))) <= connection_calls)%nat /\
  (finished 0 (two_connections 4) \/
   exists ev srv', serve_step small_page default_state (two_connections 4) (Calls 0 ev) srv').
Proof.
  apply (threads_terminate small_page default_state (two_connections 4) 0); [apply two_reachable; lia|simpl; lia].
Defined.

(** A fair execution: a connection is accepted, answered, and nothing more
    happens. *)
Definition one_connection (n : nat) : server :=
  match n with
  | O => listening
  | S n => {| threads := [garbage_left n]; log := map (fun ev => (0%nat, ev)) (take n garbage_events) |}
  end.

Definition one_connection_labels (n : nat) : label :=
  match n with
  | O => Accepts
  | S n => match garbage_events !! n with Some ev => Calls 0 ev | None => Idle end
  end.

Lemma one_connection_execution :
  execution small_page default_state one_connection one_connection_labels.
Proof.
  split; [done|]. intros [|n]; [apply (step_accept _ _ listening)|]. cbn [one_connection_labels].
  destruct (garbage_events !! n) as [ev|] eqn:Hev.
  - pose proof (step_call small_page default_state (one_connection (S n)) 0 (garbage_left n) ev (garbage_left (S n))
                  eq_refl (garbage_step n ev Hev)) as Hs.
    unfold one_connection at 2. rewrite (take_S_r _ _ _ Hev), map_app. exact Hs.
  - assert (E : one_connection (S (S n)) = one_connection (S n)).
    { do 4 (destruct n as [|n]; [done|]). by destruct n. }
    rewrite E. constructor.
Defined.

Lemma one_connection_fair : fair one_connection one_connection_labels.
Proof.
  intros i n Hi. left. exists (5 + n)%nat. split; [lia|]. left. unfold finished.
  destruct i as [|i]; [done|]. destruct n as [|n]; simpl in Hi; lia.
Defined.

Lemma fair_server_answers_witness :
  exists k,
    (exists bs, framed_answer small_page bs /\
       forall m, (k <= m)%nat -> sent (own 0 (log (one_connection m))) = [bs]) \/
    (forall m, (k <= m)%nat -> next_call outside 0 (one_connection m) /\
       forall ev, one_connection_labels m <> Calls 0 ev).
Proof.
  apply (fair_server_answers small_page default_state one_connection one_connection_labels
           one_connection_execution 0 1); [exact default_args_ok|exact one_connection_fair|simpl; lia].
Defined.
