(* ===== verification/Build.v ===== *)
(** * The guard's build script: [guard/build.rs]

    Which compiler builds the classifier and with which arguments, as a
    program over the script's environment: variables, directories, child
    processes.  A panic is an error result with its message. *)
From S2P Require Import Prelude Prog Text.
Local Open Scope prog_scope.

Inductive build : Type -> Type :=
| EnvVar (name : str) : build (option str)            (* [env::var(..).ok()] *)
| EnvVarOs (name : str) : build (option bytes)
| ReadDir (dir : bytes) : build (option (list (option bytes)))   (* the entries' names *)
| IsDir (path : bytes) : build bool
| CopyFile (from to : bytes) : build (res str unit)
| Status (bin : str) (args : list bytes) : build (res str bool)  (* run; did it succeed *)
| Directive (line : str) : build unit.

Definition call {X} (e : build X) : prog build X := Vis e Ret.

(** ** Choosing a compiler *)

(** [clang-<N>]: the version, when the rest of the name is a number. *)
Definition clang_version (name : str) : option Z :=
  match strip_prefix (lit "clang-") name with
  | Some s => parse_u32 s
  | None => None
  end.

(** The entries of one directory; names that cannot be read are skipped. *)
Fixpoint scan_entries (versioned : list (Z * str)) (entries : list (option bytes)) : list (Z * str) :=
  match entries with
  | [] => versioned
  | None :: r => scan_entries versioned r
  | Some file_name :: r =>
    let name := from_utf8_lossy file_name in
    match clang_version name with
    | None => scan_entries versioned r
    | Some version =>
      scan_entries (if existsb (fun p => str_eqb p.2 name) versioned then versioned
                    else versioned ++ [(version, name)]) r
    end
  end.

Fixpoint scan_dirs (versioned : list (Z * str)) (dirs : list bytes) : prog build (list (Z * str)) :=
  match dirs with
  | [] => Ret versioned
  | dir :: r =>
    entries <- call (ReadDir dir) ;;
    match entries with
    | None => scan_dirs versioned r
    | Some es => scan_dirs (scan_entries versioned es) r
    end
  end.

(** [env::split_paths]. *)
Definition split_paths (path : bytes) : list bytes := split_char 58 path.

Definition clang_candidates : prog build (list str) :=
  path <- call (EnvVarOs (lit "PATH")) ;;
  versioned <- match path with
               | Some p => scan_dirs [] (split_paths p)
               | None => Ret []
               end ;;
  Ret (lit "clang" :: map snd (sort_by_key (fun v => - fst v) versioned)).

Fixpoint join_comma (l : list str) : str :=
  match l with
  | [] => []
  | [s] => s
  | s :: r => s ++ lit ", " ++ join_comma r
  end.

(** The candidates left to try; [all] are named when none works. *)
Fixpoint pick_from (all candidates : list str) : prog build (res str str) :=
  match candidates with
  | [] => Ret (Err (lit "no working clang found (tried: " ++ join_comma all
           ++ lit "). Install it (Debian/Ubuntu: apt install clang linux-libc-dev), or set CLANG to a versioned binary such as clang-19, or point SHIELD_GUARD_BPF_OBJ at a prebuilt object — see guard/README.md."))
  | candidate :: r =>
    s <- call (Status candidate [as_bytes (lit "--version")]) ;;
    if unwrap_or false s then Ret (Ok candidate) else pick_from all r
  end.

Definition pick_clang (candidates : list str) : prog build (res str str) :=
  pick_from candidates candidates.

(** ** Include directories *)

Definition triples (arch : str) : list str :=
  if str_eqb arch (lit "arm") then [lit "arm-linux-gnueabihf"; lit "arm-linux-gnueabi"]
  else if str_eqb arch (lit "x86_64") then [lit "x86_64-linux-gnu"]
  else if str_eqb arch (lit "aarch64") then [lit "aarch64-linux-gnu"]
  else if str_eqb arch (lit "riscv64") then [lit "riscv64-linux-gnu"]
  else if str_eqb arch (lit "powerpc64") then [lit "powerpc64le-linux-gnu"]
  else [].

Definition multiarch_include_dirs : prog build (list bytes) :=
  arch <- call (EnvVar (lit "CARGO_CFG_TARGET_ARCH")) ;;
  Ret (map (fun t => path_join (as_bytes (lit "/usr/include")) (as_bytes t))
         (triples (default [] arch))).

(** The [-I] arguments: the directories that exist, in order. *)
Fixpoint include_args (dirs : list bytes) : prog build (list bytes) :=
  match dirs with
  | [] => Ret []
  | d :: r =>
    present <- call (IsDir d) ;;
    rest <- include_args r ;;
    Ret (if present then (as_bytes (lit "-I") ++ as_bytes (from_utf8_lossy d)) :: rest else rest)
  end.

(** ** The script *)

Definition clang_args (out : bytes) : list bytes :=
  map as_bytes [lit "-O2"; lit "-g"; lit "-target"; lit "bpf"; lit "-Wall"; lit "-Werror"; lit "-c";
                lit "bpf/shield_guard.bpf.c"; lit "-o"] ++ [out].

Definition main : prog build (res str unit) :=
  call (Directive (lit "cargo:rerun-if-changed=bpf/shield_guard.bpf.c")) ;;;
  call (Directive (lit "cargo:rerun-if-env-changed=SHIELD_GUARD_BPF_OBJ")) ;;;
  call (Directive (lit "cargo:rerun-if-env-changed=CLANG")) ;;;
  out_dir <- call (EnvVar (lit "OUT_DIR")) ;;
  match out_dir with
  | None => Ret (Err (lit "OUT_DIR"))
  | Some out_dir =>
    let out := path_join (as_bytes out_dir) (as_bytes (lit "shield_guard.bpf.o")) in
    prebuilt <- call (EnvVar (lit "SHIELD_GUARD_BPF_OBJ")) ;;
    match prebuilt with
    | Some prebuilt =>
      r <- call (CopyFile (as_bytes prebuilt) out) ;;
      Ret (match r with
           | Ok _ => Ok tt
           | Err e => Err (lit "cannot copy SHIELD_GUARD_BPF_OBJ " ++ prebuilt ++ lit ": " ++ e)
           end)
    | None =>
      explicit <- call (EnvVar (lit "CLANG")) ;;
      candidates <- match explicit with
                    | Some c => Ret [c]
                    | None => clang_candidates
                    end ;;
      clang <-? pick_clang candidates ;;
      dirs <- multiarch_include_dirs ;;
      includes <- include_args dirs ;;
      s <- call (Status clang (clang_args out ++ includes)) ;;
      Ret (match s with
           | Err e => Err (lit "failed to run " ++ clang
                           ++ lit " (set CLANG or SHIELD_GUARD_BPF_OBJ): " ++ e)
           | Ok true => Ok tt
           | Ok false => Err (clang ++ lit " failed to build the BPF object. On Debian/Ubuntu this usually means the kernel headers are missing: apt install linux-libc-dev")
           end)
    end
  end.

(** ** Candidates *)

(** The versioned compilers of a list of directory listings. *)
Definition listed (ess : list (list (option bytes))) (v : Z) (name : str) : Prop :=
  exists es f, es ∈ ess /\ Some f ∈ es /\ name = from_utf8_lossy f /\ clang_version name = Some v.

(** What has been collected: each name once, with its version. *)
Definition collected (ess : list (list (option bytes))) (l : list (Z * str)) : Prop :=
  NoDup (map snd l) /\ forall v name, (v, name) ∈ l <-> listed ess v name.

Lemma listed_version ess v name : listed ess v name -> clang_version name = Some v.
Proof. by intros (? & ? & _ & _ & _ & ?). Qed.

Lemma scan_entries_inv es : forall l seen,
  NoDup (map snd l) -> (forall v name, (v, name) ∈ l -> clang_version name = Some v) ->
  (forall v name, (v, name) ∈ l <-> seen v name) ->
  NoDup (map snd (scan_entries l es)) /\
  forall v name, (v, name) ∈ scan_entries l es <->
    seen v name \/ exists f, Some f ∈ es /\ name = from_utf8_lossy f /\ clang_version name = Some v.
Proof.
  induction es as [|o es IH]; intros l seen Hnd Hver Hseen; cbn [scan_entries].
  { split; [done|]. intros v name. rewrite Hseen. split; [by left|].
    intros [?|(f & Hf & _)]; [done|by apply not_elem_of_nil in Hf]. }
  destruct o as [f|].
  2:{ destruct (IH l seen Hnd Hver Hseen) as [Hn Hi]. split; [done|]. intros v name. rewrite Hi.
      split; (intros [?|(f & Hf & ?)]; [by left|right; exists f]).
      - split; [by right|done].
      - apply elem_of_cons in Hf as [?|?]; done. }
  set (name0 := from_utf8_lossy f). cbv zeta.
  destruct (clang_version name0) as [v0|] eqn:Ev.
  2:{ destruct (IH l seen Hnd Hver Hseen) as [Hn Hi]. split; [done|]. intros v name. rewrite Hi.
      split; (intros [?|(f' & Hf & Hname & Hv)]; [by left|right; exists f']).
      - split; [by right|done].
      - apply elem_of_cons in Hf as [[= ->]|?]; [|done]. subst name. unfold name0 in Ev. congruence. }
  set (l' := if existsb _ l then l else l ++ [(v0, name0)]).
  assert (Hl' : NoDup (map snd l') /\ (forall v name, (v, name) ∈ l' -> clang_version name = Some v) /\
    (forall v name, (v, name) ∈ l' <-> seen v name \/ (v = v0 /\ name = name0))).
  { unfold l'. destruct (existsb _ l) eqn:Ex.
    - apply existsb_exists in Ex as ([v1 n1] & Hin & Heq). apply bool_decide_eq_true in Heq.
      cbn in Heq. subst n1. apply list_elem_of_In in Hin.
      split; [done|]. split; [done|]. intros v name. rewrite <- Hseen. split; [by left|].
      intros [?|[-> ->]]; [done|]. specialize (Hver _ _ Hin). congruence.
    - assert (Hnin : name0 ∉ map snd l).
      { intros ([v1 n1] & Heq & Hin)%list_elem_of_fmap. cbn in Heq. subst n1.
        rewrite <- not_true_iff_false in Ex. apply Ex, existsb_exists. exists (v1, name0).
        split; [by apply list_elem_of_In|]. by apply bool_decide_eq_true. }
      split; [|split].
      + rewrite map_app. apply NoDup_app. split; [done|]. split; [|apply NoDup_singleton].
        intros x Hx ->%list_elem_of_singleton. done.
      + intros v name [?|H]%elem_of_app; [auto|].
        apply list_elem_of_singleton in H. by simplify_eq.
      + intros v name. rewrite elem_of_app, Hseen, list_elem_of_singleton. intuition congruence. }
  destruct Hl' as (Hnd' & Hver' & Hseen').
  destruct (IH l' (fun v name => seen v name \/ (v = v0 /\ name = name0)) Hnd' Hver' Hseen') as [Hn Hi].
  split; [done|]. intros v name. rewrite Hi. split.
  - intros [[?|[-> ->]]|(f' & Hf & ?)]; [by left| |].
    + right. exists f. split; [by left|done].
    + right. exists f'. split; [by right|done].
  - intros [?|(f' & Hf & Hname & Hv)]; [by left; left|].
    apply elem_of_cons in Hf as [[= ->]|Hf]; [|right; by exists f'].
    left. right. subst name. unfold name0 in *. split; [congruence|done].
Qed.

(** ** The compiler that is chosen *)

(** An environment with this PATH, these directories and these working
    compilers; everything else may answer anything. *)
Section environment.
Context (path : bytes) (dirs : gmap (list Z) (list (option (list Z)))) (works : list Z -> bool).

Definition build_env (X : Type) (e : build X) (s : unit) (x : X) (s' : unit) : Prop :=
  match e in build T return T -> Prop with
  | EnvVarOs name => fun x => name = lit "PATH" -> x = Some path
  | ReadDir d => fun x => x = dirs !! d
  | Status bin argv => fun x => argv = [as_bytes (lit "--version")] -> unwrap_or false x = works bin
  | _ => fun _ => True
  end x.

(** The listings of the directories that can be read, in PATH order. *)
Definition listings (ds : list bytes) : list (list (option bytes)) :=
  omap (fun d => dirs !! d) ds.

Definition on_path (v : Z) (name : str) : Prop := listed (listings (split_paths path)) v name.

Lemma wp_scan_dirs ds : forall l seen (Q : list (Z * str) -> unit -> Prop),
  collected seen l ->
  (forall l', collected (seen ++ listings ds) l' -> Q l' tt) ->
  wp build_env eq (scan_dirs l ds) Q tt.
Proof.
  induction ds as [|d ds IH]; intros l seen Q Hl HQ; cbn [scan_dirs].
  { apply HQ. by rewrite app_nil_r. }
  apply wp_seq, wp_call. intros [] _ x [] Hx. simpl in Hx. subst x.
  unfold listings in HQ. cbn [omap list_omap] in HQ. fold (listings ds) in HQ.
  destruct (dirs !! d) as [es|]; [|by apply (IH l seen)].
  destruct Hl as [Hnd Hmem].
  destruct (scan_entries_inv es l (listed seen) Hnd) as [Hn Hi].
  { intros v name Hin. apply Hmem in Hin. by eapply listed_version. }
  { done. }
  apply (IH _ (seen ++ [es])).
  - split; [done|]. intros v name. rewrite Hi. unfold listed. split.
    + intros [(es' & f & Hes & ?)|(f & ?)].
      * exists es', f. split; [apply elem_of_app; by left|done].
      * exists es, f. split; [apply elem_of_app; right; by apply list_elem_of_singleton|done].
    + intros (es' & f & [Hes| ->%list_elem_of_singleton]%elem_of_app & ?); [left; by exists es', f|right; by exists f].
  - intros l' Hl'. apply HQ. by rewrite <- app_assoc in Hl'.
Qed.

Lemma wp_clang_candidates (Q : list str -> unit -> Prop) :
  (forall l, NoDup (map snd l) -> ordered (fun v => - fst v) l ->
     (forall v name, (v, name) ∈ l <-> on_path v name) -> Q (lit "clang" :: map snd l) tt) ->
  wp build_env eq clang_candidates Q tt.
Proof.
  intros HQ. unfold clang_candidates. apply wp_seq, wp_call. intros [] _ x [] Hx.
  rewrite (Hx eq_refl). apply wp_seq.
  apply (wp_scan_dirs _ [] []).
  - split; [constructor|]. intros v name. split; [by intros ?%not_elem_of_nil|].
    by intros (es & f & Hin%not_elem_of_nil & _).
  - intros l [Hnd Hmem]. apply HQ.
    + pose proof (sort_by_key_perm (fun v : Z * list Z => - v.1) l) as Hp. by rewrite Hp.
    + apply sort_by_key_ordered.
    + intros v name. rewrite elem_of_sort_by_key. apply Hmem.
Qed.

Lemma wp_pick_from all cs (Q : res str str -> unit -> Prop) :
  (forall pre c post, cs = pre ++ c :: post -> works c = true ->
     Forall (fun c => works c = false) pre -> Q (Ok c) tt) ->
  (forall e, Forall (fun c => works c = false) cs -> Q (Err e) tt) ->
  wp build_env eq (pick_from all cs) Q tt.
Proof.
  revert Q. induction cs as [|c cs IH]; intros Q HO HE; [by apply HE|]. cbn [pick_from].
  apply wp_seq, wp_call. intros [] _ x [] Hx. rewrite (Hx eq_refl).
  destruct (works c) eqn:Ew; [by apply (HO [] c cs)|].
  apply IH.
  - intros pre c' post -> Hw Hpre. apply (HO (c :: pre) c' post); [done|done|by constructor].
  - intros e He. apply HE. by constructor.
Qed.

End environment.

(** The choice of [main] when no compiler is named. *)
Definition choose_clang : prog build (res str str) :=
  candidates <- clang_candidates ;; pick_clang candidates.

Lemma choose_clang_best path dirs works :
  wp (build_env path dirs works) eq choose_clang
    (fun r _ => match r with
       | Ok c =>
         works c = true /\
         (c = lit "clang" \/
          works (lit "clang") = false /\ exists v, on_path path dirs v c /\
            forall v' c', on_path path dirs v' c' -> works c' = true -> v' <= v)
       | Err _ => works (lit "clang") = false /\
                  forall v c, on_path path dirs v c -> works c = false
       end) tt.
Proof.
  unfold choose_clang. apply wp_seq, wp_clang_candidates. intros l Hnd Hord Hmem.
  apply wp_pick_from.
  - intros [|c0 pre] c post Heq Hw Hpre; injection Heq as <- Heq; [by split; [|left]|].
    apply Forall_cons in Hpre as [Hc0 Hpre]. split; [done|]. right. split; [done|].
    apply map_eq_app in Heq as (l1 & l2 & -> & <- & Heq).
    apply map_eq_cons in Heq as ([v c'] & l3 & -> & <- & Hpost). cbn [snd] in *.
    exists v. split; [apply Hmem; apply elem_of_app; right; by left|].
    intros v' c2 Hon Hw2. apply Hmem in Hon as [Hin|[Heq|Hin]%elem_of_cons]%elem_of_app.
    + exfalso. rewrite Forall_forall in Hpre. rewrite (Hpre c2) in Hw2; [done|].
      apply list_elem_of_fmap. by exists (v', c2).
    + simplify_eq. lia.
    + unfold ordered in Hord. apply StronglySorted_app in Hord as (_ & _ & Hord).
      apply StronglySorted_cons in Hord as [Hall _]. rewrite Forall_forall in Hall.
      specialize (Hall _ Hin). cbn in Hall. lia.
  - intros e He. apply Forall_cons in He as [Hc0 He]. split; [done|].
    intros v c Hon%Hmem. rewrite Forall_forall in He. apply He, list_elem_of_fmap. by exists (v, c).
Qed.

(** ** An explicit compiler *)

(** An environment in which CLANG is [c], recording the programs that run. *)
Definition explicit_env (c : str) (X : Type) (e : build X) (ran : list str) (x : X) (ran' : list str) : Prop :=
  match e in build T return T -> Prop with
  | EnvVar name => fun x => ran' = ran /\ (name = lit "CLANG" -> x = Some c)
  | Status bin _ => fun _ => ran' = ran ++ [bin]
  | _ => fun _ => ran' = ran
  end x.

Lemma wp_explicit_include c dirs ran (Q : list bytes -> list str -> Prop) :
  (forall l, Q l ran) -> wp (explicit_env c) eq (include_args dirs) Q ran.
Proof.
  revert Q. induction dirs as [|d dirs IH]; intros Q HQ; cbn [include_args]; [by apply HQ|].
  apply wp_seq, wp_call. intros s1 <- x s2 Hx. simpl in Hx. subst s2.
  apply wp_seq, IH. intros l. by apply HQ.
Qed.

Lemma main_runs_explicit c :
  wp (explicit_env c) eq main (fun _ ran => Forall (fun bin => bin = c) ran) [].
Proof.
  unfold main. do 3 (apply wp_seq, wp_call; intros s1 <- [] s2 Hx; simpl in Hx; subst s2).
  apply wp_seq, wp_call. intros s1 <- od s2 [-> _]. destruct od as [od|]; [|constructor]. cbv zeta.
  apply wp_seq, wp_call. intros s1 <- pre s2 [-> _]. destruct pre as [pre|].
  { apply wp_seq, wp_call. intros s1 <- r s2 ->. constructor. }
  apply wp_seq, wp_call. intros s1 <- cl s2 [-> Hcl]. rewrite (Hcl eq_refl).
  apply wp_seq. change (wp (explicit_env c) eq
    (clang <-? pick_clang [c] ;; dirs <- multiarch_include_dirs ;; includes <- include_args dirs ;;
     s <- call (Status clang (clang_args (path_join (as_bytes od) (as_bytes (lit "shield_guard.bpf.o"))) ++ includes)) ;;
     Ret (match s with
          | Err e => Err (lit "failed to run " ++ clang ++ lit " (set CLANG or SHIELD_GUARD_BPF_OBJ): " ++ e)
          | Ok true => Ok tt
          | Ok false => Err (clang ++ lit " failed to build the BPF object. On Debian/Ubuntu this usually means the kernel headers are missing: apt install linux-libc-dev")
          end)) (fun _ ran => Forall (fun bin => bin = c) ran) []).
  apply wp_try. unfold pick_clang. cbn [pick_from].
  apply wp_seq, wp_call. intros s1 <- st s2 Hst. simpl in Hst. subst s2.
  destruct (unwrap_or false st); [|by repeat constructor].
  apply wp_seq. unfold multiarch_include_dirs. apply wp_seq, wp_call. intros s1 <- a s2 [-> _].
  apply wp_seq, wp_explicit_include. intros l.
  apply wp_seq, wp_call. intros s1 <- r s2 ->. by repeat constructor.
Qed.

(** When no compiler is named, the build uses plain clang if it runs;
    otherwise the working clang-<N> of the highest version on PATH; it gives up
    only when neither clang nor any clang-<N> on PATH runs. *)
Theorem build_picks_best_clang path dirs works :
  wp (build_env path dirs works) eq choose_clang
    (fun r _ => match r with
       | Ok c =>
         works c = true /\
         (c = lit "clang" \/
          works (lit "clang") = false /\ exists v, on_path path dirs v c /\
            forall v' c', on_path path dirs v' c' -> works c' = true -> v' <= v)
       | Err _ => works (lit "clang") = false /\
                  forall v c, on_path path dirs v c -> works c = false
       end) tt.
Proof. apply choose_clang_best. Qed.

(** A compiler named by CLANG is used verbatim: the build never runs any
    other program, not even when that compiler does not work. *)
Theorem explicit_clang_is_verbatim c :
  wp (explicit_env c) eq main (fun _ ran => Forall (fun bin => bin = c) ran) [].
Proof. apply main_runs_explicit. Qed.
