(* ===== verification/Js.v ===== *)
(** * The JavaScript the nginx policy uses

    What [src/core/njs] takes from its language: numbers (IEEE doubles, with
    arithmetic by [SpecFloat]), [parseFloat], [parseInt], white space and
    splitting, the values [JSON.parse] yields and the strings
    [JSON.stringify] prints.  A string is the list of its characters, a
    [Buffer] the list of its bytes.  What engines may do differently
    ([JSON.parse] on texts at the limits, the length of a string outside the
    BMP, the digits of a fraction) is the class [JsEngine]. *)
From Stdlib Require Import SpecFloat.
From S2P Require Import Prelude Text Json JsonSpec.

(** ** Numbers *)

Abbreviation number := spec_float.

Definition prec : Z := 53.
Definition emax : Z := 1024.

Definition nan : number := S754_nan.
Definition infinity (neg : bool) : number := S754_infinity neg.
Definition two53 : Z := 9007199254740992.

(** An integer that a double holds exactly, else the nearest double. *)
Definition of_Z (z : Z) : number :=
  match z with
  | Z0 => S754_zero false
  | Zpos p => if z <=? two53 then S754_finite false p 0 else binary_normalize prec emax z 0 false
  | Zneg p => if - two53 <=? z then S754_finite true p 0 else binary_normalize prec emax z 0 false
  end.

Definition add : number -> number -> number := SFadd prec emax.
Definition sub : number -> number -> number := SFsub prec emax.
Definition mul : number -> number -> number := SFmul prec emax.
Definition div : number -> number -> number := SFdiv prec emax.

Definition isNaN (n : number) : bool := match n with S754_nan => true | _ => false end.

(** [m * 2^e] for a number that is neither infinite nor NaN. *)
Definition dyadic (n : number) : Z * Z :=
  match n with
  | S754_finite s m e => ((if s then Zneg m else Zpos m), e)
  | _ => (0, 0)
  end.

(** Exact comparison; [None] when one of them is NaN. *)
Definition compare (a b : number) : option comparison :=
  match a, b with
  | S754_nan, _ | _, S754_nan => None
  | S754_infinity s, S754_infinity t =>
    Some (if Bool.eqb s t then Eq else if s then Lt else Gt)
  | S754_infinity s, _ => Some (if s then Lt else Gt)
  | _, S754_infinity t => Some (if t then Gt else Lt)
  | _, _ =>
    let '(m, e) := dyadic a in
    let '(n, f) := dyadic b in
    let g := Z.min e f in
    Some (Z.compare (Z.shiftl m (e - g)) (Z.shiftl n (f - g)))
  end.

Definition lt (a b : number) : bool := match compare a b with Some Lt => true | _ => false end.
Definition gt (a b : number) : bool := match compare a b with Some Gt => true | _ => false end.
Definition ge (a b : number) : bool := match compare a b with Some (Gt | Eq) => true | _ => false end.
Definition eq (a b : number) : bool := match compare a b with Some Eq => true | _ => false end.

(** [Math.min], [Math.floor] and [Math.ceil]. *)
Definition min (a b : number) : number :=
  if isNaN a || isNaN b then nan else if lt b a then b else a.

Definition floor (n : number) : number :=
  match n with
  | S754_finite _ _ e =>
    if 0 <=? e then n else of_Z (Z.shiftr (fst (dyadic n)) (- e))
  | _ => n
  end.

Definition ceil (n : number) : number :=
  match n with
  | S754_finite _ _ e =>
    if 0 <=? e then n else of_Z (- Z.shiftr (- fst (dyadic n)) (- e))
  | _ => n
  end.

(** A number as a condition. *)
Definition truthy (n : number) : bool := negb (isNaN n || eq n (of_Z 0)).

(** ** Strings *)

Definition is_space (c : char) : bool :=
  in_range 9 13 c || (c =? 32) || (c =? 160) || (c =? 5760) || in_range 8192 8202 c
  || (c =? 8232) || (c =? 8233) || (c =? 8239) || (c =? 8287) || (c =? 12288) || (c =? 65279).

Fixpoint trim_left (s : str) : str :=
  match s with
  | c :: r => if is_space c then trim_left r else s
  | [] => []
  end.

Definition js_trim (s : str) : str := reverse (trim_left (reverse (trim_left s))).

(** [s.split(/\s+/)]; [sp] inside a separator. *)
Fixpoint split_spaces_from (acc : str) (sp : bool) (s : str) : list str :=
  match s with
  | [] => [reverse acc]
  | c :: r =>
    if is_space c then
      if sp then split_spaces_from [] true r else reverse acc :: split_spaces_from [] true r
    else split_spaces_from (c :: acc) false r
  end.

Definition split_spaces (s : str) : list str := split_spaces_from [] false s.

(** ** Reading numbers *)

(** The leading digits of a string. *)
Fixpoint span_digits (s : str) : str * str :=
  match s with
  | c :: r => if in_range 48 57 c then let '(d, r') := span_digits r in (c :: d, r') else ([], s)
  | [] => ([], [])
  end.

Definition digits_number (ds : str) : Z := foldl (fun a c => 10 * a + (c - 48)) 0 ds.

(** [n * 10^k], rounded once. *)
Definition decimal (n k : Z) : number :=
  if 0 <=? k then of_Z (n * 10 ^ k)
  else match n, 10 ^ (- k) with
       | Zpos p, Zpos q => div (S754_finite false p 0) (S754_finite false q 0)
       | _, _ => of_Z 0
       end.

Definition negate (neg : bool) (n : number) : number := if neg then SFopp n else n.

Definition read_sign (s : str) : bool * str :=
  match s with
  | c :: r => if c =? 45 then (true, r) else if c =? 43 then (false, r) else (false, s)
  | [] => (false, [])
  end.

(** An exponent part, if one follows. *)
Definition read_exponent (s : str) : Z :=
  match s with
  | c :: r =>
    if (c =? 101) || (c =? 69) then
      let '(neg, r) := read_sign r in
      let '(ds, _) := span_digits r in
      if neg then - digits_number ds else digits_number ds
    else 0
  | [] => 0
  end.

Definition parse_float (s : str) : number :=
  let '(neg, r) := read_sign (trim_left s) in
  if starts_with (lit "Infinity") r then infinity neg
  else
    let '(ip, r1) := span_digits r in
    let '(fp, r2) := match r1 with
                     | c :: r' => if c =? 46 then span_digits r' else ([], r1)
                     | [] => ([], [])
                     end in
    match ip ++ fp with
    | [] => nan
    | ds => negate neg (decimal (digits_number ds) (read_exponent r2 - Z.of_nat (length fp)))
    end.

(** [parseInt(s, 10)]. *)
Definition parse_int (s : str) : number :=
  let '(neg, r) := read_sign (trim_left s) in
  match span_digits r with
  | ([], _) => nan
  | (ds, _) => negate neg (of_Z (digits_number ds))
  end.

(** ** Values *)

#[warnings="-register-all"]
Inductive value :=
| VNull
| VBool (b : bool)
| VNum (n : number)
| VStr (s : str)
| VArr (l : list value)
| VObj (l : list (str * value)).

(** The properties of an object, in order; the last of two equal names counts. *)
Definition own_keys (l : list (str * value)) : list str := map fst l.

Definition get_prop (l : list (str * value)) (k : str) : option value :=
  snd <$> List.find (fun kv => str_eqb kv.1 k) l.

(** [JSON.parse] gives a property its last value, at its first position. *)
Definition put_prop (l : list (str * value)) (k : str) (v : value) : list (str * value) :=
  if existsb (fun kv => str_eqb kv.1 k) l
  then map (fun kv => if str_eqb kv.1 k then (k, v) else kv) l
  else l ++ [(k, v)].

(** ** [JSON.stringify] of a string, and of objects and arrays of strings *)

Definition stringify_char (c : char) : str :=
  if c =? 8 then [92; 98] else if c =? 12 then [92; 102] else escape c.

Definition stringify (s : str) : str := [34] ++ concat (map stringify_char s) ++ [34].

Definition stringify_object (l : list (str * str)) : str :=
  [123] ++ sep (map (fun kv => stringify kv.1 ++ [58] ++ stringify kv.2) l) ++ [125].

Definition stringify_array (l : list str) : str := [91] ++ sep (map stringify l) ++ [93].

(** ** Buffers *)

(** [Buffer.from(s)] and [buf.toString()]: UTF-8, invalid parts replaced. *)
Definition buffer_from (s : str) : bytes := as_bytes s.
Definition buffer_to_string (b : bytes) : str := from_utf8_lossy b.

(** ** Engines *)

(** What the policy relies on: a printed number is not empty and holds no
    separator or control character, an integer is printed in decimal. *)
Class JsEngine := {
  json_parse : str -> option value;        (* [None]: it throws *)
  string_length : str -> Z;
  num_to_string : number -> str;
  num_to_string_plain n : Forall (fun c => 32 < c < 127 /\ c <> 58) (num_to_string n);
  num_to_string_int z : 0 <= z <= two53 -> num_to_string (of_Z z) = to_string z;
  string_length_nonneg s : 0 <= string_length s;
}.

(** ** Integers among the doubles *)

Lemma dyadic_int z : - two53 <= z <= two53 -> dyadic (of_Z z) = (z, 0).
Proof.
  unfold two53. destruct z as [|p|p]; intros H; [done| |];
    unfold of_Z, two53; (rewrite (proj2 (Z.leb_le _ _)) by lia); reflexivity.
Qed.

Lemma of_Z_finite z :
  - two53 <= z <= two53 -> of_Z z = S754_zero false \/ exists s m e, of_Z z = S754_finite s m e.
Proof.
  intros H. unfold two53 in H. destruct z as [|p|p]; [by left|right|right];
    unfold of_Z, two53; (rewrite (proj2 (Z.leb_le _ _)) by lia); by repeat eexists.
Qed.

(** Integers compare as integers. *)
Lemma compare_int a b :
  - two53 <= a <= two53 -> - two53 <= b <= two53 -> compare (of_Z a) (of_Z b) = Some (a ?= b).
Proof.
  intros Ha Hb.
  assert (H : compare (of_Z a) (of_Z b) =
              let '(m, e) := dyadic (of_Z a) in let '(n, f) := dyadic (of_Z b) in
              Some (Z.compare (Z.shiftl m (e - Z.min e f)) (Z.shiftl n (f - Z.min e f)))).
  { destruct (of_Z_finite a Ha) as [->|(?&?&?& ->)], (of_Z_finite b Hb) as [->|(?&?&?& ->)]; reflexivity. }
  rewrite H, !dyadic_int by done. simpl. by rewrite !Z.shiftl_0_r.
Qed.

Lemma lt_int a b :
  - two53 <= a <= two53 -> - two53 <= b <= two53 -> lt (of_Z a) (of_Z b) = (a <? b).
Proof. intros. unfold lt. rewrite compare_int by done. unfold Z.ltb. by destruct (a ?= b). Qed.

Lemma gt_int a b :
  - two53 <= a <= two53 -> - two53 <= b <= two53 -> gt (of_Z a) (of_Z b) = (b <? a).
Proof.
  intros. unfold gt. rewrite compare_int by done. rewrite Z.compare_antisym.
  unfold Z.ltb. by destruct (b ?= a).
Qed.

Lemma ge_int a b :
  - two53 <= a <= two53 -> - two53 <= b <= two53 -> ge (of_Z a) (of_Z b) = (b <=? a).
Proof.
  intros. unfold ge. rewrite compare_int by done. rewrite Z.compare_antisym.
  unfold Z.leb. by destruct (b ?= a).
Qed.

(** The product of integers is exact while it fits. *)
Lemma digits_small p : Zpos p < two53 -> Zpos (digits2_pos p) <= 53.
Proof.
  intros Hp. assert (Hd : forall q, digits2_pos q = Pos.size q) by (induction q; simpl; congruence).
  rewrite Hd. pose proof (Pos.size_le p) as Hs.
  destruct (Z.le_gt_cases (Zpos (Pos.size p)) 53) as [|Hgt]; [done|exfalso].
  assert (H2 : 2 ^ Zpos (Pos.size p) <= 2 * Zpos p).
  { change (2 * Zpos p) with (Zpos p~0). rewrite <- (Pos2Z.inj_pow 2). exact Hs. }
  assert (H54 : 2 ^ 54 <= 2 ^ Zpos (Pos.size p)) by (apply Z.pow_le_mono_r; lia).
  change (2 ^ 54) with (2 * two53) in H54. lia.
Qed.

Lemma of_Z_pos p : Zpos p <= two53 -> of_Z (Zpos p) = S754_finite false p 0.
Proof. intros H. unfold of_Z. by rewrite (proj2 (Z.leb_le _ _)). Qed.

Lemma mul_int a b : 0 < a -> 0 < b -> a * b < two53 -> mul (of_Z a) (of_Z b) = of_Z (a * b).
Proof.
  intros Ha Hb Hab. destruct a as [|a|a]; [lia| |lia]. destruct b as [|b|b]; [lia| |lia].
  assert (Zpos a <= Zpos a * Zpos b) by nia. assert (Zpos b <= Zpos a * Zpos b) by nia.
  rewrite !of_Z_pos by lia. change (Zpos a * Zpos b) with (Zpos (a * b)) in *.
  rewrite of_Z_pos by lia. unfold mul, SFmul, binary_round_aux. cbn [xorb].
  assert (Hs : forall l, shr_fexp prec emax (Zpos (a * b)) (0 + 0) l = (shr_record_of_loc (Zpos (a * b)) l, 0)).
  { intros l. unfold shr_fexp, shr. apply digits_small in Hab. cbn [Zdigits2]. change (0 + 0) with 0.
    destruct (fexp prec emax (Zpos (digits2_pos (a * b)) + 0) - 0) eqn:E; [done| |done].
    exfalso. unfold fexp, emin, prec, emax in E. lia. }
  rewrite Hs. cbn [shr_record_of_loc shr_m loc_of_shr_record round_nearest_even].
  change 0 with (0 + 0) at 1. rewrite Hs. reflexivity.
Qed.

Example js_numbers :
  parse_float (lit "131072") = of_Z 131072 /\ parse_float (lit " 0.5x") = S754_finite false 4503599627370496 (-53) /\
  parse_float (lit "-12e2;") = of_Z (-1200) /\ parse_float (lit "abc") = nan /\
  parse_int (lit "1785000000") = of_Z 1785000000 /\ parse_int (lit "x1") = nan /\
  floor (div (of_Z 7) (of_Z 2)) = of_Z 3 /\ ceil (div (of_Z 131072) (of_Z 1024)) = of_Z 128 /\
  eq (mul (of_Z 3) (of_Z 4)) (of_Z 12) = true /\
  gt (add (parse_float (lit "0.1")) (parse_float (lit "0.2"))) (parse_float (lit "0.3")) = true.
Proof. vm_compute. repeat split. Qed.

#[global] Arguments compare : simpl never.
#[global] Arguments gt : simpl never.
#[global] Arguments lt : simpl never.
#[global] Arguments ge : simpl never.
#[global] Arguments eq : simpl never.
#[global] Arguments mul : simpl never.
#[global] Arguments of_Z : simpl never.
#[global] Arguments parse_float : simpl never.
#[global] Arguments parse_int : simpl never.
