(* ===== verification/JsStd.v ===== *)
(** * A concrete JavaScript engine

    An instance of [Js.JsEngine], on which examples are evaluated: a JSON
    reader (RFC 8259), lengths in UTF-16 code units, integers printed in
    decimal and fractions by their exact decimal expansion. *)
From Stdlib Require Import SpecFloat.
From S2P Require Import Prelude Text Json JsonSpec Js.

(** ** [JSON.parse] *)

(** The integer part of a number: [0], or digits that do not start with it. *)
Definition read_int_part (s : str) : option (str * str) :=
  match s with
  | c :: r =>
    if c =? 48 then Some ([c], r)
    else match span_digits s with ([], _) => None | (ds, r') => Some (ds, r') end
  | [] => None
  end.

Definition read_fraction (s : str) : option (str * str) :=
  match s with
  | c :: r => if c =? 46
              then match span_digits r with ([], _) => None | (ds, r') => Some (ds, r') end
              else Some ([], s)
  | [] => Some ([], [])
  end.

Definition read_exp_part (s : str) : option (Z * str) :=
  match s with
  | c :: r =>
    if (c =? 101) || (c =? 69) then
      let '(neg, r1) := read_sign r in
      match span_digits r1 with
      | ([], _) => None
      | (ds, r') => Some (if neg then - digits_number ds else digits_number ds, r')
      end
    else Some (0, s)
  | [] => Some (0, [])
  end.

Definition read_js_number (s : str) : option (number * str) :=
  let '(neg, r) := match s with c :: r => if c =? 45 then (true, r) else (false, s) | [] => (false, s) end in
  '(ip, r1) ← read_int_part r;
  '(fp, r2) ← read_fraction r1;
  '(e, r3) ← read_exp_part r2;
  Some (negate neg (decimal (digits_number (ip ++ fp)) (e - Z.of_nat (length fp))), r3).

Fixpoint read_js (fuel : nat) (s : str) {struct fuel} : option (value * str) :=
  match fuel with
  | O => None
  | S f =>
    match skip_ws s with
    | [] => None
    | c :: r =>
      if c =? 34 then
        match read_chars r with Some (t, r') => Some (VStr t, r') | None => None end
      else if c =? 91 then
        match skip_ws r with
        | d :: r' => if d =? 93 then Some (VArr [], r')
                     else match read_js_elems f r with
                          | Some (l, r'') => Some (VArr l, r'')
                          | None => None
                          end
        | [] => None
        end
      else if c =? 123 then
        match skip_ws r with
        | d :: r' => if d =? 125 then Some (VObj [], r') else read_js_members f [] r
        | [] => None
        end
      else if starts_with (lit "true") (c :: r) then Some (VBool true, drop 3 r)
      else if starts_with (lit "false") (c :: r) then Some (VBool false, drop 4 r)
      else if starts_with (lit "null") (c :: r) then Some (VNull, drop 3 r)
      else match read_js_number (c :: r) with Some (n, r') => Some (VNum n, r') | None => None end
    end
  end
with read_js_elems (fuel : nat) (s : str) {struct fuel} : option (list value * str) :=
  match fuel with
  | O => None
  | S f =>
    match read_js f s with
    | None => None
    | Some (v, r) =>
      match skip_ws r with
      | c :: r' =>
        if c =? 44 then
          match read_js_elems f r' with Some (l, r'') => Some (v :: l, r'') | None => None end
        else if c =? 93 then Some ([v], r')
        else None
      | [] => None
      end
    end
  end
with read_js_members (fuel : nat) (l : list (str * value)) (s : str) {struct fuel} : option (value * str) :=
  match fuel with
  | O => None
  | S f =>
    match skip_ws s with
    | q :: r0 =>
      if q =? 34 then
        match read_chars r0 with
        | None => None
        | Some (k, r1) =>
          match skip_ws r1 with
          | col :: r2 =>
            if col =? 58 then
              match read_js f r2 with
              | None => None
              | Some (v, r3) =>
                match skip_ws r3 with
                | c :: r4 =>
                  if c =? 44 then read_js_members f (put_prop l k v) r4
                  else if c =? 125 then Some (VObj (put_prop l k v), r4)
                  else None
                | [] => None
                end
              end
            else None
          | [] => None
          end
        end
      else None
    | [] => None
    end
  end.

(** Every call consumes a character or descends by one. *)
Definition std_json_parse (s : str) : option value :=
  match read_js (S (2 * length s)) s with
  | Some (v, r) => match skip_ws r with [] => Some v | _ => None end
  | None => None
  end.

(** ** Printing numbers *)

Fixpoint drop_zeros (s : str) : str :=
  match s with c :: r => if c =? 48 then drop_zeros r else s | [] => [] end.

Definition std_num_to_string (n : number) : str :=
  match n with
  | S754_nan => lit "NaN"
  | S754_infinity s => (if s then [45] else []) ++ lit "Infinity"
  | S754_zero _ => lit "0"
  | S754_finite s m e =>
    (if s then [45] else [])
    ++ (if 0 <=? e then to_string (Z.shiftl (Zpos m) e)
        else let ip := Z.shiftr (Zpos m) (- e) in
             let fp := (Zpos m - Z.shiftl ip (- e)) * 5 ^ (- e) in
             to_string ip ++ (if fp =? 0 then [] else [46] ++ reverse (drop_zeros (reverse (pad_zero (Z.to_nat (- e)) (to_string fp))))))
  end.

Definition std_string_length (s : str) : Z :=
  foldr (fun c n => (if 65535 <? c then 2 else 1) + n) 0 s.

Definition plain_char (c : char) : Prop := 32 < c < 127 /\ c <> 58.

Lemma to_string_plain z : Forall plain_char (to_string z).
Proof.
  unfold to_string, format_radix. apply List.Forall_map, Forall_reverse.
  eapply Forall_impl; [by apply digits_rev_digits|]. intros d Hd. cbv beta in Hd.
  unfold plain_char, digit_char. case_if; bool_facts; lia.
Qed.

Lemma pad_zero_plain w s : Forall plain_char s -> Forall plain_char (pad_zero w s).
Proof.
  intros Hs. unfold pad_zero. apply Forall_app. split; [|done].
  apply Forall_replicate. unfold plain_char. lia.
Qed.

Lemma drop_zeros_plain s : Forall plain_char s -> Forall plain_char (drop_zeros s).
Proof. induction 1; cbn [drop_zeros]; [constructor|]. case_if; [done|by constructor]. Qed.

Ltac plain_lit := match goal with |- Forall plain_char ?l =>
  let l' := eval vm_compute in l in change (Forall plain_char l');
  repeat constructor; lia end.

Lemma std_plain n : Forall plain_char (std_num_to_string n).
Proof.
  assert (H45 : forall s : bool, Forall plain_char (if s then [45] else [])).
  { intros []; repeat constructor; lia. }
  destruct n as [s|s| |s m e]; cbn [std_num_to_string]; [plain_lit| |plain_lit|].
  - apply Forall_app. split; [done|plain_lit].
  - apply Forall_app. split; [done|]. case_if; [apply to_string_plain|]. cbv zeta.
    apply Forall_app. split; [apply to_string_plain|]. case_if; [constructor|].
    apply Forall_app. split; [repeat constructor; lia|]. apply Forall_reverse, drop_zeros_plain, Forall_reverse, pad_zero_plain, to_string_plain.
Qed.

Lemma std_int z : 0 <= z <= two53 -> std_num_to_string (of_Z z) = to_string z.
Proof.
  unfold two53. intros H. destruct z as [|p|p]; [by vm_compute| |lia].
  unfold of_Z, two53. rewrite (proj2 (Z.leb_le _ _)) by lia. done.
Qed.

Lemma std_length s : 0 <= std_string_length s.
Proof. unfold std_string_length. induction s; simpl; [done|]. case_if; lia. Qed.

Definition std_engine : JsEngine :=
  {| json_parse := std_json_parse; string_length := std_string_length;
     num_to_string := std_num_to_string; num_to_string_plain := std_plain;
     num_to_string_int := std_int; string_length_nonneg := std_length |}.

Example std_parses :
  std_json_parse (quoted "['REQ','s',{'kinds':[1,2.5],'limit':1e2, 'kinds':[]}, null]") =
  Some (VArr [VStr (lit "REQ"); VStr (lit "s");
              VObj [(lit "kinds", VArr []); (lit "limit", VNum (of_Z 100))]; VNull]) /\
  std_json_parse (lit "[1") = None /\ std_json_parse (lit "01") = None.
Proof. vm_compute. repeat split. Qed.

Example std_prints :
  std_num_to_string (div (of_Z 7) (of_Z 2)) = lit "3.5" /\
  std_num_to_string (parse_float (lit "-20")) = lit "-20".
Proof. vm_compute. split; reflexivity. Qed.
