(* ===== verification/ShieldCore.v ===== *)
(** * The core of the nginx policy: [src/core/njs/shield_core.js]

    Functions of the module over the calls an njs script makes ([njs]): the
    clock, nginx variables, the banlist file, the shared dictionary, the log
    and the session.  The module's variables ([banCache], [banLoadFailed]) are
    the state [vm], one per connection, passed and returned by the functions
    that use them.  A thrown exception that leaves a function is an [Err]. *)
From Stdlib Require Import SpecFloat.
From S2P Require Import Prelude Prog Text Json JsonSpec Js.
Local Open Scope prog_scope.

(** ** The calls *)

Record file_stat := mk_stat { mtimeMs : option number; mtime : number; size : number }.

Record send_flags := mk_flags { last : bool; flush_now : bool }.

Inductive njs : Type -> Type :=
| DateNow : njs Z                                            (* milliseconds *)
| DateIso : njs str                                          (* [new Date().toISOString()] *)
| GetVariable (name : str) : njs (res unit (option str))        (* [s.variables[name]]: may throw *)
| SetVariable (name v : str) : njs (res unit unit)
| StatSync (path : str) : njs (res unit file_stat)
| ReadFileSync (path : str) : njs (res unit str)
| SharedDict : njs bool                                      (* is [shield_connrate] there? *)
| DictAdd (key : str) : njs (res unit bool)                  (* [dict.add(key, 1)] *)
| DictIncr (key : str) : njs (res unit Z)                    (* [dict.incr(key, 1, 0)] *)
| Warn (msg : str) : njs unit
| Deny : njs unit
| Allow : njs unit
| Send (bs : bytes) (flags : option send_flags) : njs unit   (* in the callback's direction *)
| SendDownstream (bs : bytes) : njs unit.

Record session := mk_session { remoteAddress : str }.

(** The module's variables. *)
Record vm := mk_vm {
  cache_path : str;
  cache_mtime : number;
  cache_size : number;
  cache_map : gmap str number;
  banLoadFailed : bool;
}.

Definition fresh_vm : vm :=
  {| cache_path := []; cache_mtime := of_Z 0; cache_size := of_Z (-1); cache_map := ∅;
     banLoadFailed := false |}.

(** ** Settings *)

(** A value in a string context, and [v || d]. *)
Definition shown (v : option str) : str := default (lit "undefined") v.
Definition or_else (v : option str) (d : str) : str :=
  match v with Some (c :: r) => c :: r | _ => d end.

Definition num (v : option str) (dflt : number) : number :=
  let n := parse_float (shown v) in
  if isNaN n then dflt else n.

Definition keyset (v : option str) (dflt : str) : gset str :=
  let raw := or_else v dflt in
  match raw with
  | [] => ∅
  | _ => list_to_set (List.filter (fun p => match p with [] => false | _ => true end)
                        (map js_trim (split_char 44 raw)))
  end.

Definition portOf : prog njs str :=
  r <- call (GetVariable (lit "server_port")) ;;
  Ret (match r with Ok v => shown v | Err _ => lit "?" end).

Definition policy_entry (m : gmap str str) (part : str) : gmap str str :=
  match split_once 61 part with
  | Some (c :: k, v) => <[js_trim (c :: k) := v]> m
  | _ => m
  end.

Definition parse_policy (raw : str) : gmap str str := foldl policy_entry ∅ (split_char 59 raw).

Definition policy : prog njs (gmap str str) :=
  port <- call (GetVariable (lit "server_port")) ;;
  match port with
  | Err _ => Ret ∅
  | Ok p =>
    raw <- call (GetVariable (lit "shield_cfg_" ++ shown p)) ;;
    Ret (match raw with Err _ => ∅ | Ok v => parse_policy (or_else v []) end)
  end.

(** ** Bans *)

Definition parse_ban_line (line : str) : option (str * number) :=
  match split_spaces (js_trim line) with
  | (c :: ip) :: u :: _ => Some (c :: ip, parse_int u)
  | _ => None
  end.

Definition add_ban_line (m : gmap str number) (line : str) : gmap str number :=
  match parse_ban_line line with Some (ip, u) => <[ip := u]> m | None => m end.

Definition parse_banlist (text : str) : gmap str number := foldl add_ban_line ∅ (split_char 10 text).

Definition stat_mtime (st : file_stat) : number :=
  match mtimeMs st with Some t => t | None => mtime st end.

Definition set_failed (b : bool) (v : vm) : vm :=
  {| cache_path := cache_path v; cache_mtime := cache_mtime v; cache_size := cache_size v;
     cache_map := cache_map v; banLoadFailed := b |}.

Definition cache_hit (v : vm) (path : str) (st : file_stat) : bool :=
  str_eqb (cache_path v) path && eq (cache_mtime v) (stat_mtime st) && eq (cache_size v) (size st).

Definition loadBans (path : str) (v : vm) : prog njs (gmap str number * vm) :=
  r <- call (StatSync path) ;;
  match r with
  | Err _ =>
    Ret (∅, {| cache_path := path; cache_mtime := of_Z 0; cache_size := of_Z (-1);
               cache_map := ∅; banLoadFailed := true |})
  | Ok st =>
    let v := set_failed false v in
    if cache_hit v path st then Ret (cache_map v, v)
    else
      t <- call (ReadFileSync path) ;;
      match t with
      | Err _ => Ret (cache_map v, v)
      | Ok text =>
        let m := parse_banlist text in
        Ret (m, {| cache_path := path; cache_mtime := stat_mtime st; cache_size := size st;
                   cache_map := m; banLoadFailed := false |})
      end
  end.

Definition isBanned (ip path : str) (v : vm) : prog njs (bool * vm) :=
  match path with
  | [] => Ret (false, v)
  | _ =>
    mv <- loadBans path v ;;
    let '(m, v) := mv in
    match m !! ip with
    | None => Ret (false, v)
    | Some until =>
      if isNaN until then Ret (true, v)
      else if eq until (of_Z 0) then Ret (true, v)
      else now <- call DateNow ;; Ret (gt (mul until (of_Z 1000)) (of_Z now), v)
    end
  end.

(** ** Verdicts and warnings *)

Definition verdict_line (ts src service layer rule detail : str) : str :=
  lit "shield-verdict " ++ stringify_object
    [(lit "ts", ts); (lit "src", src);
     (lit "service", match service with [] => lit "unknown" | _ => service end);
     (lit "layer", layer); (lit "rule", rule); (lit "detail", detail)].

Definition verdict (s : session) (service layer rule : str) (detail : option str) : prog njs unit :=
  ts <- call DateIso ;;
  call (Warn (verdict_line ts (remoteAddress s) service layer rule (default [] detail))) ;;;
  call (SetVariable (lit "shield_verdict") rule) ;;;
  Ret tt.

Definition warnPeriodically (key msg : str) : prog njs unit :=
  d <- call SharedDict ;;
  if negb d then Ret tt
  else
    r <- call (DictAdd key) ;;
    match r with
    | Err _ => Ret tt
    | Ok b => if (b : bool) then call (Warn msg) else Ret tt
    end.

(** ** Connections *)

Record access_cfg := mk_access_cfg {
  service : str;
  banFile : str;
  connRate : number;
  connWindow : number;
}.

Section engine.
Context {JS : JsEngine}.

Definition window_of (now : Z) (cfg : access_cfg) : number :=
  floor (div (div (of_Z now) (of_Z 1000)) (connWindow cfg)).

Definition conn_key (port addr : str) (window : number) : str :=
  port ++ [58] ++ addr ++ [58] ++ num_to_string window.

Definition connRateExceeded (s : session) (cfg : access_cfg) : prog njs (res unit bool) :=
  if negb (truthy (connRate cfg)) then Ret (Ok false)
  else
    d <- call SharedDict ;;
    if negb d then Ret (Ok false)
    else
      now <- call DateNow ;;
      port <- portOf ;;
      n <-? call (DictIncr (conn_key port (remoteAddress s) (window_of now cfg))) ;;
      Ret (Ok (gt (of_Z n) (connRate cfg))).

Definition access_cfg_of (p : gmap str str) : access_cfg :=
  {| service := or_else (p !! lit "service") (lit "unknown");
     banFile := or_else (p !! lit "ban_file") [];
     connRate := num (p !! lit "conn_rate") (of_Z 0);
     connWindow := num (p !! lit "conn_window") (of_Z 60) |}.

Definition accessCfg : prog njs access_cfg := p <- policy ;; Ret (access_cfg_of p).

(** The part of [access] after the ban check. *)
Definition access_rate (s : session) (cfg : access_cfg) (v : vm) : prog njs (res unit vm) :=
  e <-? connRateExceeded s cfg ;;
  if (e : bool) then
    verdict s (service cfg) (lit "access") (lit "conn-rate")
      (Some (lit "max=" ++ num_to_string (connRate cfg))) ;;;
    call Deny ;;;
    Ret (Ok v)
  else call Allow ;;; Ret (Ok v).

Definition access (s : session) (v : vm) : prog njs (res unit vm) :=
  cfg <- accessCfg ;;
  call (SetVariable (lit "shield_service") (service cfg)) ;;;
  match banFile cfg with
  | [] =>
    port <- portOf ;;
    port' <- portOf ;;
    warnPeriodically (lit "__shield_warn_nobanfile:" ++ port)
      (lit "shield-config no ban_file for port " ++ port'
       ++ lit ": BAN ENFORCEMENT IS DISABLED on this listener (is SHIELD_BAN_FILE set?)") ;;;
    access_rate s cfg v
  | _ =>
    bv <- isBanned (remoteAddress s) (banFile cfg) v ;;
    let '(banned, v) := (bv : bool * vm) in
    (if banLoadFailed v then
       port <- portOf ;;
       warnPeriodically (lit "__shield_warn_banload:" ++ port)
         (lit "shield-config banlist " ++ banFile cfg
          ++ lit " is missing or unreadable: ban enforcement is inactive")
     else Ret tt) ;;;
    if banned then
      verdict s (service cfg) (lit "ban") (lit "banned") (Some (lit "rejected-at-accept")) ;;;
      call Deny ;;;
      Ret (Ok v)
    else access_rate s cfg v
  end.

End engine.

#[global] Arguments conn_key {JS} : simpl never.
#[global] Arguments window_of : simpl never.
#[global] Arguments verdict_line : simpl never.

Example parses_policy :
  let p := parse_policy (lit "service=relay; ban_file=/var/bans;conn_rate=60;x;=y;nostr_kind_deny=4,1059") in
  p !! lit "service" = Some (lit "relay") /\ p !! lit "ban_file" = Some (lit "/var/bans") /\
  num (p !! lit "conn_rate") (of_Z 0) = of_Z 60 /\ num (p !! lit "conn_window") (of_Z 60) = of_Z 60 /\
  p !! [] = None /\
  bool_decide (lit "1059" ∈ keyset (p !! lit "nostr_kind_deny") []) = true /\
  bool_decide (lit "constructor" ∈ keyset (p !! lit "nostr_kind_deny") []) = false.
Proof. vm_compute. repeat split. Qed.

Example parses_banlist :
  let m := parse_banlist (lit "fd97::1 1785000000" ++ [13; 10] ++ lit " fd97::2  0 " ++ [10]
                          ++ lit "fd97::3 soon" ++ [10] ++ lit "alone" ++ [10]) in
  m !! lit "fd97::1" = Some (of_Z 1785000000) /\ m !! lit "fd97::2" = Some (of_Z 0) /\
  m !! lit "fd97::3" = Some nan /\ m !! lit "alone" = None.
Proof. vm_compute. repeat split. Qed.
