(* ===== verification/Nginx.v ===== *)
(** * What the policy runs in

    The part of nginx an njs script sees, as an executable environment: the
    clock, the files it can read, the shared dictionary of connection counts,
    the variables of the session, the log, and what became of the session.
    Between two calls the clock advances; [DictIncr] may also fail (the
    dictionary is full), which throws. *)
From Stdlib Require Import SpecFloat.
From S2P Require Import Prelude Prog Text Js ShieldCore.
Local Open Scope prog_scope.

Record nginx := mk_nginx {
  clock : Z;                                 (* milliseconds *)
  files : gmap str (file_stat * str);
  counts : option (gmap str Z);              (* the shared dictionary *)
  vars : gmap str str;
  warned : list str;
  decision : option bool;                    (* allowed or denied *)
  forward : list (bytes * option send_flags); (* [s.send], in order *)
  downstream : list bytes;
}.

Definition set_clock (t : Z) (s : nginx) : nginx :=
  {| clock := t; files := files s; counts := counts s; vars := vars s; warned := warned s;
     decision := decision s; forward := forward s; downstream := downstream s |}.
Definition set_counts (c : gmap str Z) (s : nginx) : nginx :=
  {| clock := clock s; files := files s; counts := Some c; vars := vars s; warned := warned s;
     decision := decision s; forward := forward s; downstream := downstream s |}.
Definition set_var (k v : str) (s : nginx) : nginx :=
  {| clock := clock s; files := files s; counts := counts s; vars := <[k := v]> (vars s);
     warned := warned s; decision := decision s; forward := forward s; downstream := downstream s |}.
Definition set_warned (l : list str) (s : nginx) : nginx :=
  {| clock := clock s; files := files s; counts := counts s; vars := vars s; warned := l;
     decision := decision s; forward := forward s; downstream := downstream s |}.
Definition set_decision (d : bool) (s : nginx) : nginx :=
  {| clock := clock s; files := files s; counts := counts s; vars := vars s; warned := warned s;
     decision := Some d; forward := forward s; downstream := downstream s |}.
Definition set_forward (l : list (bytes * option send_flags)) (s : nginx) : nginx :=
  {| clock := clock s; files := files s; counts := counts s; vars := vars s; warned := warned s;
     decision := decision s; forward := l; downstream := downstream s |}.
Definition set_downstream (l : list bytes) (s : nginx) : nginx :=
  {| clock := clock s; files := files s; counts := counts s; vars := vars s; warned := warned s;
     decision := decision s; forward := forward s; downstream := l |}.

(** The count of a key, 0 when it is new. *)
Definition count_of (c : gmap str Z) (k : str) : Z := default 0 (c !! k).

#[global] Arguments count_of : simpl never.

Definition njs_exec (X : Type) (e : njs X) (s : nginx) : X * nginx :=
  match e in njs T return T * nginx with
  | DateNow => (clock s, s)
  | DateIso => (to_string (clock s), s)
  | GetVariable k => (Ok (vars s !! k), s)
  | SetVariable k v => (Ok tt, set_var k v s)
  | StatSync p => (match files s !! p with Some (st, _) => Ok st | None => Err tt end, s)
  | ReadFileSync p => (match files s !! p with Some (_, t) => Ok t | None => Err tt end, s)
  | SharedDict => (match counts s with Some _ => true | None => false end, s)
  | DictAdd k =>
    match counts s with
    | Some c => match c !! k with
                | Some _ => (Ok false, s)
                | None => (Ok true, set_counts (<[k := 1]> c) s)
                end
    | None => (Err tt, s)
    end
  | DictIncr k =>
    match counts s with
    | Some c => (Ok (count_of c k + 1), set_counts (<[k := count_of c k + 1]> c) s)
    | None => (Err tt, s)
    end
  | Warn m => (tt, set_warned (warned s ++ [m]) s)
  | Deny => (tt, set_decision false s)
  | Allow => (tt, set_decision true s)
  | Send bs f => (tt, set_forward (forward s ++ [(bs, f)]) s)
  | SendDownstream bs => (tt, set_downstream (downstream s ++ [bs]) s)
  end.

(** As executed, or a full dictionary. *)
Definition njs_step (X : Type) (e : njs X) (s : nginx) (x : X) (s' : nginx) : Prop :=
  (x, s') = njs_exec X e s \/
  match e in njs T return T -> Prop with
  | DictIncr _ => fun x => x = Err tt /\ s' = s
  | _ => fun _ => False
  end x.

(** Between two calls only the clock moves. *)
Definition tick (s s' : nginx) : Prop := exists t, clock s <= t /\ s' = set_clock t s.

Lemma tick_refl s : tick s s.
Proof. exists (clock s). split; [lia|]. by destruct s. Qed.

Lemma tick_clock s s' : tick s s' -> clock s <= clock s'.
Proof. by intros (t & ? & ->). Qed.

(** The state of a session that has not begun. *)
Definition nginx_at (t : Z) (f : gmap str (file_stat * str)) (v : gmap str str) : nginx :=
  {| clock := t; files := f; counts := Some ∅; vars := v; warned := []; decision := None;
     forward := []; downstream := [] |}.

Abbreviation wpn := (wp njs_step tick).

(** One call: the clock may have moved, then it is executed. *)
Lemma wpn_call {X} (e : njs X) (Q : X -> nginx -> Prop) s :
  (forall t, clock s <= t ->
     Q (fst (njs_exec X e (set_clock t s))) (snd (njs_exec X e (set_clock t s))) /\
     match e in njs T return (T -> nginx -> Prop) -> Prop with
     | DictIncr _ => fun Q => Q (Err tt) (set_clock t s)
     | _ => fun _ => True
     end Q) ->
  wpn (call e) Q s.
Proof.
  intros H. apply wp_call. intros s1 (t & Ht & ->) x s2 [Hx|Hf]; destruct (H t Ht) as [H1 H2].
  - destruct (njs_exec X e (set_clock t s)); simpl in *; by simplify_eq.
  - destruct e; try done. destruct Hf as [-> ->]. done.
Qed.

(** The same with the dictionary's failures switched: under [full = false] it
    never throws. *)
Definition njs_step_in (full : bool) (X : Type) (e : njs X) (s : nginx) (x : X) (s' : nginx) : Prop :=
  (x, s') = njs_exec X e s \/
  match e in njs T return T -> Prop with
  | DictIncr _ => fun x => full = true /\ x = Err tt /\ s' = s
  | _ => fun _ => False
  end x.

Abbreviation wpf full := (wp (njs_step_in full) tick).

Lemma wpn_wpf {A} full (m : prog njs A) (Q : A -> nginx -> Prop) s : wpn m Q s -> wpf full m Q s.
Proof.
  apply wp_weaken; [done|]. intros X e s0 x s1 [H|H]; [by left|right]. destruct e; naive_solver.
Qed.

Lemma wpf_wpn {A} (m : prog njs A) (Q : A -> nginx -> Prop) s : wpf true m Q s -> wpn m Q s.
Proof.
  apply wp_weaken; [done|]. intros X e s0 x s1 [H|H]; [by left|right]. destruct e; naive_solver.
Qed.

Lemma wpf_call {X} full (e : njs X) (Q : X -> nginx -> Prop) s :
  (forall t, clock s <= t ->
     Q (fst (njs_exec X e (set_clock t s))) (snd (njs_exec X e (set_clock t s))) /\
     match e in njs T return (T -> nginx -> Prop) -> Prop with
     | DictIncr _ => fun Q => full = true -> Q (Err tt) (set_clock t s)
     | _ => fun _ => True
     end Q) ->
  wpf full (call e) Q s.
Proof.
  intros H. apply wp_call. intros s1 (t & Ht & ->) x s2 [Hx|Hf]; destruct (H t Ht) as [H1 H2].
  - destruct (njs_exec X e (set_clock t s)); simpl in *; by simplify_eq.
  - destruct e; try done. destruct Hf as (-> & -> & ->). by apply H2.
Qed.
