(* ===== verification/CoreTheorems.v ===== *)
(** * What the core of the nginx policy promises

    Which source is refused at accept and until when, how many connections
    a source gets in a window, and what a log line can contain. *)
From Stdlib Require Import SpecFloat.
From S2P Require Import Prelude Prog Text Json JsonSpec Js JsStd ShieldCore Nginx.
Local Open Scope prog_scope.

(** ** Bans *)

(** An entry of the banlist is in force at [now] (milliseconds): a time that
    cannot be read never lapses, nor does 0. *)
Definition banned_at (entry : option number) (now : Z) : bool :=
  match entry with
  | None => false
  | Some u => isNaN u || eq u (of_Z 0) || gt (mul u (of_Z 1000)) (of_Z now)
  end.

(** What the module remembers of a file is what the file holds: it is replaced
    by one of another time or size. *)
Definition coherent (v : vm) (path : str) (st : file_stat) (text : str) : Prop :=
  cache_hit v path st = true -> cache_map v = parse_banlist text.

Lemma set_clock_set_clock t t' s : set_clock t (set_clock t' s) = set_clock t s.
Proof. done. Qed.

Lemma fresh_vm_coherent path st text : path <> [] -> coherent fresh_vm path st text.
Proof.
  intros Hp. unfold coherent, cache_hit, str_eqb. simpl. rewrite bool_decide_eq_false_2 by congruence.
  done.
Qed.

Ltac wpn_step := apply wp_seq, wpn_call; intros ? ?; split; [|exact I]; cbn [njs_exec fst snd].

Ltac wpn_ret := match goal with |- wp _ _ (Ret ?a) ?Q ?st => change (Q a st); cbv beta end.

Lemma wpn_loadBans (path : str) (v : vm) (st : file_stat) (text : str) (Q : gmap str number * vm -> nginx -> Prop) s :
  files s !! path = Some (st, text) -> coherent v path st text ->
  (forall v' t, clock s <= t -> banLoadFailed v' = false -> coherent v' path st text ->
     Q (parse_banlist text, v') (set_clock t s)) ->
  wpn (loadBans path v) Q s.
Proof.
  intros Hf Hc HQ. unfold loadBans. wpn_step. cbn [files set_clock]. rewrite Hf.
  assert (Hc' : coherent (set_failed false v) path st text) by exact Hc.
  destruct (cache_hit (set_failed false v) path st) eqn:E.
  - rewrite (Hc' E). by apply HQ.
  - wpn_step. cbn [files set_clock]. rewrite Hf. apply HQ; [cbn in *; lia|done|done].
Qed.

Lemma wpn_isBanned (ip path : str) (v : vm) (st : file_stat) (text : str) (Q : bool * vm -> nginx -> Prop) s :
  path <> [] -> files s !! path = Some (st, text) -> coherent v path st text ->
  (forall v' t, clock s <= t -> banLoadFailed v' = false -> coherent v' path st text ->
     Q (banned_at (parse_banlist text !! ip) t, v') (set_clock t s)) ->
  wpn (isBanned ip path v) Q s.
Proof.
  intros Hp Hf Hc HQ. unfold isBanned. destruct path as [|c path]; [done|].
  apply wp_seq. eapply wpn_loadBans; [exact Hf|exact Hc|]. intros v' t Ht Hl Hv.
  pose proof (HQ v' t Ht Hl Hv) as H. unfold banned_at in H.
  destruct (parse_banlist text !! ip) as [u|]; [|done].
  destruct (isNaN u) eqn:En; [done|]. destruct (eq u (of_Z 0)) eqn:Ez; [done|].
  apply wp_seq, wpn_call. intros t' Ht'. split; [|exact I]. cbn [njs_exec fst snd].
  specialize (HQ v' t'). unfold banned_at in HQ. rewrite En, Ez in HQ. simpl in Ht'.
  apply HQ; [lia|done|done].
Qed.

(** An expiry that a backend writes, in whole seconds, is compared exactly. *)
Lemma banned_at_seconds u now :
  0 <= u < 9007199254740 -> 0 <= now <= two53 ->
  banned_at (Some (of_Z u)) now = (u =? 0) || (now <? u * 1000).
Proof.
  unfold two53. intros Hu Hn. unfold banned_at.
  assert (HN : isNaN (of_Z u) = false).
  { destruct (of_Z_finite u) as [->|(? & ? & ? & ->)]; [unfold two53; lia|done..]. }
  rewrite HN. unfold eq. rewrite compare_int by (unfold two53; lia). rewrite Z.eqb_compare.
  destruct (Z.compare_spec u 0); [done|lia|]. cbn [orb].
  rewrite mul_int by (unfold two53; lia). apply gt_int; unfold two53; lia.
Qed.

(** ** The decision at accept *)

Section access.
Context {JS : JsEngine} (s : session).

(** What [access] leaves after the ban check, with the window of the time [t]:
    allowed while the count of its port, address and window is within the rate;
    a shared dictionary that is [full] may throw, which decides nothing (nginx
    then closes the session). *)
Definition rate_outcome (full : bool) (t : Z) (port : str) (cfg : access_cfg) (c : gmap str Z)
    (r : res unit vm) (s' : nginx) : Prop :=
  if truthy (connRate cfg) then
    let k := conn_key port (remoteAddress s) (window_of t cfg) in
    let n := count_of c k + 1 in
    (full = true /\ r = Err tt /\ decision s' = None /\ counts s' = Some c) \/
    (is_ok r = true /\ decision s' = Some (negb (gt (of_Z n) (connRate cfg))) /\
     counts s' = Some (<[k := n]> c))
  else is_ok r = true /\ decision s' = Some true /\ counts s' = Some c.

Lemma wpn_verdict service layer rule detail (Q : unit -> nginx -> Prop) st :
  (forall t t' t'', clock st <= t -> t <= t' -> t' <= t'' ->
     Q tt (set_var (lit "shield_verdict") rule (set_clock t'' (set_warned
             (warned st ++ [verdict_line (to_string t) (remoteAddress s) service layer rule (default [] detail)])
             (set_clock t' st))))) ->
  wpn (verdict s service layer rule detail) Q st.
Proof. intros HQ. unfold verdict. do 3 wpn_step. apply HQ; cbn in *; lia. Qed.

Ltac wpf_step := apply wp_seq, wpf_call; intros ? ?; split; [|exact I]; cbn [njs_exec fst snd].

Lemma wpf_access_rate full cfg v port c st :
  vars st !! lit "server_port" = Some port -> counts st = Some c -> decision st = None ->
  wpf full (access_rate s cfg v) (fun r s' =>
    exists t, clock st <= t <= clock s' /\ rate_outcome full t port cfg c r s') st.
Proof.
  intros Hp Hc Hd. unfold access_rate, connRateExceeded, rate_outcome.
  apply wp_try. destruct (truthy (connRate cfg)); cbn [negb].
  - wpf_step. cbn [counts set_clock]. rewrite Hc. cbn [negb]. wpf_step.
    apply wp_seq. unfold portOf. wpf_step. cbn [vars set_clock]. rewrite Hp. cbn [shown default from_option id].
    apply wp_try. apply wpf_call. intros t3 H3. cbn [njs_exec counts set_clock clock] in *. rewrite Hc. cbn [fst snd].
    split; [|intros ->; exists t0; split; [cbn; lia|left; split_and!; [done..|exact Hd|done]]].
    match goal with |- context [gt ?a ?b] => destruct (gt a b) eqn:E end.
    + apply wp_seq, wpn_wpf, wpn_verdict. intros t4 t5 t6 H4 H5 H6. wpf_step. wpn_ret. cbn in *.
      exists t0. split; [lia|right]. rewrite E. done.
    + wpf_step. wpn_ret. cbn in *. exists t0. split; [lia|right]. rewrite E. done.
  - wpf_step. wpn_ret. cbn in *. exists t. split; [lia|done].
Qed.

Lemma wpf_access full st port raw (stt : file_stat) (text : str) c :
  let cfg := access_cfg_of (parse_policy raw) in
  vars st !! lit "server_port" = Some port ->
  vars st !! (lit "shield_cfg_" ++ port) = Some raw ->
  banFile cfg <> [] -> files st !! banFile cfg = Some (stt, text) ->
  counts st = Some c -> decision st = None ->
  wpf full (access s fresh_vm) (fun r st' =>
    exists t t', clock st <= t <= t' /\ t' <= clock st' /\
      if banned_at (parse_banlist text !! remoteAddress s) t
      then is_ok r = true /\ decision st' = Some false /\ counts st' = Some c
      else rate_outcome full t' port cfg c r st') st.
Proof.
  intros cfg Hp Hr Hf Ht Hc Hd. unfold access, accessCfg, policy.
  apply wp_seq, wp_seq. wpf_step. cbn [vars set_clock]. rewrite Hp. cbn [shown default from_option id].
  wpf_step. cbn [vars set_clock]. rewrite Hr. wpn_ret. wpn_ret.
  replace (or_else (Some raw) []) with raw by (by destruct raw). fold cfg.
  wpf_step. destruct (banFile cfg) as [|b f] eqn:Ef; [done|]. rewrite <- Ef in *.
  apply wp_seq, wpn_wpf. eapply (wpn_isBanned _ _ _ stt text); [done|exact Ht|by apply fresh_vm_coherent|].
  intros v' t' Ht' Hl _. rewrite Hl. apply wp_seq. wpn_ret.
  destruct (banned_at _ t') eqn:Eb.
  - apply wp_seq, wpn_wpf, wpn_verdict. intros t4 t5 t6 H4 H5 H6. wpf_step. wpn_ret.
    exists t', t'. rewrite Eb. cbn in *. split; [lia|]. split; [lia|done].
  - eapply wp_mono; [|eapply (wpf_access_rate full cfg _ port c); [|exact Hc|exact Hd]].
    + intros r s' (t2 & Hs & Ho). exists t', t2. rewrite Eb. cbn in *. split; [lia|]. split; [lia|exact Ho].
    + cbn [vars set_clock set_var]. rewrite lookup_insert_ne; [done|]. by vm_compute.
Qed.

(** C16.  At accept a source is refused while the banlist holds an entry for its
    address that has not lapsed (one that cannot be read never does), and
    nothing is counted; any other source is counted once, for this port and the
    window of a time of the call after the ban check, and allowed exactly when
    that count is within the configured rate (without a rate, always).  Only a
    shared dictionary that is full, and may throw, can leave a source that is
    under a rate without a decision or a count. *)
Theorem access_decides (full : bool) st port raw (stt : file_stat) (text : str) c :
  let cfg := access_cfg_of (parse_policy raw) in
  vars st !! lit "server_port" = Some port ->
  vars st !! (lit "shield_cfg_" ++ port) = Some raw ->
  banFile cfg <> [] -> files st !! banFile cfg = Some (stt, text) ->
  counts st = Some c -> decision st = None ->
  wpf full (access s fresh_vm) (fun r st' =>
    exists t t', clock st <= t <= t' /\ t' <= clock st' /\
      if banned_at (parse_banlist text !! remoteAddress s) t
      then is_ok r = true /\ decision st' = Some false /\ counts st' = Some c
      else rate_outcome full t' port cfg c r st') st.
Proof. apply wpf_access. Qed.

End access.

(** A relay behind a banlist, and a source banned until the year 2026. *)
Definition relay_vars : gmap str str :=
  {[ lit "server_port" := lit "8443";
     lit "shield_cfg_8443" := lit "service=strfry;ban_file=/run/bans;conn_rate=2" ]}.
Definition relay_bans : str := lit "fd97::1 1785000000" ++ [10] ++ lit "fd97::2 0" ++ [10].
Definition relay_stat : file_stat := {| mtimeMs := Some (of_Z 1784000000000); mtime := nan; size := of_Z 30 |}.
Definition relay (t : Z) : nginx := nginx_at t {[ lit "/run/bans" := (relay_stat, relay_bans) ]} relay_vars.

Lemma access_decides_witness :
  let cfg := access_cfg_of (parse_policy (lit "service=strfry;ban_file=/run/bans;conn_rate=2")) in
  wpf false (access (JS := std_engine) {| remoteAddress := lit "fd97::1" |} fresh_vm) (fun r st' =>
    exists t t', 1784000000000 <= t <= t' /\ t' <= clock st' /\
      if banned_at (parse_banlist relay_bans !! lit "fd97::1") t
      then is_ok r = true /\ decision st' = Some false /\ counts st' = Some ∅
      else rate_outcome (JS := std_engine) {| remoteAddress := lit "fd97::1" |} false t' (lit "8443") cfg ∅ r st')
    (relay 1784000000000).
Proof.
  apply (access_decides (JS := std_engine) {| remoteAddress := lit "fd97::1" |} false (relay 1784000000000)
           (lit "8443") (lit "service=strfry;ban_file=/run/bans;conn_rate=2") relay_stat relay_bans ∅);
    by vm_compute.
Defined.

(** The banned source is refused until its ban ends, then allowed. *)
Example access_examples :
  let go t := decision (run njs_exec (access (JS := std_engine) {| remoteAddress := lit "fd97::1" |} fresh_vm) (relay t)).2 in
  go 1784999999999 = Some false /\ go 1785000000000 = Some true.
Proof. vm_compute. split; reflexivity. Qed.

(** ** Connection rates *)

Lemma split_unique {A} (x : A) l1 l2 r1 r2 :
  x ∉ l1 -> x ∉ l2 -> l1 ++ x :: r1 = l2 ++ x :: r2 -> l1 = l2 /\ r1 = r2.
Proof.
  revert l2. induction l1 as [|y l1 IH]; intros [|z l2] H1 H2 E; simpl in E; [by injection E|injection E as E1 E2..].
  - exfalso. apply H2. rewrite E1. by left.
  - exfalso. apply H1. rewrite E1. by left.
  - subst z. apply not_elem_of_cons in H1 as [_ H1], H2 as [_ H2]. by destruct (IH l2 H1 H2 E2) as [-> ->].
Qed.

(** A connection to port [port] from [source], at a time. *)
Record arrival := mk_arrival { at_ms : Z; source : str; port : str }.

Section rates.
Context {JS : JsEngine} (cfg_of : str -> access_cfg).

Definition key_of (a : arrival) : str :=
  conn_key (port a) (source a) (window_of (at_ms a) (cfg_of (port a))).

(** Two connections share a counter only if they are of one source to one
    port, in one window. *)
Lemma conn_key_inj p p' a a' w w' :
  58 ∉ p -> 58 ∉ p' -> conn_key p a w = conn_key p' a' w' ->
  p = p' /\ a = a' /\ num_to_string w = num_to_string w'.
Proof.
  assert (Hn : forall n, 58 ∉ reverse (num_to_string n)).
  { intros n. rewrite elem_of_reverse. intros Hin.
    pose proof (num_to_string_plain n) as Hp. rewrite Forall_forall in Hp. by apply Hp in Hin as [_ ?]. }
  unfold conn_key. intros Hp Hp' E. apply (split_unique 58) in E as [-> E]; [|done..].
  split; [done|]. simpl in E. apply (f_equal reverse) in E. rewrite !reverse_app, !reverse_cons, <- !app_assoc in E.
  simpl in E. apply (split_unique 58) in E as [E1 E2]; [|apply Hn..].
  split; by apply (inj reverse).
Qed.

(** One connection, on the counts so far: whether it is refused for its rate,
    and the counts it leaves. *)
Definition arrive (c : gmap str Z) (a : arrival) : bool * gmap str Z :=
  let st := set_counts c (nginx_at (at_ms a) ∅ {[ lit "server_port" := port a ]}) in
  let '(r, st') := run njs_exec (connRateExceeded {| remoteAddress := source a |} (cfg_of (port a))) st in
  (unwrap_or true r, default ∅ (counts st')).

(** Connections of all sources to all ports, in any order: those refused. *)
Fixpoint arrive_all (c : gmap str Z) (l : list arrival) : list bool :=
  match l with
  | [] => []
  | a :: r => let '(x, c') := arrive c a in x :: arrive_all c' r
  end.

(** The connections allowed among those that use the counter [k]. *)
Definition allowed_for (k : str) (l : list arrival) (refused : list bool) : list (arrival * bool) :=
  List.filter (fun p => str_eqb (key_of p.1) k && negb p.2) (zip l refused).

Definition arrivals_for (k : str) (l : list arrival) : list arrival :=
  List.filter (fun a => str_eqb (key_of a) k) l.

Lemma arrive_limited c a :
  truthy (connRate (cfg_of (port a))) = true ->
  arrive c a = (gt (of_Z (count_of c (key_of a) + 1)) (connRate (cfg_of (port a))),
                <[key_of a := count_of c (key_of a) + 1]> c).
Proof.
  intros Hr. unfold arrive, connRateExceeded. rewrite Hr. cbn [negb].
  cbn -[lit of_Z]. rewrite lookup_singleton_eq. reflexivity.
Qed.

Lemma arrive_unlimited c a : truthy (connRate (cfg_of (port a))) = false -> arrive c a = (false, c).
Proof. intros Hr. unfold arrive, connRateExceeded. by rewrite Hr. Qed.

Lemma count_of_insert c k n : count_of (<[k := n]> c) k = n.
Proof. unfold count_of. by rewrite lookup_insert_eq. Qed.
Lemma count_of_insert_ne c k k' n : k <> k' -> count_of (<[k := n]> c) k' = count_of c k'.
Proof. intros. unfold count_of. by rewrite lookup_insert_ne. Qed.

Lemma arrive_count c a k :
  count_of (arrive c a).2 k =
  count_of c k + (if str_eqb (key_of a) k && truthy (connRate (cfg_of (port a))) then 1 else 0).
Proof.
  unfold str_eqb. destruct (truthy _) eqn:Ht.
  - rewrite arrive_limited by done. cbn [snd]. rewrite andb_true_r. case_bool_decide as E.
    + subst k. by rewrite count_of_insert.
    + by rewrite count_of_insert_ne, Z.add_0_r.
  - rewrite arrive_unlimited by done. rewrite andb_false_r. cbn. lia.
Qed.

(** With [k] the counter of port [p], whose rate is [r]. *)
Lemma allowed_count p s w r : forall l c,
  let k := conn_key p s w in
  58 ∉ p -> Forall (fun a => 58 ∉ port a) l ->
  0 < r < two53 -> connRate (cfg_of p) = of_Z r ->
  0 <= count_of c k -> count_of c k + Z.of_nat (length l) <= two53 ->
  Z.of_nat (length (allowed_for k l (arrive_all c l))) =
  Z.min (Z.max 0 (r - count_of c k)) (Z.of_nat (length (arrivals_for k l))).
Proof.
  intros l c k Hp Hl Hr Hc. revert c. unfold allowed_for, arrivals_for.
  assert (Ht : truthy (of_Z r) = true).
  { unfold truthy, eq. rewrite compare_int by (unfold two53 in *; lia).
    destruct (of_Z_finite r) as [E|(? & ? & ? & E)]; [unfold two53 in *; lia|rewrite E..]; simpl.
    - by destruct (Z.compare_spec r 0); [lia..|].
    - by destruct (Z.compare_spec r 0); [lia..|]. }
  induction Hl as [|a l Ha Hl IH]; intros c H0 Hn; [simpl; lia|].
  cbn [arrive_all]. pose proof (arrive_count c a k) as Hcount.
  destruct (arrive c a) as [x c'] eqn:E. cbn [snd zip zip_with List.filter fst] in *.
  rewrite length_cons in Hn. destruct (str_eqb (key_of a) k) eqn:Ek; cbn [andb] in *.
  - assert (port a = p) as Hpa.
    { apply bool_decide_eq_true in Ek. by apply conn_key_inj in Ek as (? & _). }
    rewrite Hpa, Hc, Ht in Hcount. rewrite arrive_limited in E by (by rewrite Hpa, Hc).
    apply bool_decide_eq_true in Ek. rewrite Ek, Hpa, Hc in E. injection E as <- _.
    rewrite gt_int by (unfold two53 in *; lia).
    specialize (IH c'). rewrite Hcount in IH. destruct (Z.ltb_spec r (count_of c k + 1)); cbn [negb length]; lia.
  - rewrite Z.add_0_r in Hcount. rewrite <- Hcount. apply IH; lia.
Qed.

End rates.

(** The shared dictionary limits each source on each port by itself: of the
    connections of one source to one port in one window, exactly the first
    [rate] are allowed, whatever other sources, ports and windows do in
    between. *)
Theorem conn_rate_bounds_window {JS : JsEngine} (cfg_of : str -> access_cfg) p s w r l :
  let k := conn_key p s w in
  58 ∉ p -> Forall (fun a => 58 ∉ port a) l ->
  0 < r < two53 -> connRate (cfg_of p) = of_Z r -> Z.of_nat (length l) <= two53 ->
  Z.of_nat (length (allowed_for cfg_of k l (arrive_all cfg_of ∅ l))) =
  Z.min r (Z.of_nat (length (arrivals_for cfg_of k l))).
Proof.
  intros k Hp Hl Hr Hc Hn. unfold k. rewrite (allowed_count cfg_of p s w r l ∅); try done.
  unfold count_of. rewrite lookup_empty. simpl. lia.
Qed.

(** Two services with rates of their own, and a source that reconnects. *)
Definition two_services (p : str) : access_cfg :=
  {| service := p; banFile := []; connRate := of_Z (if str_eqb p (lit "22") then 1 else 2); connWindow := of_Z 60 |}.
Definition reconnects : list arrival :=
  [mk_arrival 60000 (lit "fd97::1") (lit "80"); mk_arrival 60100 (lit "fd97::1") (lit "22");
   mk_arrival 60200 (lit "fd97::1") (lit "80"); mk_arrival 60300 (lit "fd97::1") (lit "80");
   mk_arrival 119999 (lit "fd97::1") (lit "22"); mk_arrival 120000 (lit "fd97::1") (lit "22")].

Example reconnects_refused :
  arrive_all (JS := std_engine) two_services ∅ reconnects = [false; false; false; true; true; false].
Proof. vm_compute. reflexivity. Qed.

Lemma conn_rate_bounds_window_witness :
  let k := conn_key (JS := std_engine) (lit "80") (lit "fd97::1") (of_Z 1) in
  Z.of_nat (length (allowed_for (JS := std_engine) two_services k reconnects
                      (arrive_all (JS := std_engine) two_services ∅ reconnects))) =
  Z.min 2 (Z.of_nat (length (arrivals_for (JS := std_engine) two_services k reconnects))).
Proof.
  apply (conn_rate_bounds_window (JS := std_engine) two_services (lit "80") (lit "fd97::1") (of_Z 1) 2 reconnects).
  - apply (bool_decide_unpack _). vm_compute. exact I.
  - apply (bool_decide_unpack _). vm_compute. exact I.
  - unfold two53. lia.
  - vm_compute. reflexivity.
  - vm_compute. discriminate.
Defined.

(** ** The log *)

Lemma read_chars_stringify s rest :
  is_text s -> read_chars (concat (map stringify_char s) ++ 34 :: rest) = Some (s, rest).
Proof.
  induction 1 as [|c s Hc _ IH]; [done|]. cbn [map concat]. rewrite <- app_assoc.
  unfold stringify_char at 1. destruct (Z.eqb_spec c 8) as [->|]; [cbn; by rewrite IH|].
  destruct (Z.eqb_spec c 12) as [->|]; [cbn; by rewrite IH|].
  rewrite read_chars_escape by done. by rewrite IH.
Qed.

Lemma denotes_stringify s : is_text s -> denotes (stringify s) (JStr s).
Proof.
  intros Hs. split; [done|]. intros [|n] rest Hn _; [simpl in Hn; lia|].
  unfold stringify. rewrite <- !app_assoc. cbn [app read_value skip_ws].
  change (is_ws 34) with false. cbn iota. change (34 =? 34) with true. cbn iota.
  by rewrite read_chars_stringify.
Qed.

(** A name of a field: printed as it is. *)
Definition plain_name (k : str) : bool := forallb (fun c => is_char c && negb (c =? 8) && negb (c =? 12)) k.

Lemma stringify_name k : plain_name k = true -> is_text k /\ stringify k = push_str [] k.
Proof.
  unfold plain_name, stringify, push_str. induction k as [|c k IH]; [split; [constructor|done]|].
  cbn [forallb]. intros [[[Hc H8]%andb_true_iff H12]%andb_true_iff Hk]%andb_true_iff.
  destruct (IH Hk) as [Ht E]. split; [by constructor|].
  cbn [map concat]. unfold stringify_char at 1. apply negb_true_iff in H8 as ->, H12 as ->.
  cbn [app] in E |- *. injection E as E. apply app_inv_tail in E. by rewrite E.
Qed.

Lemma stringify_object_denotes l :
  Forall (fun kv => plain_name kv.1 = true /\ is_text kv.2) l ->
  denotes (stringify_object l) (JObj (map (fun kv => (kv.1, JStr kv.2)) l)).
Proof.
  intros Hl. set (ms := map (fun kv : str * str => stringify kv.1 ++ [58] ++ stringify kv.2) l).
  apply (denotes_obj {| buf := 123 :: sep ms; first := bool_decide (ms = []) |}).
  exists ms. split; [done|]. split; [done|]. unfold ms. apply Forall2_fmap.
  apply Forall_Forall2_diag. eapply Forall_impl; [exact Hl|]. intros [k v] [Hk Hv]. cbn [fst snd] in *.
  destruct (stringify_name k Hk) as [Hkt ->]. split; [done|]. exists (stringify v).
  split; [done|by apply denotes_stringify].
Qed.

(** No control character, so no line break. *)
Definition one_line (s : str) : Prop := Forall (fun c => 32 <= c) s.

Lemma stringify_char_line c : one_line (stringify_char c).
Proof.
  unfold stringify_char, escape, one_line.
  repeat (case_if; [repeat constructor; lia|]). case_if; bool_facts; [|by constructor].
  apply Forall_app. split; [repeat constructor; lia|].
  unfold format_hex_pad, pad_zero. apply Forall_app. split; [apply Forall_replicate; lia|].
  unfold format_hex, format_radix. apply List.Forall_map, Forall_reverse.
  eapply Forall_impl; [by apply digits_rev_digits|]. intros d Hd. cbv beta in Hd.
  unfold digit_char. case_if; lia.
Qed.

Lemma stringify_line s : one_line (stringify s).
Proof.
  unfold stringify, one_line. repeat (apply Forall_app; split); try (repeat constructor; lia).
  apply Forall_concat, List.Forall_map, Forall_true. apply stringify_char_line.
Qed.

Lemma sep_line l : Forall one_line l -> one_line (sep l).
Proof.
  induction 1 as [|x l Hx Hl IH]; [constructor|]. destruct l as [|y l]; [done|].
  rewrite sep_cons by done. apply Forall_app. split; [done|]. constructor; [lia|done].
Qed.

(** A verdict is one line whose JSON reads back as its six fields, in the
    documented order: nothing a client sends can break the line, add a field or
    alter one. *)
Theorem verdict_line_reads_back ts src service layer rule detail :
  Forall is_text [ts; src; service; layer; rule; detail] ->
  one_line (verdict_line ts src service layer rule detail) /\
  exists t, verdict_line ts src service layer rule detail = lit "shield-verdict " ++ t /\
    read_json t = Some (JObj
      [(lit "ts", JStr ts); (lit "src", JStr src);
       (lit "service", JStr (match service with [] => lit "unknown" | _ => service end));
       (lit "layer", JStr layer); (lit "rule", JStr rule); (lit "detail", JStr detail)]).
Proof.
  intros Ht. unfold verdict_line. split.
  - apply Forall_app. split; [by apply (bool_decide_unpack _); vm_compute|].
    unfold stringify_object. apply Forall_app. split; [repeat constructor; lia|].
    apply Forall_app. split; [|repeat constructor; lia].
    apply sep_line, List.Forall_map, Forall_true. intros [k v]. cbn [fst snd].
    apply Forall_app. split; [apply stringify_line|]. constructor; [lia|apply stringify_line].
  - eexists. split; [done|]. apply read_json_denotes.
    match goal with |- denotes (stringify_object ?l) _ => apply (stringify_object_denotes l) end.
    do 6 (apply Forall_cons in Ht as [? Ht]).
    assert (is_text (match service with [] => lit "unknown" | _ => service end)).
    { destruct service; [apply (bool_decide_unpack _); vm_compute; exact I|done]. }
    repeat match goal with |- Forall _ (_ :: _) => constructor; [split; [by vm_compute|done]|] end.
    constructor.
Qed.

Lemma verdict_line_reads_back_witness :
  let bad := quoted "x','rule':'none" ++ [10; 8; 12] in
  one_line (verdict_line (lit "t") (lit "fd97::1") [] (lit "ws") (lit "type-not-allowed") bad) /\
  exists t, verdict_line (lit "t") (lit "fd97::1") [] (lit "ws") (lit "type-not-allowed") bad
            = lit "shield-verdict " ++ t /\
    read_json t = Some (JObj
      [(lit "ts", JStr (lit "t")); (lit "src", JStr (lit "fd97::1")); (lit "service", JStr (lit "unknown"));
       (lit "layer", JStr (lit "ws")); (lit "rule", JStr (lit "type-not-allowed")); (lit "detail", JStr bad)]).
Proof.
  apply (verdict_line_reads_back (lit "t") (lit "fd97::1") [] (lit "ws") (lit "type-not-allowed")).
  apply (bool_decide_unpack _). vm_compute. exact I.
Defined.
