(* ===== verification/ShieldWs.v ===== *)
(** * WebSocket inspection: [src/core/njs/shield_ws.js]

    The stream filter in front of the relay: the handshake is buffered and
    classified, the client's WebSocket frames are reassembled into messages,
    and a message is forwarded only after it was inspected.  The functions keep
    the module's names.  The session's object [st], the buckets of [cfg] and
    the core's variables are one record [St], passed and returned; the rest of
    [cfg] never changes.  [wsFrame] throws on a payload of 64 KiB ([None]);
    nothing else the filter calls throws. *)
From Stdlib Require Import SpecFloat.
From S2P Require Import Prelude Prog Text Json JsonSpec Js ShieldCore.
Local Open Scope prog_scope.

Definition OP_CONT : Z := 0.
Definition OP_TEXT : Z := 1.
Definition OP_BIN : Z := 2.
Definition OP_CLOSE : Z := 8.

Definition MAX_HANDSHAKE : Z := 16384.
Definition DEFAULT_TYPES : str := lit "EVENT,REQ,CLOSE,COUNT,AUTH,NEG-OPEN,NEG-MSG,NEG-CLOSE".
Definition MAX_PENDING_FRAMES : Z := 256.
Definition MAX_FRAGMENTS : Z := 64.
Definition DEFAULT_MAX_HS_READS : Z := 32.
Definition MIN_MSG_READS : Z := 64.

Definition blen {A} (l : list A) : Z := Z.of_nat (length l).

(** ** Token buckets *)

Record bucket := mk_bucket { rate : number; burst : number; tokens : number; filled : Z }.

Definition new_bucket (rate burst : number) : prog njs bucket :=
  now <- call DateNow ;;
  Ret {| rate := rate; burst := burst; tokens := burst; filled := now |}.

Definition refilled (b : bucket) (now : Z) : number :=
  min (burst b) (add (tokens b) (mul (div (sub (of_Z now) (of_Z (filled b))) (of_Z 1000)) (rate b))).

Definition takeToken (b : bucket) : prog njs (bool * bucket) :=
  now <- call DateNow ;;
  let t := refilled b now in
  Ret (if lt t (of_Z 1)
       then (false, {| rate := rate b; burst := burst b; tokens := t; filled := now |})
       else (true, {| rate := rate b; burst := burst b; tokens := sub t (of_Z 1); filled := now |})).

(** ** Configuration and state *)

Record Cfg := mk_Cfg {
  service : str;
  banFile : str;
  banRecheck : number;
  maxMsg : number;
  maxSubs : number;
  maxFilters : number;
  maxFilterItems : number;
  maxLimit : number;
  maxFilterValue : number;
  requireNarrowing : bool;
  maxHsReads : number;
  maxMsgReads : number;
  types : gset str;
  kindDeny : gset str;
}.

Definition cfg_of (p : gmap str str) : Cfg :=
  {| service := or_else (p !! lit "service") (lit "unknown");
     banFile := or_else (p !! lit "ban_file") [];
     banRecheck := num (p !! lit "ban_recheck") (of_Z 10);
     maxMsg := num (p !! lit "ws_max_msg") (of_Z 131072);
     maxSubs := num (p !! lit "ws_max_subs") (of_Z 20);
     maxFilters := num (p !! lit "ws_max_filters") (of_Z 10);
     maxFilterItems := num (p !! lit "ws_max_filter_items") (of_Z 500);
     maxLimit := num (p !! lit "ws_max_limit") (of_Z 5000);
     maxFilterValue := num (p !! lit "ws_max_filter_value") (of_Z 512);
     requireNarrowing := negb (bool_decide (p !! lit "ws_require_narrowing" = Some (lit "false")));
     maxHsReads := num (p !! lit "ws_max_hs_reads") (of_Z DEFAULT_MAX_HS_READS);
     maxMsgReads := num (p !! lit "ws_max_msg_reads")
                      (add (ceil (div (num (p !! lit "ws_max_msg") (of_Z 131072)) (of_Z 1024)))
                         (of_Z MIN_MSG_READS));
     types := keyset (p !! lit "nostr_types") DEFAULT_TYPES;
     kindDeny := keyset (p !! lit "nostr_kind_deny") [] |}.

Inductive session_mode := Handshake | Ws | Plain.
#[export] Instance session_mode_eq_dec : EqDecision session_mode.
Proof. solve_decision. Defined.

Record St := mk_St {
  mode : session_mode;
  hs : bytes;
  hsReads : Z;
  hsScanned : Z;
  acc : bytes;
  chunks : list bytes;
  pendingLen : Z;
  need : Z;
  msgReads : Z;
  pending : list bytes;
  msgParts : list bytes;
  msgLen : Z;
  inMsg : bool;
  subs : gset str;
  subCount : Z;
  banCheckAt : number;
  checkedResponse : bool;
  killed : bool;
  bMsg : bucket;
  bEvent : bucket;
  bReq : bucket;
  core : vm;
}.

Definition set_mode (x : session_mode) (st : St) : St :=
  mk_St x (hs st) (hsReads st) (hsScanned st) (acc st) (chunks st) (pendingLen st) (need
    st) (msgReads st) (pending st) (msgParts st) (msgLen st) (inMsg st) (subs st)
    (subCount st) (banCheckAt st) (checkedResponse st) (killed st) (bMsg st) (bEvent st)
    (bReq st) (core st).
Definition set_hs (x : bytes) (st : St) : St :=
  mk_St (mode st) x (hsReads st) (hsScanned st) (acc st) (chunks st) (pendingLen st) (need
    st) (msgReads st) (pending st) (msgParts st) (msgLen st) (inMsg st) (subs st)
    (subCount st) (banCheckAt st) (checkedResponse st) (killed st) (bMsg st) (bEvent st)
    (bReq st) (core st).
Definition set_hsReads (x : Z) (st : St) : St :=
  mk_St (mode st) (hs st) x (hsScanned st) (acc st) (chunks st) (pendingLen st) (need st)
    (msgReads st) (pending st) (msgParts st) (msgLen st) (inMsg st) (subs st) (subCount
    st) (banCheckAt st) (checkedResponse st) (killed st) (bMsg st) (bEvent st) (bReq st)
    (core st).
Definition set_hsScanned (x : Z) (st : St) : St :=
  mk_St (mode st) (hs st) (hsReads st) x (acc st) (chunks st) (pendingLen st) (need st)
    (msgReads st) (pending st) (msgParts st) (msgLen st) (inMsg st) (subs st) (subCount
    st) (banCheckAt st) (checkedResponse st) (killed st) (bMsg st) (bEvent st) (bReq st)
    (core st).
Definition set_acc (x : bytes) (st : St) : St :=
  mk_St (mode st) (hs st) (hsReads st) (hsScanned st) x (chunks st) (pendingLen st) (need
    st) (msgReads st) (pending st) (msgParts st) (msgLen st) (inMsg st) (subs st)
    (subCount st) (banCheckAt st) (checkedResponse st) (killed st) (bMsg st) (bEvent st)
    (bReq st) (core st).
Definition set_chunks (x : list bytes) (st : St) : St :=
  mk_St (mode st) (hs st) (hsReads st) (hsScanned st) (acc st) x (pendingLen st) (need st)
    (msgReads st) (pending st) (msgParts st) (msgLen st) (inMsg st) (subs st) (subCount
    st) (banCheckAt st) (checkedResponse st) (killed st) (bMsg st) (bEvent st) (bReq st)
    (core st).
Definition set_pendingLen (x : Z) (st : St) : St :=
  mk_St (mode st) (hs st) (hsReads st) (hsScanned st) (acc st) (chunks st) x (need st)
    (msgReads st) (pending st) (msgParts st) (msgLen st) (inMsg st) (subs st) (subCount
    st) (banCheckAt st) (checkedResponse st) (killed st) (bMsg st) (bEvent st) (bReq st)
    (core st).
Definition set_need (x : Z) (st : St) : St :=
  mk_St (mode st) (hs st) (hsReads st) (hsScanned st) (acc st) (chunks st) (pendingLen st)
    x (msgReads st) (pending st) (msgParts st) (msgLen st) (inMsg st) (subs st) (subCount
    st) (banCheckAt st) (checkedResponse st) (killed st) (bMsg st) (bEvent st) (bReq st)
    (core st).
Definition set_msgReads (x : Z) (st : St) : St :=
  mk_St (mode st) (hs st) (hsReads st) (hsScanned st) (acc st) (chunks st) (pendingLen st)
    (need st) x (pending st) (msgParts st) (msgLen st) (inMsg st) (subs st) (subCount st)
    (banCheckAt st) (checkedResponse st) (killed st) (bMsg st) (bEvent st) (bReq st) (core
    st).
Definition set_pending (x : list bytes) (st : St) : St :=
  mk_St (mode st) (hs st) (hsReads st) (hsScanned st) (acc st) (chunks st) (pendingLen st)
    (need st) (msgReads st) x (msgParts st) (msgLen st) (inMsg st) (subs st) (subCount st)
    (banCheckAt st) (checkedResponse st) (killed st) (bMsg st) (bEvent st) (bReq st) (core
    st).
Definition set_msgParts (x : list bytes) (st : St) : St :=
  mk_St (mode st) (hs st) (hsReads st) (hsScanned st) (acc st) (chunks st) (pendingLen st)
    (need st) (msgReads st) (pending st) x (msgLen st) (inMsg st) (subs st) (subCount st)
    (banCheckAt st) (checkedResponse st) (killed st) (bMsg st) (bEvent st) (bReq st) (core
    st).
Definition set_msgLen (x : Z) (st : St) : St :=
  mk_St (mode st) (hs st) (hsReads st) (hsScanned st) (acc st) (chunks st) (pendingLen st)
    (need st) (msgReads st) (pending st) (msgParts st) x (inMsg st) (subs st) (subCount
    st) (banCheckAt st) (checkedResponse st) (killed st) (bMsg st) (bEvent st) (bReq st)
    (core st).
Definition set_inMsg (x : bool) (st : St) : St :=
  mk_St (mode st) (hs st) (hsReads st) (hsScanned st) (acc st) (chunks st) (pendingLen st)
    (need st) (msgReads st) (pending st) (msgParts st) (msgLen st) x (subs st) (subCount
    st) (banCheckAt st) (checkedResponse st) (killed st) (bMsg st) (bEvent st) (bReq st)
    (core st).
Definition set_subs (x : gset str) (st : St) : St :=
  mk_St (mode st) (hs st) (hsReads st) (hsScanned st) (acc st) (chunks st) (pendingLen st)
    (need st) (msgReads st) (pending st) (msgParts st) (msgLen st) (inMsg st) x (subCount
    st) (banCheckAt st) (checkedResponse st) (killed st) (bMsg st) (bEvent st) (bReq st)
    (core st).
Definition set_subCount (x : Z) (st : St) : St :=
  mk_St (mode st) (hs st) (hsReads st) (hsScanned st) (acc st) (chunks st) (pendingLen st)
    (need st) (msgReads st) (pending st) (msgParts st) (msgLen st) (inMsg st) (subs st) x
    (banCheckAt st) (checkedResponse st) (killed st) (bMsg st) (bEvent st) (bReq st) (core
    st).
Definition set_banCheckAt (x : number) (st : St) : St :=
  mk_St (mode st) (hs st) (hsReads st) (hsScanned st) (acc st) (chunks st) (pendingLen st)
    (need st) (msgReads st) (pending st) (msgParts st) (msgLen st) (inMsg st) (subs st)
    (subCount st) x (checkedResponse st) (killed st) (bMsg st) (bEvent st) (bReq st) (core
    st).
Definition set_checkedResponse (x : bool) (st : St) : St :=
  mk_St (mode st) (hs st) (hsReads st) (hsScanned st) (acc st) (chunks st) (pendingLen st)
    (need st) (msgReads st) (pending st) (msgParts st) (msgLen st) (inMsg st) (subs st)
    (subCount st) (banCheckAt st) x (killed st) (bMsg st) (bEvent st) (bReq st) (core st).
Definition set_killed (x : bool) (st : St) : St :=
  mk_St (mode st) (hs st) (hsReads st) (hsScanned st) (acc st) (chunks st) (pendingLen st)
    (need st) (msgReads st) (pending st) (msgParts st) (msgLen st) (inMsg st) (subs st)
    (subCount st) (banCheckAt st) (checkedResponse st) x (bMsg st) (bEvent st) (bReq st)
    (core st).
Definition set_bMsg (x : bucket) (st : St) : St :=
  mk_St (mode st) (hs st) (hsReads st) (hsScanned st) (acc st) (chunks st) (pendingLen st)
    (need st) (msgReads st) (pending st) (msgParts st) (msgLen st) (inMsg st) (subs st)
    (subCount st) (banCheckAt st) (checkedResponse st) (killed st) x (bEvent st) (bReq st)
    (core st).
Definition set_bEvent (x : bucket) (st : St) : St :=
  mk_St (mode st) (hs st) (hsReads st) (hsScanned st) (acc st) (chunks st) (pendingLen st)
    (need st) (msgReads st) (pending st) (msgParts st) (msgLen st) (inMsg st) (subs st)
    (subCount st) (banCheckAt st) (checkedResponse st) (killed st) (bMsg st) x (bReq st)
    (core st).
Definition set_bReq (x : bucket) (st : St) : St :=
  mk_St (mode st) (hs st) (hsReads st) (hsScanned st) (acc st) (chunks st) (pendingLen st)
    (need st) (msgReads st) (pending st) (msgParts st) (msgLen st) (inMsg st) (subs st)
    (subCount st) (banCheckAt st) (checkedResponse st) (killed st) (bMsg st) (bEvent st) x
    (core st).
Definition set_core (x : vm) (st : St) : St :=
  mk_St (mode st) (hs st) (hsReads st) (hsScanned st) (acc st) (chunks st) (pendingLen st)
    (need st) (msgReads st) (pending st) (msgParts st) (msgLen st) (inMsg st) (subs st)
    (subCount st) (banCheckAt st) (checkedResponse st) (killed st) (bMsg st) (bEvent st)
    (bReq st) x.

(** ** The handshake *)

(** The loop of [headerBlockEnd], at index [i] of the buffer. *)
Fixpoint block_end (i : Z) (b : bytes) : Z :=
  match b with
  | c :: ((d :: r) as b') =>
    if negb (c =? 10) then block_end (i + 1) b'
    else if d =? 10 then i + 2
    else if (d =? 13) && (match r with e :: _ => e =? 10 | [] => false end) then i + 3
    else block_end (i + 1) b'
  | _ => -1
  end.

(** A negative [from] starts at indices that hold nothing. *)
Definition headerBlockEnd (buf : bytes) (from : Z) : Z :=
  block_end (Z.max 0 from) (drop (Z.to_nat from) buf).

(** [prev] is the byte before. *)
Fixpoint bare_lf (prev : option Z) (b : bytes) : bool :=
  match b with
  | [] => false
  | c :: r => ((c =? 10) && negb (bool_decide (prev = Some 13))) || bare_lf (Some c) r
  end.

Definition hasBareLf (buf : bytes) (upto : Z) : bool := bare_lf None (take (Z.to_nat upto) buf).

Definition lower (c : char) : char := if in_range 65 90 c then c + 32 else c.

(** [/\r\nupgrade:[ \t]*websocket/i] at this position, and anywhere. *)
Definition upgrade_here (s : str) : bool :=
  match strip_prefix ([13; 10] ++ lit "upgrade:") s with
  | None => false
  | Some r =>
    starts_with (lit "websocket")
      ((fix skip r := match r with
                      | c :: r' => if (c =? 32) || (c =? 9) then skip r' else r
                      | [] => []
                      end) r)
  end.

Fixpoint upgrade_in (s : str) : bool :=
  upgrade_here s || match s with [] => false | _ :: r => upgrade_in r end.

Definition is_upgrade (head : str) : bool := upgrade_in (map lower head).

(** ** Injected frames *)

Definition wsFrame (op : Z) (payload : bytes) (masked : bool) : option bytes :=
  let len := blen payload in
  let bit := if masked then 128 else 0 in
  let mask := if masked then [0; 0; 0; 0] else [] in
  if len <? 126 then Some ([Z.lor 128 op; Z.lor len bit] ++ mask ++ payload)
  else if len <? 65536 then
    Some ([Z.lor 128 op; Z.lor 126 bit; Z.land (Z.shiftr len 8) 255; Z.land len 255] ++ mask ++ payload)
  else None.

Definition closeFrame (code : Z) (reason : str) (masked : bool) : option bytes :=
  wsFrame OP_CLOSE ([Z.land (Z.shiftr code 8) 255; Z.land code 255] ++ buffer_from reason) masked.

Definition notice (rule : str) : bytes :=
  buffer_from (stringify_array [lit "NOTICE"; lit "fips-shield: connection closed: " ++ rule]).

(** A frame that cannot be encoded throws: what is left of the callback is
    skipped (the handler of the exception calls [violate] on a session that is
    already killed). *)
Definition with_frame (f : option bytes) (st : St) (k : bytes -> prog njs St) : prog njs St :=
  match f with Some bs => k bs | None => Ret st end.

Definition flushing : option send_flags := Some {| last := false; flush_now := true |}.

(** The session's state once it is cut. *)
Definition cut (st : St) : St :=
  set_pendingLen 0 (set_chunks [] (set_msgParts [] (set_pending [] (set_killed true st)))).

Section engine.
Context {JS : JsEngine} (s : session) (cfg : Cfg).

Definition violate (rule : str) (detail : option str) (st : St) : prog njs St :=
  if killed st then Ret st
  else
    let st := cut st in
    verdict s (service cfg) (lit "ws") rule detail ;;;
    with_frame (wsFrame OP_TEXT (notice rule) false) st (fun f =>
      call (SendDownstream f) ;;;
      with_frame (closeFrame 1008 rule false) st (fun f =>
        call (SendDownstream f) ;;;
        with_frame (closeFrame 1008 rule true) st (fun f =>
          call (Send f flushing) ;;;
          Ret st))).

(** ** Filters *)

Definition NARROWING : list str :=
  [lit "ids"; lit "authors"; lit "kinds"; lit "since"; lit "until"; lit "search"].

Definition isNarrowing (ks : list str) : bool :=
  existsb (fun k => (match k with c :: _ => c =? 35 | [] => false end) || existsb (str_eqb k) NARROWING) ks.

(** A check that fails: rule and detail. *)
Definition fault : Type := str * str.

Definition complexity (detail : str) : option fault := Some (lit "filter-complexity", detail).

(** The first of a list of checks that fails. *)
Definition or_fault (a b : option fault) : option fault := match a with Some _ => a | None => b end.

Definition too_long (v : str) : option fault :=
  if gt (of_Z (string_length v)) (maxFilterValue cfg)
  then complexity (lit "value-len=" ++ to_string (string_length v)) else None.

Definition strings_fault (l : list value) : option fault :=
  foldr (fun v f => or_fault (match v with VStr x => too_long x | _ => None end) f) None l.

Definition value_fault (v : value) : option fault :=
  match v with
  | VArr l => strings_fault l
  | VStr x => too_long x
  | _ => None
  end.

Definition values_fault (l : list (str * value)) : option fault :=
  foldr (fun kv f => or_fault (value_fault kv.2) f) None l.

Definition limit_fault (l : list (str * value)) : option fault :=
  match get_prop l (lit "limit") with
  | Some (VNum n) => if gt n (maxLimit cfg) then complexity (lit "limit=" ++ num_to_string n) else None
  | _ => None
  end.

(** The items a filter counts for: its keys and the elements of its arrays. *)
Definition filter_items (l : list (str * value)) : Z :=
  blen l + foldr (fun kv n => (match kv.2 with VArr a => blen a | _ => 0 end) + n) 0 l.

Definition filter_fault (f : option value) : option fault :=
  match f with
  | Some (VObj l) =>
    or_fault (if requireNarrowing cfg && negb (isNarrowing (own_keys l))
              then complexity (lit "unbounded-filter") else None)
      (or_fault (limit_fault l) (values_fault l))
  | _ => Some (lit "malformed", lit "bad-filter")
  end.

Definition items_of (f : option value) : Z :=
  match f with Some (VObj l) => filter_items l | _ => 0 end.

(** The loop over the filters, with the items counted so far. *)
Fixpoint filters_loop (items : Z) (fs : list (option value)) : option fault :=
  match fs with
  | [] => if gt (of_Z items) (maxFilterItems cfg)
          then complexity (lit "items=" ++ to_string items) else None
  | f :: r => match filter_fault f with
              | Some e => Some e
              | None => filters_loop (items + items_of f) r
              end
  end.

Definition filters_fault (fs : list (option value)) : option fault :=
  if blen fs <? 1 then complexity (lit "no-filter")
  else if gt (of_Z (blen fs)) (maxFilters cfg)
  then complexity (lit "filters=" ++ to_string (blen fs))
  else filters_loop 0 fs.

(** [true] when it has closed the session. *)
Definition checkFilters (fs : list (option value)) (st : St) : prog njs (bool * St) :=
  match filters_fault fs with
  | Some (rule, detail) => st <- violate rule (Some detail) st ;; Ret (true, st)
  | None => Ret (false, st)
  end.

(** ** Messages *)

Definition bad_sub_id (v : option value) : bool :=
  match v with
  | Some (VStr x) => (string_length x <? 1) || (64 <? string_length x)
  | _ => true
  end.

(** [sid in st.subs], or it is opened if there is room. *)
Definition open_sub (sid : str) (st : St) : prog njs St :=
  if bool_decide (sid ∈ subs st) then Ret st
  else if ge (of_Z (subCount st)) (maxSubs cfg)
  then violate (lit "too-many-subs") (Some (lit "max=" ++ num_to_string (maxSubs cfg))) st
  else Ret (set_subCount (subCount st + 1) (set_subs ({[sid]} ∪ subs st) st)).

Definition inspect_event (msg : list value) (st : St) : prog njs St :=
  tb <- takeToken (bEvent st) ;;
  let '(ok, b) := (tb : bool * bucket) in
  let st := set_bEvent b st in
  if negb ok then violate (lit "event-rate") None st
  else
    match msg !! 1%nat with
    | Some (VObj l) =>
      match get_prop l (lit "kind") with
      | Some (VNum n) =>
        if bool_decide (num_to_string n ∈ kindDeny cfg)
        then violate (lit "kind-denied") (Some (lit "kind=" ++ num_to_string n)) st
        else Ret st
      | _ => violate (lit "malformed") (Some (lit "bad-event")) st
      end
    | _ => violate (lit "malformed") (Some (lit "bad-event")) st
    end.

(** The common part of REQ, COUNT and NEG-OPEN. *)
Definition inspect_query (fs : list (option value)) (opens : bool) (msg : list value) (st : St) : prog njs St :=
  tb <- takeToken (bReq st) ;;
  let '(ok, b) := (tb : bool * bucket) in
  let st := set_bReq b st in
  if negb ok then violate (lit "req-rate") None st
  else
    match msg !! 1%nat with
    | Some (VStr sid) =>
      if bad_sub_id (Some (VStr sid)) then violate (lit "malformed") (Some (lit "bad-subscription-id")) st
      else
        cs <- checkFilters fs st ;;
        let '(closed, st) := (cs : bool * St) in
        if closed then Ret st else if opens then open_sub sid st else Ret st
    | _ => violate (lit "malformed") (Some (lit "bad-subscription-id")) st
    end.

Definition inspect_auth (st : St) : prog njs St :=
  tb <- takeToken (bEvent st) ;;
  let '(ok, b) := (tb : bool * bucket) in
  let st := set_bEvent b st in
  if negb ok then violate (lit "event-rate") None st else Ret st.

Definition close_sub (msg : list value) (st : St) : St :=
  match msg !! 1%nat with
  | Some (VStr sid) =>
    if bool_decide (sid ∈ subs st)
    then let st := set_subs (subs st ∖ {[sid]}) st in
         if 0 <? subCount st then set_subCount (subCount st - 1) st else st
    else st
  | _ => st
  end.

Definition inspect (buf : bytes) (st : St) : prog njs St :=
  tb <- takeToken (bMsg st) ;;
  let '(ok, b) := (tb : bool * bucket) in
  let st := set_bMsg b st in
  if negb ok then violate (lit "msg-rate") None st
  else
    match json_parse (buffer_to_string buf) with
    | None => violate (lit "malformed") (Some (lit "bad-json")) st
    | Some (VArr ((VStr t :: _) as msg)) =>
      if negb (bool_decide (t ∈ types cfg)) then violate (lit "type-not-allowed") (Some t) st
      else if str_eqb t (lit "EVENT") then inspect_event msg st
      else if str_eqb t (lit "REQ") || str_eqb t (lit "COUNT")
      then inspect_query (map Some (drop 2 msg)) (str_eqb t (lit "REQ")) msg st
      else if str_eqb t (lit "NEG-OPEN") then inspect_query [msg !! 2%nat] true msg st
      else if str_eqb t (lit "AUTH") then inspect_auth st
      else if str_eqb t (lit "CLOSE") || str_eqb t (lit "NEG-CLOSE") then Ret (close_sub msg st)
      else Ret st
    | Some _ => violate (lit "malformed") (Some (lit "not-a-nostr-message")) st
    end.

(** ** Frames *)

Inductive frame_step :=
| More (n : Z)
| Bad (rule : str) (detail : option str)
| Frame (fin : bool) (op len : Z) (raw payload rest : bytes).

(** [payload[i] ^= key[i & 3]]. *)
Definition unmask (key payload : bytes) : bytes :=
  imap (fun i b => Z.lxor b (default 0 (key !! (i mod 4)%nat))) payload.

Definition big_endian (bs : bytes) : Z := foldl (fun a b => 256 * a + b) 0 bs.

(** The checks on a data frame, given the message it may continue. *)
Definition data_frame_fault (in_msg : bool) (msg_len op len : Z) : option (str * option str) :=
  if op =? OP_BIN then Some (lit "binary-frame", None)
  else if negb (op =? OP_TEXT) && negb (op =? OP_CONT)
  then Some (lit "protocol", Some (lit "opcode=" ++ to_string op))
  else if (op =? OP_TEXT) && in_msg then Some (lit "protocol", Some (lit "text-before-fin"))
  else if (op =? OP_CONT) && negb in_msg then Some (lit "protocol", Some (lit "unexpected-continuation"))
  else if gt (of_Z (msg_len + len)) (maxMsg cfg)
  then Some (lit "oversized-message", Some (lit "max=" ++ num_to_string (maxMsg cfg)))
  else None.

(** A frame of [len] bytes of payload, whose header without the masking key
    is the first [off] bytes. *)
Definition frame_at (in_msg : bool) (msg_len : Z) (fin : bool) (op len off : Z) (acc : bytes) : frame_step :=
  let bad := if 8 <=? op
             then if negb fin || (125 <? len) then Some (lit "protocol", Some (lit "bad-control-frame")) else None
             else data_frame_fault in_msg msg_len op len in
  match bad with
  | Some (rule, detail) => Bad rule detail
  | None =>
    let fend := off + 4 + len in
    if blen acc <? fend then More fend
    else Frame fin op len (take (Z.to_nat fend) acc)
           (unmask (take 4 (drop (Z.to_nat off) acc)) (take (Z.to_nat len) (drop (Z.to_nat (off + 4)) acc)))
           (drop (Z.to_nat fend) acc)
  end.

(** One turn of the loop of [pump], up to the frame it takes off [acc]. *)
Definition next_frame (in_msg : bool) (msg_len : Z) (acc : bytes) : frame_step :=
  match acc with
  | b0 :: b1 :: r =>
    let fin := negb (Z.land b0 128 =? 0) in
    let op := Z.land b0 15 in
    if negb (Z.land b0 112 =? 0) then Bad (lit "protocol") (Some (lit "rsv-bits-set"))
    else if Z.land b1 128 =? 0 then Bad (lit "protocol") (Some (lit "unmasked-client-frame"))
    else
      let len := Z.land b1 127 in
      if len =? 126 then
        if blen acc <? 4 then More 4
        else frame_at in_msg msg_len fin op (big_endian (take 2 r)) 4 acc
      else if len =? 127 then
        if blen acc <? 10 then More 10
        else if negb (big_endian (take 4 r) =? 0)
        then Bad (lit "oversized-message") (Some (lit "64bit-length"))
        else frame_at in_msg msg_len fin op (big_endian (take 4 (drop 4 r))) 10 acc
      else frame_at in_msg msg_len fin op len 2 acc
  | _ => More 2
  end.

Fixpoint send_all (l : list bytes) : prog njs unit :=
  match l with
  | [] => Ret tt
  | [x] => call (Send x flushing)
  | x :: r => call (Send x None) ;;; send_all r
  end.

Definition flush (st : St) : prog njs St := send_all (pending st) ;;; Ret (set_pending [] st).

(** A data frame: its message is inspected when it ends. *)
Definition data_frame (fin : bool) (len : Z) (payload : bytes) (st : St) : prog njs St :=
  let st := set_msgParts (msgParts st ++ [payload]) st in
  if MAX_FRAGMENTS <? blen (msgParts st)
  then violate (lit "frame-flood") (Some (lit "fragments=" ++ to_string (blen (msgParts st)))) st
  else
    let st := set_inMsg (negb fin) (set_msgLen (msgLen st + len) st) in
    if fin then
      let buf := concat (msgParts st) in
      st <- inspect buf (set_msgReads 0 (set_msgLen 0 (set_msgParts [] st))) ;;
      if killed st then Ret st else flush st
    else Ret st.

Definition take_frame (fin : bool) (op len : Z) (raw payload rest : bytes) (st : St) : prog njs St :=
  let st := set_pending (pending st ++ [raw]) (set_acc rest (set_need 2 st)) in
  if MAX_PENDING_FRAMES <? blen (pending st)
  then violate (lit "frame-flood") (Some (lit "pending=" ++ to_string (blen (pending st)))) st
  else if 8 <=? op then (if inMsg st then Ret st else flush st)
  else data_frame fin len payload st.

Fixpoint pump_loop (fuel : nat) (st : St) : prog njs St :=
  match fuel with
  | O => Ret st
  | S f =>
    if killed st then Ret st
    else
      match next_frame (inMsg st) (msgLen st) (acc st) with
      | More n => Ret (set_need n st)
      | Bad rule detail => violate rule detail st
      | Frame fin op len raw payload rest =>
        st <- take_frame fin op len raw payload rest st ;;
        pump_loop f st
      end
  end.

(** A frame takes at least six bytes. *)
Definition pump (st : St) : prog njs St := pump_loop (S (length (acc st))) st.

(** ** The callbacks *)

(** Arriving bytes in WebSocket mode: held until the parser can go on. *)
Definition feed (data : bytes) (st : St) : prog njs (St * bool) :=
  let st := set_pendingLen (pendingLen st + blen data) (set_chunks (chunks st ++ [data]) st) in
  if blen (acc st) + pendingLen st <? need st then Ret (st, false)
  else
    let st := set_pendingLen 0 (set_chunks [] (set_acc (acc st ++ concat (chunks st)) st)) in
    st <- pump st ;; Ret (st, true).

Definition on_frames (data : bytes) (st : St) : prog njs (St * bool) :=
  match data with
  | [] => Ret (st, true)
  | _ =>
    let st := set_msgReads (msgReads st + 1) st in
    if gt (of_Z (msgReads st)) (maxMsgReads cfg)
    then st <- violate (lit "frame-flood") (Some (lit "message-drip")) st ;; Ret (st, false)
    else feed data st
  end.

(** Once the header block is complete. *)
Definition classify (fend : Z) (st : St) : prog njs (St * bool) :=
  if hasBareLf (hs st) fend
  then st <- violate (lit "protocol") (Some (lit "bare-lf-in-handshake")) st ;; Ret (st, false)
  else
    let head := buffer_to_string (take (Z.to_nat fend) (hs st)) in
    let rest := drop (Z.to_nat fend) (hs st) in
    let st := set_hs [] st in
    call (Send (buffer_from head) None) ;;;
    if is_upgrade head
    then st <- pump (set_acc rest (set_mode Ws st)) ;; Ret (st, true)
    else
      let st := set_mode Plain st in
      match rest with
      | [] => Ret (st, true)
      | _ => call (Send rest None) ;;; Ret (st, true)
      end.

Definition on_handshake (data : bytes) (st : St) : prog njs (St * bool) :=
  match data with
  | [] => Ret (st, true)
  | _ =>
    let st := set_hsReads (hsReads st + 1) st in
    if gt (of_Z (hsReads st)) (maxHsReads cfg)
    then st <- violate (lit "protocol") (Some (lit "handshake-drip")) st ;; Ret (st, false)
    else
      let st := set_hs (hs st ++ data) st in
      if MAX_HANDSHAKE <? blen (hs st)
      then st <- violate (lit "oversized-handshake") None st ;; Ret (st, false)
      else
        let fend := headerBlockEnd (hs st) (hsScanned st - 2) in
        let st := set_hsScanned (blen (hs st)) st in
        if fend <? 0 then Ret (st, false) else classify fend st
  end.

(** The mid-session ban check; [true] when the session was cut. *)
Definition recheck_ban (st : St) : prog njs (St * bool) :=
  match mode st, banFile cfg with
  | Plain, _ | _, [] => Ret (st, false)
  | _, f =>
    now <- call DateNow ;;
    if ge (of_Z now) (banCheckAt st) then
      bv <- isBanned (remoteAddress s) f (core st) ;;
      let '(banned, v) := (bv : bool * vm) in
      let st := set_core v (set_banCheckAt (add (of_Z now) (mul (banRecheck cfg) (of_Z 1000))) st) in
      if banned then st <- violate (lit "banned") (Some (lit "session-cut")) st ;; Ret (st, true)
      else Ret (st, false)
    else Ret (st, false)
  end.

Definition last_of (flags : option send_flags) : bool :=
  match flags with Some f => last f | None => false end.

Definition onData (data : bytes) (flags : option send_flags) (st : St) : prog njs St :=
  if killed st then Ret st
  else
    r <- recheck_ban st ;;
    let '(st, closed) := (r : St * bool) in
    if closed then Ret st
    else
      match mode st with
      | Plain => call (Send data flags) ;;; Ret st
      | m =>
        r <- (match m with Handshake => on_handshake data st | _ => on_frames data st end) ;;
        let '(st, through) := (r : St * bool) in
        if through && last_of flags && negb (killed st)
        then call (Send [] (Some {| last := true; flush_now := false |})) ;;; Ret st
        else Ret st
      end.

(** [/^HTTP\/1\.[01] 101/]. *)
Definition is_101 (b : bytes) : bool :=
  let t := buffer_to_string (take 16 b) in
  starts_with (lit "HTTP/1.0 101") t || starts_with (lit "HTTP/1.1 101") t.

(** The callback on the upstream's bytes; its [s.send] goes to the client. *)
Definition onDownstream (data : bytes) (flags : option send_flags) (st : St) : prog njs St :=
  if bool_decide (mode st = Plain) && negb (checkedResponse st) && (0 <? blen data) then
    let st := set_checkedResponse true st in
    if is_101 data then violate (lit "protocol") (Some (lit "unclassified-upgrade")) st
    else call (Send data flags) ;;; Ret st
  else call (Send data flags) ;;; Ret st.

End engine.

(** [filter]: the configuration, and the state of a new session. *)
Definition filter (v : vm) : prog njs (Cfg * St) :=
  p <- policy ;;
  let cfg := cfg_of p in
  m <- new_bucket (num (p !! lit "ws_msg_rate") (of_Z 20)) (num (p !! lit "ws_msg_burst") (of_Z 100)) ;;
  e <- new_bucket (num (p !! lit "ws_event_rate") (of_Z 5)) (num (p !! lit "ws_event_burst") (of_Z 50)) ;;
  r <- new_bucket (num (p !! lit "ws_req_rate") (of_Z 5)) (num (p !! lit "ws_req_burst") (of_Z 20)) ;;
  now <- call DateNow ;;
  Ret (cfg,
       {| mode := Handshake; hs := []; hsReads := 0; hsScanned := 0; acc := []; chunks := [];
          pendingLen := 0; need := 2; msgReads := 0; pending := []; msgParts := []; msgLen := 0;
          inMsg := false; subs := ∅; subCount := 0;
          banCheckAt := add (of_Z now) (mul (banRecheck cfg) (of_Z 1000));
          checkedResponse := false; killed := false; bMsg := m; bEvent := e; bReq := r; core := v |}).
