(* ===== verification/WsFrames.v ===== *)
(** * Frames on the wire

    The frame parser of the WebSocket filter against RFC 6455: a client's
    frame is written independently here, the parser reads it back, and what
    the parser takes off the buffer is such a frame. *)
From Stdlib Require Import SpecFloat.
From S2P Require Import Prelude Prog Text Json JsonSpec Js JsStd ShieldCore ShieldWs.

(** ** A client's frame *)

(** The three ways to write a length, and those that fit. *)
Inductive length_form := Short | Medium | Long.

Definition form_fits (form : length_form) (n : Z) : Prop :=
  match form with Short => n < 126 | Medium => n < 65536 | Long => n < 4294967296 end.

Definition length_bytes (form : length_form) (n : Z) : bytes :=
  match form with
  | Short => [128 + n]
  | Medium => [254; n / 256; n mod 256]
  | Long => [255; 0; 0; 0; 0; n / 16777216; n / 65536 mod 256; n / 256 mod 256; n mod 256]
  end.

Definition client_frame (fin : bool) (op : Z) (form : length_form) (key payload : bytes) : bytes :=
  [(if fin then 128 else 0) + op] ++ length_bytes form (blen payload) ++ key ++ unmask key payload.

(** ** Bytes and bits *)

Lemma all_bytes (P : Z -> bool) :
  forallb P (map Z.of_nat (seq 0 256)) = true -> forall b, is_byte b = true -> P b = true.
Proof.
  intros H b Hb. rewrite forallb_forall in H. apply H, List.in_map_iff.
  exists (Z.to_nat b). unfold is_byte in Hb. split; [lia|]. apply List.in_seq. lia.
Qed.

(** The bits of the first byte of a frame without reserved bits. *)
Lemma first_byte b :
  is_byte b = true -> Z.land b 112 = 0 ->
  b = (if negb (Z.land b 128 =? 0) then 128 else 0) + Z.land b 15 /\ 0 <= Z.land b 15 < 16.
Proof.
  intros Hb H0.
  pose proof (all_bytes (fun b => negb (Z.land b 112 =? 0)
    || ((b =? (if negb (Z.land b 128 =? 0) then 128 else 0) + Z.land b 15)
        && (0 <=? Z.land b 15) && (Z.land b 15 <? 16))) eq_refl b Hb) as H.
  cbv beta in H. rewrite H0 in H. cbn [Z.eqb negb orb] in H. lia.
Qed.

(** Of the second byte of a masked one. *)
Lemma second_byte b :
  is_byte b = true -> Z.land b 128 <> 0 -> b = 128 + Z.land b 127 /\ 0 <= Z.land b 127 < 128.
Proof.
  intros Hb H0.
  pose proof (all_bytes (fun b => (Z.land b 128 =? 0)
    || ((b =? 128 + Z.land b 127) && (0 <=? Z.land b 127) && (Z.land b 127 <? 128))) eq_refl b Hb) as H.
  cbv beta in H. lia.
Qed.

Lemma length_unmask key p : length (unmask key p) = length p.
Proof. apply length_imap. Qed.

(** Masking twice is the identity. *)
Lemma unmask_unmask key p : unmask key (unmask key p) = p.
Proof.
  unfold unmask. apply list_eq. intros i. rewrite !list_lookup_imap.
  destruct (p !! i) as [b|]; [|done]. cbn [fmap option_fmap option_map].
  f_equal. by rewrite Z.lxor_assoc, Z.lxor_nilpotent, Z.lxor_0_r.
Qed.

(** ** The parser, step by step *)

Lemma blen_app {A} (a b : list A) : blen (a ++ b) = blen a + blen b.
Proof. unfold blen. rewrite length_app. lia. Qed.
Lemma blen_cons {A} (x : A) l : blen (x :: l) = 1 + blen l.
Proof. unfold blen. simpl. lia. Qed.
Lemma blen_nonneg {A} (l : list A) : 0 <= blen l.
Proof. unfold blen. lia. Qed.

Lemma take_app_short {A} n (a b : list A) : (n <= length a)%nat -> take n (a ++ b) = take n a.
Proof. intros. by rewrite take_app_le. Qed.
Lemma drop_app_short {A} n (a b : list A) : (n <= length a)%nat -> drop n (a ++ b) = drop n a ++ b.
Proof. intros. by rewrite drop_app_le. Qed.

Section frames.
Context {JS : JsEngine} (cfg : Cfg).

Abbreviation next_frame := (next_frame cfg).
Abbreviation frame_at := (frame_at cfg).

(** What [frame_at] does, by cases. *)
Lemma frame_at_cases in_msg msg_len fin op len off :
  (exists rule detail, forall acc' : bytes, frame_at in_msg msg_len fin op len off acc' = Bad rule detail) \/
  (forall acc' : bytes, frame_at in_msg msg_len fin op len off acc' =
     if blen acc' <? off + 4 + len then More (off + 4 + len)
     else Frame fin op len (take (Z.to_nat (off + 4 + len)) acc')
            (unmask (take 4 (drop (Z.to_nat off) acc')) (take (Z.to_nat len) (drop (Z.to_nat (off + 4)) acc')))
            (drop (Z.to_nat (off + 4 + len)) acc')).
Proof.
  unfold ShieldWs.frame_at. cbv zeta.
  match goal with |- context [match ?b with Some _ => _ | None => _ end] =>
    destruct b as [[r d]|]; [left; by exists r, d|by right] end.
Qed.

Lemma frame_at_app in_msg msg_len fin op len off acc x :
  0 <= len -> 0 <= off -> (Z.to_nat off <= length acc)%nat ->
  match frame_at in_msg msg_len fin op len off acc with
  | More n => n = off + 4 + len /\ blen acc < n /\
              (blen (acc ++ x) < n -> frame_at in_msg msg_len fin op len off (acc ++ x) = More n)
  | Bad r d => frame_at in_msg msg_len fin op len off (acc ++ x) = Bad r d
  | Frame f o l raw p rest =>
    frame_at in_msg msg_len fin op len off (acc ++ x) = Frame f o l raw p (rest ++ x) /\
    f = fin /\ o = op /\ l = len /\ raw ++ rest = acc /\ blen raw = off + 4 + len
  end.
Proof.
  intros Hl Ho Hacc. destruct (frame_at_cases in_msg msg_len fin op len off) as [(r & d & E)|E].
  { by rewrite !E. }
  rewrite !E. destruct (Z.ltb_spec (blen acc) (off + 4 + len)) as [Hlt|Hge].
  - split; [done|]. split; [done|]. intros Hx. by rewrite (proj2 (Z.ltb_lt _ _) Hx).
  - unfold blen in *. rewrite (proj2 (Z.ltb_ge _ _)) by (rewrite length_app; lia).
    rewrite !drop_app_short, !take_app_short by (rewrite ?length_drop; lia).
    split; [done|]. do 3 (split; [done|]). rewrite take_drop. split; [done|].
    rewrite length_take. lia.
Qed.

Lemma big_endian_nonneg bs : are_bytes bs -> 0 <= big_endian bs.
Proof.
  unfold big_endian. intros Hb. assert (H : forall a, 0 <= a -> 0 <= foldl (fun a b => 256 * a + b) a bs).
  { induction Hb as [|b bs Hb _ IH]; intros a Ha; [done|]. simpl. apply IH. unfold is_byte in Hb. lia. }
  by apply H.
Qed.

(** What the parser decides on a buffer it decides on every longer one. *)
Lemma next_frame_app in_msg msg_len acc x :
  are_bytes acc ->
  match next_frame in_msg msg_len acc with
  | More n => blen acc < n /\
              (blen (acc ++ x) < n -> next_frame in_msg msg_len (acc ++ x) = More n)
  | Bad r d => next_frame in_msg msg_len (acc ++ x) = Bad r d
  | Frame f o l raw p rest =>
    next_frame in_msg msg_len (acc ++ x) = Frame f o l raw p (rest ++ x) /\
    raw ++ rest = acc /\ 6 <= blen raw
  end.
Proof.
  intros Hb. destruct acc as [|b0 [|b1 r]].
  - split; [done|]. destruct x as [|? [|? ?]]; [done..|]. unfold blen. simpl. lia.
  - split; [done|]. destruct x as [|? ?]; [done|]. unfold blen. simpl. lia.
  - assert (Hr : are_bytes r) by (by do 2 apply Forall_cons in Hb as [_ Hb]).
    assert (Hat : forall fin op len off, 0 <= len -> 2 <= off -> (Z.to_nat off <= length (b0 :: b1 :: r))%nat ->
      match frame_at in_msg msg_len fin op len off (b0 :: b1 :: r) with
      | More n => blen (b0 :: b1 :: r) < n /\
          (blen ((b0 :: b1 :: r) ++ x) < n -> frame_at in_msg msg_len fin op len off ((b0 :: b1 :: r) ++ x) = More n)
      | Bad r' d => frame_at in_msg msg_len fin op len off ((b0 :: b1 :: r) ++ x) = Bad r' d
      | Frame f o l raw p rest =>
        frame_at in_msg msg_len fin op len off ((b0 :: b1 :: r) ++ x) = Frame f o l raw p (rest ++ x) /\
        raw ++ rest = b0 :: b1 :: r /\ 6 <= blen raw
      end).
    { intros fin op len off Hl Ho Hlen.
      pose proof (frame_at_app in_msg msg_len fin op len off _ x Hl ltac:(lia) Hlen) as H.
      destruct (frame_at _ _ _ _ _ _ (b0 :: b1 :: r)); [naive_solver..|].
      destruct H as (? & _ & _ & _ & ? & ?). split; [done|]. split; [done|lia]. }
    assert (Hx : forall n, blen (b0 :: b1 :: r) < n -> blen (b0 :: b1 :: r) < n) by done.
    unfold ShieldWs.next_frame. cbn [app]. cbn [app] in Hat. cbv zeta.
    destruct (negb (Z.land b0 112 =? 0)); [done|]. destruct (Z.land b1 128 =? 0) eqn:E1; [done|].
    assert (Hb1 : is_byte b1 = true) by (by do 2 apply Forall_cons in Hb as [? Hb]).
    apply Z.eqb_neq in E1. destruct (second_byte b1 Hb1 E1) as [_ H127].
    destruct (Z.land b1 127 =? 126); [|destruct (Z.land b1 127 =? 127)].
    + destruct (Z.ltb_spec (blen (b0 :: b1 :: r)) 4) as [Hlt|Hge].
      { split; [done|]. intros Hlt'. by rewrite (proj2 (Z.ltb_lt _ _) Hlt'). }
      unfold blen in Hge. simpl in Hge.
      rewrite (proj2 (Z.ltb_ge (blen (b0 :: b1 :: r ++ x)) 4)) by (unfold blen; simpl; rewrite length_app; lia).
      rewrite take_app_short by lia. apply Hat; [|lia|simpl; lia].
      by apply big_endian_nonneg, Forall_take.
    + destruct (Z.ltb_spec (blen (b0 :: b1 :: r)) 10) as [Hlt|Hge].
      { split; [done|]. intros Hlt'. by rewrite (proj2 (Z.ltb_lt _ _) Hlt'). }
      unfold blen in Hge. simpl in Hge.
      rewrite (proj2 (Z.ltb_ge (blen (b0 :: b1 :: r ++ x)) 10)) by (unfold blen; simpl; rewrite length_app; lia).
      rewrite drop_app_short, !take_app_short by (rewrite ?length_drop; lia).
      destruct (negb _); [done|]. apply Hat; [|lia|simpl; lia].
      by apply big_endian_nonneg, Forall_take, Forall_drop.
    + apply Hat; [lia..|simpl; lia].
Qed.

(** ** What is taken off the buffer *)

(** The checks a frame passes. *)
Definition frame_allowed (in_msg : bool) (msg_len : Z) (fin : bool) (op len : Z) : Prop :=
  if 8 <=? op then fin = true /\ len <= 125
  else data_frame_fault cfg in_msg msg_len op len = None.

Lemma frame_at_allowed in_msg msg_len fin op len off acc :
  frame_allowed in_msg msg_len fin op len ->
  frame_at in_msg msg_len fin op len off acc =
    if blen acc <? off + 4 + len then More (off + 4 + len)
    else Frame fin op len (take (Z.to_nat (off + 4 + len)) acc)
           (unmask (take 4 (drop (Z.to_nat off) acc)) (take (Z.to_nat len) (drop (Z.to_nat (off + 4)) acc)))
           (drop (Z.to_nat (off + 4 + len)) acc).
Proof.
  unfold frame_allowed, ShieldWs.frame_at. cbv zeta. destruct (8 <=? op).
  - intros [-> Hl]. by rewrite (proj2 (Z.ltb_ge 125 len)).
  - by intros ->.
Qed.

Lemma frame_at_not_bad in_msg msg_len fin op len off acc :
  (forall r d, frame_at in_msg msg_len fin op len off acc <> Bad r d) ->
  frame_allowed in_msg msg_len fin op len.
Proof.
  unfold frame_allowed, ShieldWs.frame_at. cbv zeta. destruct (8 <=? op).
  - destruct fin; simpl; [|intros H; by edestruct H]. destruct (Z.ltb_spec 125 len); [|done].
    intros Hn. by edestruct Hn.
  - destruct (data_frame_fault _ _ _ _ _) as [[r d]|]; [|done]. intros H. by edestruct H.
Qed.

Lemma frame_at_sound in_msg msg_len fin op len off acc f o l raw p rest :
  0 <= len -> 0 <= off ->
  frame_at in_msg msg_len fin op len off acc = Frame f o l raw p rest ->
  f = fin /\ o = op /\ l = len /\ blen p = len /\ frame_allowed in_msg msg_len fin op len /\
  exists key, length key = 4%nat /\ raw = take (Z.to_nat off) acc ++ key ++ unmask key p.
Proof.
  intros Hl Ho E. assert (Ha : frame_allowed in_msg msg_len fin op len).
  { eapply frame_at_not_bad. intros r d. by rewrite E. }
  rewrite frame_at_allowed in E by done.
  destruct (Z.ltb_spec (blen acc) (off + 4 + len)) as [|Hlen]; [done|].
  injection E as <- <- <- <- <- _. unfold blen in *.
  do 3 (split; [done|]). rewrite length_unmask, length_take, length_drop. split; [lia|]. split; [done|].
  exists (take 4 (drop (Z.to_nat off) acc)). rewrite length_take, length_drop. split; [lia|].
  rewrite unmask_unmask. replace (Z.to_nat (off + 4 + len)) with (Z.to_nat off + (4 + Z.to_nat len))%nat by lia.
  replace (Z.to_nat (off + 4)) with (Z.to_nat off + 4)%nat by lia.
  rewrite <- take_take_drop, <- take_take_drop, drop_drop. done.
Qed.

Lemma two_digits a b : is_byte a = true -> is_byte b = true ->
  let n := big_endian [a; b] in 0 <= n < 65536 /\ a = n / 256 /\ b = n mod 256.
Proof.
  unfold is_byte, big_endian. intros Ha Hb. cbn [foldl]. cbv zeta. split; [lia|].
  split; [apply (Z.div_unique _ _ _ b)|apply (Z.mod_unique _ _ a)]; lia.
Qed.

Lemma four_digits a b c d :
  is_byte a = true -> is_byte b = true -> is_byte c = true -> is_byte d = true ->
  let n := big_endian [a; b; c; d] in
  0 <= n < 4294967296 /\ a = n / 16777216 /\ b = n / 65536 mod 256 /\ c = n / 256 mod 256 /\ d = n mod 256.
Proof.
  unfold is_byte, big_endian. intros Ha Hb Hc Hd. cbn [foldl]. cbv zeta.
  set (n := 256 * (256 * (256 * (256 * 0 + a) + b) + c) + d).
  assert (E1 : n / 256 = 256 * (256 * a + b) + c) by (symmetry; apply (Z.div_unique _ _ _ d); lia).
  assert (E2 : n / 65536 = 256 * a + b) by (symmetry; apply (Z.div_unique _ _ _ (256 * c + d)); lia).
  split; [lia|]. split; [apply (Z.div_unique _ _ _ (65536 * b + 256 * c + d)); lia|].
  rewrite E1, E2. split; [apply (Z.mod_unique _ _ a); lia|].
  split; [apply (Z.mod_unique _ _ (256 * a + b)); lia|].
  apply (Z.mod_unique _ _ (65536 * a + 256 * b + c)); lia.
Qed.

Lemma next_frame_sound in_msg msg_len acc fin op len raw p rest :
  are_bytes acc -> next_frame in_msg msg_len acc = Frame fin op len raw p rest ->
  0 <= op < 16 /\ blen p = len /\ frame_allowed in_msg msg_len fin op len /\
  exists form key, length key = 4%nat /\ form_fits form len /\ raw = client_frame fin op form key p.
Proof.
  intros Hb. destruct acc as [|b0 [|b1 r]]; [done..|]. unfold ShieldWs.next_frame.
  apply Forall_cons in Hb as [H0 Hb]. apply Forall_cons in Hb as [H1 Hr].
  destruct (Z.eqb_spec (Z.land b0 112) 0) as [E0|]; [|done]. cbn [negb].
  destruct (Z.eqb_spec (Z.land b1 128) 0) as [|E1]; [done|].
  destruct (first_byte b0 H0 E0) as [Hb0 Hop], (second_byte b1 H1 E1) as [Hb1 Hlen]. cbv zeta.
  destruct (Z.eqb_spec (Z.land b1 127) 126) as [L|L]; [|destruct (Z.eqb_spec (Z.land b1 127) 127) as [L'|L']].
  - destruct (Z.ltb_spec (blen (b0 :: b1 :: r)) 4) as [|Hlt]; [done|]. intros E.
    destruct r as [|a [|b r]]; [unfold blen in Hlt; simpl in Hlt; lia..|]. cbn [take] in E. rewrite ?take_0 in E.
    apply Forall_cons in Hr as [Ha Hr]. apply Forall_cons in Hr as [Hb Hr].
    destruct (two_digits a b Ha Hb) as (Hn & Ea & Eb).
    apply frame_at_sound in E as (-> & -> & -> & Hp & Hal & key & Hk & ->); [|lia..].
    split; [done|]. split; [done|]. split; [done|]. exists Medium, key. split; [done|].
    split; [simpl; lia|]. unfold client_frame, length_bytes. rewrite Hp, <- Ea, <- Eb.
    replace 254 with b1 by lia. by rewrite <- Hb0.
  - destruct (Z.ltb_spec (blen (b0 :: b1 :: r)) 10) as [|Hlt]; [done|].
    destruct r as [|h1 [|h2 [|h3 [|h4 [|a [|b [|c [|d r]]]]]]]]; [unfold blen in Hlt; simpl in Hlt; lia..|].
    cbn [take drop]. rewrite ?take_0, ?drop_0. destruct (Z.eqb_spec (big_endian [h1; h2; h3; h4]) 0) as [E0'|]; [|done].
    cbn [negb]. intros E.
    do 8 (let H := fresh "Hd" in apply Forall_cons in Hr as [H Hr]).
    assert (h1 = 0 /\ h2 = 0 /\ h3 = 0 /\ h4 = 0) as (-> & -> & -> & ->).
    { unfold big_endian, is_byte in *. cbn [foldl] in E0'. lia. }
    destruct (four_digits a b c d) as (Hn & Ea & Eb & Ec & Ed); [done..|].
    apply frame_at_sound in E as (-> & -> & -> & Hp & Hal & key & Hk & ->); [|lia..].
    split; [done|]. split; [done|]. split; [done|]. exists Long, key. split; [done|].
    split; [simpl; lia|]. unfold client_frame, length_bytes. rewrite Hp, <- Ea, <- Eb, <- Ec, <- Ed.
    replace 255 with b1 by lia. by rewrite <- Hb0.
  - intros E. apply frame_at_sound in E as (-> & -> & -> & Hp & Hal & key & Hk & ->); [|lia..].
    split; [done|]. split; [done|]. split; [done|]. exists Short, key. split; [done|].
    split; [simpl; lia|]. unfold client_frame, length_bytes. rewrite Hp, <- Hb1, <- Hb0. done.
Qed.

(** ** What a client writes is read *)

Lemma first_byte_bits (fin : bool) op :
  0 <= op < 16 ->
  let b := (if fin then 128 else 0) + op in
  Z.land b 112 = 0 /\ Z.land b 15 = op /\ negb (Z.land b 128 =? 0) = fin.
Proof.
  intros Ho. replace op with (Z.of_nat (Z.to_nat op)) by lia.
  assert (Hn : (Z.to_nat op < 16)%nat) by lia. revert Hn. generalize (Z.to_nat op). intros n Hn.
  do 16 (destruct n as [|n]; [by destruct fin|]). lia.
Qed.

Lemma second_byte_bits n :
  0 <= n < 128 -> (Z.land (128 + n) 128 =? 0) = false /\ Z.land (128 + n) 127 = n.
Proof.
  intros Hn.
  pose proof (all_bytes (fun b => (b <? 128) || (negb (Z.land b 128 =? 0) && (Z.land b 127 =? b - 128)))
                eq_refl (128 + n)) as H.
  cbv beta in H. unfold is_byte in H. destruct (Z.land (128 + n) 128 =? 0); lia.
Qed.

Lemma big_endian_two n : 0 <= n -> big_endian [n / 256; n mod 256] = n.
Proof. intros. unfold big_endian. cbn [foldl]. pose proof (Z.div_mod n 256). lia. Qed.

Lemma big_endian_four n :
  0 <= n -> big_endian [n / 16777216; n / 65536 mod 256; n / 256 mod 256; n mod 256] = n.
Proof.
  intros. unfold big_endian. cbn [foldl].
  assert (E1 : n / 65536 = n / 256 / 256) by (by rewrite Z.div_div).
  assert (E2 : n / 16777216 = n / 256 / 256 / 256) by (by rewrite !Z.div_div).
  rewrite E1, E2. pose proof (Z.div_mod n 256). pose proof (Z.div_mod (n / 256) 256).
  pose proof (Z.div_mod (n / 256 / 256) 256). lia.
Qed.

Lemma frame_at_whole in_msg msg_len fin op off h key p rest :
  frame_allowed in_msg msg_len fin op (blen p) -> length key = 4%nat -> blen h = off -> 0 <= off ->
  frame_at in_msg msg_len fin op (blen p) off ((h ++ key ++ unmask key p) ++ rest) =
    Frame fin op (blen p) (h ++ key ++ unmask key p) p rest.
Proof.
  intros Ha Hk Hh Ho. rewrite frame_at_allowed by done.
  assert (Hlen : blen (h ++ key ++ unmask key p) = off + 4 + blen p).
  { rewrite !blen_app. unfold blen in *. rewrite length_unmask. lia. }
  rewrite (proj2 (Z.ltb_ge _ _)) by (rewrite blen_app; pose proof (blen_nonneg rest); lia).
  unfold blen in *.
  replace (Z.to_nat (off + 4 + Z.of_nat (length p))) with (length (h ++ key ++ unmask key p)) by lia.
  rewrite take_app_length, drop_app_length. f_equal.
  rewrite <- !app_assoc. replace (Z.to_nat (off + 4)) with (length h + 4)%nat by lia.
  replace (Z.to_nat off) with (length h) by lia.
  rewrite <- drop_drop, !drop_app_length. rewrite <- Hk at 1. rewrite take_app_length.
  rewrite <- Hk at 1. rewrite drop_app_length.
  rewrite Nat2Z.id, <- (length_unmask key p) at 1. by rewrite take_app_length, unmask_unmask.
Qed.

Lemma next_frame_whole in_msg msg_len fin op form key p rest :
  0 <= op < 16 -> length key = 4%nat -> form_fits form (blen p) ->
  frame_allowed in_msg msg_len fin op (blen p) ->
  next_frame in_msg msg_len (client_frame fin op form key p ++ rest) =
    Frame fin op (blen p) (client_frame fin op form key p) p rest.
Proof.
  intros Ho Hk Hf Ha. destruct (first_byte_bits fin op Ho) as (E0 & E15 & E128).
  pose proof (blen_nonneg p) as Hp. unfold client_frame at 1.
  set (b0 := (if fin then 128 else 0) + op) in *.
  assert (Hw : forall h off, blen h = off -> 0 <= off ->
    frame_at in_msg msg_len fin op (blen p) off ((h ++ key ++ unmask key p) ++ rest) =
    Frame fin op (blen p) (h ++ key ++ unmask key p) p rest).
  { intros. by apply frame_at_whole. }
  destruct form; cbn [length_bytes app]; unfold ShieldWs.next_frame; rewrite E0, E15, E128;
    cbn [Z.eqb negb]; cbv zeta; cbn [form_fits] in Hf.
  - destruct (second_byte_bits (blen p)) as [-> ->]; [lia|].
    rewrite !(proj2 (Z.eqb_neq _ _)) by lia. by apply (Hw [b0; 128 + blen p] 2).
  - change (Z.land 254 128 =? 0) with false. change (Z.land 254 127 =? 126) with true. cbv iota.
    rewrite (proj2 (Z.ltb_ge _ _)) by (rewrite !blen_cons; pose proof (blen_nonneg ((key ++ unmask key p) ++ rest)); lia).
    cbn [take app]. rewrite take_0, big_endian_two by done.
    by apply (Hw [b0; 254; blen p / 256; blen p mod 256] 4).
  - change (Z.land 255 128 =? 0) with false. change (Z.land 255 127 =? 126) with false.
    change (Z.land 255 127 =? 127) with true. cbv iota.
    rewrite (proj2 (Z.ltb_ge _ _)) by (rewrite !blen_cons; pose proof (blen_nonneg ((key ++ unmask key p) ++ rest)); lia).
    cbn [take drop app]. rewrite !take_0. change (big_endian [0; 0; 0; 0] =? 0) with true. cbn [negb].
    rewrite big_endian_four by done.
    by apply (Hw [b0; 255; 0; 0; 0; 0; blen p / 16777216; blen p / 65536 mod 256; blen p / 256 mod 256; blen p mod 256] 10).
Qed.

End frames.
