(* ===== verification/WsSegments.v ===== *)
(** * Segments do not matter

    The client chooses how its bytes are cut into segments.  The loop of the
    parser ends, and what the filter does with a stream of frames is the same
    however the stream is cut: the same calls in the same order, whatever they
    answer. *)
From Stdlib Require Import SpecFloat FunctionalExtensionality.
From S2P Require Import Prelude Prog Text Json JsonSpec Js JsStd ShieldCore ShieldWs WsFrames.
Local Open Scope prog_scope.

(** Another buffer and another count to wait for. *)
Definition rebuf (x : bytes) (n : Z) (st : St) : St := set_need n (set_acc x st).

Section segments.
Context {JS : JsEngine} (s : session) (cfg : Cfg).

Abbreviation violate := (violate s cfg).
Abbreviation inspect := (inspect s cfg).
Abbreviation take_frame := (take_frame s cfg).
Abbreviation pump_loop := (pump_loop s cfg).
Abbreviation pump := (pump s cfg).
Abbreviation feed := (feed s cfg).

(** An update of fields that the inspection of a message does not look at. *)
Record steady (u : St -> St) : Prop := {
  steady_killed st : killed (u st) = killed st;
  steady_subs st : subs (u st) = subs st;
  steady_subCount st : subCount (u st) = subCount st;
  steady_bMsg st : bMsg (u st) = bMsg st;
  steady_bEvent st : bEvent (u st) = bEvent st;
  steady_bReq st : bReq (u st) = bReq st;
  steady_cut st : cut (u st) = u (cut st);
  steady_set_bMsg b st : set_bMsg b (u st) = u (set_bMsg b st);
  steady_set_bEvent b st : set_bEvent b (u st) = u (set_bEvent b st);
  steady_set_bReq b st : set_bReq b (u st) = u (set_bReq b st);
  steady_set_subs x st : set_subs x (u st) = u (set_subs x st);
  steady_set_subCount x st : set_subCount x (u st) = u (set_subCount x st);
}.

(** [f] neither looks at what [u] updates nor changes it. *)
Definition commutes (u : St -> St) (f : St -> prog njs St) : Prop :=
  forall st, f (u st) = (st' <- f st ;; Ret (u st')).

Section steady.
Context (u : St -> St) (Hu : steady u).

Lemma commutes_violate rule detail : commutes u (violate rule detail).
Proof.
  intros st. unfold ShieldWs.violate. rewrite (steady_killed u Hu), (steady_cut u Hu).
  destruct (killed st); [done|]. rewrite bind_bind. apply bind_ext. intros [].
  unfold with_frame. repeat (case_match; simpl; [|done]); try done.
  all: f_equal; apply functional_extensionality; intros []; simpl; try done.
Qed.

(** Token buckets are state of their own. *)
Lemma commutes_take (get : St -> bucket) (k : bool * bucket -> St -> prog njs St) :
  (forall st, get (u st) = get st) -> (forall r, commutes u (k r)) ->
  commutes u (fun st => r <- takeToken (get st) ;; k r st).
Proof.
  intros Hg Hk st. rewrite Hg. unfold takeToken. rewrite !bind_bind. apply bind_ext.
  intros now. simpl. apply Hk.
Qed.

Lemma commutes_open_sub sid : commutes u (open_sub s cfg sid).
Proof.
  intros st. unfold open_sub. rewrite (steady_subs u Hu), (steady_subCount u Hu).
  case_bool_decide; [done|]. case_match; [apply commutes_violate|].
  by rewrite (steady_set_subs u Hu), (steady_set_subCount u Hu).
Qed.

Lemma commutes_event msg : commutes u (inspect_event s cfg msg).
Proof.
  unfold inspect_event. apply commutes_take; [apply Hu|]. intros [ok b] st. cbv beta iota zeta.
  rewrite (steady_set_bEvent u Hu). repeat (case_match; try apply commutes_violate); done.
Qed.

Lemma commutes_auth : commutes u (inspect_auth s cfg).
Proof.
  unfold inspect_auth. apply commutes_take; [apply Hu|]. intros [ok b] st. cbv beta iota zeta.
  rewrite (steady_set_bEvent u Hu). case_match; [apply commutes_violate|done].
Qed.

Lemma commutes_query fs opens msg : commutes u (inspect_query s cfg fs opens msg).
Proof.
  unfold inspect_query. apply commutes_take; [apply Hu|]. intros [ok b] st. cbv beta iota zeta.
  rewrite (steady_set_bReq u Hu). generalize (set_bReq b st). clear st b.
  intros st. unfold checkFilters.
  destruct (negb ok); [apply commutes_violate|].
  destruct (msg !! 1%nat) as [[]|]; try apply commutes_violate.
  destruct (bad_sub_id _); [apply commutes_violate|].
  destruct (filters_fault cfg fs) as [[r d]|].
  - rewrite !bind_bind, commutes_violate, bind_bind. apply bind_ext. done.
  - simpl. destruct opens; [apply commutes_open_sub|done].
Qed.

Lemma close_sub_steady msg st : close_sub msg (u st) = u (close_sub msg st).
Proof.
  unfold close_sub. destruct (msg !! 1%nat) as [[]|]; try done.
  rewrite (steady_subs u Hu). case_bool_decide; [|done]. cbv zeta.
  rewrite (steady_set_subs u Hu), (steady_subCount u Hu). case_match; [|done].
  by rewrite (steady_set_subCount u Hu).
Qed.

Lemma commutes_inspect buf : commutes u (inspect buf).
Proof.
  unfold ShieldWs.inspect. apply commutes_take; [apply Hu|]. intros [ok b] st. cbv beta iota zeta.
  rewrite (steady_set_bMsg u Hu). generalize (set_bMsg b st). clear st b.
  intros st. destruct (negb ok); [apply commutes_violate|].
  destruct (json_parse _) as [[]|]; try apply commutes_violate.
  destruct l as [|[] l]; try apply commutes_violate.
  repeat (case_match; [first [apply commutes_violate|apply commutes_event|apply commutes_query|apply commutes_auth|
    simpl; by rewrite close_sub_steady]|]). done.
Qed.

End steady.

Lemma steady_rebuf x n : steady (rebuf x n).
Proof. by split. Qed.

(** [f] does not look at the buffer. *)
Definition unbuffered (f : St -> prog njs St) : Prop :=
  forall x n st, f (rebuf x n st) = (st' <- f st ;; Ret (rebuf x n st')).

Lemma unbuffered_violate rule detail : unbuffered (violate rule detail).
Proof. intros x n. apply commutes_violate, steady_rebuf. Qed.

Lemma unbuffered_inspect buf : unbuffered (inspect buf).
Proof. intros x n. apply commutes_inspect, steady_rebuf. Qed.

Lemma unbuffered_flush : unbuffered flush.
Proof.
  intros x n st. unfold flush. change (pending (rebuf x n st)) with (pending st).
  rewrite bind_bind. by apply bind_ext.
Qed.

Lemma unbuffered_data_frame fin len payload : unbuffered (data_frame s cfg fin len payload).
Proof.
  intros x n st. unfold data_frame. cbv zeta.
  change (set_msgParts (msgParts (rebuf x n st) ++ [payload]) (rebuf x n st))
    with (rebuf x n (set_msgParts (msgParts st ++ [payload]) st)).
  generalize (set_msgParts (msgParts st ++ [payload]) st). clear st. intros st.
  change (msgParts (rebuf x n st)) with (msgParts st).
  case_match; [apply unbuffered_violate|]. destruct fin; [|done].
  match goal with |- context [concat ?l] => change l with (msgParts st) end.
  rewrite bind_bind.
  match goal with |- context [inspect ?b ?t] =>
    change t with (rebuf x n (set_msgReads 0 (set_msgLen 0 (set_msgParts [] (set_inMsg (negb true) (set_msgLen (msgLen st + len) st)))))) end.
  rewrite unbuffered_inspect, bind_bind. apply bind_ext. intros st'. simpl.
  change (killed (rebuf x n st')) with (killed st'). destruct (killed st'); [done|apply unbuffered_flush].
Qed.

(** [take_frame] but for the buffer it leaves. *)
Definition held (fin : bool) (op len : Z) (raw payload : bytes) (st : St) : prog njs St :=
  let st := set_pending (pending st ++ [raw]) st in
  if MAX_PENDING_FRAMES <? blen (pending st)
  then violate (lit "frame-flood") (Some (lit "pending=" ++ to_string (blen (pending st)))) st
  else if 8 <=? op then (if inMsg st then Ret st else flush st)
  else data_frame s cfg fin len payload st.

Lemma take_frame_held fin op len raw payload rest st :
  take_frame fin op len raw payload rest st =
  (st' <- held fin op len raw payload st ;; Ret (rebuf rest 2 st')).
Proof.
  unfold ShieldWs.take_frame, held. cbv zeta.
  match goal with |- context [violate _ _ ?t] =>
    change t with (rebuf rest 2 (set_pending (pending st ++ [raw]) st)) end.
  generalize (set_pending (pending st ++ [raw]) st). clear st. intros st.
  change (pending (rebuf rest 2 st)) with (pending st). change (inMsg (rebuf rest 2 st)) with (inMsg st).
  case_match; [apply unbuffered_violate|]. case_match; [|apply unbuffered_data_frame].
  destruct (inMsg st); [done|apply unbuffered_flush].
Qed.

Lemma pump_loop_step f st :
  pump_loop (S f) st =
  if killed st then Ret st
  else match next_frame cfg (inMsg st) (msgLen st) (acc st) with
       | More n => Ret (set_need n st)
       | Bad rule detail => violate rule detail st
       | Frame fin op len raw payload rest =>
         st' <- held fin op len raw payload st ;; pump_loop f (rebuf rest 2 st')
       end.
Proof.
  cbn [ShieldWs.pump_loop]. destruct (killed st); [done|]. destruct (next_frame _ _ _ _); [done..|].
  by rewrite take_frame_held, bind_bind.
Qed.

(** ** What the inspection leaves alone *)

(** [P] only looks at other fields than those a message changes. *)
Definition stable (P : St -> Prop) : Prop := forall st, P st ->
  P (cut st) /\ (forall b, P (set_bMsg b st)) /\ (forall b, P (set_bEvent b st)) /\
  (forall b, P (set_bReq b st)) /\ (forall x, P (set_subs x st)) /\ (forall x, P (set_subCount x st)) /\
  (forall x, P (set_pending x st)) /\ (forall x, P (set_msgParts x st)) /\
  P (set_msgReads 0 st) /\ (forall x, P (set_msgLen x st)) /\ (forall x, P (set_inMsg x st)).

Ltac stable_tac := match goal with H : stable ?P |- ?P _ => eapply H end.

Section stable.
Context (P : St -> Prop) (HP : stable P).

Lemma stable_violate rule detail st : P st -> returns P (violate rule detail st).
Proof.
  intros H. unfold ShieldWs.violate. destruct (killed st); [done|].
  destruct (HP st H) as (Hc & _). cbv zeta. apply returns_bind, returns_true. intros _. unfold with_frame.
  destruct (wsFrame _ _ _); [|exact Hc]. apply returns_bind, returns_true. intros _.
  destruct (closeFrame _ _ _); [|exact Hc]. apply returns_bind, returns_true. intros _.
  destruct (closeFrame _ _ _); [|exact Hc]. apply returns_bind, returns_true. intros _. exact Hc.
Qed.

Lemma stable_take (b : bucket) (k : bool * bucket -> prog njs St) :
  (forall r, returns P (k r)) -> returns P (r <- takeToken b ;; k r).
Proof. intros Hk. apply returns_bind, returns_true. exact Hk. Qed.

Lemma stable_query fs opens msg st : P st -> returns P (inspect_query s cfg fs opens msg st).
Proof.
  intros H. unfold inspect_query. apply stable_take. intros [ok b]. cbv beta iota zeta.
  assert (H' : P (set_bReq b st)) by (destruct (HP st H) as (? & ? & ? & ? & ?); auto).
  clear H. generalize dependent (set_bReq b st). intros st' H. unfold checkFilters.
  destruct (negb ok); [by apply stable_violate|].
  destruct (msg !! 1%nat) as [[]|]; try by apply stable_violate.
  destruct (bad_sub_id _); [by apply stable_violate|].
  apply returns_bind. destruct (filters_fault cfg fs) as [[r d]|].
  - apply returns_bind. eapply returns_mono; [|by apply stable_violate]. done.
  - simpl. destruct opens; [|done]. unfold open_sub. case_bool_decide; [done|].
    case_match; [by apply stable_violate|]. simpl.
    destruct (HP st' H) as (_ & _ & _ & _ & Hs & _). pose proof (Hs ({[s0]} ∪ subs st')) as H2.
    destruct (HP _ H2) as (_ & _ & _ & _ & _ & Hn & _). apply Hn.
Qed.

Lemma stable_close msg st : P st -> P (close_sub msg st).
Proof.
  intros H. unfold close_sub. destruct (msg !! 1%nat) as [[| | |sid| |]|]; try done.
  case_bool_decide; [|done]. cbv zeta.
  assert (Hs : P (set_subs (subs st ∖ {[sid]}) st)) by apply HP, H.
  case_match; [apply HP, Hs|exact Hs].
Qed.

Lemma stable_inspect buf st : P st -> returns P (inspect buf st).
Proof.
  intros H. unfold ShieldWs.inspect. apply stable_take. intros [ok b]. cbv beta iota zeta.
  assert (H' : P (set_bMsg b st)) by (destruct (HP st H) as (? & ? & ?); auto).
  clear H. generalize dependent (set_bMsg b st). intros st' H.
  assert (He : forall b, P (set_bEvent b st')) by (destruct (HP st' H) as (? & ? & ? & ?); auto).
  destruct (negb ok); [by apply stable_violate|].
  destruct (json_parse _) as [[]|]; try by apply stable_violate.
  destruct l as [|[] l]; try by apply stable_violate.
  case_match; [by apply stable_violate|].
  case_match.
  { unfold inspect_event. apply stable_take. intros [ok' b']. cbv beta iota zeta.
    repeat (case_match; try by apply stable_violate). apply He. }
  case_match; [by apply stable_query|]. case_match; [by apply stable_query|].
  case_match.
  { unfold inspect_auth. apply stable_take. intros [ok' b']. cbv beta iota zeta.
    case_match; [by apply stable_violate|apply He]. }
  case_match; [|done]. by apply stable_close.
Qed.

Lemma stable_flush st : P st -> returns P (flush st).
Proof.
  intros H. unfold flush. apply returns_bind, returns_true. intros _. simpl.
  destruct (HP st H) as (_ & _ & _ & _ & _ & _ & Hp & _). apply Hp.
Qed.

Lemma stable_data_frame fin len payload st : P st -> returns P (data_frame s cfg fin len payload st).
Proof.
  intros H. unfold data_frame. cbv zeta.
  assert (Hp : forall x st, P st -> P (set_msgParts x st)) by (intros x st' H'; destruct (HP st' H') as (? & ? & ? & ? & ? & ? & ? & ? & ?); auto).
  assert (Hl : forall x st, P st -> P (set_msgLen x st)) by (intros x st' H'; apply HP, H').
  assert (Hi : forall x st, P st -> P (set_inMsg x st)) by (intros x st' H'; apply HP, H').
  assert (Hr : forall st, P st -> P (set_msgReads 0 st)) by (intros st' H'; apply HP, H').
  case_match; [apply stable_violate; auto|]. destruct fin; [|simpl; auto 6].
  apply returns_bind. eapply returns_mono; [|apply stable_inspect; auto 8].
  intros st' H'. destruct (killed st'); [done|by apply stable_flush].
Qed.

Lemma stable_held fin op len raw payload st : P st -> returns P (held fin op len raw payload st).
Proof.
  intros H. unfold held. cbv zeta.
  assert (Hp : P (set_pending (pending st ++ [raw]) st)) by apply HP, H.
  case_match; [by apply stable_violate|]. case_match; [|by apply stable_data_frame].
  case_match; [done|by apply stable_flush].
Qed.

End stable.

(** ** The loop ends *)

Lemma violate_kills rule detail st : returns (fun st' => killed st' = true) (violate rule detail st).
Proof.
  unfold ShieldWs.violate. destruct (killed st) eqn:E; [done|]. cbv zeta.
  apply returns_bind, returns_true. intros _. unfold with_frame.
  destruct (wsFrame _ _ _); [|done]. apply returns_bind, returns_true. intros _.
  destruct (closeFrame _ _ _); [|done]. apply returns_bind, returns_true. intros _.
  destruct (closeFrame _ _ _); [|done]. apply returns_bind, returns_true. done.
Qed.

(** The session is cut, or the parser waits for [need] bytes. *)
Definition settled (st : St) : Prop :=
  killed st = true \/ next_frame cfg (inMsg st) (msgLen st) (acc st) = More (need st).

Lemma pump_loop_settles (P : St -> Prop) :
  stable P -> (forall x n st, P st -> P (rebuf x n st)) ->
  forall fuel st, (length (acc st) < fuel)%nat -> are_bytes (acc st) -> P st ->
  returns (fun st' => P st' /\ (killed st' = true \/ are_bytes (acc st')) /\ settled st') (pump_loop fuel st).
Proof.
  intros HP Hre. induction fuel as [|f IH]; intros st Hf Hb HPst; [lia|].
  rewrite pump_loop_step. destruct (killed st) eqn:Ek; [split; [done|]; split; by left|].
  pose proof (next_frame_app cfg (inMsg st) (msgLen st) (acc st) [] Hb) as Hn.
  destruct (next_frame cfg (inMsg st) (msgLen st) (acc st)) as [n|r d|fin op len raw payload rest] eqn:En.
  - split; [by apply (Hre (acc st) n)|]. split; [by right|]. by right.
  - eapply returns_mono; [|apply returns_conj; [by apply (stable_violate P HP)|apply violate_kills]].
    intros st' [HP' Hk]. split; [done|]. split; by left.
  - destruct Hn as (_ & Hacc & Hraw). apply returns_bind.
    eapply returns_mono; [|by apply (stable_held P HP)]. intros st' HP'. apply IH.
    + change (acc (rebuf rest 2 st')) with rest. rewrite <- Hacc, length_app in Hf. unfold blen in Hraw. lia.
    + change (acc (rebuf rest 2 st')) with rest. rewrite <- Hacc in Hb. by apply Forall_app in Hb as [_ ?].
    + by apply Hre.
Qed.

(** More fuel changes nothing. *)
Lemma pump_loop_fuel f : forall f' st,
  are_bytes (acc st) -> (length (acc st) < f)%nat -> (length (acc st) < f')%nat ->
  pump_loop f st = pump_loop f' st.
Proof.
  induction f as [|f IH]; intros f' st Hb Hf Hf'; [lia|]. destruct f' as [|f']; [lia|].
  rewrite !pump_loop_step. destruct (killed st); [done|].
  pose proof (next_frame_app cfg (inMsg st) (msgLen st) (acc st) [] Hb) as Hn.
  destruct (next_frame cfg (inMsg st) (msgLen st) (acc st)) as [n|r d|fin op len raw payload rest]; [done..|].
  destruct Hn as (_ & Hacc & Hraw). apply bind_ext. intros st'.
  rewrite <- Hacc in Hb. apply Forall_app in Hb as [_ Hb].
  rewrite <- Hacc, length_app in Hf, Hf'. unfold blen in Hraw.
  apply IH; change (acc (rebuf rest 2 st')) with rest; [done|lia..].
Qed.

(** ** Cutting the stream *)

(** What is left of a state once the session is cut: the buffer is not read
    again. *)
Definition final (st : St) : St := if killed st then rebuf [] 0 st else st.

Lemma violate_final rule detail x n st :
  (st' <- violate rule detail (rebuf x n st) ;; Ret (final st')) =
  (st' <- violate rule detail st ;; Ret (final st')).
Proof.
  rewrite unbuffered_violate, bind_bind. eapply bind_returns; [apply violate_kills|].
  intros st' Hk. simpl. unfold final. change (killed (rebuf x n st')) with (killed st'). by rewrite Hk.
Qed.

Lemma unbuffered_held fin op len raw payload : unbuffered (held fin op len raw payload).
Proof.
  intros x n st. unfold held. cbv zeta.
  change (pending (rebuf x n st)) with (pending st).
  change (set_pending (pending st ++ [raw]) (rebuf x n st)) with (rebuf x n (set_pending (pending st ++ [raw]) st)).
  generalize (set_pending (pending st ++ [raw]) st). clear st. intros st.
  change (pending (rebuf x n st)) with (pending st). change (inMsg (rebuf x n st)) with (inMsg st).
  case_match; [apply unbuffered_violate|]. case_match; [|apply unbuffered_data_frame].
  destruct (inMsg st); [done|apply unbuffered_flush].
Qed.

(** The count waited for does not matter to the loop. *)
Lemma pump_loop_need f x n m st :
  (length x < f)%nat ->
  (st' <- pump_loop f (rebuf x n st) ;; Ret (final st')) =
  (st' <- pump_loop f (rebuf x m st) ;; Ret (final st')).
Proof.
  destruct f as [|f]; [lia|]. intros _. rewrite !pump_loop_step.
  change (killed (rebuf x n st)) with (killed st). change (killed (rebuf x m st)) with (killed st).
  destruct (killed st) eqn:Ek; [unfold final; simpl; by rewrite Ek|].
  change (inMsg (rebuf x n st)) with (inMsg st). change (inMsg (rebuf x m st)) with (inMsg st).
  change (msgLen (rebuf x n st)) with (msgLen st). change (msgLen (rebuf x m st)) with (msgLen st).
  change (acc (rebuf x n st)) with x. change (acc (rebuf x m st)) with x.
  destruct (next_frame _ _ _ _); [done|by rewrite !violate_final|].
  rewrite !unbuffered_held, !bind_bind. by apply bind_ext.
Qed.

(** Bytes that arrive after the loop might as well have arrived before. *)
Lemma pump_append f : forall st d n m,
  are_bytes (acc st) -> are_bytes d -> (length (acc st ++ d) < f)%nat ->
  (st' <- pump_loop f (rebuf (acc st ++ d) n st) ;; Ret (final st')) =
  (st' <- pump_loop f st ;;
   if killed st' then Ret (final st')
   else st' <- pump (rebuf (acc st' ++ d) m st') ;; Ret (final st')).
Proof.
  induction f as [|f IH]; intros st d n m Hb Hd Hf; [lia|].
  rewrite (pump_loop_step f st).
  destruct (killed st) eqn:Ek.
  { rewrite pump_loop_step. change (killed (rebuf (acc st ++ d) n st)) with (killed st).
    rewrite Ek. simpl. rewrite Ek. unfold final. simpl. by rewrite Ek. }
  pose proof (next_frame_app cfg (inMsg st) (msgLen st) (acc st) d Hb) as Hn.
  destruct (next_frame cfg (inMsg st) (msgLen st) (acc st)) as [n0|r e|fin op len raw payload rest].
  - cbn [bind]. change (killed (set_need n0 st)) with (killed st). rewrite Ek.
    change (acc (set_need n0 st)) with (acc st).
    change (rebuf (acc st ++ d) m (set_need n0 st)) with (rebuf (acc st ++ d) m st).
    rewrite (pump_loop_need _ _ n m) by done. unfold ShieldWs.pump.
    change (acc (rebuf (acc st ++ d) m st)) with (acc st ++ d).
    rewrite (pump_loop_fuel (S f) (S (length (acc st ++ d)))); [done| |done|].
    + by apply Forall_app.
    + change (acc (rebuf (acc st ++ d) m st)) with (acc st ++ d). lia.
  - rewrite pump_loop_step. change (killed (rebuf (acc st ++ d) n st)) with (killed st). rewrite Ek.
    change (inMsg (rebuf (acc st ++ d) n st)) with (inMsg st).
    change (msgLen (rebuf (acc st ++ d) n st)) with (msgLen st).
    change (acc (rebuf (acc st ++ d) n st)) with (acc st ++ d). rewrite Hn, violate_final.
    eapply bind_returns; [apply violate_kills|]. intros st' ->. done.
  - destruct Hn as (Hn & Hacc & Hraw). rewrite pump_loop_step.
    change (killed (rebuf (acc st ++ d) n st)) with (killed st). rewrite Ek.
    change (inMsg (rebuf (acc st ++ d) n st)) with (inMsg st).
    change (msgLen (rebuf (acc st ++ d) n st)) with (msgLen st).
    change (acc (rebuf (acc st ++ d) n st)) with (acc st ++ d).
    rewrite Hn, unbuffered_held, !bind_bind. apply bind_ext. intros st'. cbn [bind].
    change (rebuf (rest ++ d) 2 (rebuf (acc st ++ d) n st')) with (rebuf (acc (rebuf rest 2 st') ++ d) 2 (rebuf rest 2 st')).
    rewrite <- Hacc in Hb. apply Forall_app in Hb as [_ Hb].
    rewrite <- Hacc, !length_app in Hf. unfold blen in Hraw.
    apply IH; change (acc (rebuf rest 2 st')) with rest; [done..|]. rewrite length_app. lia.
Qed.

(** ** Segments *)

(** All that has arrived and is not parsed, in one buffer. *)
Definition gathered (st : St) : St :=
  set_pendingLen 0 (set_chunks [] (set_acc (acc st ++ concat (chunks st)) st)).

(** A session between two segments: the parser waits for more. *)
Definition waiting (st : St) : Prop :=
  killed st = false /\ are_bytes (acc st) /\ are_bytes (concat (chunks st)) /\
  next_frame cfg (inMsg st) (msgLen st) (acc st) = More (need st) /\
  pendingLen st = blen (concat (chunks st)) /\
  blen (acc st ++ concat (chunks st)) < need st.

(** The state up to where the bytes not yet parsed are kept. *)
Definition outcome (st : St) : St := final (gathered st).

Lemma final_killed st : killed (final st) = killed st.
Proof. unfold final. by destruct (killed st) eqn:E. Qed.

Lemma final_live st : killed st = false -> final st = st.
Proof. unfold final. by intros ->. Qed.

Definition idle (st : St) : Prop := chunks st = [] /\ pendingLen st = 0.

Lemma idle_stable : stable idle.
Proof. intros st H. unfold idle in *. by repeat split; try apply H. Qed.

Lemma idle_gathered st : idle st -> gathered st = st.
Proof.
  unfold idle, gathered. destruct st; simpl. intros [-> ->]. simpl. by rewrite app_nil_r.
Qed.

Lemma idle_outcome st : idle st -> outcome st = final st.
Proof. intros. unfold outcome. by rewrite idle_gathered. Qed.

Lemma pump_settles st :
  are_bytes (acc st) -> idle st ->
  returns (fun st' => idle st' /\ (killed st' = true \/ are_bytes (acc st')) /\ settled st') (pump st).
Proof. intros Hb Hi. apply pump_loop_settles; [apply idle_stable|done|lia|done|done]. Qed.

Lemma settled_waiting st :
  idle st -> (killed st = true \/ are_bytes (acc st)) -> settled st -> killed st = true \/ waiting st.
Proof.
  intros [Hc Hp] Hb Hs. destruct (killed st) eqn:Ek; [by left|right].
  destruct Hb as [|Hb]; [done|]. destruct Hs as [|Hs]; [congruence|].
  unfold waiting. rewrite Hc. simpl. rewrite app_nil_r.
  pose proof (next_frame_app cfg (inMsg st) (msgLen st) (acc st) [] Hb) as Hn. rewrite Hs in Hn.
  destruct Hn as [Hn _]. by repeat (split; [first [done|constructor]|]).
Qed.

Lemma gathered_need d st :
  waiting st -> are_bytes d -> blen (acc (gathered st) ++ d) < need st ->
  next_frame cfg (inMsg st) (msgLen st) (acc (gathered st) ++ d) = More (need st).
Proof.
  intros (_ & Hb & _ & Hn & _) Hd Hl. unfold gathered in *. simpl in *. rewrite <- app_assoc in *.
  pose proof (next_frame_app cfg (inMsg st) (msgLen st) (acc st) (concat (chunks st) ++ d) Hb) as H.
  rewrite Hn in H. by apply H.
Qed.

(** The bytes a session holds and the loop on all of them: a held-back segment
    could as well be looked at. *)
Definition absorb (d : bytes) (st : St) : prog njs St := pump (rebuf (acc st ++ d) 2 st).

Lemma pump_waits x n st :
  killed st = false -> next_frame cfg (inMsg st) (msgLen st) x = More n ->
  forall m, pump (rebuf x m st) = Ret (rebuf x n st).
Proof.
  intros Hk Hn m. unfold ShieldWs.pump. rewrite pump_loop_step.
  change (killed (rebuf x m st)) with (killed st). rewrite Hk.
  change (inMsg (rebuf x m st)) with (inMsg st). change (msgLen (rebuf x m st)) with (msgLen st).
  change (acc (rebuf x m st)) with x. by rewrite Hn.
Qed.

Lemma feed_absorbs d st :
  waiting st -> are_bytes d ->
  (r <- feed d st ;; Ret (outcome r.1)) = (st' <- absorb d (gathered st) ;; Ret (outcome st')).
Proof.
  intros Hw Hd. pose proof Hw as (Hk & Hb & Hc & Hn & Hp & Hl). unfold ShieldWs.feed. cbv zeta.
  set (st1 := set_pendingLen (pendingLen st + blen d) (set_chunks (chunks st ++ [d]) st)).
  change (acc st1) with (acc st). change (pendingLen st1) with (pendingLen st + blen d).
  change (need st1) with (need st). change (chunks st1) with (chunks st ++ [d]).
  assert (Hlen : blen (acc st) + (pendingLen st + blen d) = blen (acc (gathered st) ++ d)).
  { unfold gathered. simpl. rewrite Hp, !blen_app. lia. }
  rewrite Hlen, concat_app. cbn [concat]. rewrite app_nil_r, app_assoc.
  destruct (Z.ltb_spec (blen (acc (gathered st) ++ d)) (need st)) as [Hlt|Hge].
  - cbn [bind fst]. unfold absorb.
    rewrite (pump_waits _ (need st) (gathered st)); [|exact Hk|exact (gathered_need d st Hw Hd Hlt)].
    cbn [bind]. f_equal. unfold outcome, gathered, st1. simpl.
    rewrite concat_app, app_nil_r. simpl. by rewrite app_nil_r, app_assoc.
  - rewrite bind_bind. cbn [bind fst].
    change (set_pendingLen 0 (set_chunks [] (set_acc ((acc st ++ concat (chunks st)) ++ d) st1)))
      with (rebuf ((acc st ++ concat (chunks st)) ++ d) (need st) (gathered st)).
    unfold absorb. change (acc (gathered st)) with (acc st ++ concat (chunks st)).
    assert (Hi : forall x n, idle (rebuf x n (gathered st))) by done.
    assert (Hbd : are_bytes ((acc st ++ concat (chunks st)) ++ d)) by (repeat (apply Forall_app; split; try done)).
    transitivity (st' <- pump (rebuf ((acc st ++ concat (chunks st)) ++ d) (need st) (gathered st)) ;; Ret (final st')).
    { eapply bind_returns; [by apply pump_settles|]. intros st' (Hi' & _). cbv beta. by rewrite idle_outcome. }
    unfold ShieldWs.pump.
    change (acc (rebuf ((acc st ++ concat (chunks st)) ++ d) (need st) (gathered st))) with ((acc st ++ concat (chunks st)) ++ d).
    change (acc (rebuf ((acc st ++ concat (chunks st)) ++ d) 2 (gathered st))) with ((acc st ++ concat (chunks st)) ++ d).
    rewrite (pump_loop_need _ _ _ 2) by lia.
    eapply bind_returns; [apply (pump_settles (rebuf _ 2 (gathered st))); [exact Hbd|done]|].
    intros st' (Hi' & _). cbv beta. by rewrite idle_outcome.
Qed.

Lemma feed_settles d st :
  waiting st -> are_bytes d -> returns (fun r => killed r.1 = true \/ waiting r.1) (feed d st).
Proof.
  intros (Hk & Hb & Hc & Hn & Hp & Hl) Hd. unfold ShieldWs.feed. cbv zeta.
  set (st1 := set_pendingLen (pendingLen st + blen d) (set_chunks (chunks st ++ [d]) st)).
  change (acc st1) with (acc st). change (pendingLen st1) with (pendingLen st + blen d).
  change (need st1) with (need st). change (chunks st1) with (chunks st ++ [d]).
  destruct (Z.ltb_spec (blen (acc st) + (pendingLen st + blen d)) (need st)) as [Hlt|Hge].
  - right. unfold waiting. simpl. rewrite concat_app. simpl. rewrite app_nil_r, !blen_app in *.
    split; [done|]. split; [done|]. split; [by apply Forall_app|]. split; [done|]. lia.
  - apply returns_bind. eapply returns_mono; [|apply pump_settles].
    + intros st' (? & ? & ?). by apply settled_waiting.
    + simpl. rewrite concat_app. simpl. rewrite app_nil_r. by repeat (apply Forall_app; split).
    + done.
Qed.

(** The segments of a stream, one after the other; nothing is read from a
    session that was cut. *)
Fixpoint receive (ds : list bytes) (st : St) : prog njs St :=
  match ds with
  | [] => Ret st
  | d :: r => if killed st then Ret st else x <- feed d st ;; receive r x.1
  end.

Lemma receive_killed ds st : killed st = true -> receive ds st = Ret st.
Proof. intros Hk. destruct ds; simpl; [done|]. by rewrite Hk. Qed.

(** However it is cut, a stream is absorbed as a whole. *)
Lemma receive_absorbs ds : forall st,
  waiting st -> Forall are_bytes ds ->
  (st' <- receive ds st ;; Ret (outcome st')) =
  (st' <- absorb (concat ds) (gathered st) ;; Ret (outcome st')).
Proof.
  induction ds as [|d ds IH]; intros st Hw Hds.
  - cbn [receive bind concat]. unfold absorb. rewrite app_nil_r.
    pose proof Hw as (Hk & _ & _ & _ & _ & Hl).
    rewrite (pump_waits _ (need st) (gathered st)); [|done|].
    + cbn [bind]. f_equal. unfold outcome, gathered. simpl. by rewrite app_nil_r.
    + pose proof (gathered_need [] st Hw ltac:(constructor)) as Hg. rewrite app_nil_r in Hg. by apply Hg.
  - apply Forall_cons in Hds as [Hd Hds]. cbn [receive]. pose proof Hw as (Hk & Hb & Hc & _). rewrite Hk, bind_bind.
    assert (Hds' : are_bytes (concat ds)) by (by apply Forall_concat).
    set (G st' := if killed st' then Ret st'
                  else st'' <- pump (rebuf (acc st' ++ concat ds) 2 st') ;; Ret (outcome st'')).
    transitivity (o <- (r <- feed d st ;; Ret (outcome r.1)) ;; G o).
    { rewrite bind_bind. eapply bind_returns; [by apply feed_settles|]. intros [st' b] Hkw. cbn [fst bind] in Hkw |- *. destruct Hkw as [Hk'|Hw'].
      - rewrite receive_killed by done. 
        assert (Ho : killed (outcome st') = true) by (unfold outcome; by rewrite final_killed).
        unfold G. by rewrite Ho.
      - rewrite IH by done. pose proof Hw' as (Hk' & _). 
        assert (Ho : outcome st' = gathered st') by (by apply final_live). rewrite Ho. unfold G.
        change (killed (gathered st')) with (killed st'). by rewrite Hk'. }
    rewrite feed_absorbs, bind_bind by done. unfold absorb. cbn [concat bind]. rewrite app_assoc.
    set (st1 := rebuf (acc (gathered st) ++ d) 2 (gathered st)).
    assert (Hb1 : are_bytes (acc st1)) by (repeat (apply Forall_app; split); done).
    change (rebuf ((acc (gathered st) ++ d) ++ concat ds) 2 (gathered st)) with (rebuf (acc st1 ++ concat ds) 2 st1).
    transitivity (st' <- pump (rebuf (acc st1 ++ concat ds) 2 st1) ;; Ret (final st')).
    + unfold ShieldWs.pump at 2. change (acc (rebuf (acc st1 ++ concat ds) 2 st1)) with (acc st1 ++ concat ds).
      rewrite (pump_append _ st1 (concat ds) 2 2) by (done || lia). unfold ShieldWs.pump.
      rewrite (pump_loop_fuel (S (length (acc st1))) (S (length (acc st1 ++ concat ds))) st1) by (rewrite ?length_app; done || lia).
      eapply bind_returns.
      { apply (pump_loop_settles idle idle_stable); [done|rewrite length_app; lia|exact Hb1|done]. }
      intros st' (Hi & Hb' & _). cbv beta. unfold G. rewrite idle_outcome by done.
      cbn [bind]. rewrite final_killed. destruct (killed st') eqn:Ek'; [done|].
      rewrite final_live by done. destruct Hb' as [|Hb']; [done|]. eapply bind_returns; [apply pump_settles|].
      * by apply Forall_app.
      * done.
      * intros st'' (Hi'' & _). by rewrite idle_outcome.
    + eapply bind_returns; [apply pump_settles; [|done]|].
      * by apply Forall_app.
      * intros st' (Hi' & _). by rewrite idle_outcome.
Qed.

End segments.
