(* ===== verification/WsHandshake.v ===== *)
(** * The end of the handshake

    The filter looks for the end of the header block as bytes arrive, starting
    two bytes back.  It finds what a scan of the whole buffer would find, and a
    head that passes the bare-LF check is the one a strict parser sees: it ends
    with the first empty line, and every line ends with CR LF. *)
From Stdlib Require Import SpecFloat.
From S2P Require Import Prelude Prog Text Json JsonSpec Js ShieldCore ShieldWs WsFrames.

(** ** Scanning in parts *)

Lemma block_end_cons i c d r :
  block_end i (c :: d :: r) =
  if negb (c =? 10) then block_end (i + 1) (d :: r)
  else if d =? 10 then i + 2
  else if (d =? 13) && (match r with e :: _ => e =? 10 | [] => false end) then i + 3
  else block_end (i + 1) (d :: r).
Proof. done. Qed.

Lemma block_end_range b : forall i, 0 <= i -> block_end i b = -1 \/ i + 2 <= block_end i b <= i + blen b.
Proof.
  induction b as [|c [|d r] IH]; intros i Hi; [by left..|]. rewrite block_end_cons.
  assert (Hrec : block_end (i + 1) (d :: r) = -1 \/ i + 2 <= block_end (i + 1) (d :: r) <= i + blen (c :: d :: r)).
  { destruct (IH (i + 1) ltac:(lia)) as [|]; [by left|right]. rewrite blen_cons. lia. }
  destruct (negb (c =? 10)); [done|]. destruct (d =? 10).
  { right. rewrite !blen_cons. pose proof (blen_nonneg r). lia. }
  destruct ((d =? 13) && _) eqn:E; [|done]. right. destruct r as [|e r]; [by rewrite andb_false_r in E|].
  rewrite !blen_cons. pose proof (blen_nonneg r). lia.
Qed.

(** A scan that found nothing need not be repeated but for its last two bytes. *)
Lemma block_end_resume b d : forall i,
  0 <= i -> block_end i b = -1 ->
  block_end i (b ++ d) = block_end (i + Z.of_nat (length b - 2)) (drop (length b - 2) b ++ d).
Proof.
  induction b as [|c b IH]; intros i Hi E; [simpl; f_equal; lia|].
  destruct b as [|c1 [|c2 r]]; [simpl; by rewrite Z.add_0_r..|].
  replace (length (c :: c1 :: c2 :: r) - 2)%nat with (S (length (c1 :: c2 :: r) - 2))%nat by (simpl; lia).
  cbn [drop]. replace (i + Z.of_nat (S (length (c1 :: c2 :: r) - 2)))
    with (i + 1 + Z.of_nat (length (c1 :: c2 :: r) - 2)) by lia.
  rewrite block_end_cons in E. rewrite <- !app_comm_cons, block_end_cons.
  rewrite !app_comm_cons.
  destruct (negb (c =? 10)); [apply IH; [lia|done]|].
  destruct (c1 =? 10); [lia|]. destruct ((c1 =? 13) && (c2 =? 10)); [lia|].
  apply IH; [lia|done].
Qed.

(** The scan of [on_handshake] finds the end of the first header block. *)
Lemma incremental_scan buf d :
  headerBlockEnd buf 0 = -1 -> headerBlockEnd (buf ++ d) (blen buf - 2) = headerBlockEnd (buf ++ d) 0.
Proof.
  unfold headerBlockEnd. rewrite !Z.max_l, !drop_0 by lia. intros E.
  rewrite block_end_resume by (done || lia). cbn [Z.add].
  replace (Z.to_nat (blen buf - 2)) with (length buf - 2)%nat by (unfold blen; lia).
  rewrite drop_app_le by lia. f_equal. unfold blen. lia.
Qed.

(** ** A strict head *)

(** Every line feed follows a carriage return. *)
Definition no_bare_lf (h : bytes) : Prop :=
  forall a b, h = a ++ 10 :: b -> exists a', a = a' ++ [13].

Definition BLANK : bytes := [13; 10; 13; 10].

(** The head of a request as a strict parser reads it: lines ended by CR LF, up
    to and including the first empty one. *)
Definition strict_head (h : bytes) : Prop :=
  no_bare_lf h /\ (exists a, h = a ++ BLANK) /\
  forall a b, h = a ++ BLANK ++ b -> b = [].

Lemma bare_lf_spec h : forall prev,
  bare_lf prev h = false ->
  forall a b, h = a ++ 10 :: b -> match a with [] => prev = Some 13 | _ => exists a', a = a' ++ [13] end.
Proof.
  induction h as [|c h IH]; intros prev E a b Ha; [by destruct a|].
  cbn [bare_lf] in E. apply orb_false_iff in E as [E1 E2].
  destruct a as [|x a].
  - injection Ha as -> Ha. simpl in E1. apply negb_false_iff, bool_decide_eq_true in E1. done.
  - injection Ha as -> Ha. specialize (IH _ E2 a b Ha). destruct a as [|y a].
    + injection IH as ->. by exists [].
    + destruct IH as [a' ->]. by exists (x :: a').
Qed.

Lemma block_end_found b : forall i n,
  0 <= i -> block_end i b = i + n -> 0 <= n ->
  exists a t, take (Z.to_nat n) b = a ++ t /\ (t = [10; 10] \/ t = [10; 13; 10]).
Proof.
  induction b as [|c [|d r] IH]; intros i n Hi E Hn; [cbn in E; lia..|]. rewrite block_end_cons in E.
  assert (Hrec : block_end (i + 1) (d :: r) = i + n ->
    exists a t, take (Z.to_nat n) (c :: d :: r) = a ++ t /\ (t = [10; 10] \/ t = [10; 13; 10])).
  { intros E'. destruct (block_end_range (d :: r) (i + 1)) as [|Hr]; [lia|lia|].
    destruct (IH (i + 1) (n - 1)) as (a & t & Ht & Hs); [lia|lia|lia|].
    exists (c :: a), t. replace (Z.to_nat n) with (S (Z.to_nat (n - 1))) by lia.
    cbn [take]. rewrite Ht. done. }
  destruct (Z.eqb_spec c 10) as [->|]; cbn [negb] in E; [|auto].
  destruct (Z.eqb_spec d 10) as [->|].
  { exists [], [10; 10]. replace n with 2 by lia. split; [|by left]. simpl. by rewrite take_0. }
  destruct (Z.eqb_spec d 13) as [->|]; cbn [andb] in E; [|auto].
  destruct r as [|e r]; [auto|]. destruct (Z.eqb_spec e 10) as [->|]; [|auto].
  exists [], [10; 13; 10]. replace n with 3 by lia. split; [|by right]. simpl. by rewrite take_0.
Qed.

(** No terminator ends before the one that is found. *)
Lemma block_end_first b : forall i a r,
  0 <= i -> b = a ++ [10; 13; 10] ++ r -> block_end i b <> -1 /\ block_end i b <= i + blen a + 3.
Proof.
  induction b as [|c [|d b] IH]; intros i a r Hi E.
  - by destruct a.
  - destruct a as [|? [|? a]]; done.
  - rewrite block_end_cons. destruct a as [|x a].
    + injection E as -> -> ->. change (blen (@nil Z)) with 0. cbn -[Z.add Z.le]. lia.
    + injection E as -> E. destruct (IH (i + 1) a r ltac:(lia) E) as [H1 H2]. rewrite blen_cons.
      pose proof (blen_nonneg a).
      destruct (negb _); [lia|]. destruct (d =? 10); [lia|]. destruct (_ && _); [lia|]. lia.
Qed.

Lemma found_head_strict buf n :
  headerBlockEnd buf 0 = n -> 0 <= n -> hasBareLf buf n = false -> strict_head (take (Z.to_nat n) buf).
Proof.
  unfold headerBlockEnd, hasBareLf. rewrite Z.max_l, drop_0 by lia. intros E Hn Hl.
  assert (Hbare : no_bare_lf (take (Z.to_nat n) buf)).
  { intros a b Hab. pose proof (bare_lf_spec _ _ Hl a b Hab) as H. by destruct a. }
  destruct (block_end_range buf 0) as [|Hr]; [lia|lia|].
  destruct (block_end_found buf 0 n) as (a & t & Ht & [->| ->]); [lia..| |].
  { exfalso. destruct (Hbare (a ++ [10]) []) as [a' Ha]; [by rewrite <- app_assoc|].
    by apply app_inj_tail in Ha as [_ ?]. }
  split; [done|]. split.
  - destruct (Hbare a [13; 10]) as [a' ->]; [done|]. exists a'. rewrite Ht, <- app_assoc. done.
  - intros a2 b2 Hab.
    assert (Hbuf : buf = (a2 ++ [13]) ++ [10; 13; 10] ++ (b2 ++ drop (Z.to_nat n) buf)).
    { rewrite <- (take_drop (Z.to_nat n) buf) at 1. rewrite Hab. by rewrite <- !app_assoc. }
    destruct (block_end_first buf 0 _ _ ltac:(lia) Hbuf) as [_ Hle]. rewrite E, blen_app in Hle.
    assert (Hlen : blen (take (Z.to_nat n) buf) = n) by (unfold blen in *; rewrite length_take; lia).
    rewrite Hab, !blen_app in Hlen. cbn in Hlen, Hle. destruct b2; [done|rewrite blen_cons in Hlen].
    pose proof (blen_nonneg b2). unfold BLANK, blen in *. simpl in *. lia.
Qed.
