(* ===== verification/WsSafety.v ===== *)
(** * What reaches the relay

    A specification of what the filter may forward, and the invariant of a
    session under which it forwards nothing else: after the handshake, whole
    frames of messages that were accepted, byte for byte and in order. *)
From Stdlib Require Import SpecFloat.
From S2P Require Import Prelude Prog Text Json JsonSpec Js JsStd ShieldCore ShieldWs WsFrames WsSegments WsHandshake.
Local Open Scope prog_scope.

(** ** Messages a relay may see *)

Section acceptable.
Context {JS : JsEngine} (cfg : Cfg).

(** A string a filter may hold. *)
Definition short (v : value) : Prop :=
  match v with VStr x => gt (of_Z (string_length x)) (maxFilterValue cfg) = false | _ => True end.

Definition short_values (kv : str * value) : Prop :=
  match kv.2 with VArr l => Forall short l | v => short v end.

(** A filter that selects something, asks for no more than the limit and holds
    no oversized string. *)
Definition filter_ok (f : option value) : Prop :=
  exists l, f = Some (VObj l) /\
    (requireNarrowing cfg = true ->
       exists k, k ∈ own_keys l /\ (k ∈ NARROWING \/ exists r, k = 35 :: r)) /\
    (forall n, get_prop l (lit "limit") = Some (VNum n) -> gt n (maxLimit cfg) = false) /\
    Forall short_values l.

Definition filters_ok (fs : list (option value)) : Prop :=
  fs <> [] /\ gt (of_Z (blen fs)) (maxFilters cfg) = false /\ Forall filter_ok fs /\
  gt (of_Z (foldr (fun f n => items_of f + n) 0 fs)) (maxFilterItems cfg) = false.

Definition sub_id_ok (v : option value) : Prop :=
  exists x, v = Some (VStr x) /\ 1 <= string_length x <= 64.

(** What the relay is asked to do by a message of type [t]. *)
Definition request_ok (t : str) (msg : list value) : Prop :=
  (t = lit "EVENT" ->
     exists l n, msg !! 1%nat = Some (VObj l) /\ get_prop l (lit "kind") = Some (VNum n) /\
                 num_to_string n ∉ kindDeny cfg) /\
  (t = lit "REQ" \/ t = lit "COUNT" -> sub_id_ok (msg !! 1%nat) /\ filters_ok (map Some (drop 2 msg))) /\
  (t = lit "NEG-OPEN" -> sub_id_ok (msg !! 1%nat) /\ filters_ok [msg !! 2%nat]).

(** The payload of a message the policy accepts: a JSON array headed by one of
    the configured types, whose arguments obey the limits. *)
Definition acceptable (buf : bytes) : Prop :=
  exists t args, json_parse (buffer_to_string buf) = Some (VArr (VStr t :: args)) /\
    t ∈ types cfg /\ request_ok t (VStr t :: args).

(** ** The filters' checks *)

Lemma or_fault_none a b : or_fault a b = None <-> a = None /\ b = None.
Proof. unfold or_fault. destruct a; naive_solver. Qed.

Lemma too_long_none x : too_long cfg x = None <-> short (VStr x).
Proof. unfold too_long, short, complexity. case_match; naive_solver. Qed.

Lemma strings_fault_none l : strings_fault cfg l = None <-> Forall short l.
Proof.
  induction l as [|v l IH]; [done|]. cbn [strings_fault foldr]. rewrite or_fault_none, Forall_cons.
  fold (strings_fault cfg l). rewrite IH. destruct v; try (simpl; naive_solver).
  by rewrite too_long_none.
Qed.

Lemma values_fault_none l : values_fault cfg l = None <-> Forall short_values l.
Proof.
  induction l as [|[k v] l IH]; [done|]. cbn [values_fault foldr]. rewrite or_fault_none, Forall_cons.
  fold (values_fault cfg l). rewrite IH. unfold short_values at 1. cbn [snd].
  destruct v; cbn [value_fault]; rewrite ?too_long_none, ?strings_fault_none; simpl; naive_solver.
Qed.

Lemma limit_fault_none l :
  limit_fault cfg l = None <->
  forall n, get_prop l (lit "limit") = Some (VNum n) -> gt n (maxLimit cfg) = false.
Proof.
  unfold limit_fault, complexity. destruct (get_prop l (lit "limit")) as [v|]; [|naive_solver].
  destruct v as [|b|n|x|a|o]; [naive_solver..| |naive_solver|naive_solver|naive_solver].
  destruct (gt n (maxLimit cfg)) eqn:E; split; try done; [|by intros _ ? [= <-]].
  intros H. specialize (H n eq_refl). congruence.
Qed.

Lemma isNarrowing_spec ks :
  isNarrowing ks = true <-> exists k, k ∈ ks /\ (k ∈ NARROWING \/ exists r, k = 35 :: r).
Proof.
  unfold isNarrowing. rewrite existsb_exists. split.
  - intros (k & Hk & H). exists k. split; [by apply list_elem_of_In|]. apply orb_true_iff in H as [H|H].
    + right. destruct k as [|c r]; [done|]. apply Z.eqb_eq in H as ->. by exists r.
    + left. apply existsb_exists in H as (k' & Hin & E). apply bool_decide_eq_true in E as ->.
      by apply list_elem_of_In.
  - intros (k & Hk & H). exists k. split; [by apply list_elem_of_In|]. apply orb_true_iff.
    destruct H as [H|[r ->]]; [right|by left]. apply existsb_exists. exists k.
    split; [by apply list_elem_of_In|]. by apply bool_decide_eq_true.
Qed.

Lemma filter_fault_none f : filter_fault cfg f = None <-> filter_ok f.
Proof.
  unfold filter_fault, filter_ok. destruct f as [v|]; [|naive_solver].
  destruct v; try naive_solver. rewrite !or_fault_none, limit_fault_none, values_fault_none.
  assert (Hn : (if requireNarrowing cfg && negb (isNarrowing (own_keys l))
                then complexity (lit "unbounded-filter") else None) = None <->
               (requireNarrowing cfg = true ->
                exists k, k ∈ own_keys l /\ (k ∈ NARROWING \/ exists r, k = 35 :: r))).
  { rewrite <- isNarrowing_spec. unfold complexity.
    destruct (requireNarrowing cfg), (isNarrowing (own_keys l)); simpl; naive_solver. }
  rewrite Hn. split.
  - intros (H1 & H2 & H3). by exists l.
  - intros (l' & E & H1 & H2 & H3). by simplify_eq.
Qed.

Lemma filters_loop_none fs : forall items,
  filters_loop cfg items fs = None <->
  Forall filter_ok fs /\
  gt (of_Z (items + foldr (fun f n => items_of f + n) 0 fs)) (maxFilterItems cfg) = false.
Proof.
  induction fs as [|f fs IH]; intros items; cbn [filters_loop foldr].
  - rewrite Z.add_0_r. unfold complexity. case_match; naive_solver.
  - rewrite Forall_cons, <- filter_fault_none. destruct (filter_fault cfg f); [naive_solver|].
    rewrite IH, Z.add_assoc. naive_solver.
Qed.

Lemma filters_fault_none fs : filters_fault cfg fs = None <-> filters_ok fs.
Proof.
  unfold filters_fault, filters_ok. destruct fs as [|f fs].
  - simpl. unfold complexity. naive_solver.
  - assert (E : (blen (f :: fs) <? 1) = false) by (rewrite blen_cons; pose proof (blen_nonneg fs); lia).
    rewrite E. unfold complexity. destruct (gt _ (maxFilters cfg)); [naive_solver|].
    rewrite filters_loop_none. cbn [Z.add]. naive_solver.
Qed.

End acceptable.

(** ** Calls that reach the relay *)

(** The bytes sent in the callback's own direction, whatever else happens. *)
Definition recorded (X : Type) (e : njs X) (up : bytes) (x : X) (up' : bytes) : Prop :=
  match e with Send bs _ => up' = up ++ bs | _ => up' = up end.

Abbreviation wpu := (wp recorded (@Logic.eq bytes)).

(** Nothing, or the Close frame of a rule. *)
Definition closing (c : bytes) : Prop :=
  c = [] \/ exists rule, closeFrame 1008 rule true = Some c.

Lemma wpu_call {X} (e : njs X) (Q : X -> bytes -> Prop) up :
  (forall x, Q x (match e with Send bs _ => up ++ bs | _ => up end)) -> wpu (call e) Q up.
Proof.
  intros HQ. apply wp_call. intros up1 <- x up2 Hr. specialize (HQ x).
  destruct e; simpl in Hr; by subst.
Qed.

Ltac wpu_ret := match goal with |- wp _ _ (Ret ?a) ?Q ?up => change (Q a up); cbv beta iota zeta end.

(** A function that sends nothing upstream. *)
Lemma wpu_verdict s service layer rule detail (Q : unit -> bytes -> Prop) up :
  Q tt up -> wpu (verdict s service layer rule detail) Q up.
Proof.
  intros HQ. unfold verdict. apply wp_seq, wpu_call. intros ts. apply wp_seq, wpu_call. intros [].
  apply wp_seq, wpu_call. intros _. exact HQ.
Qed.

Lemma wpu_take b (Q : bool * bucket -> bytes -> Prop) up :
  (forall ok b', Q (ok, b') up) -> wpu (takeToken b) Q up.
Proof.
  intros HQ. unfold takeToken. apply wp_seq, wpu_call. intros now. cbv zeta. wpu_ret.
  destruct (lt _ _); apply HQ.
Qed.

Section wp.
Context {JS : JsEngine} (s : session) (cfg : Cfg).

(** The session was cut, after at most a Close frame. *)
Definition cut_from (st : St) (up : bytes) (st' : St) (up' : bytes) : Prop :=
  st' = cut st /\ exists c, closing c /\ up' = up ++ c.

Lemma wpu_violate rule detail st up :
  killed st = false -> wpu (violate s cfg rule detail st) (cut_from st up) up.
Proof.
  intros Hk. unfold violate. rewrite Hk. cbv zeta. apply wp_seq, wpu_verdict.
  assert (H0 : cut_from st up (cut st) up).
  { split; [done|]. exists []. split; [by left|by rewrite app_nil_r]. }
  unfold with_frame. destruct (wsFrame _ _ _); [|exact H0]. apply wp_seq, wpu_call. intros _.
  destruct (closeFrame 1008 rule false); [|exact H0]. apply wp_seq, wpu_call. intros _.
  destruct (closeFrame 1008 rule true) as [f|] eqn:E; [|exact H0]. apply wp_seq, wpu_call. intros _.
  split; [done|]. exists f. split; [|done]. right. by exists rule.
Qed.

(** What inspecting a message may change: buckets and subscriptions. *)
Definition touched (st st' : St) : Prop :=
  exists b1 b2 b3 sb n, st' = set_subCount n (set_subs sb (set_bReq b3 (set_bEvent b2 (set_bMsg b1 st)))).

Lemma set_same_subs st : set_subCount (subCount st) (set_subs (subs st) st) = st.
Proof. by destruct st. Qed.

Lemma touched_refl st : touched st st.
Proof. exists (bMsg st), (bEvent st), (bReq st), (subs st), (subCount st). by destruct st. Qed.

Lemma touched_msg st b st' : touched (set_bMsg b st) st' -> touched st st'.
Proof. intros (b1 & b2 & b3 & sb & n & ->). by exists b1, b2, b3, sb, n. Qed.
Lemma touched_event st b st' : touched (set_bEvent b st) st' -> touched st st'.
Proof. intros (b1 & b2 & b3 & sb & n & ->). by exists b1, b2, b3, sb, n. Qed.
Lemma touched_req st b st' : touched (set_bReq b st) st' -> touched st st'.
Proof. intros (b1 & b2 & b3 & sb & n & ->). by exists b1, b2, b3, sb, n. Qed.
Lemma touched_subs st sb n : touched st (set_subCount n (set_subs sb st)).
Proof. exists (bMsg st), (bEvent st), (bReq st), sb, n. by destruct st. Qed.

(** Inspection either cuts the session or accepts the message. *)
Definition inspected (ok : Prop) (st : St) (up : bytes) (st' : St) (up' : bytes) : Prop :=
  (exists st1, touched st st1 /\ cut_from st1 up st' up') \/
  (ok /\ killed st' = false /\ touched st st' /\ up' = up).

Lemma inspected_impl (ok ok' : Prop) st up st' up' :
  (ok -> ok') -> inspected ok st up st' up' -> inspected ok' st up st' up'.
Proof. intros Hok [H|(H & H')]; [by left|right; auto]. Qed.

Lemma wpu_inspected_violate ok rule detail st up :
  killed st = false -> wpu (violate s cfg rule detail st) (inspected ok st up) up.
Proof.
  intros Hk. eapply wp_mono; [|by apply wpu_violate]. intros st' up' Hc. left.
  exists st. split; [apply touched_refl|done].
Qed.

Lemma inspected_touched (ok : Prop) st st1 up st' up' :
  (forall st2, touched st1 st2 -> touched st st2) ->
  inspected ok st1 up st' up' -> inspected ok st up st' up'.
Proof.
  intros Ht [(st2 & H2 & Hc)|(Hok & Hk & H2 & ->)]; [left; exists st2; auto|right; auto].
Qed.

Lemma wpu_open_sub sid st up :
  killed st = false -> wpu (open_sub s cfg sid st) (inspected True st up) up.
Proof.
  intros Hk. unfold open_sub. case_bool_decide.
  { right. split; [done|]. split; [done|]. split; [apply touched_refl|done]. }
  case_match; [by apply wpu_inspected_violate|]. right. split; [done|]. split; [done|].
  split; [|done]. apply touched_subs.
Qed.

Lemma bad_sub_id_false v : bad_sub_id v = false -> sub_id_ok v.
Proof.
  unfold bad_sub_id, sub_id_ok. destruct v as [[| | |x| |]|]; try done. intros E. exists x.
  split; [done|]. lia.
Qed.

Lemma wpu_query fs opens msg st up :
  killed st = false ->
  wpu (inspect_query s cfg fs opens msg st)
    (inspected (sub_id_ok (msg !! 1%nat) /\ filters_ok cfg fs) st up) up.
Proof.
  intros Hk. unfold inspect_query. apply wp_seq, wpu_take. intros ok b. cbv beta iota zeta.
  eapply wp_mono; [intros st' up'; apply (inspected_touched _ st (set_bReq b st)), touched_req|].
  assert (Hk' : killed (set_bReq b st) = false) by done. clear Hk. generalize dependent (set_bReq b st). clear st.
  intros st Hk. destruct (negb ok); [by apply wpu_inspected_violate|].
  destruct (msg !! 1%nat) as [[| | |sid| |]|]; try by apply wpu_inspected_violate.
  destruct (bad_sub_id (Some (VStr sid))) eqn:Eb; [by apply wpu_inspected_violate|].
  apply bad_sub_id_false in Eb. unfold checkFilters. apply wp_seq.
  destruct (filters_fault cfg fs) as [[r d]|] eqn:Ef.
  - apply wp_seq. eapply wp_mono; [|by apply (wpu_inspected_violate False)].
    intros st' up' H. wpu_ret. wpu_ret. by eapply inspected_impl; [|exact H].
  - apply filters_fault_none in Ef. wpu_ret. destruct opens.
    + eapply wp_mono; [|by apply wpu_open_sub]. intros st' up'. by apply inspected_impl.
    + wpu_ret. right. split; [done|]. split; [done|]. split; [apply touched_refl|done].
Qed.

Lemma wpu_event msg st up :
  killed st = false ->
  wpu (inspect_event s cfg msg st)
    (inspected (exists l n, msg !! 1%nat = Some (VObj l) /\ get_prop l (lit "kind") = Some (VNum n) /\
                            num_to_string n ∉ kindDeny cfg) st up) up.
Proof.
  intros Hk. unfold inspect_event. apply wp_seq, wpu_take. intros ok b. cbv beta iota zeta.
  eapply wp_mono; [intros st' up'; apply (inspected_touched _ st (set_bEvent b st)), touched_event|].
  assert (Hk' : killed (set_bEvent b st) = false) by done. clear Hk. generalize dependent (set_bEvent b st). clear st.
  intros st Hk. destruct (negb ok); [by apply wpu_inspected_violate|].
  destruct (msg !! 1%nat) as [[| | | | |l]|]; try by apply wpu_inspected_violate.
  destruct (get_prop l (lit "kind")) as [[| |n| | |]|] eqn:Ek; try by apply wpu_inspected_violate.
  case_bool_decide; [by apply wpu_inspected_violate|]. wpu_ret. right.
  split; [by exists l, n|]. split; [done|]. split; [apply touched_refl|done].
Qed.

Lemma wpu_auth st up : killed st = false -> wpu (inspect_auth s cfg st) (inspected True st up) up.
Proof.
  intros Hk. unfold inspect_auth. apply wp_seq, wpu_take. intros ok b. cbv beta iota zeta.
  eapply wp_mono; [intros st' up'; apply (inspected_touched _ st (set_bEvent b st)), touched_event|].
  destruct (negb ok); [by apply wpu_inspected_violate|]. wpu_ret. right.
  split; [done|]. split; [done|]. split; [apply touched_refl|done].
Qed.

Lemma touched_close msg st : touched st (close_sub msg st).
Proof.
  unfold close_sub. destruct (msg !! 1%nat) as [[| | |sid| |]|]; try apply touched_refl.
  case_bool_decide; [|apply touched_refl]. cbv zeta. case_match.
  - apply (touched_subs st (subs st ∖ {[sid]}) (subCount st - 1)).
  - pose proof (touched_subs st (subs st ∖ {[sid]}) (subCount st)) as H'. by destruct st.
Qed.

Lemma close_sub_killed msg st : killed (close_sub msg st) = killed st.
Proof. unfold close_sub. repeat (case_match; try done). Qed.

(** The message the session's state accepts is one the relay may see. *)
Lemma wpu_inspect buf st up :
  killed st = false -> wpu (inspect s cfg buf st) (inspected (acceptable cfg buf) st up) up.
Proof.
  intros Hk. unfold inspect. apply wp_seq, wpu_take. intros ok b. cbv beta iota zeta.
  eapply wp_mono; [intros st' up'; apply (inspected_touched _ st (set_bMsg b st)), touched_msg|].
  assert (Hk' : killed (set_bMsg b st) = false) by done. clear Hk. generalize dependent (set_bMsg b st). clear st.
  intros st Hk. destruct (negb ok); [by apply wpu_inspected_violate|].
  destruct (json_parse (buffer_to_string buf)) as [[| | | |l|]|] eqn:Ej; try by apply wpu_inspected_violate.
  destruct l as [|[| | |t| |] args]; try by apply wpu_inspected_violate.
  destruct (bool_decide (t ∈ types cfg)) eqn:Et; cbn [negb]; [|by apply wpu_inspected_violate].
  apply bool_decide_eq_true in Et.
  assert (Hacc : request_ok cfg t (VStr t :: args) -> acceptable cfg buf) by (intros; by exists t, args).
  assert (Hno : forall a b : str, bool_decide (a = b) = false -> a <> b) by (intros a b'; by rewrite bool_decide_eq_false).
  assert (Himpl : forall (ok : Prop) st' up', (ok -> request_ok cfg t (VStr t :: args)) ->
            inspected ok st up st' up' -> inspected (acceptable cfg buf) st up st' up').
  { intros ok' st' up' Hr. apply inspected_impl. auto. }
  unfold str_eqb. destruct (bool_decide (t = lit "EVENT")) eqn:E1.
  { apply bool_decide_eq_true in E1 as ->. eapply wp_mono; [|by apply wpu_event].
    intros st' up'. apply Himpl. intros He. split; [done|].
    split; [intros [E|E]|intros E]; exfalso; revert E; by apply Hno; vm_compute. }
  apply Hno in E1. destruct (bool_decide (t = lit "REQ") || bool_decide (t = lit "COUNT")) eqn:E2.
  { eapply wp_mono; [|by apply wpu_query]. intros st' up'. apply Himpl. intros He. split; [done|].
    split; [done|]. intros ->. exfalso. revert E2. by vm_compute. }
  apply orb_false_iff in E2 as [E2 E2']. apply Hno in E2, E2'.
  destruct (bool_decide (t = lit "NEG-OPEN")) eqn:E3.
  { eapply wp_mono; [|by apply wpu_query]. intros st' up'. apply Himpl. intros He. split; [done|].
    split; [intros []; done|done]. }
  apply Hno in E3.
  assert (Hr : request_ok cfg t (VStr t :: args)) by (split; [done|split; [by intros []|done]]).
  destruct (bool_decide (t = lit "AUTH")).
  { eapply wp_mono; [|by apply wpu_auth]. intros st' up'. by apply Himpl. }
  destruct (bool_decide (t = lit "CLOSE") || bool_decide (t = lit "NEG-CLOSE")); wpu_ret; right.
  - split; [auto|]. rewrite close_sub_killed. split; [done|]. split; [apply touched_close|done].
  - split; [auto|]. split; [done|]. split; [apply touched_refl|done].
Qed.

End wp.
