(* ===== verification/WsSession.v ===== *)
(** * The invariant of a session

    What the client sent, what was forwarded and what is held account for each
    other at every point of a session; what is held is bounded. *)
From Stdlib Require Import SpecFloat.
From S2P Require Import Prelude Prog Text Json JsonSpec Js JsStd ShieldCore ShieldWs WsFrames WsSegments WsHandshake WsSafety.
Local Open Scope prog_scope.

(** ** Streams of frames *)

Record wire_frame := mk_wire {
  wf_fin : bool;
  wf_op : Z;
  wf_payload : bytes;
  wf_raw : bytes;
}.

(** A frame as a client writes it; a control frame is short and whole. *)
Definition on_wire (f : wire_frame) : Prop :=
  0 <= wf_op f < 16 /\
  (8 <= wf_op f -> wf_fin f = true /\ blen (wf_payload f) <= 125) /\
  exists form key, length key = 4%nat /\ form_fits form (blen (wf_payload f)) /\
    wf_raw f = client_frame (wf_fin f) (wf_op f) form key (wf_payload f).

Definition is_control (f : wire_frame) : bool := 8 <=? wf_op f.

Definition data_of (fs : list wire_frame) : list wire_frame := List.filter (fun f => negb (is_control f)) fs.
Definition raws (fs : list wire_frame) : bytes := concat (map wf_raw fs).
Definition payloads (fs : list wire_frame) : list bytes := map wf_payload (data_of fs).

(** The data frames of one message: a text frame, then continuations. *)
Definition one_message (ds : list wire_frame) : Prop :=
  match ds with
  | [] => True
  | d :: r => wf_op d = OP_TEXT /\ Forall (fun f => wf_op f = OP_CONT) r
  end.

(** A message that has begun: none of its data frames is the last. *)
Definition unfinished (fs : list wire_frame) : Prop :=
  Forall on_wire fs /\ one_message (data_of fs) /\ Forall (fun f => wf_fin f = false) (data_of fs).

Section session.
Context {JS : JsEngine} (s : session) (cfg : Cfg).

(** What may be forwarded after the handshake: control frames, and messages
    the policy accepts, whole, with the control frames sent in between. *)
Inductive accepted : bytes -> list bytes -> Prop :=
| accepted_nil : accepted [] []
| accepted_control bs ms f :
    accepted bs ms -> on_wire f -> is_control f = true -> accepted (bs ++ wf_raw f) ms
| accepted_message bs ms fs f :
    accepted bs ms -> unfinished fs -> on_wire f -> is_control f = false -> wf_fin f = true ->
    one_message (data_of (fs ++ [f])) -> acceptable cfg (concat (payloads (fs ++ [f]))) ->
    accepted (bs ++ raws (fs ++ [f])) (ms ++ [concat (payloads (fs ++ [f]))]).

Lemma data_of_app fs gs : data_of (fs ++ gs) = data_of fs ++ data_of gs.
Proof. apply List.filter_app. Qed.
Lemma payloads_app fs gs : payloads (fs ++ gs) = payloads fs ++ payloads gs.
Proof. unfold payloads. by rewrite data_of_app, map_app. Qed.
Lemma raws_app fs gs : raws (fs ++ gs) = raws fs ++ raws gs.
Proof. unfold raws. by rewrite map_app, concat_app. Qed.

Lemma data_of_control f : is_control f = true -> data_of [f] = [].
Proof. intros H. unfold data_of. simpl. by rewrite H. Qed.
Lemma data_of_data f : is_control f = false -> data_of [f] = [f].
Proof. intros H. unfold data_of. simpl. by rewrite H. Qed.

(** Only control frames are left where no message has begun. *)
Lemma raws_controls bs ms fs :
  accepted bs ms -> Forall on_wire fs -> data_of fs = [] -> accepted (bs ++ raws fs) ms.
Proof.
  intros Ha Hw. revert bs Ha. induction Hw as [|f fs Hf Hw IH]; intros bs Ha Hd.
  - by rewrite app_nil_r.
  - unfold data_of in Hd. simpl in Hd. destruct (is_control f) eqn:Ec; [|done].
    change (raws (f :: fs)) with (wf_raw f ++ raws fs). rewrite app_assoc. apply IH; [|done].
    by apply accepted_control.
Qed.

(** ** The parser's state *)

(** [fs] is what is held of a message, [fwd] what was forwarded of the frames,
    and both with the unparsed bytes are what the client sent, [sent]. *)
Record live (st : St) (fs : list wire_frame) (fwd : bytes) (ms : list bytes) (sent : bytes) : Prop := {
  live_alive : killed st = false;
  live_accepted : accepted fwd ms;
  live_unfinished : unfinished fs;
  live_pending : pending st = map wf_raw fs;
  live_parts : msgParts st = payloads fs;
  live_len : msgLen st = blen (concat (msgParts st));
  live_in : inMsg st = negb (bool_decide (data_of fs = []));
  live_quiet : inMsg st = false -> fs = [];
  live_frames : (length fs <= 256)%nat;
  live_fragments : (length (data_of fs) <= 64)%nat;
  live_size : forall M, 0 <= M <= 2 ^ 52 -> maxMsg cfg = of_Z M -> msgLen st <= M;
  live_sent : fwd ++ raws fs ++ acc st ++ concat (chunks st) = sent;
  live_bytes : are_bytes (acc st ++ concat (chunks st));
}.

(** The parser's loop, on the frames of [sent], after [up0] was forwarded:
    going on, or cut, with a prefix of the frames forwarded. *)
Definition cut_after (up0 sent : bytes) (up : bytes) : Prop :=
  exists fwd c ms, closing c /\ up = up0 ++ fwd ++ c /\ accepted fwd ms /\ fwd `prefix_of` sent.

Definition parsing (up0 sent : bytes) (st : St) (up : bytes) : Prop :=
  (exists fs fwd ms, live st fs fwd ms sent /\ up = up0 ++ fwd) \/
  (killed st = true /\ cut_after up0 sent up).

(** A state that differs in its buckets and subscriptions keeps the invariant. *)
Lemma live_touched st st' fs fwd ms sent : touched st st' -> live st fs fwd ms sent -> live st' fs fwd ms sent.
Proof. intros (b1 & b2 & b3 & sb & n & ->) []. by constructor. Qed.

(** ** One frame *)

Lemma wpu_send_all l up (Q : unit -> bytes -> Prop) : Q tt (up ++ concat l) -> wp recorded (@Logic.eq bytes) (send_all l) Q up.
Proof.
  revert up. induction l as [|x l IH]; intros up HQ.
  - rewrite app_nil_r in HQ. exact HQ.
  - destruct l as [|y l].
    + apply wpu_call. intros []. simpl in HQ. by rewrite app_nil_r in HQ.
    + cbn [send_all]. apply wp_seq, wpu_call. intros _. apply IH. by rewrite <- app_assoc.
Qed.

Lemma wpu_flush st up (Q : St -> bytes -> Prop) :
  Q (set_pending [] st) (up ++ concat (pending st)) -> wp recorded (@Logic.eq bytes) (flush st) Q up.
Proof. intros HQ. unfold flush. by apply wp_seq, wpu_send_all. Qed.

Abbreviation wpu := (wp recorded (@Logic.eq bytes)).

Lemma wpu_violate_parsing rule detail up0 sent fwd ms st :
  killed st = false -> accepted fwd ms -> fwd `prefix_of` sent ->
  wpu (violate s cfg rule detail st) (parsing up0 sent) (up0 ++ fwd).
Proof.
  intros Hk Ha Hp. eapply wp_mono; [|by apply wpu_violate].
  intros st' up' [-> (c & Hc & ->)]. right. split; [done|]. exists fwd, c, ms.
  split; [done|]. split; [by rewrite app_assoc|done].
Qed.

(** A frame the parser takes, in a state where [fs] is held. *)
Record frame_taken (st : St) (fs : list wire_frame) (fwd sent : bytes) (f : wire_frame) (len : Z) (rest : bytes) : Prop := {
  taken_wire : on_wire f;
  taken_len : blen (wf_payload f) = len;
  taken_allowed : frame_allowed cfg (inMsg st) (msgLen st) (wf_fin f) (wf_op f) len;
  taken_sent : fwd ++ raws (fs ++ [f]) ++ rest ++ concat (chunks st) = sent;
  taken_rest : are_bytes (rest ++ concat (chunks st));
}.

Lemma next_frame_taken st fs fwd ms sent fin op len raw payload rest :
  live st fs fwd ms sent ->
  next_frame cfg (inMsg st) (msgLen st) (acc st) = Frame fin op len raw payload rest ->
  frame_taken st fs fwd sent (mk_wire fin op payload raw) len rest.
Proof.
  intros Hl En. pose proof (live_bytes _ _ _ _ _ Hl) as Hb. apply Forall_app in Hb as [Hb Hc].
  pose proof (next_frame_app cfg (inMsg st) (msgLen st) (acc st) [] Hb) as Ha. rewrite En in Ha.
  destruct Ha as (_ & Hacc & _).
  destruct (next_frame_sound cfg _ _ _ _ _ _ _ _ _ Hb En) as (Ho & Hp & Hal & form & key & Hk & Hf & Hraw).
  constructor; simpl; [|done|done| |].
  - split; [done|]. split; [|exists form, key; simpl; by rewrite Hp]. simpl. intros H8.
    unfold frame_allowed in Hal. rewrite (proj2 (Z.leb_le 8 op) H8) in Hal. by rewrite Hp.
  - rewrite <- (live_sent _ _ _ _ _ Hl), raws_app, <- Hacc, <- !app_assoc. unfold raws at 2. simpl.
    by rewrite app_nil_r.
  - rewrite <- Hacc in Hb. apply Forall_app in Hb as [_ Hb]. by apply Forall_app.
Qed.

(** The state once a frame is taken off the buffer. *)
Definition off_buffer (raw rest : bytes) (st : St) : St :=
  set_pending (pending st ++ [raw]) (set_acc rest (set_need 2 st)).

Lemma prefix_sent st fs fwd ms sent : live st fs fwd ms sent -> fwd `prefix_of` sent.
Proof. intros Hl. rewrite <- (live_sent _ _ _ _ _ Hl). by apply prefix_app_r. Qed.

(** A control frame inside a message waits for it. *)
Lemma control_held st fs fwd ms sent f len rest :
  live st fs fwd ms sent -> frame_taken st fs fwd sent f len rest ->
  is_control f = true -> inMsg st = true -> (length fs < 256)%nat ->
  live (off_buffer (wf_raw f) rest st) (fs ++ [f]) fwd ms sent.
Proof.
  intros Hl [Hw Hlen Hal Hs Hb] Hc Hi Hn. destruct Hl as [Hk Ha [Hu1 [Hu2 Hu3]] Hp Hm Hml Hin Hq Hf Hd Hz Hsent Hbytes].
  assert (Hdata : data_of (fs ++ [f]) = data_of fs) by (by rewrite data_of_app, data_of_control, app_nil_r).
  constructor; simpl; try done.
  - split; [apply Forall_app; split; [done|by apply Forall_singleton]|]. by rewrite Hdata.
  - by rewrite Hp, map_app.
  - unfold payloads. by rewrite Hdata.
  - by rewrite Hdata.
  - by rewrite Hi.
  - rewrite length_app. simpl. lia.
  - by rewrite Hdata.
Qed.

(** Outside a message it is forwarded at once. *)
Lemma control_forwarded st fs fwd ms sent f len rest :
  live st fs fwd ms sent -> frame_taken st fs fwd sent f len rest ->
  is_control f = true -> inMsg st = false ->
  pending (off_buffer (wf_raw f) rest st) = [wf_raw f] /\
  live (set_pending [] (off_buffer (wf_raw f) rest st)) [] (fwd ++ wf_raw f) ms sent.
Proof.
  intros Hl [Hw Hlen Hal Hs Hb] Hc Hi. destruct Hl as [Hk Ha [Hu1 [Hu2 Hu3]] Hp Hm Hml Hin Hq Hf Hd Hz Hsent Hbytes].
  specialize (Hq Hi). subst fs. simpl in Hp, Hm. split; [simpl; by rewrite Hp|].
  constructor; simpl; try done; try (by constructor).
  rewrite <- Hs. unfold raws. simpl. by rewrite app_nil_r, <- !app_assoc.
Qed.

(** A data frame goes on with the message that is open, or begins one. *)
Lemma data_allowed st fs fwd ms sent f len :
  live st fs fwd ms sent -> frame_allowed cfg (inMsg st) (msgLen st) (wf_fin f) (wf_op f) len ->
  is_control f = false ->
  one_message (data_of (fs ++ [f])) /\ gt (of_Z (msgLen st + len)) (maxMsg cfg) = false.
Proof.
  intros Hl. unfold frame_allowed, data_frame_fault. fold (is_control f). intros Hal Hc. rewrite Hc in Hal.
  destruct Hl as [Hk Ha [Hu1 [Hu2 Hu3]] Hp Hm Hml Hin Hq Hf Hd Hz Hsent Hbytes].
  destruct (wf_op f =? OP_BIN); [done|].
  destruct (gt (of_Z (msgLen st + len)) (maxMsg cfg)); [by repeat case_match|].
  split; [|done]. rewrite data_of_app, data_of_data by done.
  destruct (Z.eqb_spec (wf_op f) OP_TEXT) as [E|]; destruct (Z.eqb_spec (wf_op f) OP_CONT) as [E'|];
    cbn [negb andb] in Hal; try done.
  - rewrite E in E'. done.
  - destruct (inMsg st) eqn:Ei; [done|]. symmetry in Hin. apply negb_false_iff, bool_decide_eq_true in Hin.
    rewrite Hin. simpl. by split.
  - destruct (inMsg st) eqn:Ei; [|done]. symmetry in Hin. apply negb_true_iff, bool_decide_eq_false in Hin.
    destruct (data_of fs) as [|d ds]; [done|]. destruct Hu2 as [Hd1 Hd2]. simpl. split; [done|].
    apply Forall_app. split; [done|]. by apply Forall_singleton.
Qed.

Lemma payloads_snoc fs f : is_control f = false -> payloads (fs ++ [f]) = payloads fs ++ [wf_payload f].
Proof. intros Hc. rewrite payloads_app. unfold payloads at 2. by rewrite data_of_data. Qed.

(** The state with a data frame added to its message. *)
Definition with_fragment (fin : bool) (len : Z) (payload : bytes) (st : St) : St :=
  let st := set_msgParts (msgParts st ++ [payload]) st in
  set_inMsg (negb fin) (set_msgLen (msgLen st + len) st).

(** The size of the message stays within the limit. *)
Lemma size_allowed f n len M :
  on_wire f -> blen (wf_payload f) = len -> 0 <= M <= 2 ^ 52 -> maxMsg cfg = of_Z M ->
  0 <= n <= M -> gt (of_Z (n + len)) (maxMsg cfg) = false -> n + len <= M.
Proof.
  intros (_ & _ & form & key & _ & Hf & _) Hlen HM -> Hn. pose proof (blen_nonneg (wf_payload f)).
  assert (blen (wf_payload f) < 4294967296) by (destruct form; simpl in Hf; lia).
  rewrite gt_int by (unfold two53 in *; lia). lia.
Qed.

(** A fragment that is not the last is held. *)
Lemma fragment_held st fs fwd ms sent f len rest :
  live st fs fwd ms sent -> frame_taken st fs fwd sent f len rest ->
  is_control f = false -> wf_fin f = false -> (length fs < 256)%nat -> (length (data_of fs) < 64)%nat ->
  live (with_fragment false len (wf_payload f) (off_buffer (wf_raw f) rest st)) (fs ++ [f]) fwd ms sent.
Proof.
  intros Hl Ht Hc Hfin Hn Hn'. destruct (data_allowed st fs fwd ms sent f len Hl) as [Hone Hz']; [apply Ht|done|].
  destruct Ht as [Hw Hlen Hal Hs Hb].
  destruct Hl as [Hk Ha [Hu1 [Hu2 Hu3]] Hp Hm Hml Hin Hq Hf Hd Hz Hsent Hbytes].
  constructor; simpl; try done.
  - split; [apply Forall_app; split; [done|by apply Forall_singleton]|]. split; [done|].
    rewrite data_of_app, data_of_data by done. apply Forall_app. split; [done|by apply Forall_singleton].
  - by rewrite Hp, map_app.
  - by rewrite payloads_snoc, Hm.
  - rewrite concat_app, blen_app, <- Hml, <- Hlen. simpl. by rewrite app_nil_r.
  - rewrite data_of_app, data_of_data by done. by destruct (data_of fs).
  - rewrite length_app. simpl. lia.
  - rewrite data_of_app, data_of_data, length_app by done. simpl. lia.
  - intros M HM Hmax. apply (size_allowed f _ _ M); try done. split; [|by apply Hz].
    rewrite Hml. apply blen_nonneg.
Qed.

Lemma touched_pending st st' x : touched st st' -> touched (set_pending x st) (set_pending x st').
Proof. intros (b1 & b2 & b3 & sb & n & ->). exists b1, b2, b3, sb, n. by destruct st. Qed.

Lemma pending_touched st st' : touched st st' -> pending st' = pending st.
Proof. intros (b1 & b2 & b3 & sb & n & ->). by destruct st. Qed.

(** The state at the end of a message. *)
Definition message_done (st : St) : St := set_msgReads 0 (set_msgLen 0 (set_msgParts [] st)).

(** The last one ends the message: if it was accepted, all that is held of it
    is forwarded. *)
Lemma message_forwarded st fs fwd ms sent f len rest st' :
  live st fs fwd ms sent -> frame_taken st fs fwd sent f len rest ->
  is_control f = false -> wf_fin f = true ->
  acceptable cfg (concat (payloads (fs ++ [f]))) ->
  touched (message_done (with_fragment true len (wf_payload f) (off_buffer (wf_raw f) rest st))) st' ->
  concat (pending st') = raws (fs ++ [f]) /\
  live (set_pending [] st') [] (fwd ++ raws (fs ++ [f])) (ms ++ [concat (payloads (fs ++ [f]))]) sent.
Proof.
  intros Hl Ht Hc Hfin Hacc Htouch.
  destruct (data_allowed st fs fwd ms sent f len Hl) as [Hone _]; [apply Ht|done|].
  destruct Ht as [Hw Hlen Hal Hs Hb]. destruct Hl as [Hk Ha Hu Hp Hm Hml Hin Hq Hf Hd Hz Hsent Hbytes].
  split.
  { rewrite (pending_touched _ _ Htouch). simpl. rewrite Hp. unfold raws. by rewrite map_app. }
  eapply live_touched; [by apply touched_pending|].
  assert (Hacc' := accepted_message fwd ms fs f Ha Hu Hw Hc Hfin Hone Hacc).
  clear Htouch st'. destruct st. simpl in *.
  constructor; simpl; [done|exact Hacc'|by repeat constructor|done..|lia|simpl; lia|lia| |done].
  by rewrite <- app_assoc.
Qed.

Lemma wpu_data_frame st fs fwd ms sent f len rest up0 :
  live st fs fwd ms sent -> frame_taken st fs fwd sent f len rest ->
  is_control f = false -> (length fs < 256)%nat ->
  wpu (data_frame s cfg (wf_fin f) len (wf_payload f) (off_buffer (wf_raw f) rest st))
    (parsing up0 sent) (up0 ++ fwd).
Proof.
  intros Hl Ht Hc Hn. pose proof (live_alive _ _ _ _ _ Hl) as Hk.
  pose proof (live_accepted _ _ _ _ _ Hl) as Ha. pose proof (prefix_sent _ _ _ _ _ Hl) as Hpre.
  unfold data_frame. cbv zeta. destruct (MAX_FRAGMENTS <? _) eqn:Em.
  { by apply (wpu_violate_parsing _ _ up0 sent fwd ms). }
  assert (Hn' : (length (data_of fs) < 64)%nat).
  { simpl in Em. rewrite (live_parts _ _ _ _ _ Hl) in Em. unfold MAX_FRAGMENTS, blen, payloads in Em.
    rewrite length_app, length_map in Em. cbn [length] in Em. apply Z.ltb_ge in Em. lia. }
  destruct (wf_fin f) eqn:Ef.
  - apply wp_seq. eapply wp_mono; [|by apply wpu_inspect].
    assert (Hbuf : concat (msgParts (set_inMsg (negb true) (set_msgLen
              (msgLen (set_msgParts (msgParts (off_buffer (wf_raw f) rest st) ++ [wf_payload f])
                         (off_buffer (wf_raw f) rest st)) + len)
              (set_msgParts (msgParts (off_buffer (wf_raw f) rest st) ++ [wf_payload f])
                 (off_buffer (wf_raw f) rest st))))) = concat (payloads (fs ++ [f]))).
    { simpl. by rewrite (live_parts _ _ _ _ _ Hl), payloads_snoc. }
    intros st' up' [(st1 & _ & [-> (c & Hcl & ->)])|(Hacc & Hk' & Htouch & ->)].
    + right. split; [done|]. exists fwd, c, ms. split; [done|]. split; [by rewrite app_assoc|done].
    + rewrite Hbuf in Hacc. rewrite Hk'.
      destruct (message_forwarded st fs fwd ms sent f len rest st' Hl Ht Hc Ef Hacc Htouch) as [Hp Hl'].
      apply wpu_flush. left. do 3 eexists. split; [exact Hl'|]. rewrite Hp. by rewrite <- app_assoc.
  - left. do 3 eexists. split; [by apply (fragment_held st fs fwd ms sent f len rest)|done].
Qed.

Lemma wpu_take_frame st fs fwd ms sent fin op len raw payload rest up0 :
  live st fs fwd ms sent ->
  next_frame cfg (inMsg st) (msgLen st) (acc st) = Frame fin op len raw payload rest ->
  wpu (take_frame s cfg fin op len raw payload rest st) (parsing up0 sent) (up0 ++ fwd).
Proof.
  intros Hl En. pose proof (next_frame_taken _ _ _ _ _ _ _ _ _ _ _ Hl En) as Ht.
  set (f := mk_wire fin op payload raw) in *. unfold take_frame. cbv zeta. fold (off_buffer raw rest st).
  destruct (MAX_PENDING_FRAMES <? _) eqn:Em.
  { apply (wpu_violate_parsing _ _ up0 sent fwd ms); [apply Hl|apply Hl|by eapply prefix_sent]. }
  assert (Hn : (length fs < 256)%nat).
  { simpl in Em. rewrite (live_pending _ _ _ _ _ Hl) in Em. unfold MAX_PENDING_FRAMES, blen in Em.
    rewrite length_app, length_map in Em. cbn [length] in Em. apply Z.ltb_ge in Em. lia. }
  change (8 <=? op) with (is_control f). destruct (is_control f) eqn:Ec.
  - change (inMsg (off_buffer raw rest st)) with (inMsg st). destruct (inMsg st) eqn:Ei.
    + left. do 3 eexists. split; [by apply (control_held st fs fwd ms sent f len rest)|done].
    + destruct (control_forwarded st fs fwd ms sent f len rest Hl Ht Ec Ei) as [Hp Hl'].
      apply wpu_flush. left. do 3 eexists. split; [exact Hl'|].
      change (pending (off_buffer raw rest st)) with (pending (off_buffer (wf_raw f) rest st)). rewrite Hp.
      simpl. by rewrite app_nil_r, <- app_assoc.
  - by apply (wpu_data_frame st fs fwd ms sent f len rest up0).
Qed.

Lemma wpu_pump_loop up0 sent fuel : forall st up,
  parsing up0 sent st up -> wpu (pump_loop s cfg fuel st) (parsing up0 sent) up.
Proof.
  induction fuel as [|n IH]; intros st up Hp; [exact Hp|]. cbn [pump_loop].
  destruct Hp as [(fs & fwd & ms & Hl & ->)|[Hk Hc]].
  - rewrite (live_alive _ _ _ _ _ Hl). destruct (next_frame cfg _ _ _) eqn:En.
    + left. exists fs, fwd, ms. split; [|done]. destruct Hl. by constructor.
    + apply (wpu_violate_parsing _ _ up0 sent fwd ms); [apply Hl|apply Hl|by eapply prefix_sent].
    + apply wp_seq. eapply wp_mono; [|by eapply wpu_take_frame]. intros st' up'. apply IH.
  - rewrite Hk. by right.
Qed.

(** ** Segments and the handshake *)

(** A program that sends nothing in its own direction. *)
Definition silent (X : Type) (e : njs X) : Prop := match e with Send _ _ => False | _ => True end.

Lemma wpu_silent {A} (m : prog njs A) (Q : A -> bytes -> Prop) up :
  safe silent m -> (forall a, Q a up) -> wpu m Q up.
Proof.
  intros Hm HQ. induction m as [a|X e k IH]; [apply HQ|].
  destruct Hm as [He Hk]. intros up1 <- x up2 Hr. destruct e; simpl in Hr; try done; subst up2; by apply IH.
Qed.

Lemma silent_isBanned ip path v : safe silent (isBanned ip path v).
Proof.
  unfold isBanned, loadBans. destruct path; [done|]. apply safe_bind.
  - split; [done|]. intros []; [|done]. simpl. case_match; [done|]. split; [done|]. by intros [].
  - intros [m v']. destruct (m !! ip); [|done]. repeat (case_match; [done|]). by split.
Qed.

(** In WebSocket mode, the handshake behind. *)
Definition reading (st : St) : Prop := mode st = Ws /\ hs st = [].

Lemma reading_stable : stable (fun st => idle st /\ reading st).
Proof. intros st [[Hc Hp] [Hm Hh]]. unfold idle, reading. by repeat split. Qed.

(** What [feed] and the end of the handshake run the loop on. *)
Lemma wpu_pump up0 sent st up :
  reading st -> idle st -> are_bytes (acc st) -> parsing up0 sent st up ->
  wpu (pump s cfg st)
    (fun st' up' => reading st' /\ parsing up0 sent st' up' /\ (killed st' = true \/ waiting cfg st')) up.
Proof.
  intros Hm Hi Hb Hp. eapply wp_mono; [|apply wp_conj; [by apply (wpu_pump_loop up0 sent)|
    apply returns_wp, (pump_loop_settles s cfg _ reading_stable); [done|lia|exact Hb|done]]].
  intros st' up' (Hp' & [Hi' Hm'] & Hb' & Hs'). split; [exact Hm'|]. split; [exact Hp'|].
  by apply settled_waiting.
Qed.

(** The bytes of a segment join those held. *)
Lemma live_segment st fs fwd ms sent d n c :
  live st fs fwd ms sent -> are_bytes d ->
  acc st ++ concat (chunks st) ++ d = c -> forall st',
  acc st' ++ concat (chunks st') = c ->
  killed st' = killed st -> pending st' = pending st -> msgParts st' = msgParts st ->
  msgLen st' = msgLen st -> inMsg st' = inMsg st -> n = sent ++ d ->
  live st' fs fwd ms n.
Proof.
  intros [] Hd Hc st' Hc' Hk Hp Hm Hl Hi ->.
  constructor; rewrite ?Hk, ?Hp, ?Hm, ?Hl, ?Hi, ?Hc'; try done.
  - rewrite <- live_sent0, <- Hc, <- !app_assoc. done.
  - rewrite <- Hc, app_assoc. by apply Forall_app.
Qed.

Lemma wpu_feed up0 sent st up d :
  reading st -> waiting cfg st -> are_bytes d -> parsing up0 sent st up ->
  wpu (feed s cfg d st)
    (fun r up' => reading r.1 /\ parsing up0 (sent ++ d) r.1 up' /\
                  (killed r.1 = true \/ waiting cfg r.1)) up.
Proof.
  intros Hm Hw Hd [(fs & fwd & ms & Hl & ->)|[Hk _]]; [|destruct Hw as [Hw _]; congruence].
  pose proof (feed_settles s cfg d st Hw Hd) as Hs. unfold feed in *. cbv zeta in *.
  set (st1 := set_pendingLen (pendingLen st + blen d) (set_chunks (chunks st ++ [d]) st)) in *.
  destruct (blen (acc st1) + pendingLen st1 <? need st1).
  - split; [exact Hm|]. split; [|exact Hs]. left. exists fs, fwd, ms. split; [|done].
    eapply (live_segment st fs fwd ms sent d); [exact Hl|exact Hd|done|..]; try done.
    simpl. rewrite concat_app. simpl. by rewrite app_nil_r.
  - apply wp_seq. destruct Hw as (_ & Hb & Hc & _). eapply wp_mono; [|apply (wpu_pump up0 (sent ++ d))].
    + intros st' up' H. exact H.
    + exact Hm.
    + done.
    + simpl. rewrite concat_app. simpl. rewrite app_nil_r. by repeat (apply Forall_app; split).
    + left. exists fs, fwd, ms. split; [|done].
      eapply (live_segment st fs fwd ms sent d); [exact Hl|exact Hd|done|..]; try done.
      simpl. rewrite concat_app. simpl. by rewrite !app_nil_r.
Qed.

(** ** A session *)

(** The head of a request as it is forwarded. *)
Definition head_sent (raw_head : bytes) : bytes := buffer_from (buffer_to_string raw_head).

(** Nothing is parsed yet. *)
Definition parser_empty (st : St) : Prop :=
  acc st = [] /\ idle st /\ pending st = [] /\ msgParts st = [] /\ msgLen st = 0 /\ inMsg st = false.

(** The client sent [got]; [up] was forwarded.  By mode: nothing but a Close
    frame before the end of the handshake; the head and the frames of accepted
    messages on a WebSocket; everything on any other request. *)
Definition session_inv (st : St) (got up : bytes) : Prop :=
  match mode st with
  | Handshake =>
    (killed st = true /\ closing up) \/
    (killed st = false /\ up = [] /\ hs st = got /\ hsScanned st = blen got /\
     headerBlockEnd got 0 = -1 /\ blen got <= MAX_HANDSHAKE /\ are_bytes got /\ parser_empty st)
  | Ws =>
    exists raw_head rest, got = raw_head ++ rest /\ strict_head raw_head /\
      is_upgrade (buffer_to_string raw_head) = true /\ hs st = [] /\
      parsing (head_sent raw_head) rest st up /\ (killed st = true \/ waiting cfg st)
  | Plain =>
    exists raw_head rest fwd, got = raw_head ++ rest /\ strict_head raw_head /\
      is_upgrade (buffer_to_string raw_head) = false /\ hs st = [] /\ parser_empty st /\
      up = head_sent raw_head ++ fwd /\ fwd `prefix_of` rest /\ (killed st = true \/ fwd = rest)
  end.

(** A session that was cut stays as it is, whatever the client sends. *)
Lemma session_inv_killed st got d up :
  killed st = true -> session_inv st got up -> session_inv st (got ++ d) up.
Proof.
  intros Hk. unfold session_inv. destruct (mode st).
  - intros [?|[? _]]; [by left|congruence].
  - intros (h & rest & -> & Hh & Hu & Hhs & Hp & _). exists h, (rest ++ d).
    split; [by rewrite app_assoc|]. do 3 (split; [done|]). split; [|by left].
    destruct Hp as [(fs & fwd & ms & Hl & _)|[_ (fwd & c & ms & Hc & -> & Ha & Hpre)]].
    + by rewrite (live_alive _ _ _ _ _ Hl) in Hk.
    + right. split; [done|]. exists fwd, c, ms. do 3 (split; [done|]). by apply prefix_app_r.
  - intros (h & rest & fwd & -> & Hh & Hu & Hhs & He & -> & Hpre & _). exists h, (rest ++ d), fwd.
    split; [by rewrite app_assoc|]. do 5 (split; [done|]). split; [by apply prefix_app_r|by left].
Qed.

Lemma mode_cut st : mode (cut st) = mode st.
Proof. by destruct st. Qed.

(** A violation before the end of the handshake. *)
Lemma wpu_violate_handshake rule detail st got :
  mode st = Handshake -> killed st = false ->
  wpu (violate s cfg rule detail st) (fun st' up' => session_inv st' got up') [].
Proof.
  intros Hm Hk. eapply wp_mono; [|by apply wpu_violate].
  intros st' up' [-> (c & Hc & ->)]. unfold session_inv. rewrite mode_cut, Hm.
  left. by split.
Qed.

(** On a WebSocket. *)
Lemma wpu_violate_ws rule detail st got d up :
  mode st = Ws -> killed st = false -> session_inv st got up ->
  wpu (violate s cfg rule detail st) (fun st' up' => session_inv st' (got ++ d) up') up.
Proof.
  intros Hm Hk. unfold session_inv at 1. rewrite Hm. intros (h & rest & -> & Hh & Hu & Hhs & Hp & _).
  destruct Hp as [(fs & fwd & ms & Hl & ->)|[Hk' _]]; [|congruence].
  eapply wp_mono; [|by apply wpu_violate]. intros st' up' [-> (c & Hc & ->)].
  unfold session_inv. rewrite mode_cut, Hm. exists h, (rest ++ d).
  split; [by rewrite app_assoc|]. do 3 (split; [done|]). split; [|by left]. right. split; [done|].
  exists fwd, c, ms. split; [done|]. split; [by rewrite app_assoc|]. split; [apply Hl|].
  apply prefix_app_r. by eapply prefix_sent.
Qed.

Lemma block_end_nil : headerBlockEnd [] 0 = -1.
Proof. done. Qed.

(** The loop starts on what follows the head. *)
Lemma parser_starts st rest h :
  parser_empty st -> are_bytes rest -> killed st = false ->
  parsing (head_sent h) rest (set_acc rest (set_mode Ws st)) (head_sent h).
Proof.
  intros (_ & [Hc Hpl] & Hp & Hm & Hl & Hi) Hb Hk. left. exists [], [], []. split; [|by rewrite app_nil_r].
  destruct st. simpl in *. subst. constructor; simpl; try done; try (by constructor); try lia; try (by left).
  - by rewrite app_nil_r.
  - by rewrite app_nil_r.
Qed.

Lemma wpu_classify st got fend :
  mode st = Handshake -> killed st = false -> parser_empty st -> hs st = got -> are_bytes got ->
  headerBlockEnd got 0 = fend -> 0 <= fend ->
  wpu (classify s cfg fend st) (fun r up' => session_inv r.1 got up') [].
Proof.
  intros Hm Hk He Hh Hb Hf Hn. unfold classify. rewrite Hh. destruct (hasBareLf got fend) eqn:El.
  { apply wp_seq. eapply wp_mono; [|by apply (wpu_violate_handshake _ _ st got)]. intros st' up' H. exact H. }
  pose proof (found_head_strict got fend Hf Hn El) as Hstrict. cbv zeta.
  set (h := take (Z.to_nat fend) got) in *. set (rest := drop (Z.to_nat fend) got).
  assert (Hgot : got = h ++ rest) by (symmetry; apply take_drop).
  assert (Hrest : are_bytes rest) by (by apply Forall_drop).
  apply wp_seq, wpu_call. intros _. cbn [app]. fold (head_sent h).
  destruct (is_upgrade (buffer_to_string h)) eqn:Eu.
  - apply wp_seq. eapply wp_mono; [|apply (wpu_pump (head_sent h) rest); [done| |exact Hrest|]].
    + intros st' up' ((Hm' & Hh') & Hp' & Hw'). wpu_ret. unfold session_inv. cbn [fst]. rewrite Hm'.
      exists h, rest. done.
    + apply He.
    + apply (parser_starts (set_hs [] st)); done.
  - assert (Hplain : forall up', up' = head_sent h ++ rest ->
              session_inv (set_mode Plain (set_hs [] st)) got up').
    { intros up' ->. exists h, rest, rest. do 4 (split; [done|]). split; [exact He|].
      split; [done|]. split; [done|by right]. }
    destruct rest as [|b r]; [apply Hplain; by rewrite app_nil_r|].
    apply wp_seq, wpu_call. intros _. by apply Hplain.
Qed.

Lemma wpu_on_handshake data st got up :
  mode st = Handshake -> killed st = false -> session_inv st got up -> are_bytes data ->
  wpu (on_handshake s cfg data st) (fun r up' => session_inv r.1 (got ++ data) up') up.
Proof.
  intros Hm Hk Hinv Hd. pose proof Hinv as Hinv'. unfold session_inv in Hinv. rewrite Hm in Hinv.
  destruct Hinv as [[? _]|(_ & -> & Hh & Hsc & He & Hlen & Hb & Hp)]; [congruence|].
  unfold on_handshake. destruct data as [|b d]; [rewrite app_nil_r; exact Hinv'|]. cbv zeta.
  assert (Hviol : forall rule detail st1, mode st1 = Handshake -> killed st1 = false ->
    wpu (st' <- violate s cfg rule detail st1 ;; Ret (st', false))
      (fun r up' => session_inv r.1 (got ++ b :: d) up') []).
  { intros rule detail st1 Hm1 Hk1. apply wp_seq.
    eapply wp_mono; [|by apply (wpu_violate_handshake _ _ st1 (got ++ b :: d))]. intros st' up' H. exact H. }
  destruct (gt _ _); [by apply Hviol|].
  change (hs (set_hs (hs (set_hsReads (hsReads st + 1) st) ++ b :: d) (set_hsReads (hsReads st + 1) st)))
    with (hs st ++ b :: d). rewrite Hh.
  destruct (MAX_HANDSHAKE <? blen (got ++ b :: d)) eqn:Ebig; [by apply Hviol|].
  set (st1 := set_hs (hs (set_hsReads (hsReads st + 1) st) ++ b :: d) (set_hsReads (hsReads st + 1) st)).
  assert (hsScanned st1 = blen got) as ->. { rewrite <- Hsc. by destruct st. }
  rewrite incremental_scan by done. set (st2 := set_hsScanned _ st1).
  assert (Hbd : are_bytes (got ++ b :: d)) by (by apply Forall_app).
  assert (H2 : mode st2 = Handshake /\ killed st2 = false /\ parser_empty st2 /\ hs st2 = got ++ b :: d).
  { unfold st2, st1. clear Hviol. destruct st. simpl in *. subst. by repeat split; try apply Hp. }
  destruct H2 as (Hm2 & Hk2 & Hp2 & Hh2).
  destruct (headerBlockEnd (got ++ b :: d) 0 <? 0) eqn:Ef.
  - wpu_ret. unfold session_inv. cbn [fst]. rewrite Hm2. right. do 3 (split; [done|]).
    split; [by unfold st2; destruct st|]. apply Z.ltb_lt in Ef. apply Z.ltb_ge in Ebig.
    unfold headerBlockEnd in *. rewrite Z.max_l, drop_0 in Ef |- * by lia.
    destruct (block_end_range (got ++ b :: d) 0); [lia| |lia]. done.
  - apply Z.ltb_ge in Ef. by apply wpu_classify.
Qed.

Lemma wpu_on_frames data st got up :
  mode st = Ws -> killed st = false -> session_inv st got up -> are_bytes data ->
  wpu (on_frames s cfg data st) (fun r up' => session_inv r.1 (got ++ data) up') up.
Proof.
  intros Hm Hk Hinv Hd. unfold on_frames. destruct data as [|b d]; [by rewrite app_nil_r|]. cbv zeta.
  assert (Hinv1 : session_inv (set_msgReads (msgReads st + 1) st) got up).
  { unfold session_inv in *. destruct st. simpl in *. subst mode.
    destruct Hinv as (h & rest & ? & ? & ? & ? & Hp & Hw). exists h, rest. do 4 (split; [done|]).
    split; [|done]. destruct Hp as [(fs & fwd & ms & [] & ->)|Hp]; [left|by right].
    exists fs, fwd, ms. split; [|done]. by constructor. }
  assert (Hm1 : mode (set_msgReads (msgReads st + 1) st) = Ws) by (by destruct st).
  assert (Hk1 : killed (set_msgReads (msgReads st + 1) st) = false) by (by destruct st).
  generalize dependent (set_msgReads (msgReads st + 1) st). clear st Hm Hk Hinv. intros st Hinv Hm Hk.
  destruct (gt _ _).
  { apply wp_seq. eapply wp_mono; [|by apply (wpu_violate_ws _ _ st got (b :: d) up)]. intros st' up' H. exact H. }
  unfold session_inv in Hinv. rewrite Hm in Hinv.
  destruct Hinv as (h & rest & -> & Hh & Hu & Hhs & Hp & Hw). destruct Hw as [Hw|Hw]; [congruence|].
  eapply wp_mono; [|by apply (wpu_feed (head_sent h) rest st up (b :: d))].
  intros [st' th] up' ((Hm' & Hh') & Hp' & Hw'). cbn [fst] in *. unfold session_inv. rewrite Hm'.
  exists h, (rest ++ b :: d). split; [by rewrite app_assoc|]. done.
Qed.

(** The ban check changes what the module remembers, or cuts the session. *)
Lemma session_inv_core v t st got up :
  session_inv st got up -> session_inv (set_core v (set_banCheckAt t st)) got up.
Proof.
  unfold session_inv. destruct st. simpl. destruct mode; [done| |done].
  intros (h & rest & ? & ? & ? & ? & Hp & Hw). exists h, rest. do 4 (split; [done|]).
  split; [|done]. destruct Hp as [(fs & fwd & ms & [] & ->)|Hp]; [left|by right].
  exists fs, fwd, ms. split; [|done]. by constructor.
Qed.

Lemma wpu_violate_session rule detail st got up :
  mode st <> Plain -> killed st = false -> session_inv st got up ->
  wpu (violate s cfg rule detail st) (fun st' up' => session_inv st' got up') up.
Proof.
  intros Hm Hk Hinv. destruct (mode st) eqn:E; [| |done].
  - pose proof Hinv as Hi. unfold session_inv in Hi. rewrite E in Hi.
    destruct Hi as [[? _]|(_ & -> & _)]; [congruence|]. by apply wpu_violate_handshake.
  - eapply wp_mono; [|by apply (wpu_violate_ws _ _ st got [] up)]. intros st' up'. by rewrite app_nil_r.
Qed.

Lemma wpu_recheck_ban st got up :
  killed st = false -> session_inv st got up ->
  wpu (recheck_ban s cfg st)
    (fun r up' => session_inv r.1 got up' /\
       if r.2 : bool then killed r.1 = true else killed r.1 = false /\ mode r.1 = mode st) up.
Proof.
  intros Hk Hinv. unfold recheck_ban.
  assert (Hbody : forall f, mode st <> Plain -> wpu
    (now <- call DateNow ;;
     if ge (of_Z now) (banCheckAt st) then
       bv <- isBanned (remoteAddress s) f (core st) ;;
       let '(banned, v) := (bv : bool * vm) in
       let st := set_core v (set_banCheckAt (add (of_Z now) (mul (banRecheck cfg) (of_Z 1000))) st) in
       if banned then st <- violate s cfg (lit "banned") (Some (lit "session-cut")) st ;; Ret (st, true)
       else Ret (st, false)
     else Ret (st, false))
    (fun r up' => session_inv r.1 got up' /\
       if r.2 : bool then killed r.1 = true else killed r.1 = false /\ mode r.1 = mode st) up).
  { intros f Hm. apply wp_seq, wpu_call. intros now. destruct (ge _ _); [|by split].
    apply wp_seq, wpu_silent; [apply silent_isBanned|]. intros [banned v]. cbv beta iota zeta.
    pose proof (session_inv_core v (add (of_Z now) (mul (banRecheck cfg) (of_Z 1000))) st got up Hinv) as Hinv'.
    assert (Hmk : mode (set_core v (set_banCheckAt (add (of_Z now) (mul (banRecheck cfg) (of_Z 1000))) st)) = mode st /\
                  killed (set_core v (set_banCheckAt (add (of_Z now) (mul (banRecheck cfg) (of_Z 1000))) st)) = killed st)
      by (by destruct st).
    revert Hinv' Hmk. generalize (set_core v (set_banCheckAt (add (of_Z now) (mul (banRecheck cfg) (of_Z 1000))) st)).
    intros x Hinv' [Hm' Hk']. rewrite Hk in Hk'. destruct banned; [|by split].
    apply wp_seq. eapply wp_mono; [|apply wp_conj; [by apply (wpu_violate_session _ _ x got up); [congruence| |]|
      apply returns_wp, violate_kills]]. intros st' up' [H1 H2]. by split. }
  destruct (mode st) eqn:Em; [destruct (banFile cfg)|destruct (banFile cfg)|]; try by split.
  all: by apply Hbody.
Qed.

(** Whatever the client sends next, and whatever the calls answer. *)
Lemma wpu_onData data flags st got up :
  session_inv st got up -> are_bytes data ->
  wpu (onData s cfg data flags st) (fun st' up' => session_inv st' (got ++ data) up') up.
Proof.
  intros Hinv Hd. unfold onData. destruct (killed st) eqn:Hk; [by apply session_inv_killed|].
  apply wp_seq. eapply wp_mono; [|by apply wpu_recheck_ban].
  intros [st1 closed] up1 [Hinv1 Hlive]. cbn [fst snd] in *. cbv iota.
  destruct closed; [by apply session_inv_killed|]. destruct Hlive as [Hk1 _].
  assert (Heof : forall r up', session_inv r.1 (got ++ data) up' ->
    wpu (let '(st, through) := (r : St * bool) in
         if through && last_of flags && negb (killed st)
         then call (Send [] (Some {| last := true; flush_now := false |})) ;;; Ret st else Ret st)
      (fun st' up' => session_inv st' (got ++ data) up') up').
  { intros [st' th] up' H. destruct (th && _ && _); [|exact H].
    apply wp_seq, wpu_call. intros _. by rewrite app_nil_r. }
  destruct (mode st1) eqn:Em.
  - apply wp_seq. eapply wp_mono; [|by apply wpu_on_handshake]. intros r up'. apply Heof.
  - apply wp_seq. eapply wp_mono; [|by apply wpu_on_frames]. intros r up'. apply Heof.
  - apply wp_seq, wpu_call. intros _. wpu_ret. unfold session_inv in *. rewrite Em in *.
    destruct Hinv1 as (h & rest & fwd & -> & Hh & Hu & Hhs & He & -> & Hpre & Hw).
    destruct Hw as [?|Hw]; [congruence|]. subst fwd. exists h, (rest ++ data), (rest ++ data).
    split; [by rewrite app_assoc|]. do 4 (split; [done|]). split; [by rewrite app_assoc|].
    split; [done|by right].
Qed.

(** The upstream's bytes are forwarded to the client; at most the session is cut. *)
Lemma onDownstream_inv data flags st got up :
  session_inv st got up ->
  returns (fun st' => session_inv st' got up) (onDownstream s cfg data flags st).
Proof.
  intros Hinv. unfold onDownstream. assert (Hfwd : forall st, session_inv st got up ->
    returns (fun st' => session_inv st' got up) (call (Send data flags) ;;; Ret st)).
  { intros st' H. by apply returns_bind, returns_true. }
  destruct (bool_decide (mode st = Plain)) eqn:Em; [|by apply Hfwd].
  apply bool_decide_eq_true in Em. cbn [andb].
  destruct (negb (checkedResponse st) && (0 <? blen data)); [|by apply Hfwd]. cbv zeta.
  assert (Hc : session_inv (set_checkedResponse true st) got up /\ mode (set_checkedResponse true st) = Plain).
  { destruct st. simpl in *. by subst. }
  generalize dependent (set_checkedResponse true st). clear st Hinv Em. intros st [Hinv Hm].
  destruct (is_101 data); [|by apply Hfwd]. unfold violate. destruct (killed st) eqn:Hk; [done|]. cbv zeta.
  assert (Hcut : session_inv (cut st) got up).
  { unfold session_inv in *. rewrite mode_cut, Hm in *.
    destruct Hinv as (h & rest & fwd & ? & ? & ? & ? & He & ? & ? & _). exists h, rest, fwd.
    do 3 (split; [done|]). split; [by destruct st|]. split; [|by repeat (split; [done|]); left].
    destruct He as (? & [? ?] & ? & ? & ? & ?). destruct st. by repeat split. }
  apply returns_bind, returns_true. intros _. unfold with_frame.
  destruct (wsFrame _ _ _); [|exact Hcut]. apply returns_bind, returns_true. intros _.
  destruct (closeFrame _ _ _); [|exact Hcut]. apply returns_bind, returns_true. intros _.
  destruct (closeFrame _ _ _); [|exact Hcut]. apply returns_bind, returns_true. intros _. exact Hcut.
Qed.

End session.
