(* ===== verification/WsBounds.v ===== *)
(** * What a session holds

    The memory a client can make the filter hold, from the invariant of
    [WsSession]; and the subscriptions it can keep open. *)
From Stdlib Require Import SpecFloat.
From S2P Require Import Prelude Prog Text Json JsonSpec Js JsStd ShieldCore ShieldWs WsFrames WsSegments WsHandshake WsSafety WsSession.
Local Open Scope prog_scope.

(** The bytes of a session's buffers. *)
Definition held_bytes (st : St) : Z :=
  blen (hs st) + blen (acc st) + blen (concat (chunks st)) + blen (concat (pending st))
  + blen (concat (msgParts st)).

Section bounds.
Context {JS : JsEngine} (s : session) (cfg : Cfg).

(** A frame on the wire is at most 14 bytes longer than its payload. *)
Lemma on_wire_length f : on_wire f -> blen (wf_raw f) <= 14 + blen (wf_payload f).
Proof.
  intros (_ & _ & form & key & Hk & _ & ->). unfold client_frame. rewrite !blen_app.
  assert (Hu : blen (unmask key (wf_payload f)) = blen (wf_payload f)) by (unfold blen; by rewrite length_unmask).
  rewrite Hu. assert (Hk' : blen key = 4) by (unfold blen; lia). rewrite Hk'.
  assert (Hf : blen (length_bytes form (blen (wf_payload f))) <= 9) by (by destruct form; unfold blen; simpl; lia).
  change (blen [(if wf_fin f then 128 else 0) + wf_op f]) with 1. lia.
Qed.

(** The frames held for a message of which [n] bytes of payload arrived. *)
Lemma raws_length fs :
  Forall on_wire fs -> blen (raws fs) <= 139 * Z.of_nat (length fs) + blen (concat (payloads fs)).
Proof.
  induction 1 as [|f fs Hf _ IH]; [done|].
  pose proof (on_wire_length f Hf) as Hr. destruct Hf as (_ & Hctl & _).
  change (raws (f :: fs)) with (wf_raw f ++ raws fs). rewrite blen_app. cbn [length].
  unfold payloads, data_of in *. cbn [List.filter]. unfold is_control at 1.
  destruct (Z.leb_spec 8 (wf_op f)) as [H8|H8]; cbn [negb].
  - destruct (Hctl H8). lia.
  - cbn [map concat]. rewrite blen_app. pose proof (blen_nonneg (wf_payload f)). lia.
Qed.

(** How much the parser may wait for. *)
Lemma big_endian_bound bs : are_bytes bs -> big_endian bs < 256 ^ blen bs.
Proof.
  unfold big_endian. intros Hb.
  assert (H : forall a, foldl (fun a b => 256 * a + b) a bs < (a + 1) * 256 ^ blen bs).
  { induction Hb as [|b bs Hb _ IH]; intros a; [change (256 ^ blen (@nil Z)) with 1; simpl; lia|]. cbn [foldl].
    rewrite blen_cons, Z.pow_add_r by (done || apply blen_nonneg).
    eapply Z.lt_le_trans; [apply IH|]. unfold is_byte in Hb.
    pose proof (Z.pow_pos_nonneg 256 (blen bs) ltac:(lia) (blen_nonneg bs)).
    change (256 ^ 1) with 256. nia. }
  specialize (H 0). lia.
Qed.

Lemma more_bound in_msg msg_len acc n M :
  are_bytes acc -> 125 <= M <= 2 ^ 52 -> maxMsg cfg = of_Z M -> 0 <= msg_len <= M ->
  next_frame cfg in_msg msg_len acc = More n -> n <= 14 + M.
Proof.
  intros Hb HM Hmax Hml. destruct acc as [|b0 [|b1 r]]; [intros [= <-]; lia..|]. unfold next_frame.
  assert (Hat : forall fin op len off acc', 0 <= len < 4294967296 -> off <= 10 ->
    frame_at cfg in_msg msg_len fin op len off acc' = More n -> n <= 14 + M).
  { intros fin op len off acc' Hl Ho E. assert (Ha : frame_allowed cfg in_msg msg_len fin op len).
    { eapply frame_at_not_bad. intros r' d. by rewrite E. }
    rewrite frame_at_allowed in E by done. destruct (blen acc' <? _); [|done]. injection E as <-.
    unfold frame_allowed in Ha. destruct (8 <=? op); [lia|].
    unfold data_frame_fault in Ha. repeat (case_match; try done).
    rewrite Hmax, gt_int in * by (unfold two53; lia). lia. }
  apply Forall_cons in Hb as [_ Hb]. apply Forall_cons in Hb as [H1 Hr].
  destruct (negb _); [done|]. destruct (Z.eqb_spec (Z.land b1 128) 0) as [|E1]; [done|].
  destruct (second_byte b1 H1 E1) as [_ H127]. cbv zeta.
  destruct (Z.land b1 127 =? 126); [|destruct (Z.land b1 127 =? 127)].
  - destruct (_ <? 4); [intros [= <-]; lia|]. apply Hat; [|lia]. split; [by apply big_endian_nonneg, Forall_take|].
    pose proof (big_endian_bound (take 2 r) ltac:(by apply Forall_take)) as Hbd.
    assert (256 ^ blen (take 2 r) <= 256 ^ 2) by (apply Z.pow_le_mono_r; [lia|unfold blen; rewrite length_take; lia]).
    change (256 ^ 2) with 65536 in *. lia.
  - destruct (_ <? 10); [intros [= <-]; lia|]. destruct (negb _); [done|]. apply Hat; [|lia].
    split; [by apply big_endian_nonneg, Forall_take, Forall_drop|].
    pose proof (big_endian_bound (take 4 (drop 4 r)) ltac:(by apply Forall_take, Forall_drop)) as Hbd.
    assert (256 ^ blen (take 4 (drop 4 r)) <= 256 ^ 4) by (apply Z.pow_le_mono_r; [lia|unfold blen; rewrite length_take; lia]).
    change (256 ^ 4) with 4294967296 in *. lia.
  - apply Hat; lia.
Qed.

(** What the invariant says about memory. *)
Lemma session_held st got up M :
  session_inv cfg st got up -> killed st = false ->
  125 <= M <= 2 ^ 52 -> maxMsg cfg = of_Z M -> held_bytes st <= 35598 + 3 * M.
Proof.
  intros Hinv Hk HM Hmax. unfold session_inv, held_bytes, parser_empty, idle in *. destruct (mode st).
  - destruct Hinv as [[? _]|(_ & _ & Hh & _ & _ & Hlen & _ & Ha & [Hc _] & Hp & Hm & _)]; [congruence|].
    rewrite Hh, Ha, Hc, Hp, Hm. unfold MAX_HANDSHAKE in Hlen. cbn. unfold blen in *. simpl. lia.
  - destruct Hinv as (h & rest & _ & _ & _ & Hh & Hp & Hw). destruct Hw as [|Hw]; [congruence|].
    destruct Hp as [(fs & fwd & ms & Hl & _)|[? _]]; [|congruence].
    pose proof (live_size _ _ _ _ _ _ Hl M ltac:(lia) Hmax) as Hsize.
    pose proof (live_len _ _ _ _ _ _ Hl) as Hlen. pose proof (live_unfinished _ _ _ _ _ _ Hl) as [Hwire _].
    pose proof (raws_length fs Hwire) as Hraws. pose proof (live_frames _ _ _ _ _ _ Hl) as Hfs.
    destruct Hw as (_ & Hb & _ & Hn & _ & Hneed).
    pose proof (blen_nonneg (concat (msgParts st))).
    apply more_bound with (M := M) in Hn; [|done|done|done|lia].
    rewrite Hh. rewrite (live_pending _ _ _ _ _ _ Hl). fold (raws fs).
    rewrite (live_parts _ _ _ _ _ _ Hl) in *. rewrite blen_app in Hneed. change (blen (@nil Z)) with 0. lia.
  - destruct Hinv as (h & rest & fwd & _ & _ & _ & Hh & (Ha & [Hc _] & Hp & Hm & _) & _).
    rewrite Hh, Ha, Hc, Hp, Hm. change (blen (concat (@nil bytes))) with 0. change (blen (@nil Z)) with 0. lia.
Qed.

(** ** Subscriptions *)

(** The count is the number of open subscriptions, and within the limit; and
    the names of the open ones are short. *)
Definition subs_ok (M : Z) (st : St) : Prop :=
  (Z.of_nat (base.size (subs st)) = subCount st /\ subCount st <= M) /\
  set_Forall (fun sid => string_length sid <= 64) (subs st).

Section subs.
Context (M : Z) (HM : 0 <= M < two53) (Hmax : maxSubs cfg = of_Z M).

Lemma violate_result rule detail st :
  returns (fun st' => st' = st \/ st' = cut st) (violate s cfg rule detail st).
Proof.
  unfold violate. destruct (killed st); [by left|]. cbv zeta. apply returns_bind, returns_true. intros _.
  unfold with_frame. destruct (wsFrame _ _ _); [|by right]. apply returns_bind, returns_true. intros _.
  destruct (closeFrame _ _ _); [|by right]. apply returns_bind, returns_true. intros _.
  destruct (closeFrame _ _ _); [|by right]. apply returns_bind, returns_true. intros _. by right.
Qed.

Lemma subs_violate rule detail st : subs_ok M st -> returns (subs_ok M) (violate s cfg rule detail st).
Proof.
  intros H. eapply returns_mono; [|apply violate_result]. intros st' [->| ->]; [done|]. by destruct st.
Qed.

Lemma subs_open sid st :
  string_length sid <= 64 -> subs_ok M st -> returns (subs_ok M) (open_sub s cfg sid st).
Proof.
  intros Hsid Hok. pose proof Hok as [[Hs Hn] Hl]. unfold open_sub. case_bool_decide as Hin; [done|].
  rewrite Hmax. destruct (ge (of_Z (subCount st)) (of_Z M)) eqn:Eg; [by apply subs_violate|].
  rewrite ge_int in Eg by (unfold two53 in *; lia). apply Z.leb_gt in Eg.
  destruct st. simpl in *. split; simpl; [split; [|lia]|].
  - rewrite size_union by set_solver. rewrite size_singleton. lia.
  - apply set_Forall_union; [by apply set_Forall_singleton|done].
Qed.

Lemma subs_close msg st : subs_ok M st -> subs_ok M (close_sub msg st).
Proof.
  intros [[Hs Hn] Hl]. unfold close_sub. destruct (msg !! 1%nat) as [[| | |sid| |]|]; try done.
  case_bool_decide as Hin; [|done]. cbv zeta.
  assert (Hsz : (base.size (subs st) = S (base.size (subs st ∖ {[sid]})))%nat).
  { rewrite (union_difference_L {[sid]} (subs st)) at 1 by set_solver.
    rewrite size_union by set_solver. by rewrite size_singleton. }
  assert (Hl' : set_Forall (fun sid => string_length sid <= 64) (subs st ∖ {[sid]}))
    by (intros x Hx; apply Hl; set_solver).
  destruct (Z.ltb_spec 0 (subCount (set_subs (subs st ∖ {[sid]}) st))) as [|Hle].
  - destruct st. simpl in *. split; simpl; [lia|done].
  - destruct st. simpl in *. lia.
Qed.

Lemma subs_take (b : bucket) (k : bool * bucket -> prog njs St) :
  (forall r, returns (subs_ok M) (k r)) -> returns (subs_ok M) (r <- takeToken b ;; k r).
Proof. intros Hk. apply returns_bind, returns_true. exact Hk. Qed.

Lemma subs_query fs opens msg st :
  subs_ok M st -> returns (subs_ok M) (inspect_query s cfg fs opens msg st).
Proof.
  intros H. unfold inspect_query. apply subs_take. intros [ok b]. cbv beta iota zeta.
  assert (H' : subs_ok M (set_bReq b st)) by (by destruct st).
  clear H. generalize dependent (set_bReq b st). clear st. intros st H. unfold checkFilters.
  destruct (negb ok); [by apply subs_violate|].
  destruct (msg !! 1%nat) as [[]|]; try by apply subs_violate.
  destruct (bad_sub_id _) eqn:Esid; [by apply subs_violate|].
  apply returns_bind. destruct (filters_fault cfg fs) as [[r d]|].
  - apply returns_bind. eapply returns_mono; [|by apply subs_violate]. done.
  - simpl. destruct opens; [|done]. apply subs_open; [|done].
    unfold bad_sub_id in Esid. apply orb_false_iff in Esid as [_ Esid]. lia.
Qed.

(** Inspecting a message keeps the account. *)
Lemma subs_inspect buf st : subs_ok M st -> returns (subs_ok M) (inspect s cfg buf st).
Proof.
  intros H. unfold inspect. apply subs_take. intros [ok b]. cbv beta iota zeta.
  assert (H' : subs_ok M (set_bMsg b st)) by (by destruct st).
  clear H. generalize dependent (set_bMsg b st). clear st. intros st H.
  assert (He : forall b, subs_ok M (set_bEvent b st)) by (intros b'; by destruct st).
  destruct (negb ok); [by apply subs_violate|].
  destruct (json_parse _) as [[]|]; try by apply subs_violate.
  destruct l as [|[] l]; try by apply subs_violate.
  case_match; [by apply subs_violate|]. case_match.
  { unfold inspect_event. apply subs_take. intros [ok' b']. cbv beta iota zeta.
    repeat (case_match; try by apply subs_violate). apply He. }
  case_match; [by apply subs_query|]. case_match; [by apply subs_query|].
  case_match.
  { unfold inspect_auth. apply subs_take. intros [ok' b']. cbv beta iota zeta.
    case_match; [by apply subs_violate|apply He]. }
  case_match; [|done]. by apply subs_close.
Qed.

(** No other part of the filter touches the subscriptions. *)
Abbreviation keeps m := (returns (subs_ok M) m).

Lemma subs_flush st : subs_ok M st -> keeps (flush st).
Proof. intros H. apply returns_bind, returns_true. intros _. by destruct st. Qed.

Lemma subs_data_frame fin len payload st : subs_ok M st -> keeps (data_frame s cfg fin len payload st).
Proof.
  intros H. unfold data_frame. cbv zeta.
  case_match; [apply subs_violate; by destruct st|]. destruct fin; [|by destruct st].
  apply returns_bind. eapply returns_mono; [|apply subs_inspect; by destruct st].
  intros st' H'. destruct (killed st'); [done|by apply subs_flush].
Qed.

Lemma subs_take_frame fin op len raw payload rest st :
  subs_ok M st -> keeps (take_frame s cfg fin op len raw payload rest st).
Proof.
  intros H. unfold take_frame. cbv zeta.
  assert (H' : subs_ok M (set_pending (pending st ++ [raw]) (set_acc rest (set_need 2 st)))) by (by destruct st).
  revert H'. generalize (set_pending (pending st ++ [raw]) (set_acc rest (set_need 2 st))). clear st H.
  intros st H. case_match; [by apply subs_violate|]. case_match; [|by apply subs_data_frame].
  case_match; [done|by apply subs_flush].
Qed.

Lemma subs_pump st : subs_ok M st -> keeps (pump s cfg st).
Proof.
  unfold pump. generalize (S (length (acc st))). intros n. revert st.
  induction n as [|n IH]; intros st H; cbn [pump_loop]; [done|].
  destruct (killed st); [done|]. destruct (next_frame _ _ _ _).
  - by destruct st.
  - by apply subs_violate.
  - apply returns_bind. eapply returns_mono; [exact IH|]. by apply subs_take_frame.
Qed.

Lemma subs_then {A} (m : prog njs St) (f : St -> A) (g : A -> St) :
  (forall st, g (f st) = st) -> keeps m -> returns (fun r => subs_ok M (g r)) (st <- m ;; Ret (f st)).
Proof. intros Hg H. apply returns_bind. eapply returns_mono; [|exact H]. intros st. simpl. by rewrite Hg. Qed.

Lemma subs_on_frames data st : subs_ok M st -> returns (fun r => subs_ok M r.1) (on_frames s cfg data st).
Proof.
  intros H. unfold on_frames, feed. destruct data as [|b d]; [done|]. cbv zeta.
  case_match; [apply (subs_then _ (fun st => (st, false)) fst); [done|apply subs_violate; by destruct st]|].
  case_match; [by destruct st|].
  apply (subs_then _ (fun st => (st, true)) fst); [done|apply subs_pump; by destruct st].
Qed.

Lemma subs_on_handshake data st : subs_ok M st -> returns (fun r => subs_ok M r.1) (on_handshake s cfg data st).
Proof.
  intros H. unfold on_handshake, classify. destruct data as [|b d]; [done|]. cbv zeta.
  case_match; [apply (subs_then _ (fun st => (st, false)) fst); [done|apply subs_violate; by destruct st]|].
  case_match; [apply (subs_then _ (fun st => (st, false)) fst); [done|apply subs_violate; by destruct st]|].
  case_match; [by destruct st|].
  case_match; [apply (subs_then _ (fun st => (st, false)) fst); [done|apply subs_violate; by destruct st]|].
  apply returns_bind, returns_true. intros _.
  case_match; [apply (subs_then _ (fun st => (st, true)) fst); [done|apply subs_pump; by destruct st]|].
  case_match; [by destruct st|]. apply returns_bind, returns_true. intros _. by destruct st.
Qed.

Lemma subs_recheck st : subs_ok M st -> returns (fun r => subs_ok M r.1) (recheck_ban s cfg st).
Proof.
  intros H. unfold recheck_ban.
  assert (Hb : forall f v now, returns (fun r : St * bool => subs_ok M r.1)
    (bv <- isBanned (remoteAddress s) f v ;;
     let '(banned, v) := (bv : bool * vm) in
     let st := set_core v (set_banCheckAt (add (of_Z now) (mul (banRecheck cfg) (of_Z 1000))) st) in
     if banned then st <- violate s cfg (lit "banned") (Some (lit "session-cut")) st ;; Ret (st, true)
     else Ret (st, false))).
  { intros f v now. apply returns_bind, returns_true. intros [[] v']; cbv zeta; [|by destruct st].
    apply (subs_then _ (fun st => (st, true)) fst); [done|apply subs_violate; by destruct st]. }
  destruct (mode st); [destruct (banFile cfg)|destruct (banFile cfg)|]; try done.
  all: apply returns_bind, returns_true; intros now; case_match; [apply Hb|done].
Qed.

Lemma subs_onData data flags st : subs_ok M st -> keeps (onData s cfg data flags st).
Proof.
  intros H. unfold onData. destruct (killed st); [done|]. apply returns_bind.
  eapply returns_mono; [|by apply subs_recheck]. intros [st1 []] H1; cbn [fst] in H1; [done|].
  destruct (mode st1); [| |apply returns_bind, returns_true; by intros _].
  all: apply returns_bind; eapply returns_mono; [|first [by apply subs_on_handshake|by apply subs_on_frames]].
  all: intros [st2 th] H2; case_match; [apply returns_bind, returns_true; by intros _|done].
Qed.

Lemma subs_onDownstream data flags st : subs_ok M st -> keeps (onDownstream s cfg data flags st).
Proof.
  intros H. unfold onDownstream. cbv zeta.
  case_match; [case_match; [apply subs_violate; by destruct st|]|];
    apply returns_bind, returns_true; intros _; by destruct st.
Qed.

End subs.
End bounds.
