(* ===== verification/WsHeld.v ===== *)
(** * What a cut session leaves behind

    A violation drops the messages and segments held back, but not the buffer
    of the handshake and the bytes in front of the parser: they stay with the
    session's object, and with them the segment that caused it. *)
From S2P Require Import Prelude Prog Text Json JsonSpec Js JsStd ShieldCore ShieldWs WsFrames WsSegments WsHandshake WsSafety WsSession WsBounds.
Local Open Scope prog_scope.

(** The bytes not yet parsed. *)
Definition unparsed (st : St) : Z := blen (hs st) + blen (acc st) + blen (concat (chunks st)).

Section held.
Context {JS : JsEngine} (s : session) (cfg : Cfg) (K : Z).

(** Within [K] bytes not parsed; and nothing else, once it is cut. *)
Definition leaves (st : St) : Prop :=
  unparsed st <= K /\ (killed st = true -> pending st = [] /\ msgParts st = []).

Definition running (st : St) : Prop := unparsed st <= K /\ killed st = false.

Lemma running_leaves st : running st -> leaves st.
Proof. intros [H E]. split; [done|]. by rewrite E. Qed.

Abbreviation keeps m := (returns leaves m).

Lemma leaves_violate rule detail st : leaves st -> keeps (violate s cfg rule detail st).
Proof.
  intros [H Hk]. eapply returns_mono; [|apply violate_result]. intros st' [->| ->]; [by split|].
  split; [|by destruct st]. unfold unparsed in *. destruct st. simpl in *.
  change (blen (@nil Z)) with 0. pose proof (blen_nonneg (concat chunks)). lia.
Qed.

Lemma held_violate rule detail st : running st -> keeps (violate s cfg rule detail st).
Proof. intros H. by apply leaves_violate, running_leaves. Qed.

(** Fields that are not counted. *)
Ltac same_run := match goal with H : running ?st |- running _ => by destruct st end.
Ltac same_leaves := apply running_leaves; first [assumption|same_run].

Lemma held_open sid st : running st -> keeps (open_sub s cfg sid st).
Proof.
  intros H. unfold open_sub. case_bool_decide; [by apply running_leaves|].
  case_match; [by apply held_violate|]. same_leaves.
Qed.

Lemma held_close msg st : running st -> leaves (close_sub msg st).
Proof.
  intros H. unfold close_sub. destruct (msg !! 1%nat) as [[| | |sid| |]|]; try by apply running_leaves.
  case_bool_decide; [|by apply running_leaves]. cbv zeta. case_match; same_leaves.
Qed.

Lemma held_take (b : bucket) (k : bool * bucket -> prog njs St) :
  (forall r, keeps (k r)) -> keeps (r <- takeToken b ;; k r).
Proof. intros Hk. apply returns_bind, returns_true. exact Hk. Qed.

Lemma held_query fs opens msg st : running st -> keeps (inspect_query s cfg fs opens msg st).
Proof.
  intros H. unfold inspect_query. apply held_take. intros [ok b]. cbv beta iota zeta.
  assert (H' : running (set_bReq b st)) by same_run.
  clear H. generalize dependent (set_bReq b st). clear st. intros st H. unfold checkFilters.
  destruct (negb ok); [by apply held_violate|].
  destruct (msg !! 1%nat) as [[]|]; try by apply held_violate.
  destruct (bad_sub_id _); [by apply held_violate|].
  apply returns_bind. destruct (filters_fault cfg fs) as [[r d]|].
  - apply returns_bind. eapply returns_mono; [|by apply held_violate]. done.
  - simpl. destruct opens; [by apply held_open|by apply running_leaves].
Qed.

Lemma held_inspect buf st : running st -> keeps (inspect s cfg buf st).
Proof.
  intros H. unfold inspect. apply held_take. intros [ok b]. cbv beta iota zeta.
  assert (H' : running (set_bMsg b st)) by same_run.
  clear H. generalize dependent (set_bMsg b st). clear st. intros st H.
  assert (He : forall b, running (set_bEvent b st)) by (intros b'; same_run).
  destruct (negb ok); [by apply held_violate|].
  destruct (json_parse _) as [[]|]; try by apply held_violate.
  destruct l as [|[] l]; try by apply held_violate.
  case_match; [by apply held_violate|]. case_match.
  { unfold inspect_event. apply held_take. intros [ok' b']. cbv beta iota zeta.
    repeat (case_match; try by apply held_violate). by apply running_leaves. }
  case_match; [by apply held_query|]. case_match; [by apply held_query|].
  case_match.
  { unfold inspect_auth. apply held_take. intros [ok' b']. cbv beta iota zeta.
    case_match; [by apply held_violate|by apply running_leaves]. }
  case_match; [|by apply running_leaves]. by apply held_close.
Qed.

Lemma held_flush st : running st -> keeps (flush st).
Proof. intros H. apply returns_bind, returns_true. intros _. cbn [returns]. same_leaves. Qed.

Lemma held_data_frame fin len payload st : running st -> keeps (data_frame s cfg fin len payload st).
Proof.
  intros H. unfold data_frame. cbv zeta.
  case_match; [apply held_violate; same_run|]. destruct fin; [|cbn [returns]; same_leaves].
  apply returns_bind. eapply returns_mono; [|apply held_inspect; same_run].
  intros st' [H1 H2]. destruct (killed st') eqn:E; [split; [done|intros _; by apply H2]|apply held_flush; by split].
Qed.

Lemma held_take_frame fin op len raw payload rest st :
  running st -> blen rest <= blen (acc st) -> keeps (take_frame s cfg fin op len raw payload rest st).
Proof.
  intros H Hr. unfold take_frame. cbv zeta.
  assert (H' : running (set_pending (pending st ++ [raw]) (set_acc rest (set_need 2 st)))).
  { destruct H as [H E]. split; [|done]. unfold unparsed in *. destruct st. simpl in *. lia. }
  revert H'. generalize (set_pending (pending st ++ [raw]) (set_acc rest (set_need 2 st))). clear st H Hr.
  intros st H. case_match; [by apply held_violate|]. case_match; [|by apply held_data_frame].
  case_match; [by apply running_leaves|by apply held_flush].
Qed.

Lemma frame_rest in_msg msg_len acc fin op len raw payload rest :
  next_frame cfg in_msg msg_len acc = Frame fin op len raw payload rest -> blen rest <= blen acc.
Proof.
  assert (Hat : forall f o l off a, frame_at cfg in_msg msg_len f o l off a = Frame fin op len raw payload rest -> blen rest <= blen a).
  { intros f o l off a. unfold frame_at. cbv zeta.
    destruct (if 8 <=? o then _ else _) as [[r' d']|]; [done|]. destruct (blen a <? _); [done|].
    intros [= _ _ _ _ _ <-]. unfold blen. rewrite length_drop. lia. }
  unfold next_frame. destruct acc as [|b0 [|b1 r]]; [done..|]. cbv zeta.
  repeat match goal with |- (if ?c then _ else _) = _ -> _ => destruct c; try done end; apply Hat.
Qed.

Lemma held_pump_loop f st : running st -> keeps (pump_loop s cfg f st).
Proof.
  revert st. induction f as [|f IH]; intros st H; cbn [pump_loop]; [by apply running_leaves|].
  rewrite (proj2 H). destruct (next_frame _ _ _ _) eqn:En; [cbn [returns]; same_leaves|by apply held_violate|].
  apply returns_bind. eapply returns_mono; [|by apply held_take_frame; [|eapply frame_rest]].
  intros st' [H1 H2]. destruct (killed st') eqn:E; [|apply IH; by split].
  destruct f; cbn [pump_loop]; [|rewrite E]; (split; [done|intros _; by apply H2]).
Qed.

End held.

Section callbacks.
Context {JS : JsEngine} (s : session) (cfg : Cfg).

Lemma held_then K {A} (m : prog njs St) (f : St -> A) (g : A -> St) :
  (forall st, g (f st) = st) -> returns (leaves K) m -> returns (fun r => leaves K (g r)) (st <- m ;; Ret (f st)).
Proof. intros Hg H. apply returns_bind. eapply returns_mono; [|exact H]. intros st. simpl. by rewrite Hg. Qed.

Lemma held_on_frames K data st :
  killed st = false -> unparsed st + blen data <= K -> returns (fun r => leaves K r.1) (on_frames s cfg data st).
Proof.
  intros Hk H. pose proof (blen_nonneg data).
  assert (Hrun : forall st', killed st' = false -> unparsed st' <= unparsed st + blen data -> running K st') by (intros; split; [lia|done]).
  unfold on_frames, feed. destruct data as [|b d]; [apply running_leaves, Hrun; [done|cbn [fst]; lia]|]. cbv zeta.
  case_match; [apply (held_then K _ (fun st => (st, false)) fst); [done|apply held_violate, Hrun; [by destruct st|destruct st; unfold unparsed; simpl; lia]]|].
  case_match.
  - apply running_leaves, Hrun; [by destruct st|]. destruct st. unfold unparsed. simpl.
    rewrite concat_app, blen_app. cbn [concat]. rewrite app_nil_r. lia.
  - apply (held_then K _ (fun st => (st, true)) fst); [done|]. apply held_pump_loop, Hrun; [by destruct st|].
    destruct st. unfold unparsed. simpl. rewrite concat_app, !blen_app. cbn [concat]. rewrite app_nil_r.
    change (blen (@nil Z)) with 0. lia.
Qed.

Lemma held_on_handshake K data st :
  killed st = false -> unparsed st + blen data <= K -> returns (fun r => leaves K r.1) (on_handshake s cfg data st).
Proof.
  intros Hk H. pose proof (blen_nonneg data).
  assert (Hrun : forall st', killed st' = false -> unparsed st' <= unparsed st + blen data -> running K st') by (intros; split; [lia|done]).
  unfold on_handshake, classify. destruct data as [|b d]; [apply running_leaves, Hrun; [done|cbn [fst]; lia]|]. cbv zeta.
  set (data := b :: d) in *. clearbody data.
  assert (Hhs : unparsed (set_hs (hs (set_hsReads (hsReads st + 1) st) ++ data) (set_hsReads (hsReads st + 1) st)) = unparsed st + blen data)
    by (destruct st; unfold unparsed; simpl; rewrite blen_app; lia).
  case_match; [apply (held_then K _ (fun st => (st, false)) fst); [done|apply held_violate, Hrun; [by destruct st|destruct st; unfold unparsed; simpl; lia]]|].
  case_match; [apply (held_then K _ (fun st => (st, false)) fst); [done|apply held_violate, Hrun; [by destruct st|lia]]|].
  revert Hhs. generalize (hs (set_hsReads (hsReads st + 1) st) ++ data) as buf. intros buf Hhs.
  cbn [hs set_hs hsScanned set_hsScanned] in *.
  case_match; [apply running_leaves, Hrun; [by destruct st|destruct st; unfold unparsed in *; simpl in *; lia]|].
  case_match; [apply (held_then K _ (fun st => (st, false)) fst); [done|apply held_violate, Hrun; [by destruct st|destruct st; unfold unparsed in *; simpl in *; lia]]|].
  apply returns_bind, returns_true. intros _.
  match goal with |- context [drop ?n buf] => set (k := n) end.
  assert (Hdrop : blen (drop k buf) <= blen buf) by (unfold blen; rewrite length_drop; lia).
  case_match.
  - apply (held_then K _ (fun st => (st, true)) fst); [done|]. apply held_pump_loop, Hrun; [by destruct st|].
    destruct st. unfold unparsed in *. simpl in *. change (blen (@nil Z)) with 0. pose proof (blen_nonneg acc). lia.
  - assert (Hp : leaves K (set_mode Plain (set_hs [] (set_hsScanned (blen buf) (set_hs buf (set_hsReads (hsReads st + 1) st)))))).
    { apply running_leaves, Hrun; [by destruct st|]. destruct st. unfold unparsed in *. simpl in *.
      change (blen (@nil Z)) with 0. pose proof (blen_nonneg buf). lia. }
    case_match; [exact Hp|]. apply returns_bind, returns_true. intros _. exact Hp.
Qed.

Lemma held_recheck K st :
  running K st -> returns (fun r => leaves K r.1 /\ (r.2 = false -> running K r.1 /\ unparsed r.1 = unparsed st)) (recheck_ban s cfg st).
Proof.
  intros H. unfold recheck_ban.
  assert (H0 : forall b, returns (fun r : St * bool => leaves K r.1 /\ (r.2 = false -> running K r.1 /\ unparsed r.1 = unparsed st)) (Ret (E := njs) (st, b)))
    by (intros b; cbn; split; [by apply running_leaves|done]).
  assert (Hb : forall f v now, returns (fun r : St * bool => leaves K r.1 /\ (r.2 = false -> running K r.1 /\ unparsed r.1 = unparsed st))
    (bv <- isBanned (remoteAddress s) f v ;;
     let '(banned, v) := (bv : bool * vm) in
     let st := set_core v (set_banCheckAt (add (of_Z now) (mul (banRecheck cfg) (of_Z 1000))) st) in
     if banned then st <- violate s cfg (lit "banned") (Some (lit "session-cut")) st ;; Ret (st, true)
     else Ret (st, false))).
  { intros f v now. apply returns_bind, returns_true. intros [[] v']; cbv zeta.
    - apply returns_bind. eapply returns_mono; [|apply (held_violate s cfg K); by destruct st]. intros st' Hl. by split.
    - cbn [returns fst snd]. assert (running K (set_core v' (set_banCheckAt (add (of_Z now) (mul (banRecheck cfg) (of_Z 1000))) st))) by (by destruct st).
      split; [by apply running_leaves|]. intros _. split; [done|by destruct st]. }
  destruct (mode st); [destruct (banFile cfg)|destruct (banFile cfg)|]; try apply H0.
  all: apply returns_bind, returns_true; intros now; case_match; [apply Hb|apply H0].
Qed.

(** A segment of the client adds at most itself to the bytes not parsed. *)
Lemma held_onData data flags st :
  killed st = false -> returns (leaves (unparsed st + blen data)) (onData s cfg data flags st).
Proof.
  intros Hk. unfold onData. rewrite Hk. apply returns_bind. pose proof (blen_nonneg data).
  eapply returns_mono; [|apply (held_recheck (unparsed st + blen data)); split; [lia|done]].
  intros [st1 []] [H1 H2]; cbn [fst snd] in *; [exact H1|]. destruct (H2 eq_refl) as [[_ Hk1] Hu].
  destruct (mode st1); [| |apply returns_bind, returns_true; by intros _].
  all: apply returns_bind; eapply returns_mono; [|first [apply (held_on_handshake (unparsed st + blen data))|apply (held_on_frames (unparsed st + blen data))]; [done|lia]].
  all: intros [st2 th] H3; case_match; [apply returns_bind, returns_true; by intros _|done].
Qed.

Lemma held_onDownstream K data flags st : leaves K st -> returns (leaves K) (onDownstream s cfg data flags st).
Proof.
  intros H. unfold onDownstream. cbv zeta.
  case_match; [case_match; [apply leaves_violate; by destruct st|]|];
    apply returns_bind, returns_true; intros _; by destruct st.
Qed.

End callbacks.
