(* ===== verification/WsDelivery.v ===== *)
(** * The callback on one segment after the other

    What [onData] adds to the parser for each segment: a count of the reads of
    a message, against a client that drips it, and the recheck of the ban.
    While neither strikes, delivering segments is feeding the parser. *)
From S2P Require Import Prelude Prog Text Json JsonSpec Js JsStd ShieldCore Nginx CoreTheorems ShieldWs.
From S2P Require Import WsFrames WsSegments.
Local Open Scope prog_scope.

Section delivery.
Context {JS : JsEngine} (s : session) (cfg : Cfg).

(** The state but for the count of reads. *)
Abbreviation unread := (set_msgReads 0).

(** [f] depends on the count of reads only in the count it leaves. *)
Definition uncounted (f : St -> prog njs St) : Prop :=
  forall n st, (st' <- f (set_msgReads n st) ;; Ret (unread st')) = (st' <- f st ;; Ret (unread st')).

Lemma steady_set_msgReads n : steady (set_msgReads n).
Proof. by split. Qed.

Lemma uncounted_commutes f : (forall n, commutes (set_msgReads n) f) -> uncounted f.
Proof. intros H n st. rewrite H, bind_bind. by apply bind_ext. Qed.

Lemma uncounted_violate rule detail : uncounted (violate s cfg rule detail).
Proof. apply uncounted_commutes. intros n. apply commutes_violate, steady_set_msgReads. Qed.

Lemma uncounted_bind f g : uncounted f -> uncounted g -> uncounted (fun st => st' <- f st ;; g st').
Proof.
  intros Hf Hg n st. rewrite !bind_bind.
  set (G st' := st2 <- g st' ;; Ret (unread st2)).
  assert (HG : forall st0, (st' <- f st0 ;; G st') = (st' <- (st' <- f st0 ;; Ret (unread st')) ;; G st')).
  { intros st0. rewrite bind_bind. apply bind_ext. intros st'. cbn [bind]. unfold G. symmetry. apply Hg. }
  change ((st' <- f (set_msgReads n st) ;; G st') = (st' <- f st ;; G st')). by rewrite !HG, Hf.
Qed.

Lemma uncounted_flush : uncounted flush.
Proof.
  apply uncounted_commutes. intros n st. unfold flush. rewrite bind_bind. by apply bind_ext.
Qed.

Lemma uncounted_data_frame fin len payload : uncounted (data_frame s cfg fin len payload).
Proof.
  intros n st. unfold data_frame. cbv zeta.
  change (msgParts (set_msgParts (msgParts (set_msgReads n st) ++ [payload]) (set_msgReads n st)))
    with (msgParts (set_msgParts (msgParts st ++ [payload]) st)).
  change (set_msgParts (msgParts (set_msgReads n st) ++ [payload]) (set_msgReads n st))
    with (set_msgReads n (set_msgParts (msgParts st ++ [payload]) st)).
  generalize (set_msgParts (msgParts st ++ [payload]) st). clear st. intros st.
  case_match; [apply uncounted_violate|]. by destruct fin.
Qed.

Lemma uncounted_held fin op len raw payload : uncounted (held s cfg fin op len raw payload).
Proof.
  intros n st. unfold held. cbv zeta.
  change (set_pending (pending (set_msgReads n st) ++ [raw]) (set_msgReads n st))
    with (set_msgReads n (set_pending (pending st ++ [raw]) st)).
  generalize (set_pending (pending st ++ [raw]) st). clear st. intros st.
  change (pending (set_msgReads n st)) with (pending st). change (inMsg (set_msgReads n st)) with (inMsg st).
  case_match; [apply uncounted_violate|]. case_match; [|apply uncounted_data_frame].
  destruct (inMsg st); [done|apply uncounted_flush].
Qed.

Lemma uncounted_pump_loop f : uncounted (pump_loop s cfg f).
Proof.
  induction f as [|f IH]; intros n st; [done|]. rewrite !pump_loop_step.
  change (killed (set_msgReads n st)) with (killed st). destruct (killed st); [done|].
  change (inMsg (set_msgReads n st)) with (inMsg st). change (msgLen (set_msgReads n st)) with (msgLen st).
  change (acc (set_msgReads n st)) with (acc st).
  destruct (next_frame _ _ _ _) as [m|r d|fin op len raw payload rest]; [done|apply uncounted_violate|].
  apply (uncounted_bind (held s cfg fin op len raw payload) (fun st' => pump_loop s cfg f (rebuf rest 2 st')));
    [apply uncounted_held|]. intros m st'. apply (IH m (rebuf rest 2 st')).
Qed.

Lemma uncounted_feed d n st :
  (r <- feed s cfg d (set_msgReads n st) ;; Ret (unread r.1)) = (r <- feed s cfg d st ;; Ret (unread r.1)).
Proof.
  unfold feed. cbv zeta.
  set (st1 := set_pendingLen (pendingLen st + blen d) (set_chunks (chunks st ++ [d]) st)).
  change (set_pendingLen _ (set_chunks (chunks (set_msgReads n st) ++ [d]) (set_msgReads n st)))
    with (set_msgReads n st1).
  change (acc (set_msgReads n st1)) with (acc st1). change (pendingLen (set_msgReads n st1)) with (pendingLen st1).
  change (need (set_msgReads n st1)) with (need st1). change (chunks (set_msgReads n st1)) with (chunks st1).
  case_match; [done|]. rewrite !bind_bind. cbn [bind fst].
  exact (uncounted_pump_loop _ n (set_pendingLen 0 (set_chunks [] (set_acc (acc st1 ++ concat (chunks st1)) st1)))).
Qed.

(** ** What a segment leaves alone *)

Lemma stable_pump_loop (P : St -> Prop) :
  stable P -> (forall x n st, P st -> P (rebuf x n st)) ->
  forall f st, P st -> returns P (pump_loop s cfg f st).
Proof.
  intros HP Hre. induction f as [|f IH]; intros st H; [done|]. rewrite pump_loop_step.
  destruct (killed st); [done|]. destruct (next_frame _ _ _ _).
  - by apply (Hre (acc st) n).
  - by apply stable_violate.
  - apply returns_bind. eapply returns_mono; [|by apply (stable_held s cfg P HP)]. intros st' H'. by apply IH, Hre.
Qed.

(** In WebSocket mode, with its recheck due at [due], and at most [k] reads. *)
Definition reading (due : number) (k : Z) (st : St) : Prop :=
  mode st = Ws /\ banCheckAt st = due /\ 0 <= msgReads st <= k.

Lemma reading_stays due k : stable (reading due k).
Proof. intros st (Hm & Hd & Hr). unfold reading. destruct st. simpl in *. repeat split; try done; lia. Qed.

Lemma reading_feed due k d st : reading due k st -> returns (fun r => reading due k r.1) (feed s cfg d st).
Proof.
  intros H. unfold feed. cbv zeta. case_match; [exact H|]. apply returns_bind.
  eapply returns_mono; [|apply (stable_pump_loop (reading due k) (reading_stays due k)); [done|exact H]]. done.
Qed.

(** ** Delivery *)

(** The callback on each segment in turn. *)
Fixpoint deliver (segs : list (bytes * option send_flags)) (st : St) : prog njs St :=
  match segs with
  | [] => Ret st
  | (d, f) :: r => st' <- onData s cfg d f st ;; deliver r st'
  end.

(** What reaches the parser. *)
Definition arriving (segs : list (bytes * option send_flags)) : list bytes :=
  List.filter (fun d => match d with [] => false | _ => true end) (map fst segs).

Lemma concat_arriving segs : concat (arriving segs) = concat (map fst segs).
Proof. induction segs as [|[[|b d] f] segs IH]; [done|exact IH|]. cbn [arriving map fst List.filter concat] in *. by rewrite <- IH. Qed.

Lemma arriving_bytes segs : Forall are_bytes (map fst segs) -> Forall are_bytes (arriving segs).
Proof.
  intros H. apply Forall_forall. intros d Hd. apply list_elem_of_In, List.filter_In in Hd as [Hd%list_elem_of_In _].
  by apply (proj1 (Forall_forall _ _) H).
Qed.

(** As many reads of one message are within the limit. *)
Definition reads_allowed (k : Z) : Prop := forall n, 0 <= n <= k -> gt (of_Z n) (maxMsgReads cfg) = false.

(** An environment in which looking at the clock changes nothing, and what
    holds of its states all along. *)
Context {S : Type} (exec : forall X, njs X -> S -> X * S) (now_of : S -> Z) (holds : S -> Prop).
Hypothesis Hclock : forall e, exec Z DateNow e = (now_of e, e).
Hypothesis Hholds : forall X (ev : njs X) e, holds e -> holds (exec X ev e).2.

(** No recheck of the ban falls due: there is no banlist, or the clock stays
    before its time. *)
Definition no_recheck (st : St) : Prop :=
  banFile cfg = [] \/ forall e, holds e -> ge (of_Z (now_of e)) (banCheckAt st) = false.

Lemma run_holds {A} (m : prog njs A) e : holds e -> holds (run exec m e).2.
Proof.
  revert e. induction m as [a|X ev k IH]; intros e H; [done|]. cbn [run].
  pose proof (Hholds X ev e H) as H'. destruct (exec X ev e). by apply IH.
Qed.

Lemma run_recheck st e : no_recheck st -> holds e -> run exec (recheck_ban s cfg st) e = ((st, false), e).
Proof.
  intros H He. unfold recheck_ban. destruct (mode st); [| |done]; destruct H as [H|H];
    try (by rewrite H); destruct (banFile cfg) as [|c f]; try done.
  all: cbn [bind call run]; rewrite Hclock; cbn [run]; by rewrite (H e He).
Qed.

Lemma run_onData d f st e :
  killed st = false -> mode st = Ws -> no_recheck st -> last_of f = false ->
  reads_allowed (msgReads st + 1) -> 0 <= msgReads st -> holds e ->
  run exec (onData s cfg d f st) e =
  match d with
  | [] => (st, e)
  | _ => let '(r, e') := run exec (feed s cfg d (set_msgReads (msgReads st + 1) st)) e in (r.1, e')
  end.
Proof.
  intros Hk Hm Hn Hf Hr H0 He. unfold onData. rewrite Hk, run_bind, run_recheck by done. cbv beta iota. rewrite Hm.
  unfold on_frames. destruct d as [|b d].
  - cbn [bind run]. by rewrite Hf.
  - cbv zeta. change (msgReads (set_msgReads (msgReads st + 1) st)) with (msgReads st + 1).
    rewrite Hr by lia. rewrite run_bind. destruct (run exec (feed _ _ _ _) e) as [[st' b'] e'].
    cbv beta iota. cbn [fst]. rewrite Hf, andb_false_r. done.
Qed.

Lemma run_returns {A} (Q : A -> Prop) (m : prog njs A) e : returns Q m -> Q (run exec m e).1.
Proof.
  revert e. induction m as [a|X ev k IH]; intros e H; [done|]. cbn [run]. destruct (exec X ev e). apply IH, H.
Qed.

Lemma deliver_killed segs st : killed st = true -> deliver segs st = Ret st.
Proof.
  intros Hk. induction segs as [|[d f] segs IH]; [done|]. cbn [deliver]. unfold onData. by rewrite Hk.
Qed.

(** Delivering segments is feeding the parser. *)
Lemma deliver_receives segs : forall st e n,
  mode st = Ws -> no_recheck st -> 0 <= msgReads st -> reads_allowed (msgReads st + Z.of_nat (length segs)) ->
  Forall (fun x => last_of x.2 = false) segs -> holds e ->
  run exec (st' <- deliver segs st ;; Ret (unread st')) e =
  run exec (st' <- receive s cfg (arriving segs) (set_msgReads n st) ;; Ret (unread st')) e.
Proof.
  induction segs as [|[d f] segs IH]; intros st e n Hm Hn H0 Hr Hl He; [done|].
  apply Forall_cons in Hl as [Hf Hl]. cbn [snd] in Hf. rewrite length_cons in Hr.
  destruct (killed st) eqn:Hk.
  { rewrite deliver_killed, receive_killed by done. done. }
  assert (Hr1 : reads_allowed (msgReads st + 1)) by (intros m Hm'; apply Hr; lia).
  cbn [deliver]. rewrite bind_bind, run_bind, run_onData by done. destruct d as [|b d].
  { cbv beta iota. change (arriving (([], f) :: segs)) with (arriving segs).
    apply IH; try done. intros m Hm'. apply Hr. lia. }
  change (arriving ((b :: d, f) :: segs)) with ((b :: d) :: arriving segs). cbn [receive].
  change (killed (set_msgReads n st)) with (killed st). rewrite Hk, bind_bind.
  rewrite (run_bind _ (feed s cfg (b :: d) (set_msgReads n st))).
  pose proof (run_returns _ _ e (reading_feed (banCheckAt st) (msgReads st + 1) (b :: d) (set_msgReads (msgReads st + 1) st)
    ltac:(repeat split; simpl; (done || lia)))) as Hread.
  pose proof (run_holds (feed s cfg (b :: d) (set_msgReads (msgReads st + 1) st)) e He) as He1.
  pose proof (f_equal (fun p => run exec p e) (uncounted_feed (b :: d) (msgReads st + 1) st)) as E1.
  pose proof (f_equal (fun p => run exec p e) (uncounted_feed (b :: d) n st)) as E2. cbv beta in E1, E2.
  rewrite <- E2 in E1. rewrite !run_bind in E1. clear E2.
  destruct (run exec (feed s cfg (b :: d) (set_msgReads (msgReads st + 1) st)) e) as [[st1 t1] e1].
  destruct (run exec (feed s cfg (b :: d) (set_msgReads n st)) e) as [[st2 t2] e2].
  cbn [run fst] in *. apply pair_equal_spec in E1 as [E1 ->]. destruct Hread as (Hm1 & Hd1 & Hr1').
  assert (E2 : st2 = set_msgReads (msgReads st2) st1).
  { transitivity (set_msgReads (msgReads st2) (unread st2)); [by destruct st2|]. by rewrite <- E1. }
  rewrite E2. apply IH; [done| |lia| |done|done].
  - destruct Hn as [Hn|Hn]; [by left|right]. by rewrite Hd1.
  - intros m Hm'. apply Hr. lia.
Qed.

Lemma deliver_outcome segs st e :
  mode st = Ws -> waiting cfg st -> no_recheck st -> 0 <= msgReads st ->
  reads_allowed (msgReads st + Z.of_nat (length segs)) ->
  Forall (fun x => last_of x.2 = false) segs -> Forall are_bytes (map fst segs) -> holds e ->
  run exec (st' <- deliver segs st ;; Ret (unread (outcome st'))) e =
  run exec (st' <- absorb s cfg (concat (map fst segs)) (gathered st) ;; Ret (unread (outcome st'))) e.
Proof.
  intros Hm Hw Hn H0 Hr Hl Hb He.
  assert (E : forall m : prog njs St, (st' <- m ;; Ret (unread (outcome st'))) =
    (st' <- (st' <- m ;; Ret (unread st')) ;; Ret (unread (outcome st')))).
  { intros m. rewrite bind_bind. apply bind_ext. intros st'. cbn [bind]. f_equal.
    unfold outcome, final, gathered. destruct st'; simpl. by destruct killed. }
  assert (Hst : set_msgReads (msgReads st) st = st) by (by destruct st).
  rewrite E, run_bind, (deliver_receives segs st e (msgReads st)) by done.
  rewrite Hst, <- run_bind, <- E.
  assert (E' : forall m : prog njs St, (st' <- m ;; Ret (unread (outcome st'))) =
    (st' <- (st' <- m ;; Ret (outcome st')) ;; Ret (unread st'))) by (intros m; rewrite bind_bind; by apply bind_ext).
  rewrite E', receive_absorbs by (done || by apply arriving_bytes). by rewrite <- E', concat_arriving.
Qed.

End delivery.
