(* ===== verification/WsStream.v ===== *)
(** * The client's byte stream

    How the filter reads a stream of WebSocket bytes: its loop ends, a frame a
    client encodes is read back, the way the stream is cut into segments does
    not matter, and a source that was banned meanwhile is cut. *)
From Stdlib Require Import SpecFloat.
From S2P Require Import Prelude Prog Text Json JsonSpec Js JsStd ShieldCore Nginx CoreTheorems ShieldWs.
From S2P Require Import WsFrames WsSegments WsDelivery.
Local Open Scope prog_scope.

Lemma stable_any : stable (fun _ => True).
Proof. intros st _. by repeat split. Qed.

(** Between two calls, and in one, the clock does not run backwards. *)
Lemma wpn_clock {A} (m : prog njs A) s : wpn m (fun _ s' => clock s <= clock s') s.
Proof.
  apply (wp_invariant njs_step tick m (fun s' => clock s <= clock s')); [|intros X e s1 x s2 Hst H|lia].
  - intros s1 s2 Ht H. apply tick_clock in Ht. lia.
  - destruct Hst as [Hx|Hf].
    + destruct e; cbn in Hx; repeat case_match; by simplify_eq.
    + destruct e; try done. by destruct Hf as [_ ->].
Qed.

Section stream.
Context {JS : JsEngine} (s : session) (cfg : Cfg).

(** C31.  A WebSocket stream means the same however it is cut into segments:
    from a session that waits for more bytes, the callback [onData] on two ways
    to cut the same bytes, in any environment whose answers do not depend on
    how often the clock is read, makes the environment end the same (what is
    forwarded, what is logged, whether the session is cut) and leaves the same
    state, up to how the bytes not yet parsed are kept and the count of reads.
    This is while no recheck of the ban falls due (the clock stays before it in
    all states of the environment that occur, or there is no banlist),
    the client's stream goes on, and neither cutting has more segments than the
    limit on the reads of one message allows: past it the session is cut,
    which does depend on the segments. *)
Theorem segments_do_not_matter {S : Type} (exec : forall X, njs X -> S -> X * S) (now_of : S -> Z) (holds : S -> Prop)
    st segs segs' e :
  (forall e, exec Z DateNow e = (now_of e, e)) ->
  (forall X (ev : njs X) e, holds e -> holds (exec X ev e).2) -> holds e ->
  mode st = Ws -> waiting cfg st -> no_recheck cfg now_of holds st -> 0 <= msgReads st ->
  reads_allowed cfg (msgReads st + Z.of_nat (length segs)) ->
  reads_allowed cfg (msgReads st + Z.of_nat (length segs')) ->
  Forall (fun x => last_of x.2 = false) segs -> Forall (fun x => last_of x.2 = false) segs' ->
  Forall are_bytes (map fst segs) -> Forall are_bytes (map fst segs') ->
  concat (map fst segs) = concat (map fst segs') ->
  run exec (st' <- deliver s cfg segs st ;; Ret (set_msgReads 0 (outcome st'))) e =
  run exec (st' <- deliver s cfg segs' st ;; Ret (set_msgReads 0 (outcome st'))) e.
Proof.
  intros Hc Hh He Hm Hw Hn H0 Hr Hr' Hl Hl' Hb Hb' E.
  rewrite (deliver_outcome s cfg exec now_of holds Hc Hh segs), (deliver_outcome s cfg exec now_of holds Hc Hh segs') by done.
  by rewrite E.
Qed.

(** The loop over the buffered frames ends: it leaves the session cut, or
    with too few bytes for the next frame and their number recorded; and the
    fuel it is given, one more than the bytes buffered, is enough, as more of
    it changes nothing. *)
Theorem pump_terminates st :
  are_bytes (acc st) ->
  returns (fun st' => killed st' = true \/
                      next_frame cfg (inMsg st') (msgLen st') (acc st') = More (need st')) (pump s cfg st) /\
  forall fuel, (length (acc st) < fuel)%nat -> pump_loop s cfg fuel st = pump s cfg st.
Proof.
  intros Hb. split.
  - eapply returns_mono; [|apply (pump_loop_settles s cfg (fun _ => True) stable_any); [done|lia|done|done]].
    by intros st' (_ & _ & Hs).
  - intros fuel Hf. apply pump_loop_fuel; [done|done|lia].
Qed.

(** What a client encodes as RFC 6455 says is what the parser reads: with
    any of the three forms of a length, any masking key and whatever follows
    it, a frame the filter admits is taken off the buffer whole, with its own
    flags and its payload unmasked. *)
Theorem client_frame_is_read in_msg msg_len fin op form key payload rest :
  0 <= op < 16 -> length key = 4%nat -> form_fits form (blen payload) ->
  frame_allowed cfg in_msg msg_len fin op (blen payload) ->
  next_frame cfg in_msg msg_len (client_frame fin op form key payload ++ rest) =
    Frame fin op (blen payload) (client_frame fin op form key payload) payload rest.
Proof. apply next_frame_whole. Qed.

(** ** Bans *)

(** What a session that is cut because of a ban sends: a notice and a Close
    frame to the client, a masked Close frame to the relay. *)
Definition ban_frames : option (bytes * bytes * bytes) :=
  match wsFrame OP_TEXT (notice (lit "banned")) false, closeFrame 1008 (lit "banned") false,
        closeFrame 1008 (lit "banned") true with
  | Some n, Some d, Some u => Some (n, d, u)
  | _, _, _ => None
  end.

Definition cut_for_ban (s0 : nginx) (st' : St) (s' : nginx) : Prop :=
  killed st' = true /\
  exists n d u, ban_frames = Some (n, d, u) /\
    forward s' = forward s0 ++ [(u, flushing)] /\ downstream s' = downstream s0 ++ [n; d].

Lemma wpn_violate_banned detail st (Q : St -> nginx -> Prop) s0 :
  killed st = false ->
  (forall s', cut_for_ban s0 (cut st) s' -> Q (cut st) s') ->
  wpn (violate s cfg (lit "banned") detail st) Q s0.
Proof.
  intros Hk HQ. unfold violate. rewrite Hk. cbv zeta. apply wp_seq, wpn_verdict.
  intros t t' t'' _ _ _. unfold cut_for_ban, ban_frames in HQ.
  destruct (wsFrame _ _ _) as [n|] eqn:En; [|by vm_compute in En].
  destruct (closeFrame _ _ false) as [d|] eqn:Ed; [|by vm_compute in Ed].
  destruct (closeFrame _ _ true) as [u|] eqn:Eu; [|by vm_compute in Eu].
  cbn [with_frame]. do 3 wpn_step. wpn_ret. apply HQ. split; [done|].
  exists n, d, u. split; [done|]. cbn. by rewrite <- app_assoc.
Qed.

(** C29.  A source that is banned while connected is cut by its next bytes once
    the recheck interval has passed: if the file holds a ban of its address that
    is still in force when the callback ends, the session is over, what the
    client sent was not forwarded, and the relay got a Close frame only. *)
Theorem banned_session_is_cut st data flags stt text u due s0 :
  mode st <> Plain -> killed st = false -> banFile cfg <> [] ->
  files s0 !! banFile cfg = Some (stt, text) -> coherent (core st) (banFile cfg) stt text ->
  parse_banlist text !! remoteAddress s = Some (of_Z u) -> 0 <= u < 9007199254740 ->
  banCheckAt st = of_Z due -> 0 <= due <= clock s0 ->
  wpn (onData s cfg data flags st) (fun st' s' =>
    clock s' <= two53 -> u = 0 \/ clock s' < u * 1000 -> cut_for_ban s0 st' s') s0.
Proof.
  intros Hm Hk Hf Ht Hc Hu Hr Hd Hdue. unfold onData. rewrite Hk. apply wp_seq.
  assert (HD : two53 = 9007199254740992) by done.
  unfold recheck_ban. destruct (banFile cfg) as [|c f] eqn:Ef; [done|]. rewrite <- Ef in *.
  set (late := fun (st' : St) (s' : nginx) => clock s' <= two53 -> u = 0 \/ clock s' < u * 1000 -> cut_for_ban s0 st' s').
  assert (Hlate : forall (t : Z) s1 (p : prog njs St), clock s0 <= t -> t <= clock s1 ->
            (clock s1 <= two53 -> u = 0 \/ clock s1 < u * 1000 -> False) -> wpn p late s1).
  { intros t s1 p _ _ Hno. eapply wp_mono; [|apply wpn_clock]. cbv beta. intros st' s' Hs H1 H2.
    exfalso. apply Hno; [lia|]. destruct H2; [by left|right; lia]. }
  destruct (mode st) eqn:Em; [| |done]; cbv beta iota.
  all: wpn_step; destruct (ge (of_Z _) (banCheckAt st)) eqn:Eg.
  2, 4: wpn_ret; apply (Hlate t); cbn [clock set_clock] in *; [lia..|]; intros H1 _;
        rewrite Hd, ge_int in Eg by lia; apply Z.leb_gt in Eg; lia.
  all: apply wp_seq; eapply (wpn_isBanned _ _ _ stt text); [done|exact Ht|exact Hc|];
       intros v' t' Ht' _ _; rewrite Hu; cbn [clock set_clock] in Ht'; destruct (banned_at _ t') eqn:Eb; cbv zeta.
  2, 4: wpn_ret; apply (Hlate t'); cbn [clock set_clock] in *; [lia..|]; intros H1 H2;
        rewrite banned_at_seconds in Eb by lia; apply orb_false_iff in Eb as [E0 E1];
        apply Z.eqb_neq in E0; apply Z.ltb_ge in E1; lia.
  all: apply wp_seq, wpn_violate_banned; [done|]; intros s' Hcut; wpn_ret; intros _ _; exact Hcut.
Qed.

End stream.

(** ** A session, concretely *)

#[local] Existing Instance std_engine.

(** The filter installed on the relay's port, and the session it starts, taken
    to WebSocket mode. *)
Definition installed : Cfg * St := (run njs_exec (filter fresh_vm) (relay 1784000000000)).1.
Definition relay_cfg : Cfg := installed.1.
Definition open_session : St := set_mode Ws installed.2.
Definition banned_client : session := {| remoteAddress := lit "fd97::1" |}.

Definition text_frame (p : bytes) : bytes := client_frame true OP_TEXT Short [1; 2; 3; 4] p.
Definition req_frame : bytes := text_frame (buffer_from (quoted "['REQ','s',{'kinds':[1]}]")).
Definition bad_frame : bytes := text_frame (buffer_from (quoted "['REQ','s',{}]")).

Definition one_byte_each (bs : bytes) : list bytes := map (fun b => [b]) bs.

Lemma bytes_check bs : forallb is_byte bs = true -> are_bytes bs.
Proof. intros H. apply Forall_forall. intros b Hb. rewrite forallb_forall in H. by apply H, list_elem_of_In. Qed.

Lemma relay_reads n : 0 <= n <= 192 -> gt (of_Z n) (maxMsgReads relay_cfg) = false.
Proof.
  intros Hn. assert (H : forallb (fun k => negb (gt (of_Z (Z.of_nat k)) (maxMsgReads relay_cfg))) (seq 0 193) = true)
    by (vm_compute; reflexivity).
  rewrite forallb_forall in H. specialize (H (Z.to_nat n)). rewrite Z2Nat.id in H by lia.
  rewrite negb_true_iff in H. apply H, in_seq. lia.
Qed.

Definition unflagged (ds : list bytes) : list (bytes * option send_flags) := map (fun d => (d, None)) ds.

(** A request that is admitted, in one piece and byte by byte. *)
Lemma segments_do_not_matter_witness :
  let go segs := run njs_exec (st' <- deliver banned_client relay_cfg (unflagged segs) open_session ;;
                               Ret (set_msgReads 0 (outcome st'))) (nginx_at 1784000000000 ∅ relay_vars) in
  go [req_frame] = go (one_byte_each req_frame).
Proof.
  intros go. subst go. cbv beta.
  apply (segments_do_not_matter banned_client relay_cfg njs_exec clock (fun n => clock n = 1784000000000) open_session).
  - reflexivity.
  - intros X ev n Hn. rewrite <- Hn. destruct ev; cbn; repeat case_match; reflexivity.
  - reflexivity.
  - reflexivity.
  - split; [by vm_compute|]. split; [apply bytes_check; by vm_compute|].
    split; [apply bytes_check; by vm_compute|]. by vm_compute.
  - right. intros n ->. by vm_compute.
  - vm_compute. discriminate.
  - intros n Hn. apply relay_reads. change (msgReads open_session) with 0 in Hn.
    cbn [unflagged map length] in Hn. lia.
  - intros n Hn. apply relay_reads. change (msgReads open_session) with 0 in Hn.
    replace (length (unflagged (one_byte_each req_frame))) with 31%nat in Hn by (by vm_compute). lia.
  - by repeat constructor.
  - apply (bool_decide_unpack _). by vm_compute.
  - apply (bool_decide_unpack _). by vm_compute.
  - apply (bool_decide_unpack _). by vm_compute.
  - by vm_compute.
Defined.

Lemma pump_terminates_witness :
  let st := set_acc (req_frame ++ bad_frame) open_session in
  returns (fun st' => killed st' = true \/
                      next_frame relay_cfg (inMsg st') (msgLen st') (acc st') = More (need st'))
    (pump banned_client relay_cfg st) /\
  forall fuel, (length (acc st) < fuel)%nat ->
    pump_loop banned_client relay_cfg fuel st = pump banned_client relay_cfg st.
Proof.
  apply (pump_terminates banned_client relay_cfg (set_acc (req_frame ++ bad_frame) open_session)).
  apply bytes_check. by vm_compute.
Defined.

Lemma client_frame_is_read_witness :
  next_frame relay_cfg true 100 (client_frame true OP_CONT Medium [9; 8; 7; 6] (lit "payload") ++ req_frame) =
    Frame true OP_CONT 7 (client_frame true OP_CONT Medium [9; 8; 7; 6] (lit "payload")) (lit "payload") req_frame.
Proof.
  apply (client_frame_is_read relay_cfg true 100 true OP_CONT Medium [9; 8; 7; 6] (lit "payload") req_frame);
    by vm_compute.
Defined.

(** The source is banned until 1785000000. *)
Lemma banned_session_is_cut_witness :
  let st := set_banCheckAt (of_Z 1784000010000) open_session in
  wpn (onData banned_client relay_cfg req_frame None st) (fun st' s' =>
    clock s' <= two53 -> 1785000000 = 0 \/ clock s' < 1785000000 * 1000 ->
    cut_for_ban (relay 1784000010000) st' s') (relay 1784000010000).
Proof.
  apply (banned_session_is_cut banned_client relay_cfg
           (set_banCheckAt (of_Z 1784000010000) open_session) req_frame None relay_stat relay_bans
           1785000000 1784000010000); by vm_compute.
Defined.
