(* ===== verification/WsTheorems.v ===== *)
(** * What the WebSocket filter promises

    Over whole sessions: any policy, any bytes in any segments, any answers of
    the calls; and what the filter does that its comments do not say. *)
From Stdlib Require Import SpecFloat.
From S2P Require Import Prelude Prog Text Json JsonSpec Js JsStd ShieldCore Nginx CoreTheorems ShieldWs.
From S2P Require Import WsFrames WsSegments WsHandshake WsSafety WsSession WsBounds WsHeld WsStream.
Local Open Scope prog_scope.

(** ** Sessions *)

(** What happens to a session: either side sends a segment. *)
Inductive happening :=
| ClientSends (data : bytes) (flags : option send_flags)
| RelaySends (data : bytes) (flags : option send_flags).

Definition from_client (h : happening) : bytes :=
  match h with ClientSends d _ => d | RelaySends _ _ => [] end.

Definition client_bytes (evs : list happening) : bytes := concat (map from_client evs).

(** The bytes sent while the other direction's callback runs go to the client. *)
Definition unrecorded (X : Type) (e : njs X) (up : bytes) (x : X) (up' : bytes) : Prop := up' = up.

Section conversations.
Context {JS : JsEngine} (s : session).

(** [Q] holds of the state and of what was forwarded to the relay, after the
    callbacks of [evs], whatever their calls answer. *)
Fixpoint converse (cfg : Cfg) (evs : list happening) (Q : St -> bytes -> Prop) (st : St) (up : bytes) : Prop :=
  match evs with
  | [] => Q st up
  | ClientSends d f :: r => wp recorded (@Logic.eq bytes) (onData s cfg d f st) (converse cfg r Q) up
  | RelaySends d f :: r => wp unrecorded (@Logic.eq bytes) (onDownstream s cfg d f st) (converse cfg r Q) up
  end.

(** From the moment the filter is installed. *)
Definition whole_session (v : vm) (evs : list happening) (Q : Cfg -> St -> bytes -> Prop) : Prop :=
  wp recorded (@Logic.eq bytes) (filter v) (fun r up => converse r.1 evs (Q r.1) r.2 up) [].

Lemma converse_inv cfg evs : forall st got up,
  Forall (fun h => are_bytes (from_client h)) evs -> session_inv cfg st got up ->
  converse cfg evs (fun st' up' => session_inv cfg st' (got ++ client_bytes evs) up') st up.
Proof.
  induction evs as [|[d f|d f] evs IH]; intros st got up Hb Hinv; cbn [converse].
  - unfold client_bytes. simpl. by rewrite app_nil_r.
  - apply Forall_cons in Hb as [Hd Hb]. eapply wp_mono; [|by apply wpu_onData].
    intros st' up' Hinv'. unfold client_bytes. cbn [map concat from_client]. rewrite app_assoc. by apply IH.
  - apply Forall_cons in Hb as [_ Hb].
    assert (Hup : wp unrecorded (@Logic.eq bytes) (onDownstream s cfg d f st)
                    (fun st' up' => session_inv cfg st' got up /\ up' = up) up).
    { apply wp_conj; [by apply returns_wp, onDownstream_inv|].
      apply (wp_invariant unrecorded (@Logic.eq bytes) _ (fun up' => up' = up)); [by intros ? ? <-| |done].
      by intros X e s1 x s2 ->. }
    eapply wp_mono; [|exact Hup]. intros st' up' [Hinv' ->]. by apply IH.
Qed.

Lemma filter_starts v :
  wp recorded (@Logic.eq bytes) (filter v)
    (fun r up => up = [] /\ session_inv r.1 r.2 [] up /\ subs r.2 = ∅ /\ subCount r.2 = 0 /\ killed r.2 = false) [].
Proof.
  unfold filter, policy, new_bucket. apply wp_seq, wp_seq, wpu_call. intros [port|e].
  - apply wp_seq, wpu_call. intros raw. wpu_ret.
    do 3 (apply wp_seq, wp_seq, wpu_call; intros ?; wpu_ret). apply wp_seq, wpu_call. intros now. wpu_ret.
    cbn [fst snd]. split; [done|]. split; [|done]. right. repeat (split; [done|]). by repeat constructor.
  - wpu_ret. do 3 (apply wp_seq, wp_seq, wpu_call; intros ?; wpu_ret). apply wp_seq, wpu_call. intros now. wpu_ret.
    cbn [fst snd]. split; [done|]. split; [|done]. right. repeat (split; [done|]). by repeat constructor.
Qed.

(** Everything known of a session at any point. *)
Lemma session_holds v evs (Q : Cfg -> St -> bytes -> Prop) :
  Forall (fun h => are_bytes (from_client h)) evs ->
  (forall cfg st up, session_inv cfg st (client_bytes evs) up -> Q cfg st up) -> whole_session v evs Q.
Proof.
  intros Hb HQ. unfold whole_session. eapply wp_mono; [|apply filter_starts].
  intros [cfg st] up (-> & Hinv & _). cbn [fst snd] in *.
  pose proof (converse_inv cfg evs st [] [] Hb Hinv) as H. clear Hinv Hb. cbn [app] in H.
  assert (Hmono : forall evs' st' up' Q1 Q2, (forall st up, Q1 st up -> Q2 st up) ->
            converse cfg evs' Q1 st' up' -> converse cfg evs' Q2 st' up').
  { intros evs'. induction evs' as [|[d f|d f] r IH]; intros st' up' Q1 Q2 H12; cbn [converse]; [apply H12| |];
      apply wp_mono; intros st2 up2; by apply IH. }
  eapply Hmono; [|exact H]. intros st' up'. apply HQ.
Qed.

(** ** The promise to the relay *)

(** What the relay may have received of [got]: before the end of the handshake
    nothing; then the head, and what follows it. *)
Definition forwarded (cfg : Cfg) (got up : bytes) : Prop :=
  closing up \/
  exists raw_head rest, got = raw_head ++ rest /\ strict_head raw_head /\
    if is_upgrade (buffer_to_string raw_head) then
      exists fwd c ms, up = head_sent raw_head ++ fwd ++ c /\ closing c /\
        fwd `prefix_of` rest /\ accepted cfg fwd ms
    else exists fwd, up = head_sent raw_head ++ fwd /\ fwd `prefix_of` rest.

(** C13.  The relay only sees what was inspected: in any session, whatever the
    policy, the segments and the answers of the calls, what was forwarded is
    the request's head, as a strict parser delimits it, and after a WebSocket
    upgrade a prefix of the client's own bytes that consists of whole frames:
    control frames, and messages every one of which is a JSON array of an
    allowed type within the limits; then at most one Close frame. *)
Theorem only_accepted_reaches_relay v evs :
  Forall (fun h => are_bytes (from_client h)) evs ->
  whole_session v evs (fun cfg st up => forwarded cfg (client_bytes evs) up).
Proof.
  intros Hb. apply session_holds; [done|]. intros cfg st up. unfold session_inv, forwarded.
  destruct (mode st).
  - intros [[_ Hc]|(_ & -> & _)]; left; [done|by left].
  - intros (h & rest & -> & Hh & Hu & _ & Hp & _). right. exists h, rest. rewrite Hu.
    split; [done|]. split; [done|].
    destruct Hp as [(fs & fwd & ms & Hl & ->)|[_ (fwd & c & ms & Hc & -> & Ha & Hpre)]].
    + exists fwd, [], ms. rewrite app_nil_r. split; [done|]. split; [by left|].
      split; [by eapply prefix_sent|apply Hl].
    + by exists fwd, c, ms.
  - intros (h & rest & fwd & -> & Hh & Hu & _ & _ & -> & Hpre & _). right. exists h, rest. rewrite Hu.
    split; [done|]. split; [done|]. by exists fwd.
Qed.

(** ** What a session holds *)

(** The subscriptions, within the limit whatever it is. *)
Definition subs_fine (cfg : Cfg) (st : St) : Prop :=
  forall S, 0 <= S < two53 -> maxSubs cfg = of_Z S -> subs_ok S st.

Lemma subs_fine_returns cfg (m : prog njs St) :
  (forall S, 0 <= S < two53 -> maxSubs cfg = of_Z S -> returns (subs_ok S) m) -> returns (subs_fine cfg) m.
Proof.
  intros H. set (T := {S | 0 <= S < two53 /\ maxSubs cfg = of_Z S}).
  eapply returns_mono; [|apply (returns_forall (fun t : T => subs_ok (proj1_sig t)))].
  - intros st Hst S HS Hmax. exact (Hst (exist _ S (conj HS Hmax))).
  - intros [S [HS Hmax]]. by apply H.
Qed.

Lemma subs_fine_start cfg st : subs st = ∅ -> subCount st = 0 -> subs_fine cfg st.
Proof.
  intros Hs Hc S HS _. unfold subs_ok. rewrite Hs, Hc, size_empty. split; [lia|apply set_Forall_empty].
Qed.

Lemma subs_fine_onData cfg d f st : subs_fine cfg st -> returns (subs_fine cfg) (onData s cfg d f st).
Proof. intros H. apply subs_fine_returns. intros S HS Hmax. apply subs_onData; auto. Qed.

Lemma subs_fine_onDownstream cfg d f st : subs_fine cfg st -> returns (subs_fine cfg) (onDownstream s cfg d f st).
Proof. intros H. apply subs_fine_returns. intros S HS Hmax. apply subs_onDownstream; auto. Qed.

(** The characters of the names of the open subscriptions. *)
Definition held_names (st : St) : Z := foldr (fun sid n => string_length sid + n) 0 (elements (subs st)).

Lemma names_bound S st : subs_ok S st -> held_names st <= 64 * S.
Proof.
  intros [[Hs Hn] Hl]. assert (H : held_names st <= 64 * Z.of_nat (length (elements (subs st)))).
  { unfold held_names. assert (Hf : Forall (fun sid => string_length sid <= 64) (elements (subs st))) by by apply set_Forall_elements.
    induction Hf as [|x l Hx _ IH]; [done|]. cbn [foldr length]. lia. }
  change (Z.of_nat (length (elements (subs st))) = subCount st) in Hs. lia.
Qed.

(** A session that was cut holds what it held before the segment that cut it,
    and that segment, at most. *)
Definition cut_within (cfg : Cfg) (B : Z) (st : St) : Prop :=
  killed st = true -> exists st0 got0 up0, session_inv cfg st0 got0 up0 /\ killed st0 = false /\
    leaves (unparsed st0 + B) st.

Lemma held_leaves K st : leaves K st -> killed st = true -> held_bytes st <= K.
Proof.
  intros [H Hk] Ek. destruct (Hk Ek) as [Hp Hm]. unfold held_bytes, unparsed in *. rewrite Hp, Hm.
  change (blen (concat (@nil bytes))) with 0. lia.
Qed.

Lemma unparsed_held st : unparsed st <= held_bytes st.
Proof.
  unfold unparsed, held_bytes. pose proof (blen_nonneg (concat (pending st))). pose proof (blen_nonneg (concat (msgParts st))). lia.
Qed.

Lemma cut_within_step cfg B K st st' got up :
  session_inv cfg st got up -> killed st = false -> K <= B -> leaves (unparsed st + K) st' -> cut_within cfg B st'.
Proof.
  intros Hinv Hk HK [H1 H2] _. exists st, got, up. split; [done|]. split; [done|]. split; [lia|done].
Qed.

Lemma cut_within_onData cfg B d f st got up :
  session_inv cfg st got up -> blen d <= B -> cut_within cfg B st ->
  returns (cut_within cfg B) (onData s cfg d f st).
Proof.
  intros Hinv Hd Hc. destruct (killed st) eqn:Ek; [unfold onData; by rewrite Ek|].
  eapply returns_mono; [|by apply held_onData]. intros st'. by apply (cut_within_step cfg B (blen d) st st' got up).
Qed.

Lemma cut_within_onDownstream cfg B d f st got up :
  session_inv cfg st got up -> 0 <= B -> cut_within cfg B st ->
  returns (cut_within cfg B) (onDownstream s cfg d f st).
Proof.
  intros Hinv HB Hc. destruct (killed st) eqn:Ek.
  - destruct (Hc Ek) as (st0 & got0 & up0 & H1 & H2 & H3).
    eapply returns_mono; [|by apply (held_onDownstream s cfg (unparsed st0 + B))].
    intros st' Hl _. by exists st0, got0, up0.
  - eapply returns_mono; [|apply (held_onDownstream s cfg (unparsed st + 0)), running_leaves; split; [lia|done]].
    intros st'. by apply (cut_within_step cfg B 0 st st' got up).
Qed.

Lemma converse_held cfg B evs : forall st got up,
  Forall (fun h => are_bytes (from_client h) /\ blen (from_client h) <= B) evs ->
  session_inv cfg st got up -> subs_fine cfg st -> cut_within cfg B st ->
  converse cfg evs (fun st' up' => (exists got', session_inv cfg st' got' up') /\ subs_fine cfg st' /\
                                   cut_within cfg B st') st up.
Proof.
  induction evs as [|[d f|d f] evs IH]; intros st got up Hb Hinv Hs Hc; cbn [converse].
  - split; [by exists got|done].
  - apply Forall_cons in Hb as [[Hd HdB] Hb]. cbn [from_client] in *.
    eapply wp_mono; [|apply wp_conj; [by apply (wpu_onData s cfg d f st got up)|apply wp_conj;
      [by apply returns_wp, subs_fine_onData|by apply returns_wp, (cut_within_onData cfg B d f st got up)]]].
    intros st' up' (Hinv' & Hs' & Hc'). by apply (IH st' (got ++ d)).
  - apply Forall_cons in Hb as [[_ HdB] Hb]. change (blen (from_client (RelaySends d f))) with 0 in HdB.
    assert (Hup : wp unrecorded (@Logic.eq bytes) (onDownstream s cfg d f st)
                    (fun st' up' => session_inv cfg st' got up /\ up' = up) up).
    { apply wp_conj; [by apply returns_wp, onDownstream_inv|].
      apply (wp_invariant unrecorded (@Logic.eq bytes) _ (fun up' => up' = up)); [by intros ? ? <-| |done].
      by intros X e s1 x s2 ->. }
    eapply wp_mono; [|apply wp_conj; [exact Hup|apply wp_conj;
      [by apply returns_wp, subs_fine_onDownstream|by apply returns_wp, (cut_within_onDownstream cfg B d f st got up)]]].
    intros st' up' ((Hinv' & ->) & Hs' & Hc'). by apply (IH st' got).
Qed.

Lemma converse_mono cfg evs : forall st up (Q1 Q2 : St -> bytes -> Prop),
  (forall st up, Q1 st up -> Q2 st up) -> converse cfg evs Q1 st up -> converse cfg evs Q2 st up.
Proof.
  induction evs as [|[d f|d f] evs IH]; intros st up Q1 Q2 H12; cbn [converse]; [apply H12| |];
    apply wp_mono; intros st' up'; by apply IH.
Qed.

(** C28.  A client cannot make the filter hold more than 35598 bytes, three
    times the message limit and 64 characters for each subscription it is
    allowed, whatever it sends: frames of any size and kind, fragments, control
    frames between them, or a handshake that never ends.  Once a violation has
    cut the session, the buffers may hold in addition the segment that caused
    it, of at most [B] bytes when no segment is longer.  (For limits that are
    integers, the one on messages at least 125.) *)
Theorem session_memory_bounded v evs B :
  Forall (fun h => are_bytes (from_client h) /\ blen (from_client h) <= B) evs ->
  whole_session v evs (fun cfg st up => forall M S,
    125 <= M <= 2 ^ 52 -> maxMsg cfg = of_Z M -> 0 <= S < two53 -> maxSubs cfg = of_Z S ->
    held_bytes st + held_names st <= 35598 + 3 * M + 64 * S + if killed st then B else 0).
Proof.
  intros Hb. unfold whole_session. eapply wp_mono; [|apply filter_starts].
  intros [cfg st] up (-> & Hinv & Hsubs & Hcount & Hlive). cbn [fst snd] in *.
  eapply converse_mono; [|apply (converse_held cfg B evs st [] [])]; [|done|done|by apply subs_fine_start|].
  - intros st' up' ([got' Hinv'] & Hs & Hc) M S HM Hmax HS HmaxS.
    pose proof (names_bound S st' (Hs S HS HmaxS)). destruct (killed st') eqn:Ek.
    + destruct (Hc Ek) as (st0 & got0 & up0 & Hinv0 & Hk0 & Hl).
      pose proof (session_held cfg st0 got0 up0 M Hinv0 Hk0 HM Hmax). pose proof (unparsed_held st0).
      pose proof (held_leaves _ _ Hl Ek). lia.
    + pose proof (session_held cfg st' got' up' M Hinv' Ek HM Hmax). lia.
  - intros Ek. congruence.
Qed.

(** C30.  A client never has more subscriptions open than the limit, and the
    count the limit is compared with is the number of open ones. *)
Theorem subscriptions_bounded v evs :
  whole_session v evs (fun cfg st up => forall M, 0 <= M < two53 -> maxSubs cfg = of_Z M ->
    Z.of_nat (base.size (subs st)) = subCount st /\ subCount st <= M).
Proof.
  unfold whole_session. eapply wp_mono; [|apply filter_starts].
  intros [cfg st] up (_ & _ & Hs & Hc & _). cbn [fst snd] in *.
  pose proof (subs_fine_start cfg st Hs Hc) as Hok. clear Hs Hc.
  revert st up Hok. induction evs as [|[d f|d f] evs IH]; intros st up Hok; cbn [converse].
  - intros M HM Hmax. by apply Hok.
  - eapply wp_mono; [|by apply returns_wp, subs_fine_onData]. intros st' up'. apply IH.
  - eapply wp_mono; [|by apply returns_wp, subs_fine_onDownstream]. intros st' up'. apply IH.
Qed.

End conversations.

(** ** Sessions, concretely *)

#[local] Existing Instance std_engine.

Definition upgrade_request : bytes :=
  as_bytes (lit "GET / HTTP/1.1" ++ [13; 10] ++ lit "UpGrade:  websocket" ++ [13; 10; 13; 10]).
Definition plain_request : bytes := as_bytes (lit "GET / HTTP/1.1" ++ [13; 10; 13; 10]).

(** A client that upgrades, is answered, and sends a request the policy admits
    and one it does not, in three segments. *)
Definition conversation : list happening :=
  [ClientSends (upgrade_request ++ take 5 req_frame) None;
   RelaySends (as_bytes (lit "HTTP/1.1 101")) None;
   ClientSends (drop 5 req_frame ++ bad_frame) None].

Lemma conversation_bytes : Forall (fun h => are_bytes (from_client h)) conversation.
Proof. apply (bool_decide_unpack _). vm_compute. exact I. Qed.

Lemma only_accepted_reaches_relay_witness :
  whole_session banned_client fresh_vm conversation
    (fun cfg st up => forwarded cfg (client_bytes conversation) up).
Proof.
  apply (only_accepted_reaches_relay banned_client fresh_vm conversation), conversation_bytes.
Defined.

Lemma session_memory_bounded_witness :
  whole_session banned_client fresh_vm conversation (fun cfg st up => forall M S, 125 <= M <= 2 ^ 52 ->
    maxMsg cfg = of_Z M -> 0 <= S < two53 -> maxSubs cfg = of_Z S ->
    held_bytes st + held_names st <= 35598 + 3 * M + 64 * S + if killed st then 100 else 0).
Proof.
  apply (session_memory_bounded banned_client fresh_vm conversation 100).
  apply (bool_decide_unpack _). vm_compute. exact I.
Defined.

Lemma subscriptions_bounded_witness :
  whole_session banned_client fresh_vm conversation (fun cfg st up => forall M, 0 <= M < two53 ->
    maxSubs cfg = of_Z M -> Z.of_nat (base.size (subs st)) = subCount st /\ subCount st <= M).
Proof. apply (subscriptions_bounded banned_client fresh_vm conversation). Defined.

(** One callback after the other, as the environment executes them: the bytes
    the client's callback sends go to the relay. *)
Definition step_session (x : St * nginx) (h : happening) : St * nginx :=
  match h with
  | ClientSends d f => run njs_exec (onData banned_client relay_cfg d f x.1) x.2
  | RelaySends d f => run njs_exec (onDownstream banned_client relay_cfg d f x.1) x.2
  end.

Definition executed (evs : list happening) : St * nginx :=
  foldl step_session (installed.2, nginx_at 1784000000000 ∅ relay_vars) evs.

(** The admitted request is forwarded once it is complete; the other one cuts
    the session. *)
Example conversation_executed :
  let '(st, s) := executed conversation in
  killed st = true /\
  map fst (forward s) =
    [upgrade_request; as_bytes (lit "HTTP/1.1 101"); req_frame;
     default [] (closeFrame 1008 (lit "filter-complexity") true)].
Proof. vm_compute. split; reflexivity. Qed.

(** ** What the filter does not do *)

Definition switching : bytes := as_bytes (lit "HTTP/1.1 101 Switching Protocols").

(** The response to a request that is no upgrade is looked at in its first
    segment only: a 101 in one piece cuts the session, in two it passes, and the
    session stays a tunnel nothing inspects. *)
Theorem split_response_passes :
  killed (executed [ClientSends plain_request None; RelaySends switching None]).1 = true /\
  let '(st, s) := executed [ClientSends plain_request None; RelaySends (take 4 switching) None;
                            RelaySends (drop 4 switching) None; ClientSends bad_frame None] in
  killed st = false /\ mode st = Plain /\
  map fst (forward s) = [plain_request; take 4 switching; drop 4 switching; bad_frame].
Proof. vm_compute. repeat split. Qed.

(** A violation found in the relay's bytes sends the Close frame meant for the
    relay to the client, as the callback's [s.send] goes there; the relay gets
    none. *)
Theorem downstream_violation_misses_relay :
  let st := (executed [ClientSends plain_request None]).1 in
  let '(st', s) := run njs_exec (onDownstream banned_client relay_cfg switching None st)
                     (nginx_at 1784000000000 ∅ relay_vars) in
  killed st' = true /\ Some (map fst (forward s)) = option_map (fun c => [c]) (closeFrame 1008 (lit "protocol") true).
Proof. vm_compute. repeat split. Qed.

(** The end of the client's stream is passed on after a whole message, and not
    after a part of one or of the handshake. *)
Theorem partial_frame_loses_eof :
  let eof := Some {| last := true; flush_now := false |} in
  map fst (forward (executed [ClientSends upgrade_request None; ClientSends req_frame eof]).2)
    = [upgrade_request; req_frame; []] /\
  map fst (forward (executed [ClientSends upgrade_request None; ClientSends (take 5 req_frame) None;
                              ClientSends (take 3 (drop 5 req_frame)) eof]).2)
    = [upgrade_request] /\
  forward (executed [ClientSends (take 20 upgrade_request) eof]).2 = [].
Proof. vm_compute. repeat split. Qed.

(** The head is decoded and encoded again: a byte that is no UTF-8 reaches the
    HTTP stage as the three bytes of the replacement character. *)
Theorem head_is_reencoded :
  let request b := as_bytes (lit "GET /") ++ b ++ as_bytes (lit " HTTP/1.1" ++ [13; 10; 13; 10]) in
  map fst (forward (executed [ClientSends (request [255]) None]).2) = [request [239; 191; 189]].
Proof. vm_compute. reflexivity. Qed.
