(* ===== verification/Rely.v ===== *)
(** * Programs that run beside others

    [rg step R G m Q s]: run from [s] among others that only change the state
    as [R] allows, the program [m] changes it only as [G] allows and ends with
    [Q].  Programs each of whose guarantees is what the others rely on can be
    interleaved call by call ([pool_holds]). *)
From S2P Require Import Prelude Prog.
Local Open Scope prog_scope.

Fixpoint rg {E S A} (step : forall X, E X -> S -> X -> S -> Prop) (R G : S -> S -> Prop)
    (m : prog E A) (Q : A -> S -> Prop) (s : S) : Prop :=
  match m with
  | Ret a => Q a s
  | Vis e k =>
    forall s1, R s s1 -> forall x s2, step _ e s1 x s2 -> G s1 s2 /\ rg step R G (k x) Q s2
  end.

Section laws.
Context {E : Type -> Type} {S : Type}.
Context (step : forall X, E X -> S -> X -> S -> Prop) (R G : S -> S -> Prop).

Lemma rg_seq {A B} (m : prog E A) (k : A -> prog E B) Q s :
  rg step R G m (fun a s' => rg step R G (k a) Q s') s -> rg step R G (bind m k) Q s.
Proof.
  revert s. induction m as [a|X e c IH]; intros s; simpl; [done|].
  intros H s1 HR x s2 Hs. destruct (H s1 HR x s2 Hs). split; [done|by apply IH].
Qed.

Lemma rg_mono {A} (m : prog E A) (Q Q' : A -> S -> Prop) s :
  (forall a s', Q a s' -> Q' a s') -> rg step R G m Q s -> rg step R G m Q' s.
Proof.
  intros HQ. revert s. induction m as [a|X e k IH]; simpl; intros s H; [auto|].
  intros s1 HR x s2 Hs. destruct (H s1 HR x s2 Hs). split; [done|by apply IH].
Qed.

Lemma rg_call {X} (e : E X) (Q : X -> S -> Prop) s :
  (forall s1, R s s1 -> forall x s2, step X e s1 x s2 -> G s1 s2 /\ Q x s2) -> rg step R G (call e) Q s.
Proof. done. Qed.

(** The others' steps do not disturb it. *)
Lemma rg_stable {A} `{!Transitive R} (m : prog E A) (Q : A -> S -> Prop) s s' :
  (forall a s1 s2, R s1 s2 -> Q a s1 -> Q a s2) -> R s s' -> rg step R G m Q s -> rg step R G m Q s'.
Proof.
  intros HQ HR. destruct m as [a|X e k]; simpl; [by apply HQ|].
  intros H s1 HR1. apply H. by etrans.
Qed.

(** Without others, and whatever it guarantees. *)
Lemma rg_wp {A} (m : prog E A) (Q : A -> S -> Prop) s : rg step R G m Q s -> wp step R m Q s.
Proof.
  revert s. induction m as [a|X e k IH]; simpl; intros s H; [done|].
  intros s1 HR x s2 Hs. apply IH. by destruct (H s1 HR x s2 Hs).
Qed.

End laws.

(** ** Interleavings *)

Section pool.
Context {E : Type -> Type} {S A : Type}.
Context (step : nat -> forall X, E X -> S -> X -> S -> Prop) (idle : S -> S -> Prop).

(** The state and what is left of each thread. *)
Inductive pool_step : S * list (prog E A) -> S * list (prog E A) -> Prop :=
| pool_idle s s' ts : idle s s' -> pool_step (s, ts) (s', ts)
| pool_call s ts i X (e : E X) k x s' :
    ts !! i = Some (Vis e k) -> step i X e s x s' -> pool_step (s, ts) (s', <[i := k x]> ts).

Inductive pool_runs : S * list (prog E A) -> S * list (prog E A) -> Prop :=
| pool_refl c : pool_runs c c
| pool_trans c c' c'' : pool_runs c c' -> pool_step c' c'' -> pool_runs c c''.

Context (R G : nat -> S -> S -> Prop) (Q : nat -> A -> S -> Prop).
Context (R_refl : forall i s, R i s s).
Context (R_trans : forall i, Transitive (R i)).
Context (R_idle : forall i s s', idle s s' -> R i s s').
Context (R_others : forall i j s s', i <> j -> G i s s' -> R j s s').
Context (Q_stable : forall i a s s', R i s s' -> Q i a s -> Q i a s').

Definition pool_ok (c : S * list (prog E A)) : Prop :=
  forall i m, c.2 !! i = Some m -> rg (step i) (R i) (G i) m (Q i) c.1.

Lemma pool_step_ok c c' : pool_ok c -> pool_step c c' -> pool_ok c'.
Proof.
  intros Hok Hs. destruct Hs as [s s' ts Hidle|s ts i X e k x s' Hi Hstep]; intros j m Hj; simpl in *.
  - by eapply (rg_stable (step j) (R j) (G j)); [intros a s1 s2; apply Q_stable|apply R_idle|apply Hok].
  - pose proof (Hok i _ Hi) as Hrg. simpl in Hrg.
    destruct (Hrg s (R_refl i s) x s' Hstep) as [HG Hk].
    apply list_lookup_insert_Some in Hj as [(<- & <- & _)|[Hne Hj]]; [exact Hk|].
    by eapply (rg_stable (step j) (R j) (G j)); [intros a s1 s2; apply Q_stable|eapply R_others|apply Hok].
Qed.

(** In a pool of such programs they remain such, however they are interleaved,
    and a property that no idling and no guaranteed step breaks holds on. *)
Lemma pool_holds (I : S -> Prop) c c' :
  (forall s s', idle s s' -> I s -> I s') -> (forall i s s', G i s s' -> I s -> I s') ->
  pool_ok c -> I c.1 -> pool_runs c c' -> pool_ok c' /\ I c'.1.
Proof.
  intros Hidle HG Hok HI Hr. induction Hr as [c|c c' c'' _ IH Hs]; [done|].
  destruct (IH Hok HI) as [Hok' HI']. split; [by eapply pool_step_ok|].
  destruct Hs as [s s' ts Hi|s ts i X e k x s' Hi Hstep]; simpl in *; [by eapply Hidle|].
  eapply HG; [|done]. by destruct (Hok' i _ Hi s (R_refl i s) x s' Hstep).
Qed.

End pool.
