(* ===== verification/BanFile.v ===== *)
(** * The banlist file backend: [src/core/actions/shield-ban]

    The bash script over the calls it makes ([sh]): the clock, the banlist, its
    lock, and the temporary file that replaces it.  A run returns its exit
    status and what it printed on standard output ([reply]); what it prints on
    standard error is left out.  [set -euo pipefail] is in force: a command that
    fails ends the run with some status that is not 0 ([FAILED]).  Of awk, the
    treatment of a [-v] assignment and the order of texts depend on the
    implementation and the locale (the class [Awk]); a text that looks like a
    decimal number is compared as an IEEE double.  The parts of a pipeline run
    one after the other: [rewrite] moves nothing before its input has ended. *)
From Stdlib Require Import SpecFloat.
From S2P Require Import Prelude Prog Text Js.
Local Open Scope prog_scope.

(** ** The calls *)

Inductive sh : Type -> Type :=
| EpochNow : sh Z                               (* [date +%s] *)
| IsFile : sh bool                              (* [-f "$BAN_FILE"] *)
| ReadBanFile : sh (str * bool)                 (* what awk reads, and whether it succeeds *)
| MkdirP : sh bool                              (* [mkdir -p "$(dirname "$BAN_FILE")"] *)
| OpenLock : sh bool                            (* [exec 9> "$LOCK_FILE"] *)
| Flock : sh bool                               (* [flock -x 9] *)
| Mktemp : sh (option str)
| WriteTemp (tmp text : str) : sh bool          (* [cat > "$tmp"] *)
| Chmod (tmp : str) : sh bool
| Mv (tmp : str) : sh bool                      (* [mv "$tmp" "$BAN_FILE"] *)
| DirExists : sh bool
| DirWritable : sh bool
| Exit : sh unit.                               (* the end: descriptor 9 is closed *)

Record reply := mk_reply { status : Z; stdout : str }.

Definition FAILED : Z := 1.

(** ** awk *)

Class Awk := {
  assigned : str -> str;                        (* the value of [-v x="$x"] *)
  text_gt : str -> str -> bool;                 (* the order of texts in the locale *)
  assigned_plain x : 92 ∉ x -> assigned x = x;
}.

(** A text that looks like a number. *)
Definition awk_number (s : str) : option number :=
  let '(_, r) := read_sign s in
  let '(ip, r1) := span_digits r in
  let '(fp, r2) := match r1 with
                   | c :: r' => if c =? 46 then span_digits r' else ([], r1)
                   | [] => ([], [])
                   end in
  let exponent_ok :=
    match r2 with
    | [] => true
    | c :: r' =>
      ((c =? 101) || (c =? 69)) &&
      (match span_digits (read_sign r').2 with (_ :: _, []) => true | _ => false end)
    end in
  match ip ++ fp with
  | [] => None
  | _ => if exponent_ok then Some (parse_float s) else None
  end.

(** Records and fields. *)
Definition awk_blank (c : char) : bool := (c =? 32) || (c =? 9) || (c =? 10).

Fixpoint fields_acc (acc : str) (s : str) : list str :=
  match s with
  | [] => match acc with [] => [] | _ => [reverse acc] end
  | c :: r =>
    if awk_blank c
    then match acc with [] => fields_acc [] r | _ => reverse acc :: fields_acc [] r end
    else fields_acc (c :: acc) r
  end.
Definition fields (s : str) : list str := fields_acc [] s.

Definition records (s : str) : list str :=
  match split_char 10 s with
  | [] => []
  | l => match reverse l with [] :: r => reverse r | _ => l end
  end.

Definition field (n : nat) (record : str) : str := default [] (fields record !! (n - 1)%nat).

(** The records that are printed, each with a newline. *)
Definition print_records (l : list str) : str := concat (map (fun r => r ++ [10]) l).

Section awk.
Context {AWK : Awk}.

Definition awk_gt (a b : str) : bool :=
  match awk_number a, awk_number b with Some x, Some y => gt x y | _, _ => text_gt a b end.
Definition awk_eq (a b : str) : bool :=
  match awk_number a, awk_number b with Some x, Some y => eq x y | _, _ => str_eqb a b end.

(** [awk -v now=... 'NF >= 2 && ($2 == 0 || $2 > now)']. *)
Definition unexpired (now : Z) (record : str) : bool :=
  (2 <=? Z.of_nat (length (fields record))) &&
  ((match awk_number (field 2 record) with Some x => eq x (of_Z 0) | None => false end)
   || awk_gt (field 2 record) (to_string now)).

Definition awk_active (now : Z) (text : str) : str :=
  print_records (List.filter (unexpired now) (records text)).

(** [awk -v ip="$ip" '$1 != ip'] and [awk -v ip="$ip" '$1 == ip {print $2}']. *)
Definition awk_without (ip : str) (text : str) : str :=
  print_records (List.filter (fun r => negb (awk_eq (field 1 r) (assigned ip))) (records text)).

Definition awk_until (ip : str) (text : str) : str :=
  print_records (map (field 2) (List.filter (fun r => awk_eq (field 1 r) (assigned ip)) (records text))).

(** ** The script's functions *)

Definition active_entries : prog sh (str * bool) :=
  e <- call IsFile ;;
  if (negb e : bool) then Ret ([], true)
  else
    now <- call EpochNow ;;
    r <- call ReadBanFile ;;
    Ret (awk_active now (fst (r : str * bool)), snd (r : str * bool)).

Definition rewrite_file (text : str) : prog sh bool :=
  t <- call Mktemp ;;
  match t with
  | None => Ret false
  | Some tmp =>
    a <- call (WriteTemp tmp text) ;;
    if (negb a : bool) then Ret false
    else
      b <- call (Chmod tmp) ;;
      if (negb b : bool) then Ret false else call (Mv tmp)
  end.

(** ** Seconds *)

(** The [case] on [ttl]: an integer with an optional sign. *)
Definition bad_seconds (ttl : str) : bool :=
  match ttl with
  | [] => true
  | [45] => true
  | _ :: r => negb (forallb (fun c => in_range 48 57 c || (c =? 45)) ttl) || existsb (fun c => c =? 45) r
  end.

Definition sign_of (ttl : str) : bool * str := match ttl with 45 :: r => (true, r) | _ => (false, ttl) end.
Definition signed (neg : bool) (n : Z) : Z := if neg then - n else n.

Definition wrap_i64 (n : Z) : Z := (n + 2 ^ 63) mod 2 ^ 64 - 2 ^ 63.

(** [[ "$ttl" -le 0 ]]: decimal; out of range it is an error, hence false. *)
Definition at_most_zero (ttl : str) : bool :=
  let '(neg, ds) := sign_of ttl in
  let n := signed neg (digits_number ds) in
  (- 2 ^ 63 <=? n) && (n <=? 0).

(** [ttl] in an arithmetic expansion: octal after a leading zero. *)
Definition arithmetic (ttl : str) : option Z :=
  let '(neg, ds) := sign_of ttl in
  let value := match ds with
               | 48 :: _ :: _ => if forallb (in_range 48 55) ds
                                 then Some (foldl (fun a c => 8 * a + (c - 48)) 0 ds) else None
               | _ => Some (digits_number ds)
               end in
  option_map (fun n => wrap_i64 (signed neg n)) value.

Definition show_int (z : Z) : str := if z <? 0 then [45] ++ to_string (- z) else to_string z.

(** [until] as text; [None] when the expansion is an error. *)
Definition until_of (ttl : str) : prog sh (option str) :=
  if at_most_zero ttl then Ret (Some [48])
  else
    now <- call EpochNow ;;
    Ret (option_map (fun n => show_int (wrap_i64 (now + n))) (arithmetic ttl)).

(** ** The verbs *)

Definition entry_line (ip until : str) : str := ip ++ [32] ++ until ++ [10].

Definition banned_line (ip until : str) : str :=
  lit "banned " ++ ip ++ (if str_eqb until [48] then lit " permanently" else lit " until " ++ until) ++ [10].

(** The directory is made and the lock taken. *)
Definition locked : prog sh bool :=
  a <- call MkdirP ;;
  if (negb a : bool) then Ret false
  else b <- call OpenLock ;; if (negb b : bool) then Ret false else call Flock.

(** A filter whose input fails ends the group before the new entry is printed;
    what was printed until then is written all the same. *)
Definition replace_list (ip : str) (entry : str) : prog sh bool :=
  out <- active_entries ;;
  let '(text, ok) := (out : str * bool) in
  w <- rewrite_file (awk_without ip text ++ (if ok then entry else [])) ;;
  Ret (ok && w).

Definition ban (ip ttl : str) : prog sh reply :=
  match ip, ttl with
  | [], _ | _, [] => Ret (mk_reply FAILED [])
  | _, _ =>
    if bad_seconds ttl then Ret (mk_reply 2 [])
    else
      u <- until_of ttl ;;
      match u with
      | None => Ret (mk_reply FAILED [])
      | Some until =>
        l <- locked ;;
        if (negb l : bool) then Ret (mk_reply FAILED [])
        else
          ok <- replace_list ip (entry_line ip until) ;;
          Ret (if (ok : bool) then mk_reply 0 (banned_line ip until) else mk_reply FAILED [])
      end
  end.

Definition unban (ip : str) : prog sh reply :=
  match ip with
  | [] => Ret (mk_reply FAILED [])
  | _ =>
    l <- locked ;;
    if (negb l : bool) then Ret (mk_reply FAILED [])
    else
      ok <- replace_list ip [] ;;
      Ret (if (ok : bool) then mk_reply 0 (lit "unbanned " ++ ip ++ [10]) else mk_reply FAILED [])
  end.

(** A command substitution: without the newlines at its end. *)
Fixpoint strip_newlines (s : str) : str := match s with 10 :: r => strip_newlines r | _ => s end.
Definition substituted (out : str) : str := reverse (strip_newlines (reverse out)).

Definition check (ip : str) : prog sh reply :=
  match ip with
  | [] => Ret (mk_reply FAILED [])
  | _ =>
    out <- active_entries ;;
    let '(text, ok) := (out : str * bool) in
    if negb ok then Ret (mk_reply FAILED [])
    else
      match substituted (awk_until ip text) with
      | [] => Ret (mk_reply 1 (lit "not banned " ++ ip ++ [10]))
      | until => Ret (mk_reply 0 (banned_line ip until))
      end
  end.

Definition list_bans : prog sh reply :=
  out <- active_entries ;;
  Ret (mk_reply (if snd (out : str * bool) then 0 else FAILED) (fst (out : str * bool))).

Definition health (dir : str) : prog sh reply :=
  d <- call DirExists ;;
  if (negb d : bool) then Ret (mk_reply 1 [])
  else
    w <- call DirWritable ;;
    Ret (if (w : bool) then mk_reply 0 (lit "ok: " ++ dir ++ lit " is writable" ++ [10]) else mk_reply 1 []).

(** The command line; [dir] is the directory of the banlist. *)
Definition run_verb (dir : str) (args : list str) : prog sh reply :=
  let arg n := default [] (args !! n) in
  let cmd := arg 0%nat in
  if str_eqb cmd (lit "ban") then ban (arg 1%nat) (arg 2%nat)
  else if str_eqb cmd (lit "unban") then unban (arg 1%nat)
  else if str_eqb cmd (lit "check") then check (arg 1%nat)
  else if str_eqb cmd (lit "list") then list_bans
  else if str_eqb cmd (lit "health") then health dir
  else Ret (mk_reply 2 []).

Definition shield_ban (dir : str) (args : list str) : prog sh reply :=
  r <- run_verb dir args ;; call Exit ;;; Ret r.

End awk.

(** An awk that takes texts as they are and orders them by code. *)
Fixpoint code_gt (a b : str) : bool :=
  match a, b with
  | x :: a', y :: b' => (y <? x) || ((x =? y) && code_gt a' b')
  | _ :: _, [] => true
  | [], _ => false
  end.

#[local] Program Instance posix_awk : Awk := {| assigned x := x; text_gt := code_gt |}.
Next Obligation. done. Qed.
