(* ===== verification/BanFileWorld.v ===== *)
(** * Where the banlist script runs

    The state its calls act on: the clock, every content the banlist has had
    with the run that put it there, the lock and the temporary files.  A rename
    replaces the banlist at once; any call may fail; another run may hold the
    lock. *)
From Stdlib Require Import SpecFloat.
From S2P Require Import Prelude Prog Text Js BanFile.
Local Open Scope prog_scope.

Record world := mk_world {
  epoch : Z;                             (* seconds *)
  versions : list (option nat * str);    (* the last one is the banlist *)
  holder : option nat;                   (* of the lock *)
  temps : gmap str (nat * str);          (* owner and content *)
}.

Definition set_epoch (t : Z) (w : world) : world :=
  {| epoch := t; versions := versions w; holder := holder w; temps := temps w |}.
Definition set_versions (l : list (option nat * str)) (w : world) : world :=
  {| epoch := epoch w; versions := l; holder := holder w; temps := temps w |}.
Definition set_holder (h : option nat) (w : world) : world :=
  {| epoch := epoch w; versions := versions w; holder := h; temps := temps w |}.
Definition set_temps (t : gmap str (nat * str)) (w : world) : world :=
  {| epoch := epoch w; versions := versions w; holder := holder w; temps := t |}.

(** The banlist, if there is one, and its text. *)
Definition banlist (w : world) : option str := snd <$> last (versions w).
Definition text_of (w : world) : str := default [] (banlist w).

Definition has_list (w : world) : bool := match banlist w with Some _ => true | None => false end.

(** What the call of run [i] may do; [faulty] reads may stop early. *)
Definition sh_step (faulty : bool) (i : nat) (X : Type) (e : sh X) (w : world) (x : X) (w' : world) : Prop :=
  match e in sh T return T -> Prop with
  | EpochNow => fun x => x = epoch w /\ w' = w
  | IsFile => fun x => x = has_list w /\ w' = w
  | ReadBanFile => fun x =>
    w' = w /\ (x = (text_of w, true) \/ (faulty = true /\ exists p, p `prefix_of` text_of w /\ x = (p, false)))
  | Flock => fun x =>
    (x = true /\ holder w = None /\ w' = set_holder (Some i) w) \/ (x = false /\ w' = w)
  | Mktemp => fun x =>
    (x = None /\ w' = w) \/
    exists n, x = Some n /\ temps w !! n = None /\ w' = set_temps (<[n := (i, [])]> (temps w)) w
  | WriteTemp n t => fun x =>
    exists t', (x = true -> t' = t) /\ w' = set_temps (<[n := (i, t')]> (temps w)) w
  | Mv n => fun x =>
    (x = false /\ w' = w) \/
    exists o t, x = true /\ temps w !! n = Some (o, t) /\
      w' = set_temps (delete n (temps w)) (set_versions (versions w ++ [(Some i, t)]) w)
  | Exit => fun _ => w' = if decide (holder w = Some i) then set_holder None w else w
  | MkdirP | OpenLock | Chmod _ | DirExists | DirWritable => fun _ => w' = w
  end x.

(** ** An executable one: nothing fails *)

Definition temp_name (w : world) : str := lit "banlist." ++ to_string (Z.of_nat (base.size (temps w))).

Definition sh_exec (i : nat) (X : Type) (e : sh X) (w : world) : X * world :=
  match e in sh T return T * world with
  | EpochNow => (epoch w, w)
  | IsFile => (has_list w, w)
  | ReadBanFile => ((text_of w, true), w)
  | Flock => (true, set_holder (Some i) w)
  | Mktemp => (Some (temp_name w), set_temps (<[temp_name w := (i, [])]> (temps w)) w)
  | WriteTemp n t => (true, set_temps (<[n := (i, t)]> (temps w)) w)
  | Mv n => (true, set_temps (delete n (temps w))
                     (set_versions (versions w ++ [(Some i, default [] (snd <$> temps w !! n))]) w))
  | Exit => (tt, set_holder None w)
  | MkdirP | OpenLock | Chmod _ | DirExists | DirWritable => (true, w)
  end.

#[local] Existing Instance posix_awk.

(** A machine at a time, with a banlist. *)
Definition machine (t : Z) (l : str) : world :=
  {| epoch := t; versions := [(None, l)]; holder := None; temps := ∅ |}.

Definition runs (w : world) (args : list str) : reply * world :=
  run (sh_exec 0) (shield_ban (lit "/run") args) w.

Definition two_bans : str := lit "fd97::1 1785000000" ++ [10] ++ lit "fd97::2 0" ++ [10].

(** A ban, its expiry, and what does not count as a number of seconds. *)
Example verbs :
  let ban ip ttl := [lit "ban"; ip; ttl] in
  (runs (machine 1784000000 two_bans) (ban (lit "fd97::3") (lit "600"))).1
    = mk_reply 0 (lit "banned fd97::3 until 1784000600" ++ [10]) /\
  text_of (runs (machine 1784000000 two_bans) (ban (lit "fd97::3") (lit "600"))).2
    = two_bans ++ lit "fd97::3 1784000600" ++ [10] /\
  text_of (runs (machine 1785000000 two_bans) (ban (lit "fd97::2") (lit "60"))).2
    = lit "fd97::2 1785000060" ++ [10] /\
  (runs (machine 1785000000 two_bans) [lit "check"; lit "fd97::1"]).1
    = mk_reply 1 (lit "not banned fd97::1" ++ [10]) /\
  (runs (machine 1785000000 two_bans) [lit "check"; lit "fd97::2"]).1
    = mk_reply 0 (lit "banned fd97::2 permanently" ++ [10]) /\
  (runs (machine 1785000000 two_bans) (ban (lit "fd97::3") (lit "1+1"))).1 = mk_reply 2 [] /\
  (runs (machine 1785000000 two_bans) [lit "list"]).1 = mk_reply 0 (lit "fd97::2 0" ++ [10]).
Proof. vm_compute. repeat split. Qed.

(** A leading zero makes the number of seconds octal: 0600 is 384 seconds, and
    090 is an error. *)
Example seconds_may_be_octal :
  text_of (runs (machine 1784000000 []) [lit "ban"; lit "fd97::3"; lit "0600"]).2
    = lit "fd97::3 1784000384" ++ [10] /\
  (runs (machine 1784000000 []) [lit "ban"; lit "fd97::3"; lit "090"]).1 = mk_reply FAILED [].
Proof. vm_compute. repeat split. Qed.

(** A read that fails ends the filter, not the writer: the banlist is replaced
    by what was read. *)
Definition failing_read (X : Type) (e : sh X) (w : world) : X * world :=
  match e in sh T return T * world with
  | ReadBanFile => (([], false), w)
  | e => sh_exec 0 _ e w
  end.

Example failed_read_loses_bans :
  let '(r, w) := run failing_read (shield_ban (lit "/run") [lit "unban"; lit "fd97::9"])
                   (machine 1784000000 two_bans) in
  r = mk_reply FAILED [] /\ text_of w = [].
Proof. vm_compute. repeat split. Qed.
