(* ===== verification/BanFileText.v ===== *)
(** * The banlist as text

    A banlist as the script writes it is a table from addresses to times; what
    awk makes of the text is what the table says, and so is what the njs policy
    reads. *)
From Stdlib Require Import SpecFloat.
From S2P Require Import Prelude Prog Text Js ShieldCore BanFile.

(** ** Numbers as text *)

Lemma digits_number_horner ds :
  Forall (fun d => 0 <= d < 10) ds -> digits_number (map digit_char (reverse ds)) = digits_value 10 ds.
Proof.
  induction 1 as [|d ds Hd _ IH]; [done|]. rewrite reverse_cons, map_app. unfold digits_number in *.
  rewrite foldl_app, IH. cbn [map foldl]. unfold digit_char. cbn [digits_value foldr]. fold (digits_value 10 ds).
  case_if; lia.
Qed.

Lemma digits_number_to_string u : 0 <= u -> digits_number (to_string u) = u.
Proof.
  intros Hu. unfold to_string, format_radix. rewrite digits_number_horner by (by apply digits_rev_digits).
  apply digits_rev_value; [done|]. split; [done|by apply digits_fuel_enough].
Qed.

Lemma span_digits_all s : Forall (fun c => in_range 48 57 c = true) s -> span_digits s = (s, []).
Proof. induction 1 as [|c s Hc _ IH]; [done|]. cbn [span_digits]. by rewrite Hc, IH. Qed.

Lemma span_digits_app s : (span_digits s).1 ++ (span_digits s).2 = s.
Proof.
  induction s as [|c s IH]; [done|]. cbn [span_digits]. destruct (in_range 48 57 c); [|done].
  destruct (span_digits s). cbn [fst snd app] in *. by rewrite IH.
Qed.

Lemma span_digits_digits s : Forall (fun c => in_range 48 57 c = true) (span_digits s).1.
Proof.
  induction s as [|c s IH]; [constructor|]. cbn [span_digits]. destruct (in_range 48 57 c) eqn:E; [|constructor].
  destruct (span_digits s). cbn [fst] in *. by constructor.
Qed.

(** A text that starts with a digit has no sign and no blank before it. *)
Lemma digit_first s :
  s <> [] -> Forall (fun c => in_range 48 57 c = true) s ->
  exists c r, s = c :: r /\ is_space c = false /\ in_range 48 57 c = true /\ read_sign s = (false, s) /\
    trim_left s = s /\ starts_with (lit "Infinity") s = false.
Proof.
  intros Hne Hs. destruct Hs as [|c r Hc Hr]; [done|]. exists c, r.
  assert (H : 48 <= c <= 57) by (unfold in_range in Hc; lia).
  assert (Hsp : is_space c = false) by (unfold is_space, in_range; lia).
  split; [done|]. split; [done|]. split; [done|]. cbn [read_sign trim_left]. rewrite Hsp.
  rewrite (proj2 (Z.eqb_neq c 45)), (proj2 (Z.eqb_neq c 43)) by lia.
  split; [done|]. split; [done|]. 
  change (lit "Infinity") with [73; 110; 102; 105; 110; 105; 116; 121]. cbn [starts_with].
  by rewrite (proj2 (Z.eqb_neq 73 c)) by lia.
Qed.

Lemma parse_int_to_string u : 0 <= u -> parse_int (to_string u) = of_Z u.
Proof.
  intros Hu. destruct (digit_first (to_string u)) as (c & r & E & _ & _ & Hsg & Htr & _);
    [apply to_string_ne|apply to_string_digits|].
  unfold parse_int. rewrite Htr, Hsg, span_digits_all by apply to_string_digits.
  rewrite digits_number_to_string by done. by rewrite E.
Qed.

Lemma parse_float_to_string u : 0 <= u -> parse_float (to_string u) = of_Z u.
Proof.
  intros Hu. destruct (digit_first (to_string u)) as (c & r & E & _ & _ & Hsg & Htr & Hinf);
    [apply to_string_ne|apply to_string_digits|].
  unfold parse_float. rewrite Htr, Hsg, Hinf, span_digits_all by apply to_string_digits.
  rewrite app_nil_r. rewrite E at 1. rewrite <- E. cbn [read_exponent negate].
  rewrite digits_number_to_string by done. unfold decimal. change (0 <=? 0 - Z.of_nat (length [])) with true. cbv iota.
  change (10 ^ (0 - Z.of_nat (length []))) with 1. by rewrite Z.mul_1_r.
Qed.

Lemma awk_number_to_string u : 0 <= u -> awk_number (to_string u) = Some (of_Z u).
Proof.
  intros Hu. destruct (digit_first (to_string u)) as (c & r & E & _ & _ & Hsg & _);
    [apply to_string_ne|apply to_string_digits|].
  unfold awk_number. rewrite Hsg, span_digits_all by apply to_string_digits.
  rewrite app_nil_r, parse_float_to_string by done. by rewrite E.
Qed.

(** ** Addresses *)

(** As nginx and fail2ban print them: lower case, with a colon. *)
Definition address_char (c : char) : bool := in_range 48 57 c || in_range 97 102 c || (c =? 46) || (c =? 58).
Definition is_address (ip : str) : bool := forallb address_char ip && existsb (fun c => c =? 58) ip.

(** No number has a colon. *)
Lemma awk_number_colon s : 58 ∈ s -> awk_number s = None.
Proof.
  intros Hin. unfold awk_number. destruct (read_sign s) as [neg r] eqn:Es.
  assert (Hr : 58 ∈ r).
  { destruct s as [|c s]; [by apply elem_of_nil in Hin|]. cbn [read_sign] in Es.
    destruct (Z.eqb_spec c 45); [simplify_eq; set_solver|]. destruct (Z.eqb_spec c 43); simplify_eq; set_solver. }
  assert (Hdig : forall x, 58 ∉ (span_digits x).1).
  { intros x Hx. pose proof (span_digits_digits x) as Hd. rewrite Forall_forall in Hd. by apply Hd in Hx. }
  assert (Hrest : forall x, 58 ∈ x -> 58 ∈ (span_digits x).2).
  { intros x Hx. rewrite <- (span_digits_app x) in Hx. apply elem_of_app in Hx as [Hx|Hx]; [by apply Hdig in Hx|done]. }
  apply Hrest in Hr. destruct (span_digits r) as [ip r1]. cbn [snd] in Hr.
  set (two := match r1 with c :: r' => if c =? 46 then span_digits r' else ([], r1) | [] => ([], []) end).
  assert (H2 : 58 ∈ two.2).
  { unfold two. destruct r1 as [|c r1]; [by apply elem_of_nil in Hr|]. destruct (Z.eqb_spec c 46); [|done].
    apply Hrest. set_solver. }
  destruct two as [fp r2]. cbn [snd] in H2. destruct (ip ++ fp); [done|].
  destruct r2 as [|c r2]; [by apply elem_of_nil in H2|].
  destruct (Z.eqb_spec c 101) as [->|]; [|destruct (Z.eqb_spec c 69) as [->|]; [|done]]; cbn [orb andb].
  all: assert (H3 : 58 ∈ (span_digits (read_sign r2).2).2) by
    (apply Hrest; destruct r2 as [|d r2]; [set_solver|]; cbn [read_sign];
     destruct (Z.eqb_spec d 45); [set_solver|]; destruct (Z.eqb_spec d 43); set_solver).
  all: destruct (span_digits _) as [[|? ?] [|? ?]]; try done; by apply elem_of_nil in H3.
Qed.

Lemma address_colon ip : is_address ip = true -> 58 ∈ ip.
Proof.
  unfold is_address. intros [_ (c & Hc & Heq)%existsb_exists]%andb_true_iff.
  apply Z.eqb_eq in Heq as ->. by apply list_elem_of_In.
Qed.

Lemma address_chars ip c : is_address ip = true -> c ∈ ip -> 46 <= c <= 102 /\ c <> 92.
Proof.
  unfold is_address. intros [Hf _]%andb_true_iff Hc. rewrite forallb_forall in Hf.
  apply list_elem_of_In, Hf in Hc. unfold address_char, in_range in Hc. lia.
Qed.

Lemma address_ne ip : is_address ip = true -> ip <> [].
Proof. intros H ->. by apply address_colon, elem_of_nil in H. Qed.

(** ** Tables *)

Abbreviation entry := (str * Z)%type.

Definition record_of (e : entry) : str := e.1 ++ [32] ++ to_string e.2.
Definition render (l : list entry) : str := print_records (map record_of l).

Definition entry_ok (e : entry) : Prop := is_address e.1 = true /\ 0 <= e.2 <= two53.
Definition table (l : list entry) : Prop := Forall entry_ok l /\ NoDup (l.*1).

(** An entry counts at [now] (seconds); 0 is for ever. *)
Definition alive (now : Z) (e : entry) : bool := (e.2 =? 0) || (now <? e.2).

Lemma digit_string_no c n : c < 48 \/ 57 < c -> c ∉ to_string n.
Proof.
  intros Hc Hin. pose proof (to_string_digits n) as Hd. rewrite Forall_forall in Hd.
  apply Hd in Hin. unfold in_range in Hin. lia.
Qed.

Lemma record_no_newline e : entry_ok e -> 10 ∉ record_of e.
Proof.
  intros [Ha _]. unfold record_of. rewrite !not_elem_of_app. split.
  - intros Hin. apply (address_chars _ _ Ha) in Hin. lia.
  - split; [set_solver|apply digit_string_no; lia].
Qed.

Lemma records_print rs : Forall (fun r => 10 ∉ r) rs -> records (print_records rs) = rs.
Proof.
  intros Hrs. assert (H : split_char 10 (print_records rs) = rs ++ [[]]).
  { unfold print_records. induction Hrs as [|r rs Hr _ IH]; [done|]. cbn [map concat].
    rewrite <- app_assoc. cbn [app]. by rewrite split_char_app, IH. }
  unfold records. rewrite H. destruct (rs ++ [[]]) as [|x y] eqn:E; [by destruct rs|].
  rewrite <- E, reverse_app. cbn. apply reverse_involutive.
Qed.

Lemma records_render l : table l -> records (render l) = map record_of l.
Proof.
  intros [Hl _]. apply records_print, List.Forall_map.
  eapply Forall_impl; [exact Hl|]. apply record_no_newline.
Qed.

Lemma fields_acc_run acc s r :
  forallb (fun c => negb (awk_blank c)) s = true ->
  fields_acc acc (s ++ r) = fields_acc (reverse s ++ acc) r.
Proof.
  revert acc. induction s as [|c s IH]; intros acc; [done|]. cbn [forallb app fields_acc].
  intros [Hc Hs]%andb_true_iff. apply negb_true_iff in Hc. rewrite Hc, IH by done.
  by rewrite reverse_cons, <- app_assoc.
Qed.

Lemma forallb_not_blank s : (forall c, c ∈ s -> 32 < c) -> forallb (fun c => negb (awk_blank c)) s = true.
Proof.
  intros H. apply forallb_forall. intros c Hc. apply list_elem_of_In, H in Hc. unfold awk_blank. lia.
Qed.

Lemma to_string_not_blank n c : c ∈ to_string n -> 32 < c.
Proof.
  intros Hc. pose proof (to_string_digits n) as Hd. rewrite Forall_forall in Hd.
  apply Hd in Hc. unfold in_range in Hc. lia.
Qed.

Lemma fields_record e : entry_ok e -> fields (record_of e) = [e.1; to_string e.2].
Proof.
  intros [Ha _]. unfold fields, record_of.
  rewrite fields_acc_run by (apply forallb_not_blank; intros c Hc; apply (address_chars _ _ Ha) in Hc; lia).
  rewrite app_nil_r. cbn [app fields_acc]. change (awk_blank 32) with true. cbv iota.
  assert (Hr : reverse e.1 <> []) by (intros H%(f_equal reverse); rewrite reverse_involutive in H; by apply (address_ne _ Ha)).
  destruct (reverse e.1) as [|c r] eqn:E; [done|]. rewrite <- E, reverse_involutive. f_equal.
  rewrite <- (app_nil_r (to_string e.2)) at 1.
  rewrite fields_acc_run by (apply forallb_not_blank, to_string_not_blank). rewrite app_nil_r. cbn [fields_acc].
  destruct (reverse (to_string e.2)) as [|d s] eqn:E2.
  - exfalso. apply (to_string_ne e.2). rewrite <- (reverse_involutive (to_string e.2)), E2. done.
  - by rewrite <- E2, reverse_involutive.
Qed.

Lemma filter_render (p : str -> bool) (q : entry -> bool) l :
  table l -> (forall e, entry_ok e -> p (record_of e) = q e) ->
  print_records (List.filter p (records (render l))) = render (List.filter q l).
Proof.
  intros Hl Hpq. rewrite records_render by done. destruct Hl as [Hl _]. unfold render. f_equal.
  induction Hl as [|e l He _ IH]; [done|]. cbn [map List.filter]. rewrite Hpq by done.
  destruct (q e); cbn [map]; by rewrite IH.
Qed.

Lemma nodup_filter q (l : list entry) : NoDup (l.*1) -> NoDup ((List.filter q l).*1).
Proof.
  induction l as [|e l IH]; intros Hn; [constructor|]. cbn in *. apply NoDup_cons in Hn as [Hin Hn].
  destruct (q e); [|auto]. cbn. apply NoDup_cons. split; [|auto]. intros H. apply Hin.
  apply list_elem_of_fmap in H as (x & -> & Hx). apply list_elem_of_fmap. exists x. split; [done|].
  apply list_elem_of_In in Hx. apply filter_In in Hx as [Hx _]. by apply list_elem_of_In.
Qed.

Lemma table_filter q l : table l -> table (List.filter q l).
Proof.
  intros [Hl Hn]. split; [|by apply nodup_filter].
  clear Hn. induction Hl as [|e l He _ IH]; [constructor|]. cbn. destruct (q e); [by constructor|done].
Qed.

Section awk.
Context {AWK : Awk}.

Lemma awk_eq_address a b : is_address b = true -> awk_eq a b = str_eqb a b.
Proof.
  intros Hb. unfold awk_eq. rewrite (awk_number_colon b) by (by apply address_colon).
  by destruct (awk_number a).
Qed.

Lemma assigned_address ip : is_address ip = true -> assigned ip = ip.
Proof. intros H. apply assigned_plain. intros Hin. by apply (address_chars _ _ H) in Hin as [_ ?]. Qed.

Lemma unexpired_record now e :
  entry_ok e -> 0 <= now <= two53 -> unexpired now (record_of e) = alive now e.
Proof.
  intros He Hn. assert (Hu : 0 <= e.2 <= two53) by apply He. assert (two53 = 9007199254740992) by done.
  unfold unexpired, field. rewrite fields_record by done. change (2 <=? Z.of_nat (length [e.1; to_string e.2])) with true. cbn [andb].
  change (default [] _) with (to_string e.2). unfold awk_gt. rewrite !awk_number_to_string by lia. unfold alive.
  rewrite gt_int by lia. f_equal. unfold eq. rewrite (compare_int e.2 0) by lia. by rewrite Z.eqb_compare.
Qed.

Lemma awk_active_render now l :
  table l -> 0 <= now <= two53 -> awk_active now (render l) = render (List.filter (alive now) l).
Proof. intros Hl Hn. apply filter_render; [done|]. intros e He. by apply unexpired_record. Qed.

Lemma field1_record e : entry_ok e -> field 1 (record_of e) = e.1.
Proof. intros He. unfold field. by rewrite fields_record. Qed.

Lemma awk_without_render ip l :
  table l -> is_address ip = true ->
  awk_without ip (render l) = render (List.filter (fun e => negb (str_eqb e.1 ip)) l).
Proof.
  intros Hl Hip. apply filter_render; [done|]. intros e He.
  by rewrite field1_record, assigned_address, awk_eq_address.
Qed.

End awk.

(** ** Looking an address up *)

Lemma find_entry ip l :
  NoDup (l.*1) ->
  List.filter (fun e => str_eqb e.1 ip) l =
  match (list_to_map l : gmap str Z) !! ip with Some u => [(ip, u)] | None => [] end.
Proof.
  induction l as [|[k v] l IH]; intros Hn; [done|]. cbn in *. apply NoDup_cons in Hn as [Hin Hn].
  unfold str_eqb at 1. cbn [fst]. case_bool_decide as E.
  - subst k. rewrite lookup_insert_eq. f_equal. rewrite IH by done.
    by rewrite not_elem_of_list_to_map_1.
  - by rewrite lookup_insert_ne, IH.
Qed.

Lemma substituted_one u : substituted (print_records [to_string u]) = to_string u.
Proof.
  unfold substituted, print_records. cbn [map concat]. rewrite app_nil_r, reverse_app. cbn [reverse app].
  change (reverse [10]) with [10]. cbn [app strip_newlines].
  assert (H : forall s, 10 ∉ s -> strip_newlines s = s).
  { intros [|c s] Hs; [done|]. apply not_elem_of_cons in Hs as [Hc _]. cbn.
    repeat (case_match; try done). }
  rewrite H, reverse_involutive; [done|]. rewrite elem_of_reverse. apply digit_string_no. lia.
Qed.

(** What [check] finds is what the table says. *)
Lemma awk_until_render {AWK : Awk} ip l :
  table l -> is_address ip = true ->
  substituted (awk_until ip (render l)) =
  match (list_to_map l : gmap str Z) !! ip with Some u => to_string u | None => [] end.
Proof.
  intros Hl Hip. unfold awk_until. rewrite records_render by done.
  assert (H : map (field 2) (List.filter (fun r => awk_eq (field 1 r) (assigned ip)) (map record_of l)) =
              map (fun e : entry => to_string e.2) (List.filter (fun e => str_eqb e.1 ip) l)).
  { destruct Hl as [Hl _]. induction Hl as [|e l He _ IH]; [done|]. cbn [map List.filter].
    rewrite field1_record, assigned_address, awk_eq_address by done.
    rewrite (assigned_address ip Hip) in IH.
    destruct (str_eqb e.1 ip); cbn [map]; [|exact IH]. f_equal; [|exact IH].
    unfold field. by rewrite fields_record. }
  rewrite H, find_entry by apply Hl. destruct (_ !! ip); [|done]. apply substituted_one.
Qed.

(** ** What nginx reads *)

Lemma split_spaces_run acc s r :
  (forall c, c ∈ s -> is_space c = false) ->
  split_spaces_from acc false (s ++ 32 :: r) = (reverse acc ++ s) :: split_spaces_from [] true r.
Proof.
  revert acc. induction s as [|c s IH]; intros acc Hs; [by rewrite app_nil_r|].
  cbn [app split_spaces_from]. rewrite (Hs c) by set_solver. rewrite IH by set_solver.
  by rewrite reverse_cons, <- app_assoc.
Qed.

Lemma split_spaces_end acc s :
  (forall c, c ∈ s -> is_space c = false) -> split_spaces_from acc false s = [reverse acc ++ s].
Proof.
  revert acc. induction s as [|c s IH]; intros acc Hs; [by rewrite app_nil_r|].
  cbn [split_spaces_from]. rewrite (Hs c) by set_solver. rewrite IH by set_solver.
  by rewrite reverse_cons, <- app_assoc.
Qed.

Lemma address_not_space ip c : is_address ip = true -> c ∈ ip -> is_space c = false.
Proof. intros H Hc. apply (address_chars _ _ H) in Hc. unfold is_space, in_range. lia. Qed.

Lemma digit_not_space n c : c ∈ to_string n -> is_space c = false.
Proof.
  intros Hc. pose proof (to_string_digits n) as Hd. rewrite Forall_forall in Hd.
  apply Hd in Hc. unfold is_space, in_range in *. lia.
Qed.

Lemma js_trim_record e : entry_ok e -> js_trim (record_of e) = record_of e.
Proof.
  intros [Ha _]. unfold js_trim. assert (H1 : trim_left (record_of e) = record_of e).
  { unfold record_of. destruct (e.1) as [|c ip] eqn:E; [by apply address_ne in Ha|]. cbn [app trim_left].
    by rewrite (address_not_space (c :: ip)) by (done || set_solver). }
  rewrite H1. unfold record_of. rewrite !reverse_app.
  destruct (reverse (to_string e.2)) as [|d s] eqn:E.
  { exfalso. apply (to_string_ne e.2). by rewrite <- (reverse_involutive (to_string e.2)), E. }
  assert (Hd : is_space d = false).
  { apply (digit_not_space e.2). apply elem_of_reverse. rewrite E. set_solver. }
  cbn [app trim_left]. rewrite Hd.
  change (d :: ((s ++ reverse [32]) ++ reverse e.1)) with (((d :: s) ++ reverse [32]) ++ reverse e.1).
  by rewrite <- E, !reverse_app, !reverse_involutive.
Qed.

Lemma parse_ban_line_record e : entry_ok e -> parse_ban_line (record_of e) = Some (e.1, of_Z e.2).
Proof.
  intros He. unfold parse_ban_line. rewrite js_trim_record by done. destruct He as [Ha [Hu _]].
  unfold record_of, split_spaces. cbn [app].
  rewrite split_spaces_run by (intros c; by apply address_not_space). cbn [reverse app].
  destruct (digit_first (to_string e.2)) as (d & s & E & Hsp & _); [apply to_string_ne|apply to_string_digits|].
  rewrite <- (parse_int_to_string e.2) by done. rewrite E. cbn [split_spaces_from]. rewrite Hsp.
  rewrite split_spaces_end by (intros c Hc; apply (digit_not_space e.2); rewrite E; set_solver).
  change (reverse [d] ++ s) with (d :: s).
  change (reverse [] ++ e.1) with (e.1). by destruct (e.1); [apply address_ne in Ha|].
Qed.

(** The policy reads the table. *)
Lemma parse_banlist_render l k :
  table l -> parse_banlist (render l) !! k = of_Z <$> (list_to_map l : gmap str Z) !! k.
Proof.
  intros [Hl Hn]. unfold parse_banlist. assert (Hs : split_char 10 (render l) = map record_of l ++ [[]]).
  { unfold render, print_records. clear Hn. induction Hl as [|e l He _ IH]; [done|]. cbn [map concat].
    rewrite <- app_assoc. cbn [app]. by rewrite split_char_app, IH by (by apply record_no_newline). }
  rewrite Hs, foldl_app. cbn [foldl]. change (add_ban_line ?m []) with m.
  assert (H : forall m : gmap str number, foldl add_ban_line m (map record_of l) !! k =
            match (list_to_map l : gmap str Z) !! k with Some u => Some (of_Z u) | None => m !! k end).
  { clear Hs. induction Hl as [|e l He Hl IH]; intros m; [done|]. cbn in Hn. apply NoDup_cons in Hn as [Hin Hn].
    cbn [map foldl]. rewrite IH by done. unfold add_ban_line. rewrite parse_ban_line_record by done.
    destruct e as [ip u]. cbn [list_to_map fst snd foldr curry uncurry] in *. destruct (decide (ip = k)) as [->|Hne].
    - rewrite lookup_insert_eq. rewrite not_elem_of_list_to_map_1 by done. by rewrite lookup_insert_eq.
    - rewrite (lookup_insert_ne (M := gmap str) (list_to_map l)) by done.
      destruct (_ !! k); [done|]. by rewrite lookup_insert_ne. }
  rewrite H. by destruct (_ !! k).
Qed.

(** ** Seconds on the command line *)

(** A positive number does not start with 0. *)
Lemma to_string_first n : 0 < n -> exists c r, to_string n = c :: r /\ c <> 48 /\ in_range 48 57 c = true.
Proof.
  intros Hn. unfold to_string, format_radix.
  destruct (digits_rev_last (digits_fuel n) n Hn) as (d & Hd & Hd0); [apply digits_fuel_enough; lia|].
  assert (Hr : 0 <= d < 10).
  { pose proof (digits_rev_digits (digits_fuel n) 10 n) as HF. rewrite Forall_forall in HF.
    apply HF; [done|]. by apply last_Some_elem_of. }
  destruct (reverse (digits_rev (digits_fuel n) 10 n)) as [|x r] eqn:E.
  { apply (f_equal reverse) in E. rewrite reverse_involutive in E. by rewrite E in Hd. }
  assert (x = d) as ->.
  { rewrite <- head_reverse, E in Hd. by injection Hd. }
  exists (digit_char d), (map digit_char r). split; [done|]. unfold digit_char, in_range. case_if; lia.
Qed.

Lemma sign_of_digits s : Forall (fun c => in_range 48 57 c = true) s -> sign_of s = (false, s).
Proof. intros [|c r Hc Hr]; [done|]. unfold sign_of. unfold in_range in Hc. repeat (case_match; try done; try lia). Qed.

Lemma show_int_sign n : sign_of (show_int n) = (n <? 0, to_string (Z.abs n)).
Proof.
  unfold show_int. destruct (Z.ltb_spec n 0).
  - cbn [app sign_of]. by rewrite Z.abs_neq by lia.
  - rewrite sign_of_digits by apply to_string_digits. by rewrite Z.abs_eq by lia.
Qed.

Lemma at_most_zero_show n : - 2 ^ 63 <= n -> at_most_zero (show_int n) = (n <=? 0).
Proof.
  intros Hn. unfold at_most_zero. rewrite show_int_sign, digits_number_to_string by lia.
  assert (signed (n <? 0) (Z.abs n) = n) as -> by (unfold signed; destruct (Z.ltb_spec n 0); lia).
  rewrite (proj2 (Z.leb_le _ _)) by lia. done.
Qed.

Lemma bad_seconds_show n : bad_seconds (show_int n) = false.
Proof.
  assert (H : forall m, exists c r, to_string m = c :: r /\ forallb (fun c => in_range 48 57 c || (c =? 45)) (to_string m) = true /\
             existsb (fun c => c =? 45) (to_string m) = false /\ 48 <= c).
  { intros m. destruct (digit_first (to_string m)) as (c & r & E & _ & Hc & _); [apply to_string_ne|apply to_string_digits|].
    exists c, r. split; [done|]. unfold in_range in Hc. split; [|split; [|lia]].
    - apply forallb_forall. intros x Hx%list_elem_of_In. pose proof (to_string_digits m) as Hd.
      rewrite Forall_forall in Hd. rewrite (Hd x Hx). done.
    - apply not_true_iff_false. intros (x & Hx%list_elem_of_In & Hq)%existsb_exists.
      pose proof (to_string_digits m) as Hd. rewrite Forall_forall in Hd. apply Hd in Hx. unfold in_range in Hx. lia. }
  unfold show_int. destruct (n <? 0).
  - destruct (H (- n)) as (c & r & E & Hf & Hx & _). rewrite E in *. cbn [app]. unfold bad_seconds.
    change (forallb ?p (45 :: ?l)) with (forallb p l). by rewrite Hf, Hx.
  - destruct (H n) as (c & r & E & Hf & Hx & Hc). rewrite E in *. unfold bad_seconds. cbn [existsb] in Hx.
    apply orb_false_iff in Hx as [_ Hx]. rewrite Hf, Hx. repeat (case_match; try lia); done.
Qed.

Lemma arithmetic_show n : 0 < n < 2 ^ 63 -> arithmetic (show_int n) = Some n.
Proof.
  intros Hn. unfold arithmetic. rewrite show_int_sign, Z.abs_eq, (proj2 (Z.ltb_ge _ _)) by lia.
  destruct (to_string_first n) as (c & r & E & H48 & _); [lia|].
  assert (Hv : match to_string n with
               | 48 :: _ :: _ => if forallb (in_range 48 55) (to_string n)
                                 then Some (foldl (fun a c => 8 * a + (c - 48)) 0 (to_string n)) else None
               | _ => Some (digits_number (to_string n)) end = Some n).
  { rewrite digits_number_to_string by lia. rewrite E. repeat (case_match; try done). }
  rewrite Hv. cbn. unfold wrap_i64, signed. rewrite Z.mod_small by lia. f_equal. lia.
Qed.

Lemma show_sum t n : 0 <= t <= 2 ^ 52 -> 0 < n <= 2 ^ 52 -> show_int (wrap_i64 (t + n)) = to_string (t + n).
Proof.
  intros Ht Hn. unfold wrap_i64. rewrite Z.mod_small by lia. unfold show_int.
  rewrite (proj2 (Z.ltb_ge _ _)) by lia. f_equal. lia.
Qed.
