(* ===== verification/BanFileRuns.v ===== *)
(** * Runs of the banlist script beside each other

    Any number of runs, interleaved call by call: what each of them relies on
    and guarantees ([Rely]), and what the contents of the banlist are. *)
From Stdlib Require Import SpecFloat.
From S2P Require Import Prelude Prog Text Js ShieldCore Rely BanFile BanFileWorld BanFileText.
Local Open Scope prog_scope.

(** ** Requests *)

Inductive request := Ban (ip : str) (secs : Z) | Unban (ip : str) | Check (ip : str) | ListBans.

Definition args_of (c : request) : list str :=
  match c with
  | Ban ip secs => [lit "ban"; ip; show_int secs]
  | Unban ip => [lit "unban"; ip]
  | Check ip => [lit "check"; ip]
  | ListBans => [lit "list"]
  end.

(** Times stay below 2^53, where doubles are exact. *)
Definition EPOCH_MAX : Z := 2 ^ 52.

Definition request_ok (c : request) : Prop :=
  match c with
  | Ban ip secs => is_address ip = true /\ - 2 ^ 63 <= secs <= 2 ^ 52
  | Unban ip | Check ip => is_address ip = true
  | ListBans => True
  end.

(** ** Bans as a map *)

Abbreviation Bans := (gmap str Z).

Definition bans_in (text : str) (M : Bans) : Prop :=
  exists l, table l /\ text = render l /\ M = list_to_map l.

(** Those that count at [t]. *)
Definition alive_bans (t : Z) (M : Bans) : Bans := filter (fun e => alive t e = true) M.

(** The time a ban of [secs] seconds that is accepted at [t] ends; 0 is never. *)
Definition ban_until (t secs : Z) : Z := if secs <=? 0 then 0 else t + secs.

(** What a request, made at [from] or later, makes of the bans at [t]: those
    that have lapsed are dropped. *)
Definition effect (from t : Z) (c : request) (M M' : Bans) : Prop :=
  match c with
  | Ban ip secs => exists t0, from <= t0 <= t /\ M' = <[ip := ban_until t0 secs]> (alive_bans t M)
  | Unban ip => M' = delete ip (alive_bans t M)
  | Check _ | ListBans => False
  end.

Lemma render_inj l l' : table l -> table l' -> render l = render l' -> l = l'.
Proof.
  intros Hl Hl' E. apply (f_equal records) in E. rewrite !records_render in E by done.
  destruct Hl as [Hl _], Hl' as [Hl' _]. revert l' Hl' E.
  induction Hl as [|e l He _ IH]; intros [|e' l'] Hl' E; try done. apply Forall_cons in Hl' as [He' Hl'].
  cbn [map] in E. injection E as E1 E2. rewrite (IH l') by done. f_equal.
  apply (f_equal fields) in E1. rewrite !fields_record in E1 by done. injection E1 as E3 E4.
  apply (f_equal digits_number) in E4. rewrite !digits_number_to_string in E4 by (apply He || apply He').
  destruct e, e'; simpl in *; congruence.
Qed.

Lemma bans_in_unique text M M' : bans_in text M -> bans_in text M' -> M = M'.
Proof. intros (l & Hl & -> & ->) (l' & Hl' & E & ->). by rewrite (render_inj l l'). Qed.

Lemma bans_in_empty : bans_in [] ∅.
Proof. exists []. by repeat constructor. Qed.

(** ** Tables and maps *)

Lemma list_to_map_filter q l :
  NoDup (l.*1) ->
  (list_to_map (List.filter q l) : Bans) = filter (fun e => q e = true) (list_to_map l).
Proof.
  intros Hn. pose proof (nodup_filter q l Hn) as Hq.
  apply map_eq. intros k. apply option_eq. intros v. rewrite map_lookup_filter_Some.
  rewrite <- !elem_of_list_to_map by done. rewrite !list_elem_of_In, filter_In. done.
Qed.

Lemma alive_bans_render t l :
  table l -> (list_to_map (List.filter (alive t) l) : Bans) = alive_bans t (list_to_map l).
Proof. intros Hl. apply list_to_map_filter, Hl. Qed.

Definition others (ip : str) (l : list entry) : list entry := List.filter (fun e => negb (str_eqb e.1 ip)) l.

Lemma others_render ip l : table l -> (list_to_map (others ip l) : Bans) = delete ip (list_to_map l).
Proof.
  intros Hl. unfold others. rewrite list_to_map_filter by apply Hl. apply map_eq. intros k. apply option_eq.
  intros v. rewrite map_lookup_filter_Some, lookup_delete_Some. cbn [fst]. unfold str_eqb.
  case_bool_decide; naive_solver.
Qed.

Lemma others_table ip l : table l -> table (others ip l).
Proof. apply table_filter. Qed.

Lemma others_not_in ip l : ip ∉ (others ip l).*1.
Proof.
  intros H. apply list_elem_of_fmap in H as (e & -> & He). apply list_elem_of_In, filter_In in He as [_ He].
  unfold str_eqb in He. by rewrite bool_decide_eq_true_2 in He.
Qed.

Lemma render_app l l' : render (l ++ l') = render l ++ render l'.
Proof. unfold render, print_records. by rewrite !map_app, concat_app. Qed.

Lemma insert_render ip u l :
  table l -> is_address ip = true -> 0 <= u <= two53 ->
  table (others ip l ++ [(ip, u)]) /\
  (list_to_map (others ip l ++ [(ip, u)]) : Bans) = <[ip := u]> (list_to_map l).
Proof.
  intros Hl Hip Hu. pose proof (others_table ip l Hl) as [Ho Hn]. pose proof (others_not_in ip l) as Hnot.
  split; [split|].
  - apply Forall_app. split; [exact Ho|]. apply Forall_singleton. by split.
  - rewrite fmap_app. apply NoDup_app. split; [done|]. split; [|apply NoDup_singleton].
    intros k Hk Hk'. cbn in Hk'. apply list_elem_of_singleton in Hk' as ->. done.
  - rewrite list_to_map_app. cbn. rewrite <- insert_union_r by (by apply not_elem_of_list_to_map_1).
    rewrite map_union_empty, others_render by done. apply insert_delete_eq.
Qed.

(** ** Reliance and guarantee *)

Definition well_formed (w : world) : Prop :=
  0 <= epoch w <= EPOCH_MAX /\ Forall (fun v => exists M, bans_in v.2 M) (versions w).

(** The contents run [i] has put there. *)
Definition owned (i : nat) (w : world) : nat :=
  length (List.filter (fun v => bool_decide (v.1 = Some i)) (versions w)).

(** What others may do to the state, as run [i] relies on it. *)
Record relies (i : nat) (w w' : world) : Prop := mk_relies {
  rl_epoch : epoch w <= epoch w';
  rl_formed : well_formed w -> well_formed w';
  rl_versions : exists new, versions w' = versions w ++ new /\ Forall (fun v => v.1 <> Some i) new;
  rl_holder : holder w = Some i -> holder w' = Some i /\ versions w' = versions w;
  rl_free : holder w <> Some i -> holder w' <> Some i;
  rl_temps : forall n t, temps w !! n = Some (i, t) -> temps w' !! n = Some (i, t);
}.

#[export] Instance relies_refl i : Reflexive (relies i).
Proof. intros w. split; try done. exists []. by rewrite app_nil_r. Qed.

#[export] Instance relies_trans i : Transitive (relies i).
Proof.
  intros w1 w2 w3 [] []. split; [lia|auto| | |auto|auto].
  - destruct rl_versions0 as (n1 & E1 & H1), rl_versions1 as (n2 & E2 & H2).
    exists (n1 ++ n2). rewrite E2, E1, app_assoc. split; [done|by apply Forall_app].
  - intros H. destruct (rl_holder0 H) as [H2 E]. rewrite <- E. by apply rl_holder1.
Qed.

Lemma relies_owned i w w' : relies i w w' -> owned i w' = owned i w.
Proof.
  intros H. destruct (rl_versions _ _ _ H) as (new & E & Hn). unfold owned. rewrite E, List.filter_app, length_app.
  assert (Hnil : List.filter (fun v => bool_decide (v.1 = Some i)) new = []).
  { clear E. induction Hn as [|v new Hv _ IH]; [done|]. cbn. rewrite bool_decide_eq_false_2 by done. exact IH. }
  rewrite Hnil. simpl. lia.
Qed.

Section guarantees.
Context {AWK : Awk} (cs : list request) (from : Z).

(** A change of the banlist by run [i], as its request says. *)
Definition changes (i : nat) (w w' : world) : Prop :=
  exists c text M M' t, cs !! i = Some c /\ versions w' = versions w ++ [(Some i, text)] /\
    bans_in (text_of w) M /\ bans_in text M' /\ t <= epoch w /\ effect from t c M M'.

Definition guarantees (i : nat) (w w' : world) : Prop :=
  (forall j, i <> j -> relies j w w') /\ (versions w' = versions w \/ changes i w w').

Lemma guarantees_refl i w : guarantees i w w.
Proof. split; [done|by left]. Qed.

(** The lock changes hands between free and [i]. *)
Lemma guarantees_holder i h w :
  (holder w = None \/ holder w = Some i) -> (h = None \/ h = Some i) -> guarantees i w (set_holder h w).
Proof.
  intros Hw Hh. split; [|by left]. intros j Hij. split; try done.
  - exists []. by rewrite app_nil_r.
  - intros Hj. exfalso. destruct Hw; congruence.
  - intros _ H. cbn in H. destruct Hh; congruence.
Qed.

(** A temporary file of [i] comes or changes. *)
Lemma guarantees_temps i n t w :
  (temps w !! n = None \/ exists t', temps w !! n = Some (i, t')) ->
  guarantees i w (set_temps (<[n := (i, t)]> (temps w)) w).
Proof.
  intros Hn. split; [|by left]. intros j Hij. split; try done.
  - exists []. by rewrite app_nil_r.
  - intros n' t' Hj. cbn. rewrite lookup_insert_ne; [done|]. intros ->. destruct Hn as [Hn|[? Hn]]; congruence.
Qed.

Context (i : nat).

Abbreviation rgi := (rg (sh_step false i) (relies i) (guarantees i)).

(** A call that leaves the state as it is. *)
Lemma rg_quiet {X} (e : sh X) (P : world -> Prop) (Q : X -> world -> Prop) w :
  (forall w1 x w2, sh_step false i X e w1 x w2 -> w2 = w1) ->
  (forall w1, relies i w w1 -> P w1) ->
  (forall w1 x, P w1 -> sh_step false i X e w1 x w1 -> Q x w1) ->
  rgi (call e) Q w.
Proof.
  intros He HP HQ. apply rg_call. intros w1 HR x w2 Hs. pose proof (He _ _ _ Hs) as ->.
  split; [apply guarantees_refl|]. apply HQ; auto.
Qed.

(** Before it has the lock, and while it holds it. *)
Definition outside (w : world) : Prop :=
  well_formed w /\ holder w <> Some i /\ owned i w = 0%nat /\ from <= epoch w.
Definition inside (text : str) (w : world) : Prop :=
  well_formed w /\ holder w = Some i /\ owned i w = 0%nat /\ text_of w = text.

Lemma outside_stable w w' : relies i w w' -> outside w -> outside w'.
Proof.
  intros H (Hf & Hh & Ho & He). split; [by apply H|]. split; [by apply H|].
  rewrite (relies_owned i w w') by done. split; [done|]. pose proof (rl_epoch _ _ _ H). lia.
Qed.

Lemma inside_stable text w w' : relies i w w' -> inside text w -> inside text w'.
Proof.
  intros H (Hf & Hh & Ho & Ht). destruct (rl_holder _ _ _ H Hh) as [Hh' Hv].
  split; [by apply H|]. split; [done|]. split; [by rewrite (relies_owned i w w')|].
  unfold text_of, banlist in *. by rewrite Hv.
Qed.

(** ** The parts of the script *)

Lemma formed_text w : well_formed w -> exists l, table l /\ text_of w = render l.
Proof.
  intros [_ Hv]. unfold text_of, banlist. destruct (list.last (versions w)) as [v|] eqn:E.
  - rewrite Forall_forall in Hv. destruct (Hv v) as (M & l & Hl & Ht & _); [by apply last_Some_elem_of|].
    by exists l.
  - exists []. by repeat constructor.
Qed.

Lemma formed_bans w : well_formed w -> exists M, bans_in (text_of w) M.
Proof. intros H. destruct (formed_text w H) as (l & Hl & E). exists (list_to_map l), l. done. Qed.

Lemma rg_until secs w :
  outside w -> - 2 ^ 63 <= secs <= 2 ^ 52 ->
  rgi (until_of (show_int secs))
    (fun u w' => outside w' /\ exists t, 0 <= t <= EPOCH_MAX /\ from <= t <= epoch w' /\
                 u = Some (to_string (ban_until t secs))) w.
Proof.
  intros Hw Hs. unfold until_of. rewrite at_most_zero_show by lia. unfold ban_until.
  destruct (Z.leb_spec secs 0).
  - split; [done|]. exists (epoch w). split; [apply Hw|]. split; [|done]. split; [apply Hw|done].
  - apply rg_seq, (rg_quiet _ outside); [by intros ? ? ? [_ ?]|intros w1 HR; by eapply outside_stable|].
    intros w1 now Hw1 [-> _]. split; [done|]. exists (epoch w1). destruct Hw1 as ((He & _) & _ & _ & Hfr).
    split; [done|]. split; [done|]. rewrite arithmetic_show by lia. cbn [option_map]. f_equal.
    apply show_sum; unfold EPOCH_MAX in He; lia.
Qed.

Lemma rg_locked w :
  outside w -> rgi locked (fun l w' => if l then exists text, inside text w' else outside w') w.
Proof.
  intros Hw. unfold locked. assert (Hst : forall w w', outside w -> relies i w w' -> outside w').
  { intros w0 w1 H HR. by eapply outside_stable. }
  apply rg_seq, (rg_quiet _ outside); [done|eauto|]. intros w1 [] Hw1 _; [|done].
  apply rg_seq, (rg_quiet _ outside); [done|eauto|]. intros w2 [] Hw2 _; [|done].
  apply rg_call. intros w3 HR x w4 [(-> & Hn & ->)|[-> ->]].
  - split; [apply guarantees_holder; auto|]. exists (text_of w3). pose proof (Hst _ _ Hw2 HR) as (Hf & _ & Ho & _).
    by split; [|split; [|split]].
  - split; [apply guarantees_refl|]. eauto.
Qed.

(** The entries that count, of the banlist at some instant. *)
Definition reads (P : world -> Prop) (w : world) (out : str * bool) (w' : world) : Prop :=
  P w' /\ exists l t, table l /\ text_of w' = render l /\
    0 <= t <= EPOCH_MAX /\ epoch w <= t <= epoch w' /\ out = (render (List.filter (alive t) l), true).

Lemma rg_active (P : world -> Prop) w :
  (forall w w', relies i w w' -> P w -> P w') -> (forall w, P w -> well_formed w) ->
  P w -> rgi active_entries (reads P w) w.
Proof.
  intros Hst Hwf Hw. unfold active_entries.
  apply rg_seq, (rg_quiet _ (fun w1 => P w1 /\ relies i w w1)); [by intros ? ? ? [_ ?]|eauto|].
  intros w1 e [Hw1 HR1] [-> _]. destruct (has_list w1) eqn:E; cbn [negb].
  - apply rg_seq, (rg_quiet _ (fun w2 => P w2 /\ relies i w w2)); [by intros ? ? ? [_ ?]|..].
    { intros w2 HR2. split; [eauto|by etrans]. }
    intros w2 now [Hw2 HR2] [-> _].
    apply rg_seq, (rg_quiet _ (fun w3 => P w3 /\ relies i w w3 /\ relies i w2 w3)); [by intros ? ? ? [? _]|..].
    { intros w3 HR3. split; [eauto|]. split; [by etrans|done]. }
    intros w3 r (Hw3 & HR3 & HR23) [_ [->|[? _]]]; [|done]. cbn [fst snd].
    split; [done|]. destruct (formed_text w3) as (l & Hl & Ht); [auto|].
    destruct (Hwf w2 Hw2) as [He _]. exists l, (epoch w2). split; [done|]. split; [done|]. split; [done|].
    split; [split; [apply HR2|apply HR23]|].
    rewrite Ht, awk_active_render; [done|done|]. unfold EPOCH_MAX in He. unfold two53. lia.
  - split; [done|]. exists [], (epoch w1). split; [by repeat constructor|]. split; [|split; [by apply Hwf|split; [split; [apply HR1|done]|done]]].
    unfold text_of. unfold has_list in E. by destruct (banlist w1).
Qed.

(** Holding the lock, with a temporary file [n] of its own. *)
Definition writing (text : str) (n t : str) (w : world) : Prop :=
  inside text w /\ temps w !! n = Some (i, t).

Lemma writing_stable text n t w w' : relies i w w' -> writing text n t w -> writing text n t w'.
Proof. intros H [Hi Ht]. split; [by eapply inside_stable|by apply H]. Qed.

(** After the rename, or without it. *)
Definition written (done : bool) (w : world) : Prop :=
  well_formed w /\ holder w = Some i /\ owned i w = if done then 1%nat else 0%nat.

Lemma inside_written text w : inside text w -> written false w.
Proof. intros (Hf & Hh & Ho & _). done. Qed.

Lemma inside_set_temps text n t w :
  inside text w -> inside text (set_temps (<[n := (i, t)]> (temps w)) w).
Proof. done. Qed.

(** The rename is the change the request says. *)
Lemma rename_guarantees c text new M M' t n w :
  cs !! i = Some c -> writing text n new w -> bans_in text M -> bans_in new M' -> t <= epoch w -> effect from t c M M' ->
  let w' := set_temps (delete n (temps w)) (set_versions (versions w ++ [(Some i, new)]) w) in
  guarantees i w w' /\ written true w'.
Proof.
  intros Hc [(Hf & Hh & Ho & Ht) Htmp] HM HM' Hte He w'.
  assert (Hf' : well_formed w').
  { destruct Hf as [He' Hv]. split; [done|]. apply Forall_app. split; [done|]. apply Forall_singleton. by exists M'. }
  split; [split|split; [|split]]; try done.
  - intros j Hij. split; try done.
    + exists [(Some i, new)]. split; [done|]. apply Forall_singleton. cbn. congruence.
    + congruence.
    + intros n' t' Hj. cbn. rewrite lookup_delete_ne; [done|]. intros ->. congruence.
  - right. exists c, new, M, M', t. by rewrite Ht.
  - unfold owned, w'. cbn [versions set_temps set_versions]. rewrite List.filter_app, length_app.
    unfold owned in Ho. rewrite Ho. cbn. by rewrite bool_decide_eq_true_2.
Qed.

Lemma rg_rewrite c text new M M' t w :
  cs !! i = Some c -> inside text w -> bans_in text M -> bans_in new M' -> t <= epoch w -> effect from t c M M' ->
  rgi (rewrite_file new) written w.
Proof.
  intros Hc Hw HM HM' Ht He. unfold rewrite_file. set (P w := inside text w /\ t <= epoch w).
  assert (Hst : forall w w', relies i w w' -> P w -> P w').
  { intros w0 w1 HR [? ?]. split; [by eapply inside_stable|]. pose proof (rl_epoch _ _ _ HR). lia. }
  assert (HP : P w) by done. clear Hw Ht.
  apply rg_seq, rg_call. intros w1 HR1 x w2 [[-> ->]|(n & -> & Hn & ->)].
  { split; [apply guarantees_refl|]. eapply inside_written, (Hst w); done. }
  split; [apply guarantees_temps; by left|]. apply (Hst w w1 HR1) in HP. clear HR1 w.
  set (wt := set_temps _ w1). assert (HPt : P wt /\ temps wt !! n = Some (i, [])).
  { split; [done|]. apply lookup_insert_eq. }
  apply rg_seq, rg_call. intros w3 HR3 a w4 (t' & Ha & ->). destruct HPt as [HPt Htn].
  apply (rl_temps _ _ _ HR3) in Htn. apply (Hst _ _ HR3) in HPt.
  split; [apply guarantees_temps; by right; exists []|]. destruct a; [|by eapply inside_written, HPt].
  rewrite (Ha eq_refl). cbn [negb].
  assert (Hw4 : P (set_temps (<[n := (i, new)]> (temps w3)) w3) /\
                temps (set_temps (<[n := (i, new)]> (temps w3)) w3) !! n = Some (i, new)).
  { split; [done|]. apply lookup_insert_eq. }
  revert Hw4. generalize (set_temps (<[n := (i, new)]> (temps w3)) w3). intros w4 [Hw4 Hn4].
  apply rg_seq, (rg_quiet _ (fun w5 => P w5 /\ temps w5 !! n = Some (i, new))); [done|..].
  { intros w5 HR5. split; [eauto|by apply HR5]. }
  intros w5 [] [Hw5 Hn5] _; [|by eapply inside_written, Hw5]. cbn [negb].
  apply rg_call. intros w6 HR6 x w7 [[-> ->]|(o & t6 & -> & Hn6 & ->)].
  - split; [apply guarantees_refl|]. eapply inside_written, (Hst w5); done.
  - apply (rl_temps _ _ _ HR6) in Hn5. rewrite Hn6 in Hn5. injection Hn5 as -> ->.
    apply (Hst _ _ HR6) in Hw5. destruct Hw5 as [Hw5 Ht5].
    eapply rename_guarantees; try done.
Qed.

Lemma effect_ban ip t0 t secs l :
  table l -> is_address ip = true -> 0 <= t0 <= EPOCH_MAX -> from <= t0 <= t -> secs <= 2 ^ 52 ->
  let u := ban_until t0 secs in
  exists l', table l' /\ effect from t (Ban ip secs) (list_to_map l) (list_to_map l') /\
    awk_without ip (render (List.filter (alive t) l)) ++ entry_line ip (to_string u) = render l'.
Proof.
  intros Hl Hip Ht0 Ht Hs u. assert (Hu : 0 <= u <= two53).
  { unfold u, ban_until, EPOCH_MAX, two53 in *. case_match; lia. }
  pose proof (table_filter (alive t) l Hl) as Hf.
  destruct (insert_render ip u _ Hf Hip Hu) as [Ht' HM].
  eexists. split; [exact Ht'|]. split.
  - exists t0. split; [done|]. rewrite HM. by rewrite alive_bans_render.
  - rewrite awk_without_render by done. rewrite render_app. unfold others. f_equal.
    unfold render, print_records, record_of, entry_line. cbn. by rewrite app_nil_r, <- !app_assoc.
Qed.

Lemma effect_unban ip t l :
  table l -> is_address ip = true ->
  exists l', table l' /\ effect from t (Unban ip) (list_to_map l) (list_to_map l') /\
    awk_without ip (render (List.filter (alive t) l)) ++ [] = render l'.
Proof.
  intros Hl Hip. pose proof (table_filter (alive t) l Hl) as Hf. exists (others ip (List.filter (alive t) l)).
  split; [by apply others_table|]. split.
  - cbn. by rewrite others_render, alive_bans_render.
  - by rewrite app_nil_r, awk_without_render.
Qed.

(** The locked part of [ban] and [unban]. *)
Lemma rg_replace c ip entry text w :
  cs !! i = Some c -> inside text w ->
  (forall l t, table l -> 0 <= t <= EPOCH_MAX -> epoch w <= t ->
     exists l', table l' /\ effect from t c (list_to_map l) (list_to_map l') /\
       awk_without ip (render (List.filter (alive t) l)) ++ entry = render l') ->
  rgi (replace_list ip entry) written w.
Proof.
  intros Hc Hw He. unfold replace_list.
  apply rg_seq. eapply rg_mono; [|apply (rg_active (inside text)); [intros; by eapply inside_stable|by intros ? []|done]].
  intros out w1 (Hw1 & l & t & Hl & Htx & Ht & Hte & ->). cbv beta iota.
  destruct (He l t Hl Ht) as (l' & Hl' & Heff & ->); [lia|].
  assert (text = render l) as -> by (destruct Hw1 as (_ & _ & _ & <-); done).
  apply rg_seq. eapply rg_mono; [|apply (rg_rewrite c (render l) (render l') (list_to_map l) (list_to_map l') t)]; try done.
  - by exists l.
  - by exists l'.
  - lia.
Qed.

(** ** A whole run *)

(** What run [i] leaves when it ends with [r]: a ban or an unban that succeeds
    has changed the banlist once, any other run never; a check reports what one
    content of the banlist said at one instant. *)
Definition finished (c : request) (r : reply) (w : world) : Prop :=
  match c with
  | Ban _ _ | Unban _ => owned i w = (if status r =? 0 then 1%nat else 0%nat)
  | Check ip =>
    owned i w = 0%nat /\
    exists l t, table l /\ t <= epoch w /\ (render l = [] \/ render l ∈ (versions w).*2) /\
      r = match alive_bans t (list_to_map l) !! ip with
          | Some u => mk_reply 0 (banned_line ip (to_string u))
          | None => mk_reply 1 (lit "not banned " ++ ip ++ [10])
          end
  | ListBans =>
    owned i w = 0%nat /\
    exists l t, table l /\ t <= epoch w /\ (render l = [] \/ render l ∈ (versions w).*2) /\
      r = mk_reply 0 (render (List.filter (alive t) l))
  end.

Lemma text_version w : text_of w = [] \/ text_of w ∈ (versions w).*2.
Proof.
  unfold text_of, banlist. destruct (list.last (versions w)) as [v|] eqn:E; [right|by left].
  apply list_elem_of_fmap. exists v. split; [done|]. by apply last_Some_elem_of.
Qed.

Lemma relies_version w w' x : relies i w w' -> x ∈ (versions w).*2 -> x ∈ (versions w').*2.
Proof. intros H Hx. destruct (rl_versions _ _ _ H) as (new & -> & _). rewrite fmap_app. set_solver. Qed.

Lemma finished_stable c r w w' : relies i w w' -> finished c r w -> finished c r w'.
Proof.
  intros H. pose proof (rl_epoch _ _ _ H) as He. unfold finished. rewrite (relies_owned i w w' H).
  destruct c; [done..| |].
  - intros (Ho & l & t & Hl & Ht & Hv & Hr). split; [done|]. exists l, t. split; [done|]. split; [lia|].
    split; [|done]. destruct Hv; [by left|right]. by eapply relies_version.
  - intros (Ho & l & t & Hl & Ht & Hv & Hr). split; [done|]. exists l, t. split; [done|]. split; [lia|].
    split; [|done]. destruct Hv; [by left|right]. by eapply relies_version.
Qed.

(** The end of the process frees the lock. *)
Lemma rg_exit (Q : reply -> world -> Prop) r w :
  (forall w', relies i w w' -> Q r w' /\ (forall h, Q r (set_holder h w'))) ->
  rgi (call Exit ;;; Ret r) Q w.
Proof.
  intros HQ. apply rg_seq, rg_call. intros w1 HR [] w2 ->. destruct (HQ w1 HR) as [H1 H2]. case_decide.
  - split; [|exact (H2 None)]. apply guarantees_holder; auto.
  - split; [apply guarantees_refl|done].
Qed.

(** No call moves the clock back. *)
Lemma sh_step_epoch f X (e : sh X) w x w' : sh_step f i X e w x w' -> epoch w' = epoch w.
Proof. destruct e; cbn; try naive_solver. intros ->. by case_decide. Qed.

Lemma rg_epoch {A} (m : prog sh A) (Q : A -> world -> Prop) w t :
  t <= epoch w -> rgi m Q w -> rgi m (fun a w' => Q a w' /\ t <= epoch w') w.
Proof.
  revert w. induction m as [a|X e k IH]; intros w Ht; simpl; [done|].
  intros H w1 HR x w2 Hs. destruct (H w1 HR x w2 Hs) as [HG Hk]. split; [done|]. apply IH; [|done].
  rewrite (sh_step_epoch _ _ _ _ _ _ Hs). pose proof (rl_epoch _ _ _ HR). lia.
Qed.

Lemma outside_finished_ban c ip secs n out w :
  c = Ban ip secs \/ c = Unban ip -> outside w -> n <> 0 -> finished c (mk_reply n out) w.
Proof.
  intros Hc (_ & _ & Ho & _) Hn. destruct Hc as [-> | ->]; unfold finished; cbn [status];
    by rewrite (proj2 (Z.eqb_neq n 0)).
Qed.

Lemma rg_ban ip secs w :
  cs !! i = Some (Ban ip secs) -> request_ok (Ban ip secs) -> outside w ->
  rgi (ban ip (show_int secs)) (finished (Ban ip secs)) w.
Proof.
  intros Hc [Hip Hs] Hw. unfold ban. pose proof (address_ne ip Hip).
  destruct ip as [|c0 ip0] eqn:Ei; [done|]. rewrite <- Ei in *.
  assert (Hsh : exists d r, show_int secs = d :: r).
  { pose proof (bad_seconds_show secs) as Hb. destruct (show_int secs) as [|d r]; [done|]. by exists d, r. }
  destruct Hsh as (d & r & E). rewrite E. rewrite <- E, bad_seconds_show. clear d r E.
  apply rg_seq. eapply rg_mono; [|by apply rg_until]. intros u w1 (Hw1 & t0 & Ht0 & [Hfr Ht0w] & ->). cbv beta iota.
  apply rg_seq. eapply rg_mono; [|eapply rg_epoch; [exact Ht0w|by apply rg_locked]].
  intros [] w2 [Hl Ht02]; cbn [negb]; [|by eapply outside_finished_ban; [left|..]].
  destruct Hl as [text Hin]. apply rg_seq. eapply rg_mono; [|eapply (rg_replace (Ban ip secs)); [done|exact Hin|]].
  - intros ok w3 (_ & _ & Ho). destruct ok; cbn [rg]; unfold finished; cbn [status]; rewrite Ho; done.
  - intros l t Hl Ht Hte. apply effect_ban; try done; lia.
Qed.

Lemma rg_unban ip w :
  cs !! i = Some (Unban ip) -> is_address ip = true -> outside w -> rgi (unban ip) (finished (Unban ip)) w.
Proof.
  intros Hc Hip Hw. unfold unban. pose proof (address_ne ip Hip). destruct ip as [|c0 ip0] eqn:Ei; [done|].
  rewrite <- Ei in *. apply rg_seq. eapply rg_mono; [|by apply rg_locked].
  intros [] w2 Hl; cbn [negb]; [|by eapply (outside_finished_ban _ ip 0); [right|..]].
  destruct Hl as [text Hin]. apply rg_seq. eapply rg_mono; [|eapply (rg_replace (Unban ip)); [done|exact Hin|]].
  - intros ok w3 (_ & _ & Ho). destruct ok; cbn [rg]; unfold finished; cbn [status]; rewrite Ho; done.
  - intros l t Hl _ _. by apply effect_unban.
Qed.

Lemma rg_check ip w :
  is_address ip = true -> outside w -> rgi (check ip) (finished (Check ip)) w.
Proof.
  intros Hip Hw. unfold check. pose proof (address_ne ip Hip). destruct ip as [|c0 ip0] eqn:Ei; [done|].
  rewrite <- Ei in *. apply rg_seq.
  eapply rg_mono; [|apply (rg_active outside); [intros; by eapply outside_stable|by intros ? []|done]].
  intros out w1 (Hw1 & l & t & Hl & Htx & Ht & [_ Hte] & ->). cbv beta iota. cbn [negb].
  rewrite awk_until_render by (done || by apply table_filter). rewrite alive_bans_render by done.
  assert (Hv : render l = [] \/ render l ∈ (versions w1).*2) by (rewrite <- Htx; apply text_version).
  assert (Hf : forall r, r = match alive_bans t (list_to_map l) !! ip with
                            | Some u => mk_reply 0 (banned_line ip (to_string u))
                            | None => mk_reply 1 (lit "not banned " ++ ip ++ [10])
                            end -> finished (Check ip) r w1).
  { intros r Hr. split; [apply Hw1|]. by exists l, t. }
  destruct (alive_bans t (list_to_map l) !! ip) as [u|] eqn:E; [|by apply Hf].
  destruct (to_string u) as [|d s] eqn:Eu; [by apply to_string_ne in Eu|]. by apply Hf.
Qed.

Lemma rg_list w : outside w -> rgi list_bans (finished ListBans) w.
Proof.
  intros Hw. unfold list_bans. apply rg_seq.
  eapply rg_mono; [|apply (rg_active outside); [intros; by eapply outside_stable|by intros ? []|done]].
  intros out w1 (Hw1 & l & t & Hl & Htx & Ht & [_ Hte] & ->). cbn [fst snd].
  split; [apply Hw1|]. exists l, t. split; [done|]. split; [done|]. split; [|done].
  rewrite <- Htx. apply text_version.
Qed.

Lemma run_verb_args dir c :
  run_verb dir (args_of c) =
  match c with
  | Ban ip secs => ban ip (show_int secs)
  | Unban ip => unban ip
  | Check ip => check ip
  | ListBans => list_bans
  end.
Proof. by destruct c. Qed.

Lemma finished_holder c r h w : finished c r w -> finished c r (set_holder h w).
Proof. done. Qed.

(** Every request is run as the others rely on, and ends as it should. *)
Lemma rg_request dir c w :
  cs !! i = Some c -> request_ok c -> outside w -> rgi (shield_ban dir (args_of c)) (finished c) w.
Proof.
  intros Hc Hok Hw. unfold shield_ban. apply rg_seq. rewrite run_verb_args.
  eapply (rg_mono _ _ _ _ (finished c)).
  - intros r w1 Hf. apply rg_exit. intros w2 HR. split; [by eapply finished_stable|].
    intros h. by apply finished_holder, (finished_stable _ _ _ _ HR).
  - destruct c; [by apply rg_ban|by apply rg_unban|by apply rg_check|by apply rg_list].
Qed.

End guarantees.
