(* ===== verification/BanFileTheorems.v ===== *)
(** * What the banlist file promises

    Runs of the script beside each other amount to runs one after the other;
    the script and the nginx policy agree on who is banned; and a ban that was
    accepted is enforced at accept until it ends. *)
From Stdlib Require Import SpecFloat.
From S2P Require Import Prelude Prog Text Json JsonSpec Js JsStd ShieldCore Nginx CoreTheorems.
From S2P Require Import Rely BanFile BanFileWorld BanFileText BanFileRuns.
Local Open Scope prog_scope.

(** Time passes. *)
Definition passes (w w' : world) : Prop := exists t, epoch w <= t <= EPOCH_MAX /\ w' = set_epoch t w.

(** The contents [new], one after the other from the bans [M]: each is what a
    request made at [from] or later makes of the one before, not after [T]. *)
Inductive serial (cs : list request) (from T : Z) : Bans -> list (option nat * str) -> Bans -> Prop :=
| serial_nil M : serial cs from T M [] M
| serial_cons i c t text M M1 new M' :
    cs !! i = Some c -> t <= T -> effect from t c M M1 -> bans_in text M1 -> serial cs from T M1 new M' ->
    serial cs from T M ((Some i, text) :: new) M'.

Lemma serial_later cs from T T' M new M' : T <= T' -> serial cs from T M new M' -> serial cs from T' M new M'.
Proof. intros HT. induction 1 as [|i c t]; [constructor|]. apply (serial_cons _ _ _ i c t _ _ M1); auto; lia. Qed.

Lemma serial_snoc cs from T M new M1 i c t text M' :
  serial cs from T M new M1 -> cs !! i = Some c -> t <= T -> effect from t c M1 M' -> bans_in text M' ->
  serial cs from T M (new ++ [(Some i, text)]) M'.
Proof.
  induction 1 as [|j d t1 text1 M M2 new M1]; intros; cbn [app].
  - apply (serial_cons _ _ _ i c t _ _ M'); try done. constructor.
  - apply (serial_cons _ _ _ j d t1 _ _ M2); auto.
Qed.

Section pools.
Context {AWK : Awk} (dir : str) (cs : list request).

Definition started (c : request) : prog sh reply := shield_ban dir (args_of c).

(** Runs that have not begun, and where they may begin. *)
Definition fresh_world (w : world) : Prop :=
  well_formed w /\ holder w = None /\ Forall (fun v => v.1 = None) (versions w).

(** A state the runs can reach, call by call. *)
Definition reached (w0 : world) (w : world) (ts : list (prog sh reply)) : Prop :=
  pool_runs (fun i => sh_step false i) passes (w0, map started cs) (w, ts).

Lemma passes_relies i w w' : passes w w' -> relies i w w'.
Proof.
  intros (t & Ht & ->). split; try done; cbn; [lia| |].
  - intros [He Hv]. split; [cbn; lia|done].
  - exists []. by rewrite app_nil_r.
Qed.

Lemma fresh_owned i w : fresh_world w -> owned i w = 0%nat.
Proof.
  intros (_ & _ & Hv). unfold owned. induction Hv as [|v l Hv _ IH]; [done|]. cbn.
  rewrite bool_decide_eq_false_2 by congruence. exact IH.
Qed.

(** What holds of the banlist all along. *)
Definition serial_from (w0 : world) (M0 : Bans) (w : world) : Prop :=
  well_formed w /\ exists new M, versions w = versions w0 ++ new /\ serial cs (epoch w0) (epoch w) M0 new M /\
    bans_in (text_of w) M.

Lemma serial_from_idle w0 M0 w w' : passes w w' -> serial_from w0 M0 w -> serial_from w0 M0 w'.
Proof.
  intros Hp [Hf (new & M & Hv & Hs & Hb)]. pose proof (passes_relies 0 _ _ Hp) as HR.
  split; [by apply HR|]. destruct Hp as (t & Ht & ->). exists new, M. split; [done|]. split; [|done].
  eapply serial_later, Hs. cbn. lia.
Qed.

Lemma serial_from_step w0 M0 i w w' : guarantees cs (epoch w0) i w w' -> serial_from w0 M0 w -> serial_from w0 M0 w'.
Proof.
  intros [HR Hc] [Hf (new & M & Hv & Hs & Hb)]. pose proof (HR (S i) ltac:(lia)) as HR1.
  split; [by apply HR1|]. pose proof (rl_epoch _ _ _ HR1) as Hep. destruct Hc as [E|(c & text & M1 & M2 & t & Hi & E & H1 & H2 & Ht & He)].
  - exists new, M. split; [congruence|]. split; [by eapply serial_later|]. unfold text_of, banlist. by rewrite E.
  - rewrite (bans_in_unique _ _ _ H1 Hb) in He. exists (new ++ [(Some i, text)]), M2.
    split; [by rewrite E, Hv, app_assoc|]. split.
    + apply (serial_snoc _ _ _ _ _ M i c t); try done; [by eapply serial_later|lia].
    + unfold text_of, banlist. by rewrite E, last_snoc.
Qed.

Lemma reached_serial w0 M0 w ts :
  Forall request_ok cs -> fresh_world w0 -> bans_in (text_of w0) M0 -> reached w0 w ts ->
  serial_from w0 M0 w /\ forall i c r, cs !! i = Some c -> ts !! i = Some (Ret r) -> finished i c r w.
Proof.
  intros Hok Hw0 HM0 Hr.
  set (Q i r w := forall c, cs !! i = Some c -> finished i c r w).
  destruct (pool_holds (fun i => sh_step false i) passes relies (guarantees cs (epoch w0)) Q
              relies_refl relies_trans passes_relies) with (I := serial_from w0 M0)
    (c := (w0, map started cs)) (c' := (w, ts)) as [Hok' HI].
  - intros i j s s' Hij [H _]. by apply H.
  - intros i r s s' HR HQ c Hc. eapply finished_stable; [done|by apply HQ].
  - intros s s'. apply serial_from_idle.
  - intros i s s'. apply serial_from_step.
  - intros i m Hi. cbn [fst snd] in *. rewrite list_lookup_fmap in Hi.
    destruct (cs !! i) as [c|] eqn:Hc; [|done]. injection Hi as <-.
    eapply rg_mono; [|apply (rg_request cs (epoch w0) i dir c w0 Hc); [by eapply Forall_lookup_1|]].
    + intros r s' Hf c' Hc'. rewrite Hc in Hc'. by injection Hc' as <-.
    + split; [apply Hw0|]. split; [by destruct Hw0 as (_ & -> & _)|]. split; [by apply fresh_owned|done].
  - split; [apply Hw0|]. exists [], M0. rewrite app_nil_r. split; [done|]. split; [constructor|done].
  - done.
  - split; [done|]. intros i c r Hc Hi. by apply (Hok' i (Ret r) Hi).
Qed.

(** C14.  Any number of runs of the script, interleaved call by call and failing
    where they may, amount to runs one after the other: the contents the
    banlist goes through are those of the accepted bans and unbans in the order
    of their renames, each made from the one before it; a ban or an unban that
    reports success changed the banlist exactly once, and no other run did; and
    a check or a list reports what one whole content said at one instant. *)
Theorem concurrent_runs_are_serial w0 M0 w ts :
  Forall request_ok cs -> fresh_world w0 -> bans_in (text_of w0) M0 -> reached w0 w ts ->
  (exists new M, versions w = versions w0 ++ new /\ serial cs (epoch w0) (epoch w) M0 new M /\ bans_in (text_of w) M) /\
  (forall i c r, cs !! i = Some c -> ts !! i = Some (Ret r) -> finished i c r w).
Proof. intros Hok Hw0 HM0 Hr. destruct (reached_serial w0 M0 w ts Hok Hw0 HM0 Hr) as [[_ Hs] Hf]. done. Qed.


(** ** Accepted bans *)

(** A request that does not touch the ban of [ip]. *)
Definition spares (ip : str) (c : request) : Prop :=
  match c with Ban ip' _ | Unban ip' => ip' <> ip | _ => True end.

(** The ban stands, or it has ended. *)
Definition stands (ip : str) (u T : Z) (M : Bans) : Prop := M !! ip = Some u \/ (u <> 0 /\ u <= T).

Lemma alive_bans_lookup t M ip u :
  M !! ip = Some u -> alive_bans t M !! ip = if alive t (ip, u) then Some u else None.
Proof.
  intros H. unfold alive_bans. destruct (alive t (ip, u)) eqn:E.
  - by apply map_lookup_filter_Some.
  - apply map_lookup_filter_None. right. intros v. rewrite H. intros [= <-]. by rewrite E.
Qed.

Lemma spares_effect ip u from t T c M M' :
  spares ip c -> t <= T -> effect from t c M M' -> stands ip u T M -> stands ip u T M'.
Proof.
  intros Hs Ht He [H|H]; [|by right]. pose proof (alive_bans_lookup t M ip u H) as Ha.
  assert (HM : M' !! ip = alive_bans t M !! ip).
  { destruct c; [destruct He as (t0 & _ & ->)|rewrite He|done|done]; cbn in Hs.
    - by rewrite lookup_insert_ne.
    - by rewrite lookup_delete_ne. }
  unfold stands. rewrite HM, Ha. unfold alive. cbn [snd]. destruct (Z.eqb_spec u 0); [by left|].
  destruct (Z.ltb_spec t u); [by left|]. right. lia.
Qed.

Lemma serial_spares ip u i from T M new M' :
  serial cs from T M new M' -> (forall j c, j <> i -> cs !! j = Some c -> spares ip c) ->
  List.filter (fun v => bool_decide (v.1 = Some i)) new = [] -> stands ip u T M -> stands ip u T M'.
Proof.
  intros Hs Hsp. induction Hs as [|j c t text M M1 new M' Hj Ht He Hb Hs IH]; intros Hn HM; [done|].
  cbn in Hn. case_bool_decide as Hji; [done|]. apply IH; [done|]. eapply spares_effect; try done.
  apply (Hsp j); congruence.
Qed.

Lemma serial_ban ip secs i from T M new M' :
  serial cs from T M new M' -> (forall j c, j <> i -> cs !! j = Some c -> spares ip c) ->
  cs !! i = Some (Ban ip secs) ->
  length (List.filter (fun v => bool_decide (v.1 = Some i)) new) = 1%nat ->
  exists t0, from <= t0 <= T /\ stands ip (ban_until t0 secs) T M'.
Proof.
  intros Hs Hsp Hi. induction Hs as [|j c t text M M1 new M' Hj Ht He Hb Hs IH]; intros Hn; [done|].
  cbn [List.filter fst] in Hn. case_bool_decide as Hji; [|by apply IH].
  injection Hji as ->. rewrite Hi in Hj. injection Hj as <-. destruct He as (t0 & Ht0 & ->).
  exists t0. split; [lia|]. eapply serial_spares; try done.
  - apply (f_equal Nat.pred) in Hn. cbn in Hn. by apply nil_length_inv in Hn.
  - left. apply lookup_insert_eq.
Qed.

(** What the policy reads of a banlist with a ban that stands. *)
Lemma stands_banned text M ip u T now :
  bans_in text M -> stands ip u T M -> 0 <= u < 9007199254740 -> T * 1000 <= now -> 0 <= now <= two53 ->
  u = 0 \/ now < u * 1000 -> banned_at (parse_banlist text !! ip) now = true.
Proof.
  intros (l & Hl & -> & ->) Hs Hu HT Hn Hin. destruct Hs as [H|H]; [|lia].
  rewrite parse_banlist_render, H by done. cbn [fmap option_fmap option_map].
  rewrite banned_at_seconds by done. apply orb_true_iff. rewrite Z.eqb_eq, Z.ltb_lt. lia.
Qed.

(** C15.  A ban that was accepted is enforced: in any interleaving with other runs
    that do not touch the address, once a ban has reported success, a connection
    from the address is refused at accept by the nginx policy reading the
    banlist, until the time of the ban has passed, and for ever if it has no
    end. *)
Theorem file_ban_is_enforced {JS : JsEngine} w0 w ts i ip secs r :
  Forall request_ok cs -> fresh_world w0 -> reached w0 w ts ->
  cs !! i = Some (Ban ip secs) -> ts !! i = Some (Ret r) -> status r = 0 ->
  (forall j c, j <> i -> cs !! j = Some c -> spares ip c) ->
  secs <= 2 ^ 42 -> epoch w <= 2 ^ 42 ->
  exists t0, epoch w0 <= t0 <= epoch w /\
    forall st port raw stt c,
      let cfg := access_cfg_of (parse_policy raw) in
      vars st !! lit "server_port" = Some port ->
      vars st !! (lit "shield_cfg_" ++ port) = Some raw ->
      banFile cfg <> [] -> files st !! banFile cfg = Some (stt, text_of w) ->
      counts st = Some c -> decision st = None -> epoch w * 1000 <= clock st ->
      wpn (access {| remoteAddress := ip |} fresh_vm) (fun r st' =>
        clock st' <= two53 -> secs <= 0 \/ clock st' < (t0 + secs) * 1000 ->
        is_ok r = true /\ decision st' = Some false) st.
Proof.
  intros Hok Hw0 Hr Hi Hti Hst Hsp Hsecs Hep. destruct (formed_bans w0) as [M0 HM0]; [apply Hw0|].
  destruct (reached_serial w0 M0 w ts Hok Hw0 HM0 Hr) as [[Hf (new & M & Hv & Hs & Hb)] Hfin].
  specialize (Hfin i _ r Hi Hti). cbn [finished] in Hfin. rewrite Hst in Hfin. cbn [Z.eqb] in Hfin.
  assert (Hn : length (List.filter (fun v => bool_decide (v.1 = Some i)) new) = 1%nat).
  { pose proof (fresh_owned i w0 Hw0) as H0. unfold owned in *.
    rewrite Hv, List.filter_app, length_app in Hfin. lia. }
  destruct (serial_ban ip secs i _ _ _ _ _ Hs Hsp Hi Hn) as (t0 & Ht0 & Hstands). exists t0. split; [done|].
  intros st port raw stt c cfg Hp Hraw Hbf Hfile Hc Hd Hclock.
  assert (Hw00 : 0 <= epoch w0) by apply Hw0.
  apply wpf_wpn. eapply wp_mono; [|by apply (wpf_access _ true st port raw stt (text_of w) c)].
  intros res st' (t & t' & Ht & Ht' & Hres) Hmax Hin. cbn [remoteAddress] in Hres.
  assert (H53 : two53 = 9007199254740992) by done.
  assert (Hu : 0 <= ban_until t0 secs < 9007199254740) by (unfold ban_until; destruct (Z.leb_spec secs 0); lia).
  assert (Hend : ban_until t0 secs = 0 \/ t < ban_until t0 secs * 1000).
  { unfold ban_until. destruct (Z.leb_spec secs 0); [by left|right]. lia. }
  rewrite (stands_banned _ M ip _ (epoch w) t Hb Hstands Hu) in Hres by (done || lia).
  by destruct Hres as (? & ? & _).
Qed.

End pools.

(** ** The script and the policy *)

Definition is_banned_at (t : Z) (M : Bans) (ip : str) : bool := bool_decide (is_Some (alive_bans t M !! ip)).

Lemma is_banned_lookup t M ip :
  is_banned_at t M ip = match M !! ip with Some u => alive t (ip, u) | None => false end.
Proof.
  unfold is_banned_at. destruct (M !! ip) as [u|] eqn:E.
  - rewrite (alive_bans_lookup _ _ _ _ E). by destruct (alive t (ip, u)).
  - unfold alive_bans. rewrite (proj2 (map_lookup_filter_None _ _ _)); [done|by left].
Qed.

Lemma run_check {AWK : Awk} i ip w M :
  is_address ip = true -> bans_in (text_of w) M -> 0 <= epoch w <= EPOCH_MAX ->
  status (run (sh_exec i) (check ip) w).1 = if is_banned_at (epoch w) M ip then 0 else 1.
Proof.
  intros Hip (l & Hl & Ht & ->) He.
  assert (Hrun : (run (sh_exec i) active_entries w).1 = (render (List.filter (alive (epoch w)) l), true)).
  { unfold active_entries. cbn. destruct (has_list w) eqn:E; cbn.
    - rewrite Ht, awk_active_render; [done|done|]. unfold EPOCH_MAX in He. unfold two53. lia.
    - unfold text_of in Ht. unfold has_list in E. destruct (banlist w); [done|]. cbn in Ht.
      by rewrite (render_inj l []); [| |by repeat constructor|done]. }
  unfold check. pose proof (address_ne ip Hip). destruct ip as [|c0 ip0] eqn:Ei; [done|]. rewrite <- Ei in *.
  rewrite run_bind. destruct (run (sh_exec i) active_entries w) as [out w1]. cbn [fst] in Hrun. subst out.
  cbv beta iota. cbn [negb]. rewrite awk_until_render by (done || by apply table_filter).
  rewrite alive_bans_render by done. unfold is_banned_at.
  destruct (alive_bans (epoch w) (list_to_map l) !! ip) as [u|]; [|done].
  rewrite bool_decide_eq_true_2 by done. destruct (to_string u) eqn:Eu; [by apply to_string_ne in Eu|done].
Qed.

(** Whole seconds and milliseconds. *)
Lemma alive_ms u ip t :
  0 <= u < 9007199254740 -> 0 <= t <= two53 -> banned_at (Some (of_Z u)) t = alive (t / 1000) (ip, u).
Proof.
  intros Hu Ht. rewrite banned_at_seconds by done. unfold alive. cbn [snd]. f_equal.
  pose proof (Z.div_mod t 1000). pose proof (Z.mod_pos_bound t 1000). lia.
Qed.

(** C27.  The script and the nginx policy agree on who is banned, though one
    compares seconds as awk reads them and the other milliseconds as JavaScript
    does: of the same banlist, in the same second, [check] reports a ban exactly
    when the policy finds one. *)
Theorem script_and_policy_agree {AWK : Awk} text M ip :
  bans_in text M -> is_address ip = true -> (forall u, M !! ip = Some u -> 0 <= u < 9007199254740) ->
  (forall i w, text_of w = text -> 0 <= epoch w <= EPOCH_MAX ->
     status (run (sh_exec i) (check ip) w).1 = if is_banned_at (epoch w) M ip then 0 else 1) /\
  (forall s0 path stt v, path <> [] -> files s0 !! path = Some (stt, text) -> coherent v path stt text ->
     0 <= clock s0 ->
     wpn (isBanned ip path v) (fun r s' => clock s' <= two53 ->
       exists t, clock s0 <= t <= clock s' /\ r.1 = is_banned_at (t / 1000) M ip) s0).
Proof.
  intros HM Hip Hu. split; [intros i w <-; by apply run_check|].
  intros s0 path stt v Hp Hf Hc H0. eapply wpn_isBanned; [done|exact Hf|exact Hc|].
  intros v' t Ht _ _ Hmax. exists t. split; [cbn; lia|]. cbn [fst]. rewrite is_banned_lookup.
  destruct HM as (l & Hl & -> & ->). rewrite parse_banlist_render by done.
  destruct (_ !! ip) as [u|] eqn:E; [|done]. cbn [fmap option_fmap option_map]. apply alive_ms; [by apply Hu|].
  cbn in Hmax. lia.
Qed.

(** ** An interleaving, executed *)

Definition can_call (i : nat) (X : Type) (e : sh X) (w : world) : bool :=
  match e with
  | Flock => bool_decide (holder w = None)
  | Mktemp => bool_decide (temps w !! temp_name w = None)
  | Mv n => bool_decide (is_Some (temps w !! n))
  | Exit => bool_decide (holder w = None) || bool_decide (holder w = Some i)
  | _ => true
  end.

Lemma sh_exec_step i X (e : sh X) w :
  can_call i X e w = true -> sh_step false i X e w (sh_exec i X e w).1 (sh_exec i X e w).2.
Proof.
  destruct e; cbn [can_call sh_step sh_exec fst snd]; try naive_solver.
  - intros H%bool_decide_eq_true. by left.
  - intros H%bool_decide_eq_true. right. by eexists.
  - intros H%bool_decide_eq_true. destruct H as [[o t] E]. right. exists o, t. by rewrite E.
  - intros [H|H]%orb_true_iff; apply bool_decide_eq_true in H.
    + rewrite decide_False by congruence. destruct w; cbn in *. by subst.
    + by rewrite decide_True.
Qed.

(** The runs whose turn it is, one call each; [None] if one cannot go on. *)
Fixpoint schedule (turns : list nat) (c : world * list (prog sh reply)) : option (world * list (prog sh reply)) :=
  match turns with
  | [] => Some c
  | i :: r =>
    match c.2 !! i with
    | Some (Vis e k) =>
      if can_call i _ e c.1
      then let '(x, w) := sh_exec i _ e c.1 in schedule r (w, <[i := k x]> c.2)
      else None
    | _ => schedule r c
    end
  end.

Lemma schedule_runs turns c0 : forall c c',
  pool_runs (fun i => sh_step false i) passes c0 c -> schedule turns c = Some c' ->
  pool_runs (fun i => sh_step false i) passes c0 c'.
Proof.
  induction turns as [|i r IH]; intros c c' Hr E; cbn [schedule] in E; [by injection E as <-|].
  destruct (c.2 !! i) as [[a|X e k]|] eqn:Ei; [by eapply IH| |by eapply IH].
  destruct (can_call i X e c.1) eqn:Ec; [|done]. pose proof (sh_exec_step i X e c.1 Ec) as Hs.
  destruct (sh_exec i X e c.1) as [x w]. eapply IH, E. eapply pool_trans; [exact Hr|].
  destruct c as [w1 ts]. by eapply pool_call.
Qed.

#[local] Existing Instance posix_awk.

(** Two bans and a check: the second ban waits for the lock, the check reads in
    between. *)
Definition three_requests : list request :=
  [Ban (lit "fd97::3") 600; Ban (lit "fd97::4") 0; Check (lit "fd97::3")].
Definition turns : list nat :=
  [0; 1; 0; 0; 0; 1; 2; 0; 0; 0; 0; 0; 2; 0; 2; 0; 0; 2]%nat ++ replicate 9 1%nat.
Definition begun : world * list (prog sh reply) :=
  (machine 1784000000 two_bans, map (started (lit "/run")) three_requests).
Definition ended : world * list (prog sh reply) := default begun (schedule turns begun).

Example interleaved :
  map (fun p => match p with Ret r => Some r | Vis _ _ => None end) ended.2 =
    [Some (mk_reply 0 (lit "banned fd97::3 until 1784000600" ++ [10]));
     Some (mk_reply 0 (lit "banned fd97::4 permanently" ++ [10]));
     Some (mk_reply 1 (lit "not banned fd97::3" ++ [10]))] /\
  versions ended.1 =
    [(None, two_bans);
     (Some 0%nat, two_bans ++ lit "fd97::3 1784000600" ++ [10]);
     (Some 1%nat, two_bans ++ lit "fd97::3 1784000600" ++ [10] ++ lit "fd97::4 0" ++ [10])].
Proof. vm_compute. split; reflexivity. Qed.

Lemma ended_reached : reached (lit "/run") three_requests (machine 1784000000 two_bans) ended.1 ended.2.
Proof.
  unfold reached. apply (schedule_runs turns begun begun); [constructor|].
  assert (H : is_Some (schedule turns begun)) by (apply (bool_decide_unpack _); vm_compute; exact I).
  unfold ended. destruct (schedule turns begun) as [[w ts]|]; [done|by destruct H].
Qed.

Definition two_bans_map : Bans := {[ lit "fd97::1" := 1785000000; lit "fd97::2" := 0 ]}.

Lemma two_bans_in : bans_in two_bans two_bans_map.
Proof.
  exists [(lit "fd97::1", 1785000000); (lit "fd97::2", 0)].
  split; [split; [|apply (bool_decide_unpack _); vm_compute; exact I]|].
  - repeat constructor; by vm_compute.
  - split; by vm_compute.
Qed.

Lemma machine_fresh : fresh_world (machine 1784000000 two_bans).
Proof.
  split; [split; [by vm_compute|]|split; [done|by constructor]].
  apply Forall_singleton. exists two_bans_map. apply two_bans_in.
Qed.

Lemma three_requests_ok : Forall request_ok three_requests.
Proof. repeat constructor; by vm_compute. Qed.

Lemma concurrent_runs_are_serial_witness :
  (exists new M, versions ended.1 = versions (machine 1784000000 two_bans) ++ new /\
     serial three_requests 1784000000 (epoch ended.1) two_bans_map new M /\ bans_in (text_of ended.1) M) /\
  (forall i c r, three_requests !! i = Some c -> ended.2 !! i = Some (Ret r) -> finished i c r ended.1).
Proof.
  apply (concurrent_runs_are_serial (lit "/run") three_requests (machine 1784000000 two_bans) two_bans_map ended.1 ended.2).
  - apply three_requests_ok.
  - apply machine_fresh.
  - apply two_bans_in.
  - apply ended_reached.
Defined.

Lemma file_ban_is_enforced_witness :
  exists t0, 1784000000 <= t0 <= epoch ended.1 /\
    forall st port raw stt c,
      let cfg := access_cfg_of (parse_policy raw) in
      vars st !! lit "server_port" = Some port ->
      vars st !! (lit "shield_cfg_" ++ port) = Some raw ->
      banFile cfg <> [] -> files st !! banFile cfg = Some (stt, text_of ended.1) ->
      counts st = Some c -> decision st = None -> epoch ended.1 * 1000 <= clock st ->
      wpn (access (JS := std_engine) {| remoteAddress := lit "fd97::3" |} fresh_vm) (fun r st' =>
        clock st' <= two53 -> 600 <= 0 \/ clock st' < (t0 + 600) * 1000 ->
        is_ok r = true /\ decision st' = Some false) st.
Proof.
  apply (file_ban_is_enforced (JS := std_engine) (lit "/run") three_requests (machine 1784000000 two_bans)
           ended.1 ended.2 0 (lit "fd97::3") 600 (mk_reply 0 (lit "banned fd97::3 until 1784000600" ++ [10]))).
  - apply three_requests_ok.
  - apply machine_fresh.
  - apply ended_reached.
  - reflexivity.
  - vm_compute. reflexivity.
  - reflexivity.
  - intros [|[|[|j]]] c Hj E; try done; injection E as <-; vm_compute; (exact I || congruence).
  - lia.
  - vm_compute. discriminate.
Defined.

Lemma script_and_policy_agree_witness :
  (forall i w, text_of w = two_bans -> 0 <= epoch w <= EPOCH_MAX ->
     status (run (sh_exec i) (check (lit "fd97::1")) w).1 =
     if is_banned_at (epoch w) two_bans_map (lit "fd97::1") then 0 else 1) /\
  (forall s0 path stt v, path <> [] -> files s0 !! path = Some (stt, two_bans) -> coherent v path stt two_bans ->
     0 <= clock s0 ->
     wpn (isBanned (lit "fd97::1") path v) (fun r s' => clock s' <= two53 ->
       exists t, clock s0 <= t <= clock s' /\ r.1 = is_banned_at (t / 1000) two_bans_map (lit "fd97::1")) s0).
Proof.
  apply (script_and_policy_agree two_bans two_bans_map (lit "fd97::1")).
  - apply two_bans_in.
  - reflexivity.
  - intros u E. vm_compute in E. injection E as <-. lia.
Defined.
