(* ===== verification/Shell.v ===== *)
(** * POSIX shell text

    What the shell scripts use of the shell and its utilities: parameter
    expansions that cut a text at a separator, [read], command substitution,
    field splitting, [tr], [cut], and single-quote escaping.  What POSIX leaves
    to the implementation, the locale or the working directory ([echo] on a
    backslash, pathname expansion, the order of [sort]) is the class [Posix];
    its laws are the documented behaviour.  [shell_words] reads a text as the
    shell does, as far as quoting goes: it knows plain words, backslashes and
    single quotes, and refuses every other character the shell might treat
    specially, so that what it reads means the same to any shell. *)
From S2P Require Import Prelude Prog Text Js BanFile.

(** ** Utilities *)

Definition TAB : char := 9.
Definition NL : char := 10.

(** No pathname expansion: none of the characters of a pattern. *)
Definition plain_word (w : str) : bool :=
  forallb (fun c => negb ((c =? 42) || (c =? 63) || (c =? 91) || (c =? 92))) w.

Class Posix := {
  echo : str -> str;                  (* what [echo "$x"] prints *)
  echo_plain x : 92 ∉ x -> head x <> Some 45 -> echo x = x ++ [NL];
  glob : str -> list str;             (* the paths a word expands to *)
  glob_plain w : plain_word w = true -> glob w = [w];
  sort : list str -> list str;
  sort_permutation l : sort l ≡ₚ l;
  sort_u : list str -> list str;
  elem_sort_u x l : x ∈ sort_u l <-> x ∈ l;
}.

Lemma elem_sort {POSIX : Posix} x l : x ∈ sort l <-> x ∈ l.
Proof. by rewrite sort_permutation. Qed.

(** [${x%%t*}], [${x#*t}], [${x%t*}] and [${x##*t}]. *)
Definition until_first (t : char) (x : str) : str :=
  match split_once t x with Some (a, _) => a | None => x end.
Definition after_first (t : char) (x : str) : str :=
  match split_once t x with Some (_, b) => b | None => x end.
Definition until_last (t : char) (x : str) : str :=
  match split_once t (reverse x) with Some (_, b) => reverse b | None => x end.
Definition after_last (t : char) (x : str) : str :=
  match split_once t (reverse x) with Some (a, _) => reverse a | None => x end.

(** [while IFS= read -r line]: the lines that end in a newline. *)
Definition read_lines (s : str) : list str := removelast (split_char NL s).

(** [cut -f1] and what it prints. *)
Definition cut_f1 (s : str) : str := print_records (map (until_first TAB) (records s)).

(** [tr a b] for one character each, and [tr -s]: repeats of [b] are squeezed. *)
Definition tr (a b : char) (s : str) : str := map (fun c => if c =? a then b else c) s.
Fixpoint squeeze (b : char) (s : str) : str :=
  match s with
  | c :: r => match r with
              | d :: _ => if (c =? b) && (d =? b) then squeeze b r else c :: squeeze b r
              | [] => [c]
              end
  | [] => []
  end.

(** [tr '[:lower:]' '[:upper:]'] in the POSIX locale. *)
Definition tr_upper (s : str) : str := map (fun c => if in_range 97 122 c then c - 32 else c) s.

(** [printf '%-Ns']. *)
Definition pad_right (w : nat) (s : str) : str := s ++ replicate (w - length s) 32.

(** [case ... in *"$x"*]: a line among the lines of a text. *)
Definition is_line_of (x text : str) : bool := contains ([NL] ++ x ++ [NL]) ([NL] ++ text ++ [NL]).

(** ** Quoting *)

(** [sed "s/'/'\\\\''/g"] *)
Definition sed_quote (v : str) : str := concat (map (fun c => if c =? 39 then [39; 92; 39; 39] else [c]) v).

(** A word the shell takes apart no further. *)
Definition single_quoted (v : str) : str := [39] ++ sed_quote v ++ [39].

(** ** Names *)

Definition name_start (c : char) : bool := in_range 65 90 c || in_range 97 122 c || (c =? 95).
Definition name_char (c : char) : bool := name_start c || in_range 48 57 c.

(** A name POSIX allows for a variable. *)
Definition is_name (k : str) : bool :=
  match k with [] => false | c :: r => name_start c && forallb name_char r end.

(** ** A reader of commands *)

(** Characters that stand for themselves outside quotes. *)
Definition safe_char (c : char) : bool :=
  name_char c || existsb (Z.eqb c) [61; 46; 47; 58; 45; 44; 43; 64; 37].

Definition end_word (cur : option str) (ws : list str) : list str :=
  match cur with Some w => reverse w :: ws | None => ws end.

(** The commands of a text, each a list of words after quote removal; [cur] is
    the word being read and [ws] the words before it, reversed. *)
Fixpoint lex (quoted : bool) (cur : option str) (ws : list str) (s : str) : option (list (list str)) :=
  match s with
  | [] => if quoted then None else Some [reverse (end_word cur ws)]
  | c :: r =>
    if quoted then
      if c =? 39 then lex false cur ws r else lex true (Some (c :: default [] cur)) ws r
    else if c =? 39 then lex true (Some (default [] cur)) ws r
    else if c =? NL then option_map (cons (reverse (end_word cur ws))) (lex false None [] r)
    else if (c =? 32) || (c =? TAB) then lex false None (end_word cur ws) r
    else if c =? 92 then
      match r with
      | d :: r' => if d =? NL then None else lex false (Some (d :: default [] cur)) ws r'
      | [] => None
      end
    else if safe_char c then lex false (Some (c :: default [] cur)) ws r
    else None
  end.

Definition shell_words (s : str) : option (list (list str)) := lex false None [] s.

(** [NAME=value]. *)
Definition assignment (w : str) : option (str * str) :=
  match split_once 61 w with Some (k, v) => if is_name k then Some (k, v) else None | None => None end.

(** The assignments a text of [export] commands makes, in order: what [eval]
    of it does.  Anything else in the text is refused. *)
Definition export_of (ws : list str) : option (list (str * str)) :=
  match ws with
  | [] => Some []
  | w :: args => if str_eqb w (lit "export") then all_some (map assignment args) else None
  end.

Definition eval_exports (s : str) : option (list (str * str)) :=
  match shell_words s with
  | Some cmds => option_map (@concat _) (all_some (map export_of cmds))
  | None => None
  end.

(** The assignments at the start of a command, and the rest of it. *)
Fixpoint leading_assignments (ws : list str) : list (str * str) * list str :=
  match ws with
  | [] => ([], [])
  | w :: r => match assignment w with
              | Some kv => let '(l, rest) := leading_assignments r in (kv :: l, rest)
              | None => ([], w :: r)
              end
  end.

(** The last value a list of assignments gives. *)
Definition last_value (k : str) (l : list (str * str)) : option str :=
  list.last (map snd (List.filter (fun kv => str_eqb kv.1 k) l)).

(** An environment after those assignments. *)
Definition env := str -> option str.
Definition exported (e : env) (l : list (str * str)) : env :=
  fun k => match last_value k l with Some v => Some v | None => e k end.

Example quote_reads_back :
  eval_exports (lit "export A=" ++ single_quoted (lit "GET|HEAD $(x)") ++ [NL] ++
                lit "export B=" ++ single_quoted [105; 116; 39; 115; 9] ++ [NL]) =
  Some [(lit "A", lit "GET|HEAD $(x)"); (lit "B", [105; 116; 39; 115; 9])].
Proof. vm_compute. reflexivity. Qed.

Example eval_refuses : eval_exports (lit "export A=1; reboot") = None.
Proof. vm_compute. reflexivity. Qed.
