(* ===== verification/ShellText.v ===== *)
(** * Reading back what the scripts quote

    What is escaped with [sed_quote] and put between single quotes is read by
    the shell as the text it was, whatever the text: the reader of commands on
    [export] lines and on the assignments before a command. *)
From S2P Require Import Prelude Prog Text Js BanFile BanFileText Shell.

Lemma lex_quoted v cur ws rest :
  lex true (Some cur) ws (sed_quote v ++ 39 :: rest) = lex false (Some (reverse v ++ cur)) ws rest.
Proof.
  revert cur. induction v as [|c v IH]; intros cur; [done|].
  rewrite reverse_cons, <- app_assoc. change ([c] ++ cur) with (c :: cur). rewrite <- IH.
  unfold sed_quote. cbn [map concat]. destruct (c =? 39) eqn:Ec; [apply Z.eqb_eq in Ec as ->; done|].
  cbn [app lex]. by rewrite Ec.
Qed.

Lemma safe_char_plain c :
  safe_char c = true -> (c =? 39) = false /\ (c =? NL) = false /\ (c =? 32) = false /\ (c =? TAB) = false /\ (c =? 92) = false.
Proof.
  intros H. unfold NL, TAB. repeat split; apply Z.eqb_neq; intros ->; vm_compute in H; done.
Qed.

Lemma lex_safe s cur ws rest :
  s <> [] -> Forall (fun c => safe_char c = true) s ->
  lex false cur ws (s ++ rest) = lex false (Some (reverse s ++ default [] cur)) ws rest.
Proof.
  intros Hne Hs. revert cur Hne. induction Hs as [|c s Hc Hs IH]; intros cur Hne; [done|].
  pose proof (safe_char_plain c Hc) as (E1 & E2 & E3 & E4 & E5). cbn [app lex]. rewrite E1, E2, E3, E4, E5, Hc. cbn [orb].
  destruct s as [|d s]; [done|]. rewrite IH by done. cbn [default from_option]. rewrite (reverse_cons _ c), <- app_assoc. done.
Qed.

(** A word after a blank. *)
Lemma lex_blank cur ws rest : lex false cur ws (32 :: rest) = lex false None (end_word cur ws) rest.
Proof. done. Qed.

Lemma lex_word w cur ws rest :
  w <> [] -> Forall (fun c => safe_char c = true) w ->
  lex false cur ws (32 :: w ++ rest) = lex false (Some (reverse w)) (end_word cur ws) rest.
Proof. intros. rewrite lex_blank, lex_safe by done. cbn [default from_option]. by rewrite app_nil_r. Qed.

Lemma sed_quote_no_newline v : NL ∉ v -> NL ∉ sed_quote v.
Proof.
  induction v as [|x v IH]; intros Hv; [done|]. apply not_elem_of_cons in Hv as [Hx Hv]. unfold sed_quote. cbn [map concat].
  rewrite not_elem_of_app. split; [|by apply IH]. case_if; unfold NL in *; set_solver.
Qed.

Definition assigned_word (k v : str) : str := k ++ [61] ++ v.

Lemma name_safe k : is_name k = true -> k <> [] /\ Forall (fun c => safe_char c = true) k.
Proof.
  destruct k as [|c k]; [done|]. cbn [is_name]. rewrite andb_true_iff, forallb_forall, <- List.Forall_forall.
  intros [Hc Hk]. split; [done|]. unfold safe_char. constructor; [unfold name_char; by rewrite Hc|].
  eapply Forall_impl; [exact Hk|]. cbv beta. by intros x ->.
Qed.

(** An assignment of a quoted value, as a word. *)
Lemma lex_assignment k v ws rest :
  is_name k = true ->
  lex false None ws (k ++ [61] ++ single_quoted v ++ rest) = lex false (Some (reverse (assigned_word k v))) ws rest.
Proof.
  intros [Hne Hk]%name_safe. unfold single_quoted, assigned_word.
  replace (k ++ [61] ++ ([39] ++ sed_quote v ++ [39]) ++ rest)
    with ((k ++ [61]) ++ 39 :: sed_quote v ++ 39 :: rest) by (rewrite <- !app_assoc; done).
  rewrite lex_safe.
  - cbn [default from_option]. rewrite app_nil_r. change (lex false ?c ws (39 :: ?r)) with (lex true (Some (default [] c)) ws r).
    cbn [default from_option]. rewrite lex_quoted. f_equal. unfold id. by rewrite <- reverse_app, <- app_assoc.
  - by destruct k.
  - apply Forall_app. split; [done|]. by repeat constructor.
Qed.

(** ** [export] commands *)

Definition export_line (kv : str * str) : str := lit "export " ++ kv.1 ++ lit "=" ++ single_quoted kv.2.

Lemma lex_export kv rest :
  is_name kv.1 = true ->
  lex false None [] (export_line kv ++ NL :: rest) =
  option_map (cons [lit "export"; assigned_word kv.1 kv.2]) (lex false None [] rest).
Proof.
  intros Hk. unfold export_line. change (lit "export ") with (lit "export" ++ [32]). change (lit "=") with ([61]:str).
  replace (((lit "export" ++ [32]) ++ kv.1 ++ [61] ++ single_quoted kv.2) ++ NL :: rest)
    with (lit "export" ++ 32 :: (kv.1 ++ [61] ++ single_quoted kv.2 ++ NL :: rest)) by (by rewrite <- !app_assoc).
  rewrite lex_safe; [|done|apply (bool_decide_unpack _); vm_compute; exact I].
  rewrite lex_blank, lex_assignment by done.
  change (lex false ?c ?w (NL :: ?r)) with (option_map (cons (reverse (end_word c w))) (lex false None [] r)).
  f_equal. f_equal. cbn [end_word default from_option]. rewrite app_nil_r. by rewrite !reverse_involutive.
Qed.

Lemma assignment_word k v : is_name k = true -> 61 ∉ k -> assignment (assigned_word k v) = Some (k, v).
Proof. intros Hk Hn. unfold assignment, assigned_word. cbn [app]. rewrite split_once_app by done. by rewrite Hk. Qed.

Lemma name_no_equals k : is_name k = true -> 61 ∉ k.
Proof.
  intros H Hin. destruct k as [|c k]; [done|]. cbn [is_name] in H. apply andb_true_iff in H as [Hc Hk].
  apply elem_of_cons in Hin as [<-|Hin]; [done|]. rewrite forallb_forall in Hk.
  apply list_elem_of_In in Hin. by apply Hk in Hin.
Qed.

(** What [eval] does with the exports of a table: its assignments, no more. *)
Lemma eval_export_lines ps :
  Forall (fun kv => is_name kv.1 = true) ps -> eval_exports (print_records (map export_line ps)) = Some ps.
Proof.
  intros Hps. unfold eval_exports.
  assert (E : shell_words (print_records (map export_line ps)) =
              Some (map (fun kv => [lit "export"; assigned_word kv.1 kv.2]) ps ++ [[]])).
  { unfold shell_words, print_records. induction Hps as [|kv ps Hk _ IH]; [done|]. cbn [map concat].
    rewrite <- app_assoc. change ([10] ++ ?x) with (NL :: x). rewrite lex_export by done. by rewrite IH. }
  rewrite E. clear E. rewrite map_app, map_map.
  assert (E : all_some (map (fun kv => export_of [lit "export"; assigned_word kv.1 kv.2]) ps ++ map export_of [[]]) =
              Some (map (fun kv => [kv]) ps ++ [[]])).
  { induction Hps as [|[k v] ps Hk _ IH]; [done|]. cbn [map app all_some fst snd] in *.
    replace (export_of [lit "export"; assigned_word k v]) with (Some [(k, v)]); [by rewrite IH|].
    unfold export_of. cbn [map all_some]. by rewrite assignment_word by (try apply name_no_equals; done). }
  rewrite E. cbn [option_map]. f_equal. rewrite concat_app. cbn [concat]. rewrite app_nil_r.
  clear E Hps. induction ps as [|kv ps IH]; [done|]. cbn [map concat]. by rewrite IH.
Qed.

(** ** Assignments before a command *)

Definition assignment_text (kv : str * str) : str := lit " " ++ kv.1 ++ lit "=" ++ single_quoted kv.2.

Lemma lex_assignments ps cur ws rest :
  Forall (fun kv => is_name kv.1 = true) ps ->
  lex false cur ws (concat (map assignment_text ps) ++ 32 :: rest) =
  lex false None (reverse (map (fun kv => assigned_word kv.1 kv.2) ps) ++ end_word cur ws) rest.
Proof.
  intros Hps. revert cur ws. induction Hps as [|[k v] ps Hk _ IH]; intros cur ws; [done|].
  cbn [map concat fst snd] in *. unfold assignment_text at 1. cbn [fst snd].
  change (lit " ") with ([32]:str). change (lit "=") with ([61]:str).
  replace ((([32] ++ k ++ [61] ++ single_quoted v) ++ concat (map assignment_text ps)) ++ 32 :: rest)
    with (32 :: (k ++ [61] ++ single_quoted v ++ concat (map assignment_text ps) ++ 32 :: rest))
    by (cbn [app]; by rewrite <- !app_assoc).
  rewrite lex_blank, lex_assignment, IH by done. f_equal. cbn [end_word]. rewrite reverse_involutive, reverse_cons.
  by rewrite <- app_assoc.
Qed.

Lemma leading_assignments_words ps rest :
  Forall (fun kv => is_name kv.1 = true) ps -> leading_assignments rest = ([], rest) ->
  leading_assignments (map (fun kv => assigned_word kv.1 kv.2) ps ++ rest) = (ps, rest).
Proof.
  intros Hps Hr. induction Hps as [|[k v] ps Hk _ IH]; [done|]. cbn [map app leading_assignments fst snd] in *.
  rewrite assignment_word by (try apply name_no_equals; done). by rewrite IH.
Qed.
