(* ===== verification/Config.v ===== *)
(** * The configuration tool: [src/bin/shield-config]

    The script as functions of the files it reads and of its environment.  A
    command prints lines and ends with a status; what it prints on standard
    error is left out, and so are usage texts.  A [die] in a subshell (a
    command substitution, a part of a pipeline) ends only the subshell: the
    definitions say at each place what then becomes of the whole.  Files that
    are there can be read.  [CUSTOM_FILE] is the text of the temporary file.
    The environment is the one after the search for the presets. *)
From S2P Require Import Prelude Prog Text Js BanFile Shell.
From S2P Require Import Collect.
Local Open Scope list_scope.

(** ** Files and environment *)

Record files := mk_files {
  is_dir : str -> bool;                  (* [-d] *)
  text_at : str -> option str;           (* a regular file, [-f], and its text *)
  entries_of : str -> list str;          (* what a star in this directory expands to *)
}.

Definition environ : Type := gmap (list Z) (list Z).

(** How a run ends before its command has: [usage], [die], or the error of
    [${2:?}] (the shell's own, not 0). *)
Inductive stop := Usage (code : Z) | Die (msg : str) | Unset.
Definition stop_status (s : stop) : Z :=
  match s with Usage c => c | Die _ => 1 | Unset => FAILED end.

Definition LEVELS : list str := [lit "strict"; lit "default"; lit "loose"].
Definition LEVELS_TEXT : str := lit "strict default loose".

Definition path (dir name : str) : str := dir ++ lit "/" ++ name.

Section config.
Context {AWK : Awk} {POSIX : Posix} (fs : files).

(** The presets: [SHIELD_PRESET_DIR], or the first candidate with a core. *)
Definition preset_candidates (self_dir : str) : list str :=
  [path self_dir (lit "../presets"); lit "/usr/local/share/fips-shield/presets";
   lit "/etc/fips-shield/presets"].

Definition find_presets (self_dir : str) (e : environ) : res stop str :=
  let dir :=
    match default [] (e !! lit "SHIELD_PRESET_DIR") with
    | [] => default (path self_dir (lit "../presets"))
              (List.find (fun d => is_dir fs (path d (lit "core"))) (preset_candidates self_dir))
    | d => d
    end in
  if is_dir fs (path dir (lit "core")) then Ok dir else Err (Die (lit "no presets found")).

(** ** Env files *)

(** KEY TAB VALUE. *)
Definition custom_line (k v : str) : str := k ++ [TAB] ++ v.

Definition env_pair (line : str) : option (str * str) :=
  match line with
  | [] => None
  | c :: _ =>
    if c =? 35 then None
    else match split_once 61 line with
         | Some (k, v) => match k with
                          | s :: _ => if name_start s then Some (k, v) else None
                          | [] => None
                          end
         | None => None
         end
  end.

Definition env_pairs (text : str) : list (str * str) := filter_map env_pair (records text).

Definition parse_envfile (text : str) : str :=
  print_records (map (fun kv => custom_line kv.1 kv.2) (env_pairs text)).

(** ** The custom layer *)

Section at_presets.
Variable PRESET_DIR : str.

Definition preset_path (scope level : str) : str :=
  path PRESET_DIR (path scope (level ++ lit ".env")).

(** The keys of every [default.env], sorted, one per line. *)
Definition all_preset_keys : list str :=
  sort_u (concat (map (fun d => match text_at fs (preset_path d (lit "default")) with
                                | Some t => records (cut_f1 (parse_envfile t))
                                | None => []
                                end) (entries_of fs PRESET_DIR))).

Definition seen_keys : str := substituted (print_records all_preset_keys).

Definition collect_from_env (e : environ) : str :=
  print_records (filter_map (fun k => custom_line k <$> e !! k) all_preset_keys) ++
  print_records (filter_map (fun k => if is_line_of k seen_keys then None
                                      else Some (custom_line k (default [] (e !! k))))
                  (sort (List.filter (starts_with (lit "SHIELD_")) (map_to_list e).*1))).

Section with_custom.
Variable CUSTOM_FILE : str.

Definition custom_get (key : str) : option str :=
  list.last (filter_map (fun r => if awk_eq (until_first TAB r) (assigned key)
                                  then Some (drop (length (assigned key) + 1) r) else None)
               (records CUSTOM_FILE)).

Definition upper (x : str) : str := substituted (tr_upper (echo x)).

Definition or_if_empty (x : option str) (y : str) : str :=
  match x with Some (c :: r) => c :: r | _ => y end.

Definition level_for (scope : str) : res stop str :=
  let own := if str_eqb scope (lit "core") then None
             else custom_get (lit "SHIELD_" ++ upper scope ++ lit "_PRESET") in
  let lv := or_if_empty own (or_if_empty (custom_get (lit "SHIELD_PRESET")) (lit "default")) in
  if contains ([32] ++ lv ++ [32]) ([32] ++ LEVELS_TEXT ++ [32]) then Ok (substituted (echo lv))
  else Err (Die (lit "unknown preset level '" ++ lv ++ lit "'")).

Definition profiles_text : str := or_if_empty (custom_get (lit "SHIELD_PROFILES")) (lit "strfry").

(** The profiles up to the first without presets: there [die] ends the loop. *)
Fixpoint known_profiles (ps : list str) : str :=
  match ps with
  | [] => []
  | p :: r => match p with
              | [] => known_profiles r
              | _ => if is_dir fs (path PRESET_DIR p) then echo p ++ known_profiles r else []
              end
  end.

Definition scopes : list str :=
  read_lines (lit "core" ++ [NL] ++
    known_profiles (read_lines (squeeze NL (tr 32 NL (tr 44 32 (echo profiles_text)))))).

(** KEY TAB VALUE TAB SOURCE. *)
Definition resolved_line (k v src : str) : str := k ++ [TAB] ++ v ++ [TAB] ++ src.

Definition resolve_scope (scope : str) : res stop (list str) :=
  level ← level_for scope;
  match text_at fs (preset_path scope level) with
  | None => Err (Die (lit "missing preset " ++ preset_path scope level))
  | Some t =>
    Ok (map (fun l =>
      let k := until_first TAB l in
      match custom_get k with
      | Some v => resolved_line k v (lit "custom")
      | None => resolved_line k (after_first TAB l) (lit "preset:" ++ scope ++ lit "/" ++ level)
      end) (records (parse_envfile t)))
  end.

Definition resolve_extras : list str :=
  filter_map (fun k => if is_line_of k seen_keys then None
                       else Some (resolved_line k (default [] (custom_get k)) (lit "custom")))
    (records (cut_f1 CUSTOM_FILE)).

(** What is printed, and whether the function returned: when a scope cannot be
    resolved the shell exits before the extras. *)
Fixpoint resolve_scopes (ss : list str) : list str * bool :=
  match ss with
  | [] => ([], true)
  | s :: r => match resolve_scope s with
              | Ok ls => let '(more, ok) := resolve_scopes r in (ls ++ more, ok)
              | Err _ => ([], false)
              end
  end.

Definition resolve_all : list str * bool :=
  let '(ls, ok) := resolve_scopes scopes in
  if ok then (ls ++ resolve_extras, true) else (ls, false).

(** ** Checks before any output *)

Fixpoint validate_scopes (ss : list str) : res stop unit :=
  match ss with
  | [] => Ok tt
  | s :: r =>
    match s with
    | [] => validate_scopes r
    | _ =>
      if negb (is_dir fs (path PRESET_DIR s)) then Err (Die (lit "no preset directory for '" ++ s ++ lit "'"))
      else
        lv ← level_for s;
        match text_at fs (preset_path s lv) with
        | None => Err (Die (lit "missing preset " ++ preset_path s lv))
        | Some _ => validate_scopes r
        end
    end
  end.

Definition validate : res stop unit :=
  validate_scopes (lit "core" :: concat (map glob (fields (substituted (tr 44 32 (echo profiles_text)))))).

(** ** One service *)

(** An unknown service ends its part of the pipeline: nothing is printed. *)
Definition filter_service (service : str) (ls : list str) : list str :=
  match service with
  | [] => ls
  | _ =>
    let keys := match text_at fs (preset_path service (lit "default")) with
                | Some t => substituted (cut_f1 (parse_envfile t))
                | None => []
                end in
    match keys with
    | [] => []
    | _ => List.filter (fun l => existsb (str_eqb (until_first TAB l)) (split_char NL (assigned keys))) ls
    end
  end.

(** ** The commands *)

(** Key, value and source of a line of [resolve_all]. *)
Definition line_key (l : str) : str := until_first TAB l.
Definition line_value (l : str) : str := until_last TAB (after_first TAB l).
Definition line_source (l : str) : str := after_last TAB (after_first TAB l).

Definition shown_value (v : str) : str := match v with [] => lit "(empty)" | _ => v end.

Definition resolve_line (shell_out : str) (l : str) : str :=
  if str_eqb shell_out (lit "yes")
  then lit "export " ++ line_key l ++ lit "=" ++ [39] ++ substituted (sed_quote (line_value l)) ++ [39]
  else line_key l ++ lit "=" ++ line_value l.

Definition resolve (service shell_out : str) : list str :=
  map (resolve_line shell_out) (filter_service service resolve_all.1).

Definition porcelain_line (l : str) : str :=
  line_source l ++ [TAB] ++ line_key l ++ [TAB] ++ line_value l.

Definition show_porcelain (service : str) : list str :=
  map porcelain_line (filter_service service resolve_all.1).

Definition table_line (l : str) : str :=
  lit "  " ++ pad_right 34 (line_key l) ++ lit " " ++ pad_right 26 (shown_value (line_value l)) ++
  lit " " ++ line_source l.

(** A level that cannot be found prints as nothing. *)
Definition show_header (service : str) : str :=
  match service with
  | [] => lit "profiles " ++ substituted (default (lit "strfry") (custom_get (lit "SHIELD_PROFILES"))) ++
          lit "   preset " ++ unwrap_or [] (level_for (lit "core"))
  | _ => lit "service " ++ service ++ lit "   preset " ++ unwrap_or [] (level_for service)
  end.

Definition show_table (service : str) : list str :=
  [show_header service; [];
   lit "  " ++ pad_right 34 (lit "KEY") ++ lit " " ++ pad_right 26 (lit "VALUE") ++ lit " SOURCE"] ++
  map table_line (filter_service service resolve_all.1).

Definition diff_line (l : str) : str :=
  lit "  " ++ pad_right 34 (line_key l) ++ lit " " ++ shown_value (line_value l).

Definition diff (service : str) : list str :=
  match List.filter (fun l => str_eqb (line_source l) (lit "custom")) (filter_service service resolve_all.1) with
  | [] => []
  | ls => (lit "  " ++ pad_right 34 (lit "KEY") ++ lit " YOUR VALUE") :: map diff_line ls
  end.

Definition ACTION_KEYS : list str :=
  [lit "SHIELD_BAN_FILE"; lit "SHIELD_BAN_ALSO_FILE"; lit "SHIELD_GUARD_PIN_DIR"].

(** The values of the lines with this key, one after the other. *)
Definition action_value (resolved key : str) : str :=
  substituted (concat (map line_value
    (List.filter (fun l => str_eqb (line_key l) key) (records (resolved ++ [NL]))))).

Definition action_word (resolved key : str) : str :=
  match action_value resolved key with
  | [] => []
  | v => lit " " ++ key ++ lit "=" ++ [39] ++ substituted (sed_quote v) ++ [39]
  end.

Definition trim_one_space (s : str) : str := match s with 32 :: r => r | _ => s end.

Definition action_env : res stop (list str) :=
  let '(ls, ok) := resolve_all in
  if ok then
    let resolved := substituted (print_records ls) in
    Ok [trim_one_space (concat (map (action_word resolved) ACTION_KEYS))]
  else Err (Die []).

End with_custom.

Definition levels : list str :=
  map (fun l => pad_right 8 l ++ lit " " ++
         match text_at fs (preset_path (lit "core") l) with
         | Some t => substituted (match strip_prefix (lit "# ") (default [] (records t !! 1%nat)) with
                                  | Some r => r | None => [] end)
         | None => []
         end) LEVELS.

(** ** The command line *)

Record options := mk_options {
  opt_file : str;
  from_env : bool;
  service : str;
  shell_out : str;
  porcelain : str;
}.

Fixpoint parse_options (args : list str) (o : options) : res stop options :=
  match args with
  | [] => Ok o
  | a :: r =>
    let '(mk_options f e s sh p) := o in
    if str_eqb a (lit "-f") || str_eqb a (lit "--file") then
      match r with
      | (c :: x) :: r' => parse_options r' (mk_options (c :: x) e s sh p)
      | _ => Err Unset
      end
    else if str_eqb a (lit "--porcelain") then parse_options r (mk_options f e s sh (lit "yes"))
    else if str_eqb a (lit "--from-env") then parse_options r (mk_options f true s sh p)
    else if str_eqb a (lit "--shell") then parse_options r (mk_options f e s (lit "yes") p)
    else if str_eqb a (lit "-h") || str_eqb a (lit "--help") then Err (Usage 0)
    else if starts_with (lit "-") a then Err (Die (lit "unknown option: " ++ a))
    else parse_options r (mk_options f e a sh p)
  end.

Definition default_options (e : environ) : options :=
  mk_options [] false [] (or_if_empty (e !! lit "SHELL_OUT") (lit "no"))
    (or_if_empty (e !! lit "PORCELAIN") (lit "no")).

Definition read_custom (o : options) (e : environ) : res stop str :=
  if from_env o then Ok (collect_from_env e)
  else
    let found := match opt_file o with
                 | [] => List.find (fun f => match text_at fs f with Some _ => true | None => false end)
                           [lit "shield.env"; lit "deploy/container/shield.env"]
                 | f => Some f
                 end in
    match found with
    | None => Err (Die (lit "no shield.env found; pass -f FILE or --from-env"))
    | Some f => match text_at fs f with
                | Some t => Ok (parse_envfile t)
                | None => Err (Die (lit "no such env file: " ++ f))
                end
    end.

Definition run_command (cmd : str) (o : options) (custom : str) : res stop (list str) :=
  _ ← validate custom;
  if str_eqb cmd (lit "resolve") then Ok (resolve custom (service o) (shell_out o))
  else if str_eqb cmd (lit "show") then
    Ok (if str_eqb (porcelain o) (lit "yes") then show_porcelain custom (service o)
        else show_table custom (service o))
  else if str_eqb cmd (lit "diff") then Ok (diff custom (service o))
  else if str_eqb cmd (lit "action-env") then action_env custom
  else Err (Die (lit "unknown command '" ++ cmd ++ lit "'")).

End at_presets.

Definition shield_config (self_dir : str) (e : environ) (args : list str) : res stop (list str) :=
  dir ← find_presets self_dir e;
  match args with
  | [] | [] :: _ => Err (Usage 1)
  | cmd :: r =>
    if str_eqb cmd (lit "-h") || str_eqb cmd (lit "--help") || str_eqb cmd (lit "help") then Err (Usage 0)
    else if str_eqb cmd (lit "levels") then Ok (levels dir)
    else
      o ← parse_options r (default_options e);
      custom ← read_custom dir o e;
      run_command dir cmd o custom
  end.

(** Standard output and exit status. *)
Definition main (self_dir : str) (e : environ) (args : list str) : str * Z :=
  match shield_config self_dir e args with
  | Ok ls => (print_records ls, 0)
  | Err s => ([], stop_status s)
  end.

End config.
