(* ===== verification/Presets.v ===== *)
(** * The presets: [src/presets/*/*.env]

    The text of the files the project ships, and the directory they make at a
    path. *)
From S2P Require Import Prelude Text BanFile Config.

Definition core_default : str := print_records
  [lit "# fips-shield preset: core / default";
   lit "# Balanced. What the project ships and what the smoke tests exercise.";
   lit "#";
   lit "# Values here apply only to keys you have NOT set in shield.env.";
   lit "# Anything you set explicitly always wins. See presets/README.md and";
   lit "# `shield-config show`.";
   [];
   lit "SHIELD_HANDSHAKE_RATE=5r/s";
   lit "SHIELD_HANDSHAKE_ZONE_SIZE=1m";
   lit "SHIELD_CONN_ZONE_SIZE=1m";
   lit "SHIELD_CONNRATE_ZONE_SIZE=1m";
   lit "SHIELD_CONN_WINDOW=60";
   lit "SHIELD_CONNRATE_TIMEOUT=300s";
   lit "SHIELD_SOCKET_DIR=/run/fips-shield";
   lit "SHIELD_BAN_FILE=/var/lib/fips-shield/banlist";
   lit "SHIELD_BAN_RECHECK=10";
   lit "SHIELD_BAN_ALSO_FILE=false";
   lit "SHIELD_F2B_FINDTIME=600";
   lit "SHIELD_F2B_BANTIME=3600";
   lit "SHIELD_F2B_HANDSHAKE_MAXRETRY=20";
   lit "SHIELD_F2B_VERDICT_MAXRETRY=20";
   lit "SHIELD_F2B_ABUSE_MAXRETRY=3";
   lit "SHIELD_F2B_CONNRATE_MAXRETRY=30";
   lit "SHIELD_F2B_CONN_MAXRETRY=20";
   lit "SHIELD_F2B_SCAN_MAXRETRY=5";
   lit "SHIELD_F2B_IGNOREIP=";
   lit "SHIELD_F2B_IGNORESELF=true"].

Definition core_loose : str := print_records
  [lit "# fips-shield preset: core / loose";
   lit "# Generous limits and slow banning. For a busy public service where a false positive costs more than an abusive peer.";
   lit "#";
   lit "# Values here apply only to keys you have NOT set in shield.env.";
   lit "# Anything you set explicitly always wins. See presets/README.md and";
   lit "# `shield-config show`.";
   [];
   lit "SHIELD_HANDSHAKE_RATE=10r/s";
   lit "SHIELD_HANDSHAKE_ZONE_SIZE=1m";
   lit "SHIELD_CONN_ZONE_SIZE=1m";
   lit "SHIELD_CONNRATE_ZONE_SIZE=1m";
   lit "SHIELD_CONN_WINDOW=60";
   lit "SHIELD_CONNRATE_TIMEOUT=300s";
   lit "SHIELD_SOCKET_DIR=/run/fips-shield";
   lit "SHIELD_BAN_FILE=/var/lib/fips-shield/banlist";
   lit "SHIELD_BAN_RECHECK=30";
   lit "SHIELD_BAN_ALSO_FILE=false";
   lit "SHIELD_F2B_FINDTIME=300";
   lit "SHIELD_F2B_BANTIME=900";
   lit "SHIELD_F2B_HANDSHAKE_MAXRETRY=40";
   lit "SHIELD_F2B_VERDICT_MAXRETRY=50";
   lit "SHIELD_F2B_ABUSE_MAXRETRY=5";
   lit "SHIELD_F2B_CONNRATE_MAXRETRY=60";
   lit "SHIELD_F2B_CONN_MAXRETRY=40";
   lit "SHIELD_F2B_SCAN_MAXRETRY=15";
   lit "SHIELD_F2B_IGNOREIP=";
   lit "SHIELD_F2B_IGNORESELF=true"].

Definition core_strict : str := print_records
  [lit "# fips-shield preset: core / strict";
   lit "# Tightest limits and fastest banning. For a node whose clients you know, or one under active abuse.";
   lit "#";
   lit "# Values here apply only to keys you have NOT set in shield.env.";
   lit "# Anything you set explicitly always wins. See presets/README.md and";
   lit "# `shield-config show`.";
   [];
   lit "SHIELD_HANDSHAKE_RATE=2r/s";
   lit "SHIELD_HANDSHAKE_ZONE_SIZE=1m";
   lit "SHIELD_CONN_ZONE_SIZE=1m";
   lit "SHIELD_CONNRATE_ZONE_SIZE=1m";
   lit "SHIELD_CONN_WINDOW=60";
   lit "SHIELD_CONNRATE_TIMEOUT=300s";
   lit "SHIELD_SOCKET_DIR=/run/fips-shield";
   lit "SHIELD_BAN_FILE=/var/lib/fips-shield/banlist";
   lit "SHIELD_BAN_RECHECK=5";
   lit "SHIELD_BAN_ALSO_FILE=false";
   lit "SHIELD_F2B_FINDTIME=900";
   lit "SHIELD_F2B_BANTIME=21600";
   lit "SHIELD_F2B_HANDSHAKE_MAXRETRY=10";
   lit "SHIELD_F2B_VERDICT_MAXRETRY=6";
   lit "SHIELD_F2B_ABUSE_MAXRETRY=2";
   lit "SHIELD_F2B_CONNRATE_MAXRETRY=15";
   lit "SHIELD_F2B_CONN_MAXRETRY=10";
   lit "SHIELD_F2B_SCAN_MAXRETRY=2";
   lit "SHIELD_F2B_IGNOREIP=";
   lit "SHIELD_F2B_IGNORESELF=true"].

Definition http_default : str := print_records
  [lit "# fips-shield preset: http / default";
   lit "# Balanced. What the project ships and what the smoke tests exercise.";
   lit "#";
   lit "# Values here apply only to keys you have NOT set in shield.env.";
   lit "# Anything you set explicitly always wins. See presets/README.md and";
   lit "# `shield-config show`.";
   [];
   lit "SHIELD_HTTP_SERVICE=web";
   lit "SHIELD_HTTP_LISTEN_PORT=8080";
   lit "SHIELD_HTTP_UPSTREAM=127.0.0.1:3000";
   lit "SHIELD_HTTP_SERVER_NAME=_";
   lit "SHIELD_HTTP_CONN_RATE=120";
   lit "SHIELD_HTTP_MAX_CONNS_PER_NODE=30";
   lit "SHIELD_HTTP_IDLE_TIMEOUT=75s";
   lit "SHIELD_HTTP_REQ_RATE=20r/s";
   lit "SHIELD_HTTP_REQ_BURST=40";
   lit "SHIELD_HTTP_METHODS=GET HEAD POST";
   lit "SHIELD_HTTP_KEEPALIVE_REQUESTS=100";
   lit "SHIELD_HTTP_PATH_REGEX=.*";
   lit "SHIELD_HTTP_MAX_BODY=1m"].

Definition http_loose : str := print_records
  [lit "# fips-shield preset: http / loose";
   lit "# Generous limits and slow banning. For a busy public service where a false positive costs more than an abusive peer.";
   lit "#";
   lit "# Values here apply only to keys you have NOT set in shield.env.";
   lit "# Anything you set explicitly always wins. See presets/README.md and";
   lit "# `shield-config show`.";
   [];
   lit "SHIELD_HTTP_SERVICE=web";
   lit "SHIELD_HTTP_LISTEN_PORT=8080";
   lit "SHIELD_HTTP_UPSTREAM=127.0.0.1:3000";
   lit "SHIELD_HTTP_SERVER_NAME=_";
   lit "SHIELD_HTTP_CONN_RATE=300";
   lit "SHIELD_HTTP_MAX_CONNS_PER_NODE=100";
   lit "SHIELD_HTTP_IDLE_TIMEOUT=300s";
   lit "SHIELD_HTTP_REQ_RATE=50r/s";
   lit "SHIELD_HTTP_REQ_BURST=100";
   lit "SHIELD_HTTP_METHODS=GET HEAD POST PUT DELETE";
   lit "SHIELD_HTTP_KEEPALIVE_REQUESTS=500";
   lit "SHIELD_HTTP_PATH_REGEX=.*";
   lit "SHIELD_HTTP_MAX_BODY=16m"].

Definition http_strict : str := print_records
  [lit "# fips-shield preset: http / strict";
   lit "# Tightest limits and fastest banning. For a node whose clients you know, or one under active abuse.";
   lit "#";
   lit "# Values here apply only to keys you have NOT set in shield.env.";
   lit "# Anything you set explicitly always wins. See presets/README.md and";
   lit "# `shield-config show`.";
   [];
   lit "SHIELD_HTTP_SERVICE=web";
   lit "SHIELD_HTTP_LISTEN_PORT=8080";
   lit "SHIELD_HTTP_UPSTREAM=127.0.0.1:3000";
   lit "SHIELD_HTTP_SERVER_NAME=_";
   lit "SHIELD_HTTP_CONN_RATE=60";
   lit "SHIELD_HTTP_MAX_CONNS_PER_NODE=10";
   lit "SHIELD_HTTP_IDLE_TIMEOUT=30s";
   lit "SHIELD_HTTP_REQ_RATE=10r/s";
   lit "SHIELD_HTTP_REQ_BURST=20";
   lit "SHIELD_HTTP_METHODS=GET HEAD";
   lit "SHIELD_HTTP_KEEPALIVE_REQUESTS=50";
   lit "SHIELD_HTTP_PATH_REGEX=.*";
   lit "SHIELD_HTTP_MAX_BODY=256k"].

Definition strfry_default : str := print_records
  [lit "# fips-shield preset: strfry / default";
   lit "# Balanced. What the project ships and what the smoke tests exercise.";
   lit "#";
   lit "# Values here apply only to keys you have NOT set in shield.env.";
   lit "# Anything you set explicitly always wins. See presets/README.md and";
   lit "# `shield-config show`.";
   [];
   lit "SHIELD_LISTEN_PORT=80";
   lit "SHIELD_SERVER_NAME=_";
   lit "SHIELD_UPSTREAM=127.0.0.1:7777";
   lit "SHIELD_MAX_CONNS_PER_NODE=12";
   lit "SHIELD_HANDSHAKE_BURST=10";
   lit "SHIELD_STRFRY_CONN_RATE=60";
   lit "SHIELD_WS_IDLE_TIMEOUT=300s";
   lit "SHIELD_WS_MAX_MSG=131072";
   lit "SHIELD_WS_MAX_SUBS=50";
   lit "SHIELD_WS_MAX_FILTERS=20";
   lit "SHIELD_WS_MAX_FILTER_ITEMS=2000";
   lit "SHIELD_WS_MAX_HS_READS=32";
   lit "SHIELD_WS_MAX_MSG_READS=";
   lit "SHIELD_WS_MAX_LIMIT=20000";
   lit "SHIELD_WS_MAX_FILTER_VALUE=512";
   lit "SHIELD_WS_REQUIRE_NARROWING=true";
   lit "SHIELD_WS_MSG_RATE=30";
   lit "SHIELD_WS_MSG_BURST=200";
   lit "SHIELD_WS_EVENT_RATE=5";
   lit "SHIELD_WS_EVENT_BURST=50";
   lit "SHIELD_WS_REQ_RATE=10";
   lit "SHIELD_WS_REQ_BURST=60";
   lit "SHIELD_NOSTR_TYPES=EVENT,REQ,CLOSE,COUNT,AUTH,NEG-OPEN,NEG-MSG,NEG-CLOSE";
   lit "SHIELD_NOSTR_KIND_DENY="].

Definition strfry_loose : str := print_records
  [lit "# fips-shield preset: strfry / loose";
   lit "# Generous limits and slow banning. For a busy public service where a false positive costs more than an abusive peer.";
   lit "#";
   lit "# Values here apply only to keys you have NOT set in shield.env.";
   lit "# Anything you set explicitly always wins. See presets/README.md and";
   lit "# `shield-config show`.";
   [];
   lit "SHIELD_LISTEN_PORT=80";
   lit "SHIELD_SERVER_NAME=_";
   lit "SHIELD_UPSTREAM=127.0.0.1:7777";
   lit "SHIELD_MAX_CONNS_PER_NODE=16";
   lit "SHIELD_HANDSHAKE_BURST=20";
   lit "SHIELD_STRFRY_CONN_RATE=120";
   lit "SHIELD_WS_IDLE_TIMEOUT=600s";
   lit "SHIELD_WS_MAX_MSG=131072";
   lit "SHIELD_WS_MAX_SUBS=100";
   lit "SHIELD_WS_MAX_FILTERS=40";
   lit "SHIELD_WS_MAX_FILTER_ITEMS=5000";
   lit "SHIELD_WS_MAX_HS_READS=64";
   lit "SHIELD_WS_MAX_MSG_READS=";
   lit "SHIELD_WS_MAX_LIMIT=100000";
   lit "SHIELD_WS_MAX_FILTER_VALUE=1024";
   lit "SHIELD_WS_REQUIRE_NARROWING=false";
   lit "SHIELD_WS_MSG_RATE=100";
   lit "SHIELD_WS_MSG_BURST=400";
   lit "SHIELD_WS_EVENT_RATE=10";
   lit "SHIELD_WS_EVENT_BURST=100";
   lit "SHIELD_WS_REQ_RATE=20";
   lit "SHIELD_WS_REQ_BURST=120";
   lit "SHIELD_NOSTR_TYPES=EVENT,REQ,CLOSE,COUNT,AUTH,NEG-OPEN,NEG-MSG,NEG-CLOSE";
   lit "SHIELD_NOSTR_KIND_DENY="].

Definition strfry_strict : str := print_records
  [lit "# fips-shield preset: strfry / strict";
   lit "# Tightest limits and fastest banning. For a node whose clients you know, or one under active abuse.";
   lit "#";
   lit "# Values here apply only to keys you have NOT set in shield.env.";
   lit "# Anything you set explicitly always wins. See presets/README.md and";
   lit "# `shield-config show`.";
   [];
   lit "SHIELD_LISTEN_PORT=80";
   lit "SHIELD_SERVER_NAME=_";
   lit "SHIELD_UPSTREAM=127.0.0.1:7777";
   lit "SHIELD_MAX_CONNS_PER_NODE=4";
   lit "SHIELD_HANDSHAKE_BURST=5";
   lit "SHIELD_STRFRY_CONN_RATE=30";
   lit "SHIELD_WS_IDLE_TIMEOUT=120s";
   lit "SHIELD_WS_MAX_MSG=65536";
   lit "SHIELD_WS_MAX_SUBS=25";
   lit "SHIELD_WS_MAX_FILTERS=10";
   lit "SHIELD_WS_MAX_FILTER_ITEMS=750";
   lit "SHIELD_WS_MAX_HS_READS=16";
   lit "SHIELD_WS_MAX_MSG_READS=64";
   lit "SHIELD_WS_MAX_LIMIT=5000";
   lit "SHIELD_WS_MAX_FILTER_VALUE=256";
   lit "SHIELD_WS_REQUIRE_NARROWING=true";
   lit "SHIELD_WS_MSG_RATE=10";
   lit "SHIELD_WS_MSG_BURST=50";
   lit "SHIELD_WS_EVENT_RATE=2";
   lit "SHIELD_WS_EVENT_BURST=20";
   lit "SHIELD_WS_REQ_RATE=5";
   lit "SHIELD_WS_REQ_BURST=30";
   lit "SHIELD_NOSTR_TYPES=EVENT,REQ,CLOSE,COUNT,AUTH,NEG-OPEN,NEG-MSG,NEG-CLOSE";
   lit "SHIELD_NOSTR_KIND_DENY="].

Definition tcp_default : str := print_records
  [lit "# fips-shield preset: tcp / default";
   lit "# Balanced. What the project ships and what the smoke tests exercise.";
   lit "#";
   lit "# Values here apply only to keys you have NOT set in shield.env.";
   lit "# Anything you set explicitly always wins. See presets/README.md and";
   lit "# `shield-config show`.";
   [];
   lit "SHIELD_TCP_SERVICE=tcp";
   lit "SHIELD_TCP_LISTEN_PORT=2222";
   lit "SHIELD_TCP_UPSTREAM=127.0.0.1:22";
   lit "SHIELD_TCP_CONN_RATE=10";
   lit "SHIELD_TCP_MAX_CONNS_PER_NODE=4";
   lit "SHIELD_TCP_IDLE_TIMEOUT=1h"].

Definition tcp_loose : str := print_records
  [lit "# fips-shield preset: tcp / loose";
   lit "# Generous limits and slow banning. For a busy public service where a false positive costs more than an abusive peer.";
   lit "#";
   lit "# Values here apply only to keys you have NOT set in shield.env.";
   lit "# Anything you set explicitly always wins. See presets/README.md and";
   lit "# `shield-config show`.";
   [];
   lit "SHIELD_TCP_SERVICE=tcp";
   lit "SHIELD_TCP_LISTEN_PORT=2222";
   lit "SHIELD_TCP_UPSTREAM=127.0.0.1:22";
   lit "SHIELD_TCP_CONN_RATE=30";
   lit "SHIELD_TCP_MAX_CONNS_PER_NODE=10";
   lit "SHIELD_TCP_IDLE_TIMEOUT=4h"].

Definition tcp_strict : str := print_records
  [lit "# fips-shield preset: tcp / strict";
   lit "# Tightest limits and fastest banning. For a node whose clients you know, or one under active abuse.";
   lit "#";
   lit "# Values here apply only to keys you have NOT set in shield.env.";
   lit "# Anything you set explicitly always wins. See presets/README.md and";
   lit "# `shield-config show`.";
   [];
   lit "SHIELD_TCP_SERVICE=tcp";
   lit "SHIELD_TCP_LISTEN_PORT=2222";
   lit "SHIELD_TCP_UPSTREAM=127.0.0.1:22";
   lit "SHIELD_TCP_CONN_RATE=5";
   lit "SHIELD_TCP_MAX_CONNS_PER_NODE=2";
   lit "SHIELD_TCP_IDLE_TIMEOUT=10m"].

(** The presets at [dir], and the scopes that have some. *)
Definition preset_texts : list (str * str * str) :=
  [(lit "core", lit "default", core_default);
   (lit "core", lit "loose", core_loose);
   (lit "core", lit "strict", core_strict);
   (lit "http", lit "default", http_default);
   (lit "http", lit "loose", http_loose);
   (lit "http", lit "strict", http_strict);
   (lit "strfry", lit "default", strfry_default);
   (lit "strfry", lit "loose", strfry_loose);
   (lit "strfry", lit "strict", strfry_strict);
   (lit "tcp", lit "default", tcp_default);
   (lit "tcp", lit "loose", tcp_loose);
   (lit "tcp", lit "strict", tcp_strict)].

Definition preset_scopes : list str := [lit "core"; lit "http"; lit "strfry"; lit "tcp"].

Definition shipped_text (dir p : str) : option str :=
  snd <$> List.find (fun e => str_eqb (preset_path dir e.1.1 e.1.2) p) preset_texts.

Definition shipped_dir (dir p : str) : bool := existsb (fun s => str_eqb (path dir s) p) preset_scopes.

Definition shipped_entries (dir d : str) : list str :=
  if str_eqb d dir then lit "README.md" :: preset_scopes else [].

(** A machine with the presets at [dir] and an env file. *)
Definition machine_files (dir env_file text : str) : files := {|
  is_dir := shipped_dir dir;
  text_at p := if str_eqb p env_file then Some text else shipped_text dir p;
  entries_of := shipped_entries dir;
|}.
