(* ===== verification/ConfigRuns.v ===== *)
(** * Runs of the configuration tool

    An executable instance of [Posix], and the tool run on the shipped presets:
    the layers at work, and the places where the script does not do what its
    comments say. *)
From S2P Require Import Prelude Prog Text Js BanFile Shell Config Presets.

(** ** Executable utilities *)

Fixpoint str_leb (a b : str) : bool :=
  match a, b with
  | [], _ => true
  | _ :: _, [] => false
  | x :: a', y :: b' => (x <? y) || ((x =? y) && str_leb a' b')
  end.

Fixpoint insert_str (x : str) (l : list str) : list str :=
  match l with
  | [] => [x]
  | y :: r => if str_leb x y then x :: l else y :: insert_str x r
  end.

Definition sort_str (l : list str) : list str := foldr insert_str [] l.

Lemma insert_str_permutation x l : insert_str x l ≡ₚ x :: l.
Proof.
  induction l as [|y l IH]; cbn [insert_str]; [done|]. destruct (str_leb x y); [done|]. by rewrite IH, Permutation_swap.
Qed.

Lemma sort_str_permutation l : sort_str l ≡ₚ l.
Proof.
  induction l as [|x l IH]; [done|]. unfold sort_str in *. cbn [foldr]. by rewrite insert_str_permutation, IH.
Qed.

Lemma elem_sort_dedup x l : x ∈ sort_str (remove_dups l) <-> x ∈ l.
Proof. by rewrite sort_str_permutation, elem_of_remove_dups. Qed.

(** [echo] as ash and bash have it, a directory in which no file matches. *)
#[local] Instance std_posix : Posix := {|
  echo x := x ++ [NL];
  echo_plain x _ _ := eq_refl;
  glob w := [w];
  glob_plain w _ := eq_refl;
  sort := sort_str;
  sort_permutation := sort_str_permutation;
  sort_u l := sort_str (remove_dups l);
  elem_sort_u := elem_sort_dedup;
|}.

#[local] Existing Instance posix_awk.

(** ** Runs *)

Definition DIR : str := lit "/presets".
Definition in_presets : environ := {[ lit "SHIELD_PRESET_DIR" := DIR ]}.

(** A run with the env file [text]. *)
Definition run_file (text : list str) (args : list str) : list str * Z :=
  let '(out, status) := main (machine_files DIR (lit "shield.env") (print_records text)) (lit "/opt/bin") in_presets args in
  (records out, status).

Definition run_env (e : environ) (args : list str) : list str * Z :=
  let '(out, status) := main (machine_files DIR [] []) (lit "/opt/bin") (in_presets ∪ e) args in
  (records out, status).

Definition one_service : list str := [lit "SHIELD_PROFILES=tcp"; lit "SHIELD_BIND_ADDR=fd97::1"].

(** The keys of core and tcp, and those no preset has. *)
Example resolves_two_layers :
  let '(out, status) := run_file (one_service ++ [lit "SHIELD_TCP_CONN_RATE=7"]) [lit "resolve"] in
  status = 0 /\ length out = 28%nat /\
  List.filter (fun l => negb (bool_decide (l ∈ (run_file one_service [lit "resolve"]).1))) out = [lit "SHIELD_TCP_CONN_RATE=7"].
Proof. vm_compute. repeat split. Qed.

Example levels_are_described :
  (run_file [] [lit "levels"]).2 = 0 /\ length (run_file [] [lit "levels"]).1 = 3%nat.
Proof. vm_compute. split; reflexivity. Qed.

Example diff_lists_overrides :
  run_file one_service [lit "diff"] =
  ([lit "  KEY                                YOUR VALUE";
    lit "  SHIELD_PROFILES                    tcp";
    lit "  SHIELD_BIND_ADDR                   fd97::1"], 0).
Proof. vm_compute. reflexivity. Qed.

(** A level nobody knows: every command stops, with nothing on its output. *)
Example bad_level_stops :
  map (fun cmd => run_file (one_service ++ [lit "SHIELD_TCP_PRESET=paranoid"]) [cmd])
    [lit "resolve"; lit "show"; lit "diff"; lit "action-env"] = [([], 1); ([], 1); ([], 1); ([], 1)].
Proof. vm_compute. reflexivity. Qed.

(** ** Where code and comments part *)

(** A key that no preset defines and that is set twice is resolved twice, and
    [action-env] joins what it finds: the last value, twice. *)
Example duplicate_pin_dir_is_joined :
  run_file (one_service ++ [lit "SHIELD_GUARD_PIN_DIR=/sys/fs/bpf/a"; lit "SHIELD_GUARD_PIN_DIR=/sys/fs/bpf/b"]) [lit "action-env"] =
  ([lit "SHIELD_BAN_FILE='/var/lib/fips-shield/banlist' SHIELD_BAN_ALSO_FILE='false' SHIELD_GUARD_PIN_DIR='/sys/fs/bpf/b/sys/fs/bpf/b'"], 0).
Proof. vm_compute. reflexivity. Qed.

(** [show tcp] shows no key of core. *)
Example service_hides_core :
  let out := (run_file one_service [lit "resolve"; lit "tcp"]).1 in
  length out = 6%nat /\ existsb (starts_with (lit "SHIELD_F2B_")) out = false.
Proof. vm_compute. split; reflexivity. Qed.

(** An unknown service: nothing on the output, and success. *)
Example unknown_service_succeeds : run_file one_service [lit "resolve"; lit "strfy"; lit "--shell"] = ([], 0).
Proof. vm_compute. reflexivity. Qed.

(** Profiles with a tab between them pass [validate], and none is resolved. *)
Example tab_between_profiles :
  let text := [lit "SHIELD_PROFILES=tcp" ++ [TAB] ++ lit "http"] in
  let '(out, status) := run_file text [lit "resolve"] in
  status = 0 /\ existsb (starts_with (lit "SHIELD_TCP_")) out = false /\ existsb (starts_with (lit "SHIELD_F2B_")) out = true.
Proof. vm_compute. repeat split. Qed.

(** Values are quoted, keys are not: this line ends in a command of its own. *)
Example key_is_evaluated :
  List.find (contains (lit "reboot")) (run_file (one_service ++ [lit "X;reboot;Y=1"]) [lit "resolve"; lit "--shell"]).1 =
  Some (lit "export X;reboot;Y='1'").
Proof. vm_compute. reflexivity. Qed.

(** In a container the second line of a value becomes a key. *)
Example second_line_is_a_key :
  let e : environ := <[lit "SHIELD_BIND_ADDR" := lit "fd97::1" ++ [NL] ++ lit "X;reboot;Y"]> {[ lit "SHIELD_PROFILES" := lit "tcp" ]} in
  List.find (contains (lit "reboot")) (run_env e [lit "resolve"; lit "--from-env"; lit "--shell"]).1 =
  Some (lit "export X;reboot;Y=''").
Proof. vm_compute. reflexivity. Qed.
