(* ===== verification/ConfigText.v ===== *)
(** * The streams of the configuration tool as tables

    The script passes lines of fields between its parts; here each stream is
    the printed form of a table, and each part a function of tables.  The
    custom layer, wherever it comes from, is an environment ([custom_layer]):
    what the rest of the tool needs of it, promised by an env file
    ([file_layer]) and by the environment of a container ([env_layer]). *)
From S2P Require Import Prelude Prog Text Js BanFile BanFileText Shell.
From S2P Require Import Collect Config.

(** ** Names *)

Lemma name_chars k : is_name k = true -> Forall (fun c => name_char c = true) k.
Proof.
  destruct k as [|c k]; [done|]. cbn [is_name]. rewrite andb_true_iff. intros [Hc Hk].
  constructor; [unfold name_char; by rewrite Hc|]. by apply List.Forall_forall, forallb_forall.
Qed.

(** A name holds no character the tools treat specially. *)
Lemma name_plain k x :
  is_name k = true -> x ∈ [NL; TAB; 32; 92; 61; 39; 45] -> x ∉ k.
Proof.
  intros Hk%name_chars Hx Hin. rewrite Forall_forall in Hk. specialize (Hk x Hin).
  unfold name_char, name_start, in_range in Hk. unfold NL, TAB in Hx.
  repeat (apply elem_of_cons in Hx as [->|Hx]; [vm_compute in Hk; done|]). by apply elem_of_nil in Hx.
Qed.

Ltac name_char := apply name_plain; [assumption|unfold NL, TAB; set_solver].

Lemma name_ne k : is_name k = true -> k <> [].
Proof. by destruct k. Qed.

Lemma name_not_number k : is_name k = true -> awk_number k = None.
Proof.
  destruct k as [|c k]; [done|]. cbn [is_name]. rewrite andb_true_iff. intros [Hc _].
  assert (H : 58 <= c) by (unfold name_start, in_range in Hc; lia).
  unfold awk_number. assert (Hs : read_sign (c :: k) = (false, c :: k)).
  { unfold read_sign. replace (c =? 45) with false by lia. by replace (c =? 43) with false by lia. }
  rewrite Hs. cbn [span_digits]. replace (in_range 48 57 c) with false by (unfold in_range; lia).
  replace (c =? 46) with false by lia. done.
Qed.

(** ** Lines *)

Lemma records_no_newline s : Forall (fun r => NL ∉ r) (records s).
Proof.
  pose proof (split_char_no_sep NL s) as H. unfold records. change 10 with NL.
  destruct (split_char NL s) as [|x l]; [done|].
  destruct (reverse (x :: l)) as [|[|c y] r] eqn:E; [done| |done].
  apply Forall_reverse in H. rewrite E in H. apply Forall_cons in H as [_ H]. by apply Forall_reverse.
Qed.

Lemma split_char_sep sep a b : split_char sep (a ++ sep :: b) = split_char sep a ++ split_char sep b.
Proof.
  induction a as [|c a IH]; cbn [app split_char]; [by rewrite Z.eqb_refl|].
  rewrite IH. case_if; [done|].
  destruct (split_char sep a) as [|p ps] eqn:E; [by destruct a; cbn in E; repeat case_match|done].
Qed.

Lemma split_char_print ls : Forall (fun r => NL ∉ r) ls -> split_char NL (print_records ls) = ls ++ [[]].
Proof.
  unfold print_records. induction 1 as [|r ls Hr _ IH]; [done|]. cbn [map concat].
  rewrite <- app_assoc. change ([10] ++ ?x) with (NL :: x). rewrite split_char_app by done.
  cbn [app]. by rewrite IH.
Qed.

Lemma read_lines_print ls : Forall (fun r => NL ∉ r) ls -> read_lines (print_records ls) = ls.
Proof. intros H. unfold read_lines. by rewrite split_char_print, removelast_last by done. Qed.

Lemma print_records_app a b : print_records (a ++ b) = print_records a ++ print_records b.
Proof. unfold print_records. by rewrite map_app, concat_app. Qed.

Lemma substituted_ends s c : c <> NL -> substituted (s ++ [c]) = s ++ [c].
Proof.
  intros Hc. unfold substituted. rewrite reverse_snoc.
  replace (strip_newlines (c :: reverse s)) with (c :: reverse s).
  - by rewrite reverse_cons, reverse_involutive.
  - cbn [strip_newlines]. unfold NL in Hc. repeat case_match; simplify_eq; done.
Qed.

Lemma substituted_newline s : substituted (s ++ [NL]) = substituted s.
Proof. unfold substituted. by rewrite reverse_snoc. Qed.

Lemma substituted_app s x : x <> [] -> NL ∉ x -> substituted (s ++ x) = s ++ x.
Proof.
  intros Hne Hn. destruct x as [|c x _] using rev_ind; [done|].
  rewrite app_assoc. apply substituted_ends. set_solver.
Qed.

Lemma substituted_plain x : NL ∉ x -> substituted x = x.
Proof. intros Hn. destruct x as [|c x]; [done|]. by apply (substituted_app []). Qed.

Lemma substituted_line x : NL ∉ x -> substituted (x ++ [NL]) = x.
Proof. intros Hn. by rewrite substituted_newline, substituted_plain. Qed.

Lemma print_records_snoc ls x : print_records (ls ++ [x]) = (print_records ls ++ x) ++ [NL].
Proof. rewrite print_records_app. unfold print_records at 2. cbn [map concat]. by rewrite app_nil_r, app_assoc. Qed.

Lemma substituted_print ls x :
  x <> [] -> NL ∉ x -> substituted (print_records (ls ++ [x])) = print_records ls ++ x.
Proof. intros. by rewrite print_records_snoc, substituted_newline, substituted_app. Qed.

Lemma is_line_of_keys k ks :
  is_name k = true -> Forall (fun x => is_name x = true) ks ->
  is_line_of k (substituted (print_records ks)) = bool_decide (k ∈ ks).
Proof.
  intros Hk Hks. assert (Hn : Forall (fun r => NL ∉ r) ks) by (eapply Forall_impl; [done|]; intros; by name_char).
  apply eq_true_iff_eq. unfold is_line_of. rewrite bool_decide_eq_true, contains_spec.
  assert (E : [NL] ++ substituted (print_records ks) ++ [NL] =
              match ks with [] => [NL; NL] | _ => NL :: print_records ks end).
  { destruct ks as [|x l _] using rev_ind; [done|]. apply Forall_app in Hks as [_ Hx].
    apply Forall_cons in Hx as [Hx _]. rewrite substituted_print by (by (apply name_ne || name_char)).
    destruct (l ++ [x]) eqn:El; [by destruct l|]. by rewrite <- El, print_records_snoc. }
  rewrite E. clear E. split.
  - intros (a & b & E). assert (Hin : k ∈ split_char NL (a ++ NL :: (k ++ NL :: b))).
    { rewrite split_char_sep, elem_of_app. right. rewrite split_char_app by name_char. by left. }
    replace (a ++ NL :: (k ++ NL :: b)) with (a ++ ([NL] ++ k ++ [NL]) ++ b) in Hin
      by (cbn [app]; by rewrite <- app_assoc).
    rewrite <- E in Hin. destruct ks as [|x l]; [by apply name_ne in Hk; cbn in Hin; set_solver|].
    cbn [split_char] in Hin. rewrite Z.eqb_refl, split_char_print in Hin by done.
    apply name_ne in Hk. set_solver.
  - intros (l1 & l2 & ->)%list_elem_of_split.
    assert (H : exists c, NL :: print_records l1 = c ++ [NL]).
    { destruct l1 as [|y l _] using rev_ind; [by exists []|]. exists (NL :: print_records l ++ y).
      by rewrite print_records_snoc. }
    destruct H as [c Hc]. exists c, (print_records l2). destruct (l1 ++ k :: l2) eqn:El; [by destruct l1|].
    rewrite <- El, print_records_app, app_comm_cons, Hc. unfold print_records at 1. cbn [map concat].
    by rewrite <- !app_assoc.
Qed.

Lemma elem_concat_map {A B} (f : A -> list B) l b : b ∈ concat (map f l) <-> exists a, a ∈ l /\ b ∈ f a.
Proof.
  rewrite list_elem_of_In, in_concat. split.
  - intros (x & Hx & Hb). apply in_map_iff in Hx as (a & <- & Ha). exists a. by rewrite !list_elem_of_In.
  - intros (a & Ha & Hb). exists (f a). split; [by apply in_map, list_elem_of_In|by apply list_elem_of_In].
Qed.

(** ** Tables of keys and values *)

Definition names_in (ps : list (str * str)) : Prop := Forall (fun kv => is_name kv.1 = true) ps.
Definition no_newlines (ps : list (str * str)) : Prop := Forall (fun kv => (NL ∉ kv.1) /\ (NL ∉ kv.2)) ps.

Definition table_text (ps : list (str * str)) : str := print_records (map (fun kv => custom_line kv.1 kv.2) ps).

Lemma env_pair_parts line k v : env_pair line = Some (k, v) -> line = k ++ 61 :: v /\ k <> [].
Proof.
  unfold env_pair. destruct line as [|c r]; [done|]. case_if; [done|].
  destruct (split_once 61 (c :: r)) as [[a b]|] eqn:E; [|done].
  apply split_once_inv in E as [E _]. destruct a as [|s a]; [done|].
  case_if; [|done]. intros [= <- <-]. by split.
Qed.

Lemma env_pairs_no_newlines text : no_newlines (env_pairs text).
Proof.
  eapply filter_map_forall; [|apply records_no_newline].
  intros line [k v] Hl [-> _]%env_pair_parts. cbn [fst snd]. set_solver.
Qed.

Lemma custom_line_no_newline k v : NL ∉ k -> NL ∉ v -> NL ∉ custom_line k v.
Proof. intros. unfold custom_line, TAB, NL in *. set_solver. Qed.

Lemma records_table ps : no_newlines ps -> records (table_text ps) = map (fun kv => custom_line kv.1 kv.2) ps.
Proof.
  intros H. apply records_print, List.Forall_map. eapply Forall_impl; [exact H|].
  intros [k v] [Hk Hv]. by apply custom_line_no_newline.
Qed.

Lemma split_tab a b : TAB ∉ a -> split_once TAB (a ++ [TAB] ++ b) = Some (a, b).
Proof. intros H. by apply split_once_app. Qed.

Lemma custom_line_key k v : is_name k = true -> until_first TAB (custom_line k v) = k.
Proof. intros Hk. unfold until_first, custom_line. by rewrite split_tab by name_char. Qed.

Lemma custom_line_value k v : is_name k = true -> after_first TAB (custom_line k v) = v.
Proof. intros Hk. unfold after_first, custom_line. by rewrite split_tab by name_char. Qed.

Lemma cut_table ps : no_newlines ps -> names_in ps -> records (cut_f1 (table_text ps)) = ps.*1.
Proof.
  intros Hn Hk. unfold cut_f1. rewrite records_table by done.
  assert (E : map (until_first TAB) (map (fun kv => custom_line kv.1 kv.2) ps) = ps.*1).
  { clear Hn. induction Hk as [|[k v] ps Hk _ IH]; [done|]. cbn [map fst snd]. rewrite custom_line_key by done.
    by rewrite IH. }
  rewrite E. apply records_print, list.Forall_fmap. eapply Forall_impl; [exact Hn|]. by intros ? [? _].
Qed.

(** ** Last values *)

Lemma last_value_cons k kv l :
  last_value k (kv :: l) =
  match last_value k l with Some v => Some v | None => if str_eqb kv.1 k then Some kv.2 else None end.
Proof.
  unfold last_value. cbn [List.filter]. destruct (str_eqb kv.1 k); [|by destruct (list.last _)].
  cbn [map]. rewrite list.last_cons. by destruct (list.last _).
Qed.

Lemma last_value_app k l l' :
  last_value k (l ++ l') = match last_value k l' with Some v => Some v | None => last_value k l end.
Proof.
  induction l as [|kv l IH]; cbn [app]; [by destruct (last_value k l')|]. rewrite !last_value_cons, IH.
  by destruct (last_value k l').
Qed.

Lemma last_value_elem k v l : last_value k l = Some v -> (k, v) ∈ l.
Proof.
  induction l as [|[a b] l IH]; [done|]. rewrite last_value_cons. destruct (last_value k l) as [x|].
  - intros [= ->]. right. by apply IH.
  - unfold str_eqb. case_bool_decide; [|done]. cbn [fst snd] in *. intros [= ->]. subst. by left.
Qed.

Lemma last_value_none k l : last_value k l = None <-> k ∉ l.*1.
Proof.
  induction l as [|[a b] l IH]; [split; [intros _; apply not_elem_of_nil|done]|].
  rewrite last_value_cons. cbn [fst snd fmap list_fmap]. rewrite not_elem_of_cons.
  change (list_fmap (str * str)%type str fst l) with (l.*1). rewrite <- IH.
  unfold str_eqb. case_bool_decide; destruct (last_value k l); naive_solver.
Qed.

Lemma last_value_only k v l :
  (k, v) ∈ l -> (forall v', (k, v') ∈ l -> v' = v) -> last_value k l = Some v.
Proof.
  intros Hin Hu. destruct (last_value k l) as [x|] eqn:E.
  - f_equal. apply Hu. by apply last_value_elem.
  - exfalso. apply last_value_none in E. apply E. apply list_elem_of_fmap. by exists (k, v).
Qed.

(** ** The custom layer *)

Section layer.
Context {AWK : Awk} {POSIX : Posix}.

Lemma awk_eq_name a k : is_name k = true -> awk_eq a (assigned k) = str_eqb a k.
Proof.
  intros Hk. rewrite assigned_plain by name_char. unfold awk_eq. rewrite (name_not_number k) by done.
  by destruct (awk_number a).
Qed.

(** What the rest of the tool needs of [CUSTOM_FILE]. *)
Record custom_layer (text : str) (c : env) : Prop := {
  layer_get k : is_name k = true -> custom_get text k = c k;
  layer_names : Forall (fun k => is_name k = true) (records (cut_f1 text));
  layer_keys k : k ∈ records (cut_f1 text) <-> is_Some (c k);
  layer_values k v : c k = Some v -> NL ∉ v;
}.

Lemma custom_get_table k ps :
  no_newlines ps -> names_in ps -> is_name k = true -> custom_get (table_text ps) k = last_value k ps.
Proof.
  intros Hn Hps Hk. unfold custom_get, last_value. rewrite records_table by done. f_equal. clear Hn.
  assert (Ha : assigned k = k) by (apply assigned_plain; name_char).
  induction Hps as [|[a v] ps Hp _ IH]; [done|]. cbn [map filter_map List.filter fst snd] in *.
  rewrite custom_line_key, awk_eq_name by done. unfold str_eqb in *. case_bool_decide; [|exact IH].
  cbn [map snd]. subst a. rewrite IH. f_equal. unfold custom_line. rewrite Ha, drop_app_ge by lia.
  by replace (length k + 1 - length k)%nat with 1%nat by lia.
Qed.

Lemma table_layer ps : no_newlines ps -> names_in ps -> custom_layer (table_text ps) (fun k => last_value k ps).
Proof.
  intros Hn Hps. split.
  - intros k. by apply custom_get_table.
  - rewrite cut_table by done. by apply list.Forall_fmap.
  - intros k. rewrite cut_table by done. pose proof (last_value_none k ps) as H.
    destruct (last_value k ps); [|by destruct H; split; [intros; exfalso; naive_solver|intros [? ?]]].
    split; [by eexists|]. intros _. destruct (decide (k ∈ ps.*1)); [done|]. naive_solver.
  - intros k v H%last_value_elem. by apply (proj1 (Forall_forall _ _) Hn (k, v)).
Qed.

Lemma file_layer t : names_in (env_pairs t) -> custom_layer (parse_envfile t) (fun k => last_value k (env_pairs t)).
Proof. intros H. apply (table_layer (env_pairs t)); [apply env_pairs_no_newlines|done]. Qed.

Lemma custom_layer_ext text c c' : (forall k, c k = c' k) -> custom_layer text c -> custom_layer text c'.
Proof.
  intros E [H1 H2 H3 H4]. split; [|done| |]; intros k; rewrite <- E; [apply H1|apply H3|apply H4].
Qed.

(** ** The environment as a custom layer *)

Context (fs : files) (PRESET_DIR : str).

(** Every key of the presets is a name. *)
Definition preset_names : Prop :=
  forall scope level t, text_at fs (preset_path PRESET_DIR scope level) = Some t -> names_in (env_pairs t).

(** An environment a shell imports: names, and values of one line. *)
Definition environ_ok (e : environ) : Prop :=
  forall k v, e !! k = Some v -> is_name k = true /\ (NL ∉ v).

Definition of_interest (k : str) : bool :=
  bool_decide (k ∈ all_preset_keys fs PRESET_DIR) || starts_with (lit "SHIELD_") k.

Definition env_custom (e : environ) : env := fun k => if of_interest k then e !! k else None.

Lemma all_preset_keys_names : preset_names -> Forall (fun k => is_name k = true) (all_preset_keys fs PRESET_DIR).
Proof.
  intros Hp. apply Forall_forall. intros k Hk. unfold all_preset_keys in Hk.
  apply elem_sort_u, elem_concat_map in Hk as (d & _ & Hk).
  destruct (text_at fs _) as [t|] eqn:Et; [|by apply elem_of_nil in Hk]. pose proof (Hp _ _ _ Et) as Hn.
  change (parse_envfile t) with (table_text (env_pairs t)) in Hk. rewrite cut_table in Hk by (done || apply env_pairs_no_newlines).
  apply list_elem_of_fmap in Hk as (kv & -> & Hkv). by apply (proj1 (Forall_forall _ _) Hn kv).
Qed.

Lemma seen_keys_spec k :
  preset_names -> is_name k = true ->
  is_line_of k (seen_keys fs PRESET_DIR) = bool_decide (k ∈ all_preset_keys fs PRESET_DIR).
Proof. intros Hp Hk. apply is_line_of_keys; [done|]. by apply all_preset_keys_names. Qed.

Lemma map_filter_map {A B C} (g : B -> C) (f : A -> option B) l :
  map g (filter_map f l) = filter_map (fun a => g <$> f a) l.
Proof. induction l as [|a l IH]; [done|]. cbn [filter_map]. destruct (f a); cbn [map fmap option_fmap option_map]; by rewrite IH. Qed.

Lemma filter_map_ext {A B} (f g : A -> option B) l : (forall a, f a = g a) -> filter_map f l = filter_map g l.
Proof. intros H. induction l as [|a l IH]; [done|]. cbn [filter_map]. by rewrite H, IH. Qed.

Lemma elem_filter_map {A B} (f : A -> option B) l b : b ∈ filter_map f l <-> exists a, a ∈ l /\ f a = Some b.
Proof.
  induction l as [|a l IH]; cbn [filter_map]; [split; [intros H; by apply elem_of_nil in H|intros (? & H & _); by apply elem_of_nil in H]|].
  destruct (f a) eqn:E; [rewrite elem_of_cons|]; rewrite IH; setoid_rewrite elem_of_cons; naive_solver.
Qed.

(** The pairs [collect_from_env] prints. *)
Definition env_table (e : environ) : list (str * str) :=
  filter_map (fun k => pair k <$> e !! k) (all_preset_keys fs PRESET_DIR) ++
  filter_map (fun k => if is_line_of k (seen_keys fs PRESET_DIR) then None else Some (k, default [] (e !! k)))
    (sort (List.filter (starts_with (lit "SHIELD_")) (map_to_list e).*1)).

Lemma collect_from_env_table e : collect_from_env fs PRESET_DIR e = table_text (env_table e).
Proof.
  unfold collect_from_env, table_text, env_table.
  rewrite map_app, print_records_app, !map_filter_map. do 2 f_equal; apply filter_map_ext; intros k.
  - by destruct (e !! k).
  - by case_if.
Qed.

Lemma elem_map_keys (e : environ) k : k ∈ (map_to_list e).*1 <-> is_Some (e !! k).
Proof.
  rewrite list_elem_of_fmap. split.
  - intros ([k' v] & -> & H%elem_of_map_to_list). by exists v.
  - intros [v H]. exists (k, v). split; [done|]. by apply elem_of_map_to_list.
Qed.

Lemma elem_env_table e k v :
  preset_names -> environ_ok e -> (k, v) ∈ env_table e <-> of_interest k = true /\ e !! k = Some v.
Proof.
  intros Hp He. unfold env_table, of_interest. rewrite elem_of_app, !elem_filter_map, orb_true_iff, bool_decide_eq_true.
  setoid_rewrite elem_sort. setoid_rewrite list_elem_of_In at 2. setoid_rewrite filter_In.
  setoid_rewrite <- list_elem_of_In. setoid_rewrite elem_map_keys. split.
  - intros [(a & Ha & H)|(a & ((w & Hw) & Ha) & H)].
    + apply fmap_Some in H as (w & Hw & [= -> ->]). by split; [left|].
    + destruct (is_line_of _ _); [done|]. rewrite Hw in H. simplify_eq/=. by split; [right|].
  - intros [Hi Hv]. destruct (He k v Hv) as [Hk _]. pose proof (seen_keys_spec k Hp Hk) as Hs.
    case_bool_decide as Hin; [left|right]; exists k.
    + by rewrite Hv.
    + rewrite Hs, Hv. destruct Hi as [|Hi]; [done|]. by split; [split; [eexists|]|].
Qed.

Lemma env_layer e : preset_names -> environ_ok e -> custom_layer (collect_from_env fs PRESET_DIR e) (env_custom e).
Proof.
  intros Hp He. rewrite collect_from_env_table.
  assert (Hin : forall kv, kv ∈ env_table e -> of_interest kv.1 = true /\ e !! kv.1 = Some kv.2).
  { intros [k v]. by apply elem_env_table. }
  apply (custom_layer_ext _ (fun k => last_value k (env_table e))).
  - intros k. unfold env_custom. destruct (of_interest k) eqn:Hi; [destruct (e !! k) as [v|] eqn:Hv|].
    + apply last_value_only; [by apply elem_env_table|]. intros v' [_ H]%Hin. cbn [fst snd] in H. congruence.
    + apply last_value_none. intros ([k' v] & -> & [_ H]%Hin)%list_elem_of_fmap. cbn [fst snd] in *. congruence.
    + apply last_value_none. intros ([k' v] & -> & [H _]%Hin)%list_elem_of_fmap. cbn [fst snd] in *. congruence.
  - apply table_layer; apply Forall_forall; intros [k v] [_ H]%Hin; cbn [fst snd] in *.
    + destruct (He k v H) as [Hk Hv]. split; [name_char|done].
    + by destruct (He k v H).
Qed.

End layer.
