(* ===== verification/ConfigResolve.v ===== *)
(** * What the configuration tool resolves

    The two layers as the documentation states them ([effective]: a preset
    fills the keys the custom layer leaves unset), and the script's resolution
    computed against them, for a custom layer from an env file or from the
    environment. *)
From S2P Require Import Prelude Prog Text Js BanFile BanFileText Shell.
From S2P Require Import Http Collect Config ConfigText.

(** ** Lists of profiles *)

Definition non_empty (l : list str) : list str := List.filter (fun w => negb (is_nil w)) l.

Lemma squeeze_pieces b s :
  head (split_char b (squeeze b s)) = head (split_char b s) /\
  non_empty (split_char b (squeeze b s)) = non_empty (split_char b s).
Proof.
  induction s as [|c [|d r] IH]; [done|done|].
  change (squeeze b (c :: d :: r)) with
    (if (c =? b) && (d =? b) then squeeze b (d :: r) else c :: squeeze b (d :: r)).
  destruct IH as [IHh IHn]. set (q := d :: r) in *. destruct (c =? b) eqn:Ec; cbn [andb].
  - replace (split_char b (c :: q)) with ([] :: split_char b q) by (cbn [split_char]; by rewrite Ec).
    change (non_empty ([] :: split_char b q)) with (non_empty (split_char b q)). destruct (d =? b) eqn:Ed.
    + rewrite IHh, IHn. split; [|done]. unfold q. cbn [split_char]. by rewrite Ed.
    + cbn [split_char]. rewrite Ec. split; [done|]. exact IHn.
  - cbn [split_char]. rewrite Ec.
    destruct (split_char b (squeeze b q)) as [|p ps], (split_char b q) as [|p' ps']; try done.
    injection IHh as ->. split; [done|]. unfold non_empty in *. cbn [List.filter is_nil negb] in *.
    destruct (negb (is_nil p')); [by injection IHn as ->|by rewrite IHn].
Qed.

Lemma squeeze_end b s : exists t, squeeze b (s ++ [b]) = t ++ [b].
Proof.
  induction s as [|c s [t IH]]; [by exists []|]. cbn [app].
  destruct (s ++ [b]) as [|d r] eqn:E; [by destruct s|].
  change (squeeze b (c :: d :: r)) with
    (if (c =? b) && (d =? b) then squeeze b (d :: r) else c :: squeeze b (d :: r)).
  rewrite IH. case_if; [by exists t|by exists (c :: t)].
Qed.

Lemma non_empty_app a b : non_empty (a ++ b) = non_empty a ++ non_empty b.
Proof. apply List.filter_app. Qed.

(** The pieces between spaces are the words. *)
Lemma fields_pieces acc q :
  NL ∉ q -> TAB ∉ q ->
  fields_acc acc q = non_empty (match split_char NL (tr 32 NL q) with p :: ps => (reverse acc ++ p) :: ps | [] => [] end).
Proof.
  revert acc. induction q as [|c q IH]; intros acc Hn Ht.
  { cbn [fields_acc tr map split_char]. rewrite app_nil_r. destruct acc as [|x acc]; [done|].
    unfold non_empty. cbn [List.filter]. destruct (reverse (x :: acc)) eqn:E; [|done].
    apply (f_equal reverse) in E. by rewrite reverse_involutive in E. }
  apply not_elem_of_cons in Hn as [Hcn Hn]. apply not_elem_of_cons in Ht as [Hct Ht].
  cbn [fields_acc tr map split_char]. unfold awk_blank, NL, TAB in *.
  replace (c =? 10) with false by lia. replace (c =? 9) with false by lia. rewrite !orb_false_r.
  destruct (c =? 32) eqn:Ec.
  - fold (tr 32 10 q). replace (10 =? 10) with true by done.
    assert (E' : fields_acc [] q = non_empty (split_char 10 (tr 32 10 q))).
    { rewrite IH by done. by destruct (split_char 10 (tr 32 10 q)). }
    rewrite app_nil_r, E'. destruct acc as [|x acc]; [done|]. destruct (reverse (x :: acc)) eqn:Er; [|done].
    apply (f_equal reverse) in Er. by rewrite reverse_involutive in Er.
  - cbn [split_char]. replace (c =? 10) with false by lia. rewrite (IH (c :: acc)) by done.
    fold (tr 32 10 q). rewrite reverse_cons. destruct (split_char 10 (tr 32 10 q)) as [|p ps] eqn:E.
    + by destruct (tr 32 10 q); cbn in E; repeat case_match.
    + by rewrite <- app_assoc.
Qed.

Lemma profile_lines q :
  NL ∉ q -> TAB ∉ q -> non_empty (read_lines (squeeze NL (tr 32 NL (q ++ [NL])))) = fields q.
Proof.
  intros Hn Ht. assert (E : tr 32 NL (q ++ [NL]) = tr 32 NL q ++ [NL]) by (unfold tr; by rewrite map_app).
  rewrite E. destruct (squeeze_end NL (tr 32 NL q)) as [t Hs].
  pose proof (squeeze_pieces NL (tr 32 NL q ++ [NL])) as [_ Hp]. rewrite Hs in *. unfold read_lines.
  change (t ++ [NL]) with (t ++ NL :: []) in *. change (tr 32 NL q ++ [NL]) with (tr 32 NL q ++ NL :: []) in Hp.
  rewrite !split_char_sep in *. cbn [split_char] in *. rewrite removelast_last, !non_empty_app in *.
  rewrite !app_nil_r in Hp. rewrite Hp. unfold fields. rewrite fields_pieces by done.
  by destruct (split_char NL (tr 32 NL q)).
Qed.

Lemma fields_chars acc q :
  Forall (fun w => w <> [] /\ forall c, c ∈ w -> c ∈ acc \/ (c ∈ q /\ awk_blank c = false)) (fields_acc acc q).
Proof.
  revert acc. induction q as [|c q IH]; intros acc; cbn [fields_acc].
  - destruct acc as [|x acc]; [constructor|]. constructor; [|constructor]. split.
    + intros E. apply (f_equal reverse) in E. by rewrite reverse_involutive in E.
    + intros d Hd. left. by apply elem_of_reverse.
  - destruct (awk_blank c) eqn:Ec.
    + assert (H : Forall (fun w => w <> [] /\ forall d, d ∈ w -> d ∈ acc \/ (d ∈ c :: q /\ awk_blank d = false)) (fields_acc [] q)).
      { eapply Forall_impl; [apply IH|]. cbv beta. intros w [Hw Hc]. split; [done|].
        intros d [Hd|[Hd Hb]]%Hc; [by apply elem_of_nil in Hd|]. right. split; [by right|done]. }
      destruct acc as [|x acc]; [done|]. constructor; [|done]. split.
      * intros E. apply (f_equal reverse) in E. by rewrite reverse_involutive in E.
      * intros d Hd. left. by apply elem_of_reverse.
    + eapply Forall_impl; [apply IH|]. cbv beta. intros w [Hw Hc]. split; [done|].
      intros d Hd. destruct (Hc d Hd) as [[->|H]%elem_of_cons|[H Hb]]; [right; by split; [left|]|by left|].
      right. by split; [right|].
Qed.

(** ** The two layers *)

(** The level of a scope: its own, the general one, or the default. *)
Definition level_name (c : env) (scope : str) : str :=
  let own := if str_eqb scope (lit "core") then None
             else c (lit "SHIELD_" ++ tr_upper scope ++ lit "_PRESET") in
  or_if_empty own (or_if_empty (c (lit "SHIELD_PRESET")) (lit "default")).

Definition profile_names (c : env) : str := or_if_empty (c (lit "SHIELD_PROFILES")) (lit "strfry").

(** Profiles separated by commas or spaces. *)
Definition enabled (c : env) : list str := lit "core" :: fields (tr 44 32 (profile_names c)).

Definition profiles_plain (c : env) : bool :=
  forallb (fun x => name_char x || (x =? 44) || (x =? 32)) (profile_names c).

Section layers.
Context {POSIX : Posix} (fs : files) (dir : str).

Definition preset_pairs (c : env) (scope : str) : list (str * str) :=
  match text_at fs (preset_path dir scope (level_name c scope)) with Some t => env_pairs t | None => [] end.

Definition preset_layer (c : env) : list (str * str) := concat (map (preset_pairs c) (enabled c)).

(** Custom always wins; a preset fills the keys that are not set.  The keys of
    a profile that is not enabled are left out. *)
Definition effective (c : env) : env := fun k =>
  match last_value k (preset_layer c) with
  | Some v => Some (default v (c k))
  | None => if bool_decide (k ∈ all_preset_keys fs dir) then None else c k
  end.

(** SOURCE, KEY and VALUE, as the dashboard has them. *)
Definition preset_entry (c : env) (scope : str) (kv : str * str) : str * str * str :=
  match c kv.1 with
  | Some v => (lit "custom", kv.1, v)
  | None => (lit "preset:" ++ scope ++ lit "/" ++ level_name c scope, kv.1, kv.2)
  end.

Definition extra_entries (c : env) (keys : list str) : list (str * str * str) :=
  filter_map (fun k => if bool_decide (k ∈ all_preset_keys fs dir) then None
                       else Some (lit "custom", k, default [] (c k))) keys.

Definition resolved_entries (c : env) (keys : list str) : list (str * str * str) :=
  concat (map (fun s => map (preset_entry c s) (preset_pairs c s)) (enabled c)) ++ extra_entries c keys.

Definition entry_text (e : str * str * str) : str := resolved_line e.1.2 e.2 e.1.1.

End layers.

(** What holds of every entry. *)
Definition entry_fine (e : str * str * str) : Prop :=
  is_name e.1.2 = true /\ (NL ∉ e.2) /\ (TAB ∉ e.1.1) /\ (NL ∉ e.1.1).

Definition entry_pair (e : str * str * str) : str * str := (e.1.2, e.2).

(** ** The script against the layers *)

Lemma is_name_app a b : is_name a = true -> Forall (fun x => name_char x = true) b -> is_name (a ++ b) = true.
Proof.
  destruct a as [|x a]; [done|]. cbn [is_name app]. rewrite !andb_true_iff. intros [Hx Ha] Hb. split; [done|].
  rewrite forallb_app, Ha. by apply forallb_forall, List.Forall_forall.
Qed.

Definition name_chars_in (s : str) : Prop := Forall (fun x => name_char x = true) s.

Lemma name_chars_no s x : name_chars_in s -> name_char x = false -> x ∉ s.
Proof. intros Hs Hx Hin. unfold name_chars_in in Hs. rewrite Forall_forall in Hs. by rewrite Hs in Hx. Qed.

Lemma tr_upper_chars s : name_chars_in s -> name_chars_in (tr_upper s).
Proof.
  intros H. apply list.Forall_fmap. eapply Forall_impl; [exact H|]. intros x Hx. cbn [compose].
  unfold compose, name_char, name_start, in_range in *. case_if; lia.
Qed.

Section resolved.
Context {AWK : Awk} {POSIX : Posix} (fs : files) (dir custom : str) (c : env).
Hypothesis Hlayer : custom_layer custom c.
Hypothesis Hpresets : preset_names fs dir.

Lemma echo_name s : name_chars_in s -> echo s = s ++ [NL].
Proof.
  intros H. apply echo_plain; [by apply (name_chars_no s)|]. destruct s as [|x s]; [done|].
  apply Forall_cons in H as [H _]. cbn [head]. intros [= ->]. by vm_compute in H.
Qed.

Lemma upper_name s : name_chars_in s -> upper s = tr_upper s.
Proof.
  intros H. unfold upper. rewrite echo_name by done. unfold tr_upper at 1. rewrite map_app.
  apply substituted_line. apply (name_chars_no (tr_upper s)); [by apply tr_upper_chars|done].
Qed.

(** [level_for] knows the level by a search in the text of all of them. *)
Definition is_level (lv : str) : bool := contains ([32] ++ lv ++ [32]) ([32] ++ LEVELS_TEXT ++ [32]).

Lemma level_chars lv : is_level lv = true -> Forall (fun x => x <> 92 /\ x <> 45 /\ x <> NL /\ x <> TAB) lv.
Proof.
  intros (a & b & E)%contains_spec.
  assert (H : Forall (fun x => x <> 92 /\ x <> 45 /\ x <> NL /\ x <> TAB) ([32] ++ LEVELS_TEXT ++ [32])).
  { apply (bool_decide_unpack _). vm_compute. exact I. }
  rewrite E in H. rewrite !Forall_app in H. naive_solver.
Qed.

Lemma level_for_name scope :
  name_chars_in scope -> is_level (level_name c scope) = true ->
  level_for custom scope = Ok (level_name c scope).
Proof.
  intros Hs Hl. unfold level_for.
  assert (E : or_if_empty (if str_eqb scope (lit "core") then None
                else custom_get custom (lit "SHIELD_" ++ upper scope ++ lit "_PRESET"))
              (or_if_empty (custom_get custom (lit "SHIELD_PRESET")) (lit "default")) = level_name c scope).
  { rewrite (layer_get _ _ Hlayer (lit "SHIELD_PRESET")) by done. unfold level_name. f_equal. case_if; [done|].
    rewrite upper_name by done. apply (layer_get _ _ Hlayer). apply is_name_app; [done|].
    apply Forall_app. split; [by apply tr_upper_chars|]. apply (bool_decide_unpack _). vm_compute. exact I. }
  rewrite E. unfold is_level in Hl. rewrite Hl. apply level_chars in Hl. f_equal.
  rewrite echo_plain.
  - apply substituted_line. intros Hin. rewrite Forall_forall in Hl. by apply Hl in Hin as (_ & _ & ? & _).
  - intros Hin. rewrite Forall_forall in Hl. by apply Hl in Hin as (? & _).
  - destruct (level_name c scope); [done|]. apply Forall_cons in Hl as [Hl _]. cbn [head]. naive_solver.
Qed.

Lemma level_for_error scope :
  name_chars_in scope -> is_level (level_name c scope) = false -> is_ok (level_for custom scope) = false.
Proof.
  intros Hs Hl. unfold level_for.
  rewrite (layer_get _ _ Hlayer (lit "SHIELD_PRESET")) by done.
  rewrite upper_name by done. rewrite (layer_get _ _ Hlayer (_ ++ _)).
  - unfold level_name in Hl. unfold is_level in Hl. by rewrite Hl.
  - apply is_name_app; [done|].
    apply Forall_app. split; [by apply tr_upper_chars|]. apply (bool_decide_unpack _). vm_compute. exact I.
Qed.

Lemma resolve_scope_entries scope t :
  name_chars_in scope -> is_level (level_name c scope) = true ->
  text_at fs (preset_path dir scope (level_name c scope)) = Some t ->
  resolve_scope fs dir custom scope = Ok (map entry_text (map (preset_entry c scope) (env_pairs t))).
Proof.
  intros Hs Hl Ht. unfold resolve_scope. rewrite level_for_name by done. cbn [mbind res_bind].
  rewrite Ht. f_equal. change (parse_envfile t) with (table_text (env_pairs t)).
  rewrite records_table by apply env_pairs_no_newlines.
  pose proof (Hpresets _ _ _ Ht) as Hn. rewrite !map_map. apply map_ext_in. intros [k v] Hin. cbn [fst snd].
  assert (Hk : is_name k = true) by (by apply (proj1 (Forall_forall _ _) Hn (k, v)), list_elem_of_In).
  rewrite custom_line_key, custom_line_value, (layer_get _ _ Hlayer) by done.
  unfold preset_entry. cbn [fst snd]. by destruct (c k).
Qed.

(** Under a plain list of profiles, the scopes that are validated are those
    that are resolved. *)
Hypothesis Hplain : profiles_plain c = true.

Lemma profiles_text_spec : profiles_text custom = profile_names c.
Proof. unfold profiles_text, profile_names. by rewrite (layer_get _ _ Hlayer). Qed.

Lemma profile_names_chars x : x ∈ profile_names c -> name_char x = true \/ x = 44 \/ x = 32.
Proof.
  intros Hx%list_elem_of_In. unfold profiles_plain in Hplain. rewrite forallb_forall in Hplain.
  specialize (Hplain x Hx). rewrite !orb_true_iff, !Z.eqb_eq in Hplain. naive_solver.
Qed.

Lemma profile_names_no x : name_char x = false -> x <> 44 -> x <> 32 -> x ∉ profile_names c.
Proof. intros Hx H1 H2 Hin%profile_names_chars. rewrite Hx in Hin. naive_solver. Qed.

Lemma echo_profiles : echo (profile_names c) = profile_names c ++ [NL].
Proof.
  apply echo_plain; [by apply profile_names_no|]. intros H%head_Some_elem_of. by apply (profile_names_no 45) in H.
Qed.

Lemma tr_profiles_no x : x = NL \/ x = TAB -> x ∉ tr 44 32 (profile_names c).
Proof.
  intros Hx (y & E & Hy)%list_elem_of_fmap. apply profile_names_chars in Hy. unfold NL, TAB in Hx.
  destruct (y =? 44) eqn:Ey; [lia|]. subst y. destruct Hx as [->| ->]; destruct Hy as [H|[H|H]]; vm_compute in H; done.
Qed.

Lemma enabled_chars : Forall (fun s => s <> [] /\ name_chars_in s) (enabled c).
Proof.
  constructor; [split; [done|apply (bool_decide_unpack _); vm_compute; exact I]|].
  eapply Forall_impl; [apply (fields_chars [])|]. cbv beta. intros w [Hw Hc]. split; [done|].
  apply Forall_forall. intros x Hx. destruct (Hc x Hx) as [H|[H Hb]]; [by apply elem_of_nil in H|].
  apply list_elem_of_fmap in H as (y & -> & Hy). apply profile_names_chars in Hy.
  destruct (y =? 44) eqn:Ey; [done|]. destruct Hy as [H|[->| ->]]; done.
Qed.

Lemma known_profiles_all ps :
  Forall name_chars_in ps -> Forall (fun s => is_dir fs (path dir s) = true) (non_empty ps) ->
  known_profiles fs dir ps = print_records (non_empty ps).
Proof.
  induction 1 as [|p ps Hp Hps IH]; intros Hd; [done|]. cbn [known_profiles]. unfold non_empty in *.
  destruct p as [|x p]; cbn [List.filter is_nil negb] in *; [by apply IH|].
  apply Forall_cons in Hd as [-> Hd]. rewrite IH, echo_name by done. unfold print_records. cbn [map concat]. done.
Qed.

Lemma read_lines_chars s : (forall x, x ∈ s -> name_char x = true \/ x = NL) -> Forall name_chars_in (read_lines s).
Proof.
  intros H. assert (Hp : Forall name_chars_in (split_char NL s)).
  { induction s as [|x s IH]; cbn [split_char]; [repeat constructor|].
    assert (IH' : Forall name_chars_in (split_char NL s)) by (apply IH; intros y Hy; apply H; by right).
    destruct (x =? NL) eqn:Ex; [by repeat constructor|]. apply Z.eqb_neq in Ex.
    assert (Hx : name_char x = true) by (destruct (H x) as [?|?]; [by left|done|done]).
    destruct (split_char NL s) as [|p ps]; [repeat constructor; done|].
    apply Forall_cons in IH' as [Hp Hps]. repeat constructor; done. }
  unfold read_lines. revert Hp. generalize (split_char NL s). intros l. induction 1 as [|p ps Hp Hps IH]; [done|].
  cbn [removelast]. destruct ps; [done|]. by constructor.
Qed.

Lemma squeeze_elem b s x : x ∈ squeeze b s -> x ∈ s.
Proof.
  induction s as [|y [|z r] IH]; [done|done|].
  change (squeeze b (y :: z :: r)) with (if (y =? b) && (z =? b) then squeeze b (z :: r) else y :: squeeze b (z :: r)).
  case_if; [intros H; right; by apply IH|]. intros [->|H]%elem_of_cons; [by left|right; by apply IH].
Qed.

Lemma scopes_enabled :
  Forall (fun s => is_dir fs (path dir s) = true) (enabled c) -> scopes fs dir custom = enabled c.
Proof.
  intros Hd. apply Forall_cons in Hd as [_ Hd]. unfold scopes. rewrite profiles_text_spec, echo_profiles.
  assert (E : tr 44 32 (profile_names c ++ [NL]) = tr 44 32 (profile_names c) ++ [NL]) by (unfold tr; by rewrite map_app).
  rewrite E. pose proof (profile_lines (tr 44 32 (profile_names c)) (tr_profiles_no NL (or_introl eq_refl))
                           (tr_profiles_no TAB (or_intror eq_refl))) as Hw.
  rewrite known_profiles_all; [|apply read_lines_chars|by rewrite Hw].
  - rewrite Hw. change (lit "core" ++ [NL] ++ print_records ?l) with (print_records (lit "core" :: l)).
    apply read_lines_print. fold (enabled c). eapply Forall_impl; [apply enabled_chars|]. cbv beta.
    intros s [_ Hs]. by apply (name_chars_no s).
  - intros x Hx%squeeze_elem. unfold tr in Hx. apply list_elem_of_fmap in Hx as (y & -> & Hy).
    apply elem_of_app in Hy as [Hy|Hy]; [|apply list_elem_of_singleton in Hy as ->; by right].
    apply list_elem_of_fmap in Hy as (z & -> & Hz). apply profile_names_chars in Hz.
    destruct (z =? 44) eqn:Ez; [by right|]. destruct (z =? 32) eqn:Ez'; [by right|]. left. destruct Hz as [?|[?|?]]; [done|lia|lia].
Qed.

Lemma glob_words l : Forall (fun s => s <> [] /\ name_chars_in s) l -> concat (map glob l) = l.
Proof.
  induction 1 as [|w l [_ Hw] _ IH]; [done|]. cbn [map concat].
  rewrite IH, glob_plain; [done|]. apply forallb_forall. intros x Hx%list_elem_of_In.
  unfold name_chars_in in Hw. rewrite Forall_forall in Hw. specialize (Hw x Hx).
  unfold name_char, name_start, in_range in Hw. lia.
Qed.

(** What [validate] makes sure of, and what it rejects. *)
Definition scope_ok (s : str) : Prop :=
  is_dir fs (path dir s) = true /\ is_level (level_name c s) = true /\
  is_Some (text_at fs (preset_path dir s (level_name c s))).

Lemma validate_scopes_spec ss :
  Forall (fun s => s <> [] /\ name_chars_in s) ss -> is_ok (validate_scopes fs dir custom ss) = true <-> Forall scope_ok ss.
Proof.
  induction 1 as [|s ss [Hne Hs] _ IH]; [done|]. rewrite Forall_cons, <- IH. destruct s as [|x s]; [done|].
  cbn [validate_scopes]. unfold scope_ok. destruct (is_dir fs _); cbn [negb]; [|by split; [|intros [(? & _) _]]].
  destruct (is_level (level_name c (x :: s))) eqn:Hl.
  - rewrite level_for_name by done. cbn [mbind res_bind].
    destruct (text_at fs _) eqn:Et; [|split; [done|intros [(_ & _ & [? ?]) _]; done]].
    split; [intros H; repeat split; [by eexists|done]|by intros [_ ?]].
  - apply level_for_error in Hl; [|done]. destruct (level_for custom (x :: s)); [done|].
    cbn [mbind res_bind is_ok]. split; [done|]. by intros [(_ & ? & _) _].
Qed.

Lemma validate_spec : is_ok (validate fs dir custom) = true <-> Forall scope_ok (enabled c).
Proof.
  unfold validate. rewrite profiles_text_spec, echo_profiles.
  assert (E : tr 44 32 (profile_names c ++ [NL]) = tr 44 32 (profile_names c) ++ [NL]) by (unfold tr; by rewrite map_app).
  rewrite E, substituted_line by (apply tr_profiles_no; by left).
  assert (Hg : concat (map glob (fields (tr 44 32 (profile_names c)))) = fields (tr 44 32 (profile_names c))).
  { apply glob_words. pose proof enabled_chars as H. by apply Forall_cons in H as [_ H]. }
  rewrite Hg. apply validate_scopes_spec, enabled_chars.
Qed.

(** After a successful [validate] every enabled scope is resolved. *)
Lemma resolve_scopes_entries ss :
  Forall (fun s => s <> [] /\ name_chars_in s) ss -> Forall scope_ok ss ->
  resolve_scopes fs dir custom ss =
  (map entry_text (concat (map (fun s => map (preset_entry c s) (preset_pairs fs dir c s)) ss)), true).
Proof.
  induction 1 as [|s ss [_ Hs] _ IH]; intros Hok; [done|].
  apply Forall_cons in Hok as [(_ & Hl & [t Ht]) Hok]. cbn [resolve_scopes map concat].
  rewrite (resolve_scope_entries s t), IH by done. unfold preset_pairs at 2. rewrite Ht. by rewrite map_app.
Qed.

Lemma resolve_extras_entries :
  resolve_extras fs dir custom = map entry_text (extra_entries fs dir c (records (cut_f1 custom))).
Proof.
  unfold resolve_extras, extra_entries. rewrite map_filter_map.
  pose proof (layer_names _ _ Hlayer) as Hk. induction Hk as [|k ks Hk _ IH]; [done|].
  cbn [filter_map]. rewrite IH, (seen_keys_spec fs dir k), (layer_get _ _ Hlayer) by done.
  by case_bool_decide.
Qed.

Lemma resolve_all_entries :
  is_ok (validate fs dir custom) = true ->
  resolve_all fs dir custom = (map entry_text (resolved_entries fs dir c (records (cut_f1 custom))), true).
Proof.
  intros Hv%validate_spec. unfold resolve_all. rewrite scopes_enabled.
  - rewrite resolve_scopes_entries by (done || apply enabled_chars). rewrite resolve_extras_entries.
    unfold resolved_entries. by rewrite map_app.
  - eapply Forall_impl; [exact Hv|]. by intros s (? & _).
Qed.

(** ** The entries *)

Lemma custom_fine k v : is_name k = true -> NL ∉ v -> entry_fine (lit "custom", k, v).
Proof. intros Hk Hv. repeat split; try done; apply (bool_decide_unpack _); vm_compute; exact I. Qed.

Lemma preset_pairs_fine s kv :
  kv ∈ preset_pairs fs dir c s -> is_name kv.1 = true /\ (NL ∉ kv.2).
Proof.
  unfold preset_pairs. destruct (text_at fs _) as [t|] eqn:Et; [|intros H; by apply elem_of_nil in H].
  intros Hkv. split; [by apply (proj1 (Forall_forall _ _) (Hpresets _ _ _ Et) kv)|].
  pose proof (env_pairs_no_newlines t) as Hn. unfold no_newlines in Hn. rewrite Forall_forall in Hn. by apply Hn.
Qed.

Lemma preset_source_fine s :
  name_chars_in s -> is_level (level_name c s) = true ->
  (TAB ∉ lit "preset:" ++ s ++ lit "/" ++ level_name c s) /\ (NL ∉ lit "preset:" ++ s ++ lit "/" ++ level_name c s).
Proof.
  intros Hs Hl%level_chars. rewrite Forall_forall in Hl.
  assert (H : forall x, (x = TAB \/ x = NL) -> x ∉ lit "preset:" ++ s ++ lit "/" ++ level_name c s).
  { intros x Hx. rewrite !not_elem_of_app. repeat split.
    - destruct Hx as [->| ->]; apply (bool_decide_unpack _); vm_compute; exact I.
    - apply (name_chars_no s); [done|]. by destruct Hx as [->| ->].
    - destruct Hx as [->| ->]; apply (bool_decide_unpack _); vm_compute; exact I.
    - intros Hin%Hl. naive_solver. }
  split; apply H; naive_solver.
Qed.

Lemma resolved_entries_fine :
  Forall scope_ok (enabled c) -> Forall entry_fine (resolved_entries fs dir c (records (cut_f1 custom))).
Proof.
  intros Hok. unfold resolved_entries. apply Forall_app. split.
  - apply Forall_forall. intros e (s & Hs & He)%elem_concat_map. apply list_elem_of_fmap in He as (kv & -> & Hkv).
    pose proof enabled_chars as Hc. rewrite Forall_forall in Hc, Hok.
    destruct (Hc s Hs) as [_ Hsc]. destruct (Hok s Hs) as (_ & Hl & _).
    destruct (preset_pairs_fine s kv Hkv) as [Hk Hv]. unfold preset_entry. destruct (c kv.1) as [v|] eqn:Ev.
    + apply custom_fine; [done|]. by apply (layer_values _ _ Hlayer kv.1).
    + destruct (preset_source_fine s Hsc Hl). by repeat split.
  - eapply filter_map_forall; [|exact (layer_names _ _ Hlayer)]. intros k e Hk. cbv beta.
    case_bool_decide; [done|]. intros [= <-]. apply custom_fine; [done|].
    destruct (c k) as [v|] eqn:Ev; [|apply not_elem_of_nil]. by apply (layer_values _ _ Hlayer k).
Qed.

Lemma last_value_presets k ss :
  last_value k (map entry_pair (concat (map (fun s => map (preset_entry c s) (preset_pairs fs dir c s)) ss))) =
  match last_value k (concat (map (preset_pairs fs dir c) ss)) with
  | Some v => Some (default v (c k))
  | None => None
  end.
Proof.
  induction ss as [|s ss IH]; [done|]. cbn [map concat]. rewrite map_app, !last_value_app, IH.
  destruct (last_value k (concat _)); [done|]. clear IH.
  induction (preset_pairs fs dir c s) as [|[a v] ps IH]; [done|]. cbn [map]. rewrite !last_value_cons, IH.
  destruct (last_value k ps); [done|]. unfold entry_pair, preset_entry. cbn [fst snd].
  unfold str_eqb. destruct (c a) as [w|] eqn:Ew; cbn [fst snd]; case_bool_decide; subst; try rewrite Ew; done.
Qed.

Lemma elem_extra_entries keys e :
  e ∈ extra_entries fs dir c keys <->
  exists k, k ∈ keys /\ (k ∉ all_preset_keys fs dir) /\ e = (lit "custom", k, default [] (c k)).
Proof.
  unfold extra_entries. rewrite elem_filter_map. split.
  - intros (k & Hk & H). case_bool_decide; [done|]. exists k. by simplify_eq.
  - intros (k & Hk & Hn & ->). exists k. split; [done|]. by case_bool_decide.
Qed.

Lemma last_value_extras k :
  last_value k (map entry_pair (extra_entries fs dir c (records (cut_f1 custom)))) =
  if bool_decide (k ∈ all_preset_keys fs dir) then None else c k.
Proof.
  pose proof (layer_keys _ _ Hlayer k) as Hk.
  assert (Hin : forall v, (k, v) ∈ map entry_pair (extra_entries fs dir c (records (cut_f1 custom))) <->
                is_Some (c k) /\ (k ∉ all_preset_keys fs dir) /\ v = default [] (c k)).
  { intros v. rewrite list_elem_of_fmap. setoid_rewrite elem_extra_entries. rewrite <- Hk. split.
    - intros (e & E & k' & Hk' & Hn & ->). injection E as -> ->. naive_solver.
    - intros (Hs & Hn & ->). eexists. split; [|by exists k]. done. }
  case_bool_decide as Hb.
  - apply last_value_none. intros ([k' v] & -> & Hv)%list_elem_of_fmap. apply Hin in Hv. naive_solver.
  - destruct (c k) as [v|] eqn:Ev.
    + apply last_value_only; [apply Hin; naive_solver|]. intros v' Hv%Hin. naive_solver.
    + apply last_value_none. intros ([k' v] & -> & Hv)%list_elem_of_fmap. apply Hin in Hv as ([? ?] & _). done.
Qed.

(** The last value of a key is its effective one. *)
Lemma entries_effective k :
  last_value k (map entry_pair (resolved_entries fs dir c (records (cut_f1 custom)))) = effective fs dir c k.
Proof.
  unfold resolved_entries, effective. rewrite map_app, last_value_app, last_value_extras, last_value_presets.
  fold (preset_layer fs dir c).
  destruct (last_value k (preset_layer fs dir c)), (bool_decide (k ∈ all_preset_keys fs dir)), (c k); done.
Qed.

End resolved.

(** ** The fields of a line *)

Lemma split_tab_last a b : TAB ∉ b -> split_once TAB (reverse (a ++ [TAB] ++ b)) = Some (reverse b, reverse a).
Proof.
  intros Hb. rewrite !reverse_app. cbn [reverse rev_append app]. rewrite <- app_assoc. cbn [app].
  apply split_once_app. by rewrite elem_of_reverse.
Qed.

Lemma entry_fields e :
  entry_fine e -> line_key (entry_text e) = e.1.2 /\ line_value (entry_text e) = e.2 /\ line_source (entry_text e) = e.1.1.
Proof.
  intros (Hk & _ & Hs & _). unfold line_key, line_value, line_source, entry_text, resolved_line.
  unfold until_first, after_first, until_last, after_last. rewrite split_tab by name_char.
  rewrite split_tab_last by done. by rewrite !reverse_involutive.
Qed.
