(* ===== verification/ConfigTheorems.v ===== *)
(** * Theorems on the configuration tool *)
From S2P Require Import Prelude Prog Text Js BanFile BanFileText Shell ShellText.
From S2P Require Import Net Bpf Json Http HttpSpec Collect UiViews.
From S2P Require Import Config Presets ConfigRuns ConfigText ConfigResolve.

(** ** Commands on a custom layer *)

Section commands.
Context {AWK : Awk} {POSIX : Posix} (fs : files) (dir custom : str) (c : env).
Hypothesis Hlayer : custom_layer custom c.
Hypothesis Hpresets : preset_names fs dir.
Hypothesis Hplain : profiles_plain c = true.
Hypothesis Hok : Forall (scope_ok fs dir c) (enabled c).

Abbreviation all_entries := (resolved_entries fs dir c (records (cut_f1 custom))).

Lemma validate_ok : validate fs dir custom = Ok tt.
Proof.
  pose proof (proj2 (validate_spec fs dir custom c Hlayer Hplain) Hok) as H.
  by destruct (validate fs dir custom) as [[]|].
Qed.

Lemma entries_fine : Forall entry_fine all_entries.
Proof. by apply resolved_entries_fine. Qed.

Lemma all_lines : resolve_all fs dir custom = (map entry_text all_entries, true).
Proof. apply resolve_all_entries; try done. by rewrite validate_ok. Qed.

Lemma map_lines {A} (f : str -> A) (g : str * str * str -> A) :
  (forall e, entry_fine e -> f (entry_text e) = g e) -> map f (map entry_text all_entries) = map g all_entries.
Proof.
  intros H. rewrite map_map. apply map_ext_in. intros e He%list_elem_of_In. apply H.
  by apply (proj1 (Forall_forall _ _) entries_fine).
Qed.

Lemma resolve_exports : resolve fs dir custom [] (lit "yes") = map export_line (map entry_pair all_entries).
Proof.
  unfold resolve. rewrite all_lines. cbn [fst filter_service]. rewrite (map_map entry_pair). apply map_lines. intros e He.
  destruct (entry_fields e He) as (Ek & Ev & _). unfold resolve_line, export_line, entry_pair, single_quoted. cbn [fst snd].
  rewrite Ek, Ev. replace (str_eqb (lit "yes") (lit "yes")) with true by done.
  rewrite substituted_plain; [done|]. apply sed_quote_no_newline. by destruct He as (_ & ? & _).
Qed.

Lemma resolve_evaluates :
  eval_exports (print_records (resolve fs dir custom [] (lit "yes"))) = Some (map entry_pair all_entries).
Proof.
  rewrite resolve_exports. apply eval_export_lines, List.Forall_map.
  eapply Forall_impl; [apply entries_fine|]. by intros e (? & _).
Qed.

Lemma porcelain_lines : show_porcelain fs dir custom [] = map UiViews.porcelain_line all_entries.
Proof.
  unfold show_porcelain. rewrite all_lines. cbn [fst filter_service]. apply map_lines. intros e He.
  destruct (entry_fields e He) as (Ek & Ev & Es). unfold Config.porcelain_line, UiViews.porcelain_line.
  by rewrite Ek, Ev, Es.
Qed.

End commands.

(** ** The command line *)

(** Comparisons of literals. *)
Ltac lit_eqb :=
  repeat match goal with
  | |- context [str_eqb (lit ?a) (lit ?b)] =>
    let v := eval vm_compute in (str_eqb (lit a) (lit b)) in
    replace (str_eqb (lit a) (lit b)) with v by (vm_compute; reflexivity)
  end; cbn [orb andb negb].

Section command_line.
Context {AWK : Awk} {POSIX : Posix}.

Definition is_command (cmd : str) : bool :=
  existsb (str_eqb cmd) [lit "resolve"; lit "show"; lit "diff"; lit "action-env"].

Lemma shield_config_run fs self e dir cmd args o custom :
  find_presets fs self e = Ok dir -> is_command cmd = true ->
  parse_options args (default_options e) = Ok o -> read_custom fs dir o e = Ok custom ->
  shield_config fs self e (cmd :: args) = run_command fs dir cmd o custom.
Proof.
  intros Hd Hc Ho Hr. unfold shield_config. rewrite Hd. cbn [mbind res_bind].
  assert (Hcmd : cmd = lit "resolve" \/ cmd = lit "show" \/ cmd = lit "diff" \/ cmd = lit "action-env").
  { unfold is_command, str_eqb in Hc. cbn [existsb] in Hc. rewrite !orb_true_iff, !bool_decide_eq_true in Hc. naive_solver. }
  assert (Hb : forall y, y ∈ [lit "-h"; lit "--help"; lit "help"; lit "levels"] -> str_eqb cmd y = false).
  { intros y Hy. repeat (apply elem_of_cons in Hy as [->|Hy]; [destruct Hcmd as [->|[->|[->| ->]]]; vm_compute; reflexivity|]).
    by apply elem_of_nil in Hy. }
  rewrite !Hb by set_solver. cbn [orb]. rewrite Ho. cbn [mbind res_bind]. rewrite Hr. cbn [mbind res_bind].
  destruct cmd; [by destruct Hcmd as [H|[H|[H|H]]]; vm_compute in H|done].
Qed.

Lemma options_file file o :
  file <> [] -> parse_options [lit "-f"; file; lit "--shell"] o =
  Ok (mk_options file (from_env o) (service o) (lit "yes") (porcelain o)).
Proof. intros Hf. destruct file as [|x file]; [done|]. cbn [parse_options]. destruct o. lit_eqb. done. Qed.

Lemma options_env o :
  parse_options [lit "--from-env"; lit "--shell"] o =
  Ok (mk_options (opt_file o) true (service o) (lit "yes") (porcelain o)).
Proof. cbn [parse_options]. destruct o. lit_eqb. done. Qed.

Lemma options_porcelain file o :
  file <> [] -> parse_options [lit "--porcelain"; lit "-f"; file] o =
  Ok (mk_options file (from_env o) (service o) (shell_out o) (lit "yes")).
Proof. intros Hf. destruct file as [|x file]; [done|]. cbn [parse_options]. destruct o. lit_eqb. done. Qed.

Lemma read_file fs dir e o t :
  from_env o = false -> opt_file o <> [] -> text_at fs (opt_file o) = Some t ->
  read_custom fs dir o e = Ok (parse_envfile t).
Proof. intros He Hf Ht. unfold read_custom. rewrite He. destruct (opt_file o); [done|]. by rewrite Ht. Qed.

Lemma resolve_file_run fs self e dir file t :
  find_presets fs self e = Ok dir -> file <> [] -> text_at fs file = Some t ->
  validate fs dir (parse_envfile t) = Ok tt ->
  main fs self e [lit "resolve"; lit "-f"; file; lit "--shell"] =
  (print_records (resolve fs dir (parse_envfile t) [] (lit "yes")), 0).
Proof.
  intros Hd Hf Ht Hv. unfold main.
  erewrite shield_config_run; [|done|by vm_compute|by apply options_file|by apply (read_file _ _ _ _ t)].
  unfold run_command. rewrite Hv. cbn [mbind res_bind]. lit_eqb. done.
Qed.

Lemma resolve_env_run fs self e dir :
  find_presets fs self e = Ok dir -> validate fs dir (collect_from_env fs dir e) = Ok tt ->
  main fs self e [lit "resolve"; lit "--from-env"; lit "--shell"] =
  (print_records (resolve fs dir (collect_from_env fs dir e) [] (lit "yes")), 0).
Proof.
  intros Hd Hv. unfold main.
  erewrite shield_config_run; [|done|by vm_compute|apply options_env|reflexivity].
  unfold run_command. rewrite Hv. cbn [mbind res_bind]. lit_eqb. done.
Qed.

Lemma show_porcelain_run fs self e dir file t :
  find_presets fs self e = Ok dir -> file <> [] -> text_at fs file = Some t ->
  validate fs dir (parse_envfile t) = Ok tt ->
  main fs self e [lit "show"; lit "--porcelain"; lit "-f"; file] =
  (print_records (show_porcelain fs dir (parse_envfile t) []), 0).
Proof.
  intros Hd Hf Ht Hv. unfold main.
  erewrite shield_config_run; [|done|by vm_compute|by apply options_porcelain|by apply (read_file _ _ _ _ t)].
  unfold run_command. rewrite Hv. cbn [mbind res_bind]. lit_eqb. done.
Qed.

End command_line.

(** ** A deployment *)

Section deployment.
Context {AWK : Awk} {POSIX : Posix}.

(** The tool finds its presets, and they are well formed. *)
Record installed (fs : files) (self : str) (e : environ) (dir : str) : Prop := {
  presets_found : find_presets fs self e = Ok dir;
  presets_named : preset_names fs dir;
}.

(** A configuration that can be resolved. *)
Record resolvable (fs : files) (dir : str) (c : env) : Prop := {
  plain_list : profiles_plain c = true;
  scopes_there : Forall (scope_ok fs dir c) (enabled c);
}.

(** The env file [file] of text [t], which gives the custom layer [c]. *)
Record env_file (fs : files) (file t : str) (c : env) : Prop := {
  file_named : file <> [];
  file_text : text_at fs file = Some t;
  file_keys : names_in (env_pairs t);
  file_values k : c k = last_value k (env_pairs t);
}.

Lemma env_file_layer fs file t c : env_file fs file t c -> custom_layer (parse_envfile t) c.
Proof. intros [_ _ Hk Hv]. apply (custom_layer_ext _ (fun k => last_value k (env_pairs t))); [done|]. by apply file_layer. Qed.

Lemma env_file_keys fs file t c : env_file fs file t c -> records (cut_f1 (parse_envfile t)) = (env_pairs t).*1.
Proof. intros [_ _ Hk _]. apply (cut_table (env_pairs t)); [apply env_pairs_no_newlines|done]. Qed.

Lemma resolved_with fs self e dir custom c :
  custom_layer custom c -> installed fs self e dir -> resolvable fs dir c ->
  validate fs dir custom = Ok tt /\
  exists l, eval_exports (print_records (resolve fs dir custom [] (lit "yes"))) = Some l /\
            forall k, last_value k l = effective fs dir c k.
Proof.
  intros Hl [_ Hn] [Hp Ho]. split; [by apply (validate_ok fs dir custom c)|].
  exists (map entry_pair (resolved_entries fs dir c (records (cut_f1 custom)))).
  split; [by apply resolve_evaluates|]. intros k. by apply entries_effective.
Qed.

(** C12.  Custom always wins, presets fill the rest: what a shell that evaluates
    the output of [shield-config resolve -f FILE --shell] assigns to a key is,
    whatever characters the values have, the last value the env file gives it,
    or else the value in the preset at the level chosen for its scope. *)
Theorem resolved_environment fs self e dir file t c :
  installed fs self e dir -> env_file fs file t c -> resolvable fs dir c ->
  exists out l,
    main fs self e [lit "resolve"; lit "-f"; file; lit "--shell"] = (out, 0) /\
    eval_exports out = Some l /\ forall k, last_value k l = effective fs dir c k.
Proof.
  intros Hi Hf Hr. destruct (resolved_with fs self e dir _ c (env_file_layer _ _ _ _ Hf) Hi Hr) as (Hv & l & Hl & Hk).
  eexists _, l. split; [|by split]. destruct Hi, Hf. by apply resolve_file_run.
Qed.

(** ** Host and container *)

(** The same presets, wherever they are. *)
Record same_presets (fs1 : files) (dir1 : str) (fs2 : files) (dir2 : str) : Prop := {
  same_texts scope level : text_at fs1 (preset_path dir1 scope level) = text_at fs2 (preset_path dir2 scope level);
  same_dirs scope : is_dir fs1 (path dir1 scope) = is_dir fs2 (path dir2 scope);
  same_entries : entries_of fs1 dir1 = entries_of fs2 dir2;
}.

Lemma same_preset_keys fs1 dir1 fs2 dir2 :
  same_presets fs1 dir1 fs2 dir2 -> all_preset_keys fs1 dir1 = all_preset_keys fs2 dir2.
Proof.
  intros [Ht _ He]. unfold all_preset_keys. rewrite He. f_equal. f_equal. apply map_ext. intros d. by rewrite Ht.
Qed.

(** Keys the two sides of a deployment must agree on; the images set one of
    their own. *)
Definition shared_key (fs : files) (dir k : str) : Prop :=
  of_interest fs dir k = true /\ k <> lit "SHIELD_PRESET_DIR".

Definition selects (k : str) : Prop :=
  k = lit "SHIELD_PROFILES" \/ k = lit "SHIELD_PRESET" \/ exists s, k = lit "SHIELD_" ++ s ++ lit "_PRESET".

Lemma selects_shared fs dir k : selects k -> shared_key fs dir k.
Proof.
  intros Hk. split.
  - unfold of_interest. apply orb_true_iff. right. apply starts_with_spec.
    destruct Hk as [->|[->|[s ->]]]; eexists; [by vm_compute|by vm_compute|done].
  - intros ->. destruct Hk as [H|[H|[s H]]]; [by vm_compute in H|by vm_compute in H|].
    apply (f_equal reverse) in H. rewrite !reverse_app in H. change (lit "_PRESET") with ([95;80;82;69;83;69;84] : str) in H.
    cbn in H. vm_compute in H. done.
Qed.

Lemma enabled_ext c1 c2 : (forall k, selects k -> c1 k = c2 k) -> enabled c1 = enabled c2 /\ forall s, level_name c1 s = level_name c2 s.
Proof.
  intros H. unfold enabled, profile_names, level_name. split; [by rewrite H by (by left)|].
  intros s. rewrite (H (lit "SHIELD_PRESET")) by (by right; left).
  rewrite (H (lit "SHIELD_" ++ tr_upper s ++ lit "_PRESET")) by (by right; right; eexists). done.
Qed.

Lemma preset_layer_ext fs1 dir1 fs2 dir2 c1 c2 :
  same_presets fs1 dir1 fs2 dir2 -> (forall k, selects k -> c1 k = c2 k) ->
  preset_layer fs1 dir1 c1 = preset_layer fs2 dir2 c2.
Proof.
  intros [Ht _ _] [He Hl]%enabled_ext. unfold preset_layer. rewrite He. f_equal. apply map_ext. intros s.
  unfold preset_pairs. by rewrite Hl, Ht.
Qed.

Lemma effective_ext fs1 dir1 fs2 dir2 c1 c2 k :
  same_presets fs1 dir1 fs2 dir2 -> (forall k, selects k -> c1 k = c2 k) -> c1 k = c2 k ->
  effective fs1 dir1 c1 k = effective fs2 dir2 c2 k.
Proof.
  intros Hs Hc Hk. unfold effective.
  by rewrite (preset_layer_ext fs1 dir1 fs2 dir2 c1 c2), (same_preset_keys fs1 dir1 fs2 dir2), Hk.
Qed.

Lemma resolvable_ext fs1 dir1 fs2 dir2 c1 c2 :
  same_presets fs1 dir1 fs2 dir2 -> (forall k, selects k -> c1 k = c2 k) ->
  resolvable fs1 dir1 c1 -> resolvable fs2 dir2 c2.
Proof.
  intros [Ht Hd _] Hc [Hp Ho]. pose proof (enabled_ext c1 c2 Hc) as [He Hl]. split.
  - unfold profiles_plain, profile_names in *. by rewrite <- Hc by (by left).
  - rewrite <- He. eapply Forall_impl; [exact Ho|]. intros s (H1 & H2 & H3). unfold scope_ok. by rewrite <- Hd, <- Hl, <- Ht.
Qed.

(** C23.  Host mode and container mode agree: let the container's environment
    give every configuration key the value the host's env file gives it last
    (or leave it unset).  Then what both entry points evaluate assigns the same
    value, or none, to every such key. *)
Theorem modes_agree fs1 self1 e1 dir1 file t c fs2 self2 e2 dir2 :
  installed fs1 self1 e1 dir1 -> env_file fs1 file t c -> resolvable fs1 dir1 c ->
  installed fs2 self2 e2 dir2 -> same_presets fs1 dir1 fs2 dir2 -> environ_ok e2 ->
  (forall k, shared_key fs2 dir2 k -> e2 !! k = c k) ->
  exists out1 out2 l1 l2,
    main fs1 self1 e1 [lit "resolve"; lit "-f"; file; lit "--shell"] = (out1, 0) /\ eval_exports out1 = Some l1 /\
    main fs2 self2 e2 [lit "resolve"; lit "--from-env"; lit "--shell"] = (out2, 0) /\ eval_exports out2 = Some l2 /\
    forall k, shared_key fs2 dir2 k -> last_value k l1 = last_value k l2.
Proof.
  intros Hi1 Hf Hr1 Hi2 Hs He Hagree.
  assert (Hc : forall k, shared_key fs2 dir2 k -> c k = env_custom fs2 dir2 e2 k).
  { intros k Hk. rewrite <- Hagree by done. unfold env_custom. by destruct Hk as [-> _]. }
  assert (Hsel : forall k, selects k -> c k = env_custom fs2 dir2 e2 k) by (intros k Hk; by apply Hc, selects_shared).
  destruct (resolved_with fs1 self1 e1 dir1 _ c (env_file_layer _ _ _ _ Hf) Hi1 Hr1) as (Hv1 & l1 & Hl1 & Hk1).
  pose proof (env_layer fs2 dir2 e2 (presets_named _ _ _ _ Hi2) He) as Hlayer2.
  pose proof (resolvable_ext fs1 dir1 fs2 dir2 _ _ Hs Hsel Hr1) as Hr2.
  destruct (resolved_with fs2 self2 e2 dir2 _ _ Hlayer2 Hi2 Hr2) as (Hv2 & l2 & Hl2 & Hk2).
  eexists _, _, l1, l2. split; [destruct Hi1, Hf; by apply resolve_file_run|]. split; [done|].
  split; [destruct Hi2; by apply resolve_env_run|]. split; [done|].
  intros k Hk. rewrite Hk1, Hk2. apply effective_ext; [done|done|by apply Hc].
Qed.

(** ** Nothing is printed before everything is known *)

Lemma level_for_stop custom scope st : level_for custom scope = Err st -> stop_status st = 1.
Proof. unfold level_for. cbv zeta. case_if; [done|]. by intros [= <-]. Qed.

Lemma validate_scopes_stop fs dir custom ss st : validate_scopes fs dir custom ss = Err st -> stop_status st = 1.
Proof.
  induction ss as [|s ss IH]; [done|]. cbn [validate_scopes]. destruct s as [|x s]; [done|].
  destruct (is_dir fs _); cbn [negb]; [|by intros [= <-]].
  destruct (level_for custom (x :: s)) as [lv|e] eqn:El; cbn [mbind res_bind]; [|intros [= <-]; by eapply level_for_stop].
  destruct (text_at fs _); [done|]. by intros [= <-].
Qed.

Lemma invalid_command fs self e dir cmd args o custom c :
  installed fs self e dir -> is_command cmd = true ->
  parse_options args (default_options e) = Ok o -> read_custom fs dir o e = Ok custom ->
  custom_layer custom c -> profiles_plain c = true -> ~ Forall (scope_ok fs dir c) (enabled c) ->
  main fs self e (cmd :: args) = ([], 1).
Proof.
  intros [Hd Hn] Hc Ho Hr Hl Hp Hno. pose proof (validate_spec fs dir custom c Hl Hp) as Hv.
  unfold main. rewrite (shield_config_run fs self e dir cmd args o custom) by done. unfold run_command.
  destruct (validate fs dir custom) as [[]|st] eqn:Ev; cbn [is_ok mbind res_bind] in *; [by destruct Hno; apply Hv|].
  f_equal. by eapply validate_scopes_stop.
Qed.

(** *** What a command prints, from the entries of the configuration *)

(** The keys of a service: those of its [default.env]. *)
Definition service_keys (fs : files) (dir service : str) : list str :=
  match text_at fs (preset_path dir service (lit "default")) with Some t => (env_pairs t).*1 | None => [] end.

(** The entries a command is asked for: all, or those of one service. *)
Definition asked (fs : files) (dir service : str) (es : list (str * str * str)) : list (str * str * str) :=
  match service with
  | [] => es
  | _ => List.filter (fun e => bool_decide (e.1.2 ∈ service_keys fs dir service)) es
  end.

Definition plain_row (e : str * str * str) : str := e.1.2 ++ lit "=" ++ e.2.
Definition table_row (e : str * str * str) : str :=
  lit "  " ++ pad_right 34 e.1.2 ++ lit " " ++ pad_right 26 (shown_value e.2) ++ lit " " ++ e.1.1.
Definition diff_row (e : str * str * str) : str := lit "  " ++ pad_right 34 e.1.2 ++ lit " " ++ shown_value e.2.

Definition heading (custom : str) (c : env) (service : str) : str :=
  match service with
  | [] => lit "profiles " ++ default (lit "strfry") (c (lit "SHIELD_PROFILES")) ++
          lit "   preset " ++ level_name c (lit "core")
  | _ => lit "service " ++ service ++ lit "   preset " ++ unwrap_or [] (level_for custom service)
  end.

(** The values of a key, one after the other: one, unless two scopes have it. *)
Definition values_of (es : list (str * str * str)) : env :=
  fun k => Some (concat (map snd (List.filter (fun kv => str_eqb kv.1 k) (map entry_pair es)))).

(** What the action carries: the keys that have a value that is not empty. *)
Definition carried (c : env) : list (str * str) :=
  filter_map (fun k => match c k with Some (x :: v) => Some (k, x :: v) | _ => None end) ACTION_KEYS.

(** The assignments of the action. *)
Definition carried_text (c : env) : str := trim_one_space (concat (map assignment_text (carried c))).

Definition command_output (fs : files) (dir cmd : str) (o : options) (custom : str) (c : env)
    (es : list (str * str * str)) : list str :=
  let own := asked fs dir (service o) es in
  if str_eqb cmd (lit "resolve") then
    map (if str_eqb (shell_out o) (lit "yes") then fun e => export_line (entry_pair e) else plain_row) own
  else if str_eqb cmd (lit "show") then
    if str_eqb (porcelain o) (lit "yes") then map UiViews.porcelain_line own
    else [heading custom c (service o); [];
          lit "  " ++ pad_right 34 (lit "KEY") ++ lit " " ++ pad_right 26 (lit "VALUE") ++ lit " SOURCE"] ++
         map table_row own
  else if str_eqb cmd (lit "diff") then
    match List.filter (fun e => str_eqb e.1.1 (lit "custom")) own with
    | [] => []
    | own => (lit "  " ++ pad_right 34 (lit "KEY") ++ lit " YOUR VALUE") :: map diff_row own
    end
  else [carried_text (values_of es)].

Lemma split_printed ks : ks <> [] -> Forall (fun k => is_name k = true) ks -> split_char NL (substituted (print_records ks)) = ks.
Proof.
  destruct ks as [|x ks _] using rev_ind; [done|]. intros _ [Hks Hx]%Forall_app. apply Forall_cons in Hx as [Hx _].
  rewrite substituted_print by (by (apply name_ne || name_char)).
  induction Hks as [|k ks Hk _ IH]; [apply split_char_none; by name_char|].
  unfold print_records in *. cbn [map concat app]. rewrite <- !app_assoc. cbn [app].
  rewrite split_char_app by name_char. f_equal. exact IH.
Qed.

Lemma elem_split_char sep b s : b <> sep -> b ∈ s -> exists p, p ∈ split_char sep s /\ b ∈ p.
Proof.
  intros Hb. induction s as [|c s IH]; [intros H; by apply elem_of_nil in H|]. cbn [split_char].
  intros [<-|Hin]%elem_of_cons.
  - replace (b =? sep) with false by lia. destruct (split_char sep s) as [|p ps]; eexists; split; by left.
  - destruct (IH Hin) as (p & Hp & Hbp). destruct (c =? sep); [exists p; split; [by right|done]|].
    destruct (split_char sep s) as [|q qs]; [by apply elem_of_nil in Hp|].
    apply elem_of_cons in Hp as [->|Hp]; [exists (c :: q)|exists p]; (split; [|by (try right)]); [by left|by right].
Qed.

Lemma filter_service_entries fs dir service es :
  preset_names fs dir -> Forall entry_fine es ->
  filter_service fs dir service (map entry_text es) = map entry_text (asked fs dir service es).
Proof.
  intros Hp Hes. unfold filter_service, asked, service_keys. destruct service as [|x service]; [done|].
  destruct (text_at fs (preset_path dir (x :: service) (lit "default"))) as [t|] eqn:Et.
  2: { cbn. clear. induction es as [|e es IH]; [done|]. cbn [List.filter]. by rewrite bool_decide_eq_false_2 by apply not_elem_of_nil. }
  pose proof (Hp _ _ _ Et) as Hn.
  assert (Hk : Forall (fun k => is_name k = true) (env_pairs t).*1) by (by apply list.Forall_fmap).
  assert (Ec : cut_f1 (parse_envfile t) = print_records (env_pairs t).*1).
  { unfold cut_f1. change (parse_envfile t) with (table_text (env_pairs t)).
    rewrite records_table by (done || apply env_pairs_no_newlines). f_equal. rewrite map_map.
    clear -Hn. induction Hn as [|[k v] ps Hk _ IH]; [done|]. cbn [map fst snd]. rewrite custom_line_key by done. by rewrite IH. }
  rewrite Ec. destruct (env_pairs t).*1 as [|k0 ks] eqn:Eks.
  { cbn. clear. induction es as [|e es IH]; [done|]. cbn [List.filter]. by rewrite bool_decide_eq_false_2 by apply not_elem_of_nil. }
  pose proof (split_printed (k0 :: ks) ltac:(done) Hk) as Hs.
  assert (Hb : forall b, b <> NL -> name_char b = false -> b ∉ substituted (print_records (k0 :: ks))).
  { intros b Hb Hnc Hin. apply (elem_split_char NL b) in Hin as (k & Hkin & Hbin); [|done].
    rewrite Hs in Hkin. apply (proj1 (Forall_forall _ _) Hk) in Hkin.
    by apply name_chars, (proj1 (Forall_forall _ _)) with (x := b) in Hkin; [rewrite Hnc in Hkin|]. }
  rewrite assigned_plain by (by apply Hb).
  destruct (substituted _) as [|y ys] eqn:E; [by injection Hs; intros; subst; apply Forall_cons in Hk as [? _]|].
  rewrite Hs. clear -Hes Hk. induction Hes as [|e es He _ IH]; [done|]. cbn [map List.filter].
  destruct (entry_fields e He) as (Ek & _). unfold line_key in Ek. rewrite Ek, IH.
  replace (existsb (str_eqb e.1.2) (k0 :: ks)) with (bool_decide (e.1.2 ∈ k0 :: ks)); [by case_bool_decide|].
  apply eq_true_iff_eq. rewrite bool_decide_eq_true, existsb_exists. unfold str_eqb. split.
  - intros H. exists e.1.2. rewrite bool_decide_eq_true. split; [by apply list_elem_of_In|done].
  - intros (z & Hz & ->%bool_decide_eq_true). by apply list_elem_of_In.
Qed.

(** ** The dashboard's view *)

Lemma find_is_last k (es : list (str * str * str)) :
  (forall v v', (k, v) ∈ map entry_pair es -> (k, v') ∈ map entry_pair es -> v = v') ->
  (fun e => e.2) <$> List.find (fun e => str_eqb e.1.2 k) es = last_value k (map entry_pair es).
Proof.
  intros Hu. destruct (List.find _ es) as [[[s k'] v]|] eqn:E; cbn [fmap option_fmap option_map].
  - apply List.find_some in E as [Hin Hk]. unfold str_eqb in Hk. apply bool_decide_eq_true in Hk. cbn [fst snd] in *.
    assert (Hv : (k, v) ∈ map entry_pair es).
    { apply list_elem_of_fmap. exists (s, k', v). split; [by rewrite <- Hk|by apply list_elem_of_In]. }
    symmetry. apply last_value_only; [done|]. intros v' Hv'. by apply (Hu v' v).
  - symmetry. apply last_value_none. intros ([k' v] & -> & He)%list_elem_of_fmap.
    apply list_elem_of_fmap in He as ([[s a] w] & [= -> ->] & He). cbn [fst snd] in *.
    apply list_elem_of_In, (List.find_none _ _ E) in He. cbn [fst snd] in He. unfold str_eqb in He.
    by apply bool_decide_eq_false in He.
Qed.

(** No key has two preset values: no two enabled scopes disagree on it. *)
Definition consistent (fs : files) (dir : str) (c : env) : Prop :=
  forall k v v', (k, v) ∈ preset_layer fs dir c -> (k, v') ∈ preset_layer fs dir c -> v = v'.

Lemma entries_unique fs dir custom c k v :
  custom_layer custom c -> consistent fs dir c ->
  (k, v) ∈ map entry_pair (resolved_entries fs dir c (records (cut_f1 custom))) -> effective fs dir c k = Some v.
Proof.
  intros Hl Hc (e & E & He)%list_elem_of_fmap. unfold resolved_entries in He. apply elem_of_app in He as [He|He].
  - apply elem_concat_map in He as (s & Hs & He). apply list_elem_of_fmap in He as ([a w] & -> & Haw).
    assert (Hw : (a, w) ∈ preset_layer fs dir c) by (apply elem_concat_map; by exists s).
    assert (E' : a = k /\ v = default w (c a)).
    { unfold preset_entry, entry_pair in E. cbn [fst snd] in E. destruct (c a); by injection E as -> ->. }
    destruct E' as [-> ->]. unfold effective. by rewrite (last_value_only k w) by (done || intros; by eapply Hc).
  - apply elem_extra_entries in He as (a & Ha & Hn & ->). injection E as -> ->.
    apply (layer_keys _ _ Hl) in Ha as [w Hw]. unfold effective. rewrite Hw. cbn [default from_option].
    destruct (last_value a (preset_layer fs dir c)); [done|]. by case_bool_decide.
Qed.

(** What the dashboard can show as it is: text that does not end in a carriage
    return, which [str::lines] would take off. *)
Definition showable (v : str) : Prop := is_text v /\ list.last v <> Some 13.

Lemma ascii_is_text s : Forall (fun x => 0 <= x < 128) s -> is_text s.
Proof. intros H. eapply Forall_impl; [exact H|]. unfold is_char. intros x Hx. cbv beta in *. lia. Qed.

Lemma name_chars_ascii s : name_chars_in s -> is_text s.
Proof.
  intros H. apply ascii_is_text. eapply Forall_impl; [exact H|]. unfold name_char, name_start, in_range. intros x Hx. cbv beta in *. lia.
Qed.

Lemma level_text lv : is_level lv = true -> is_text lv.
Proof.
  intros (a & b & E)%contains_spec. assert (H : is_text ([32] ++ LEVELS_TEXT ++ [32])) by (apply (bool_decide_unpack _); vm_compute; exact I).
  rewrite E in H. unfold is_text in *. rewrite !Forall_app in H. naive_solver.
Qed.

Lemma source_text fs dir custom c e :
  profiles_plain c = true -> Forall (scope_ok fs dir c) (enabled c) ->
  e ∈ resolved_entries fs dir c (records (cut_f1 custom)) -> is_text e.1.1.
Proof.
  intros Hp Hok He. assert (Hcustom : is_text (lit "custom")) by (apply (bool_decide_unpack _); vm_compute; exact I).
  unfold resolved_entries in He. apply elem_of_app in He as [He|He].
  - apply elem_concat_map in He as (s & Hs & He). apply list_elem_of_fmap in He as ([a w] & -> & _).
    pose proof (proj1 (Forall_forall _ _) Hok s Hs) as (_ & Hl & _).
    pose proof (proj1 (Forall_forall _ _) (enabled_chars c Hp) s Hs) as [_ Hc].
    unfold preset_entry. cbn [fst snd]. destruct (c a); [done|]. cbn [fst snd]. unfold is_text. rewrite !Forall_app.
    repeat split; [apply (bool_decide_unpack _); vm_compute; exact I|by apply name_chars_ascii
      |apply (bool_decide_unpack _); vm_compute; exact I|by apply level_text].
  - by apply elem_extra_entries in He as (a & _ & _ & ->).
Qed.

Lemma porcelain_ok_entry e :
  entry_fine e -> is_text e.1.1 -> showable e.2 -> porcelain_ok e.
Proof.
  destruct e as [[s k] v]. unfold entry_fine, showable, porcelain_ok, plain_line, UiViews.porcelain_line. cbn [fst snd].
  intros (Hk & Hv & Ht & Hs) Hst [Hvt Hcr]. repeat split.
  - unfold is_text in *. rewrite !Forall_app. split; [done|]. constructor; [done|]. apply Forall_app.
    split; [by apply name_chars_ascii, name_chars|by constructor].
  - done.
  - change 9 with TAB. by name_char.
  - rewrite !not_elem_of_app, !not_elem_of_cons, not_elem_of_app, not_elem_of_cons. change 10 with NL.
    repeat split; try done; by name_char.
  - rewrite last_app_cons, last_cons, last_app_cons, last_cons. by destruct (list.last v).
Qed.

(** The dashboard's tool: a run of [shield-config] on this machine. *)
Definition tool (fs : files) (self : str) (e : environ) (X : Type) (ev : ui X) (s : unit) (x : X) (s' : unit) : Prop :=
  match ev in ui T return T -> Prop with
  | RunCommand _ argv => fun x => exists o, x = Ok o /\
      success o = ((main fs self e argv).2 =? 0) /\ out_stdout o = as_bytes (main fs self e argv).1
  | _ => fun _ => True
  end x.

(** The dashboard shows what is in force: the value it finds for a key in
    the configuration it loads is the one the entry points put in force, for
    every key, tabs and all. *)
Theorem dashboard_shows_what_is_in_force fs self e dir path_env file t c bin :
  installed fs self e dir -> env_file fs file t c -> resolvable fs dir c -> consistent fs dir c ->
  (forall k v, effective fs dir c k = Some v -> showable v) ->
  is_Some (to_str bin) -> to_str path_env = Some file ->
  wp (tool fs self e) (@Logic.eq unit) (load bin (Some path_env)) (fun r _ => exists cfg,
    r = Ok cfg /\ forall k, get cfg k = effective fs dir c k) tt.
Proof.
  intros Hi Hf Hr Hcon Hsh [b Hb] Hfile. pose proof (env_file_layer _ _ _ _ Hf) as Hl.
  destruct (resolved_with fs self e dir _ c Hl Hi Hr) as (Hv & _). destruct Hi as [Hd Hn], Hr as [Hp Hok].
  unfold load. rewrite Hb. cbn [mbind option_bind]. rewrite Hfile. apply wp_try. unfold run. apply wp_seq, wp_call.
  intros [] _ x [] (o & -> & Ho & Hout).
  assert (Hmain : main fs self e [lit "show"; lit "--porcelain"; lit "-f"; file] =
                  (print_records (show_porcelain fs dir (parse_envfile t) []), 0)) by (destruct Hf; by apply show_porcelain_run).
  rewrite Hmain in Ho, Hout. cbn [fst snd] in *. rewrite Z.eqb_refl in Ho. rewrite Ho, Hout.
  rewrite (porcelain_lines fs dir (parse_envfile t) c Hl Hn Hp Hok). change (print_records ?l) with (printed l).
  eexists. split; [reflexivity|]. intros k. unfold get, entry_for. cbn [entries]. rewrite entries_of_listing.
  - rewrite find_is_last; [by apply entries_effective|]. intros v v' H1 H2.
    apply (entries_unique fs dir _ c) in H1, H2; try done. congruence.
  - apply Forall_forall. intros en Hen. pose proof (entries_fine fs dir _ c Hl Hn Hp Hok) as Hfine.
    rewrite Forall_forall in Hfine. apply porcelain_ok_entry; [by apply Hfine|by eapply source_text|].
    apply (Hsh en.1.2), (entries_unique fs dir _ c _ _ Hl Hcon). apply list_elem_of_fmap. by exists en.
Qed.

(** ** The assignments of the fail2ban action *)

Lemma unique_value k (ps : list (str * str)) :
  NoDup ps.*1 -> concat (map snd (List.filter (fun kv => str_eqb kv.1 k) ps)) = default [] (last_value k ps).
Proof.
  induction ps as [|[a v] ps IH]; [done|]. cbn [fmap list_fmap fst]. intros [Hn Hd]%NoDup_cons.
  rewrite last_value_cons. cbn [List.filter fst snd]. unfold str_eqb. case_bool_decide as E.
  - subst a. assert (H : last_value k ps = None) by by apply last_value_none. cbn [map concat]. unfold str_eqb in *.
    rewrite IH, H by done. by rewrite app_nil_r.
  - unfold str_eqb in *. rewrite IH by done. by destruct (last_value k ps).
Qed.

Lemma resolved_records es :
  Forall entry_fine es -> es <> [] ->
  records (substituted (print_records (map entry_text es)) ++ [NL]) = map entry_text es.
Proof.
  intros Hes Hne. assert (Hn : Forall (fun r => NL ∉ r) (map entry_text es)).
  { apply List.Forall_map. eapply Forall_impl; [exact Hes|]. intros e (Hk & Hv & _ & Hs).
    assert (Hk' : NL ∉ e.1.2) by name_char. unfold entry_text, resolved_line, NL, TAB in *. set_solver. }
  destruct es as [|e es _] using rev_ind; [done|]. rewrite map_app in *. cbn [map] in *.
  apply Forall_app in Hn as [Hn1 Hn2]. apply Forall_cons in Hn2 as [Hx _].
  rewrite substituted_print, <- print_records_snoc; [|apply Forall_app in Hes as [_ Hes]; apply Forall_cons in Hes as [(Hk & _) _];
    unfold entry_text, resolved_line; by destruct (e.1.2)|done].
  apply records_print, Forall_app. by repeat constructor.
Qed.

Lemma resolved_lines_of es k :
  Forall entry_fine es -> k <> [] ->
  concat (map line_value (List.filter (fun l => str_eqb (line_key l) k)
    (records (substituted (print_records (map entry_text es)) ++ [NL])))) =
  concat (map snd (List.filter (fun kv => str_eqb kv.1 k) (map entry_pair es))).
Proof.
  intros Hes Hk. destruct es as [|e0 es0].
  { cbn. unfold str_eqb. case_bool_decide; [by subst k|done]. }
  rewrite resolved_records by done. clear Hk. induction Hes as [|e es He _ IH]; [done|]. cbn [map List.filter].
  destruct (entry_fields e He) as (Ek & Ev & _). rewrite Ek. cbn [entry_pair fst]. unfold entry_pair at 1. cbn [fst].
  destruct (str_eqb e.1.2 k); [|exact IH]. cbn [map concat]. by rewrite Ev, IH.
Qed.

Lemma effective_no_newline fs dir custom c k v :
  custom_layer custom c -> preset_names fs dir -> resolvable fs dir c -> effective fs dir c k = Some v -> NL ∉ v.
Proof.
  intros Hl Hn [Hp Ho] H. rewrite <- (entries_effective fs dir custom c Hl) in H.
  apply last_value_elem, list_elem_of_fmap in H as (en & [= -> ->] & Hen).
  pose proof (entries_fine fs dir custom c Hl Hn Hp Ho) as Hf. rewrite Forall_forall in Hf.
  by destruct (Hf en Hen) as (_ & ? & _).
Qed.

(** The words of the action, from the values of the entries. *)
Lemma action_env_values fs dir custom c :
  custom_layer custom c -> preset_names fs dir -> resolvable fs dir c ->
  action_env fs dir custom =
  Ok [carried_text (values_of (resolved_entries fs dir c (records (cut_f1 custom))))].
Proof.
  intros Hl Hn [Hp Ho]. unfold action_env, carried_text. rewrite (all_lines fs dir custom c) by done. do 3 f_equal.
  unfold carried. assert (Hk : Forall (fun k => k <> []) ACTION_KEYS) by (apply (bool_decide_unpack _); vm_compute; exact I).
  pose proof (entries_fine fs dir custom c Hl Hn Hp Ho) as Hfine. revert Hfine.
  generalize (resolved_entries fs dir c (records (cut_f1 custom))) as es. intros es Hfine.
  induction Hk as [|k ks Hk _ IH]; [done|]. cbn [map filter_map concat]. rewrite IH. clear IH.
  assert (Hno : NL ∉ concat (map snd (List.filter (fun kv => str_eqb kv.1 k) (map entry_pair es)))).
  { intros (kv & Hkv & Hin)%elem_concat_map. apply list_elem_of_In, List.filter_In in Hkv as [Hkv _].
    apply list_elem_of_In, list_elem_of_fmap in Hkv as (en & -> & Hen).
    rewrite Forall_forall in Hfine. by destruct (Hfine en Hen) as (_ & ? & _). }
  assert (E : action_value (substituted (print_records (map entry_text es))) k =
              concat (map snd (List.filter (fun kv => str_eqb kv.1 k) (map entry_pair es))))
    by (unfold action_value; rewrite resolved_lines_of by done; by apply substituted_plain).
  unfold action_word, values_of. rewrite E. destruct (concat (map snd _)) as [|x v]; [done|].
  cbn [map concat]. unfold id. f_equal. unfold assignment_text, single_quoted. cbn [fst snd].
  do 4 f_equal. rewrite substituted_plain; [done|]. by apply sed_quote_no_newline.
Qed.

Lemma carried_ext c1 c2 : (forall k, default [] (c1 k) = default [] (c2 k)) -> carried c1 = carried c2.
Proof.
  intros H. unfold carried. induction ACTION_KEYS as [|k ks IH]; [done|]. cbn [filter_map]. rewrite IH.
  specialize (H k). destruct (c1 k) as [[|x v]|], (c2 k) as [[|y w]|]; cbn in H; by (done || injection H as -> ->).
Qed.

Lemma action_env_text fs dir custom c :
  custom_layer custom c -> preset_names fs dir -> resolvable fs dir c ->
  NoDup (map entry_pair (resolved_entries fs dir c (records (cut_f1 custom)))).*1 ->
  action_env fs dir custom = Ok [carried_text (effective fs dir c)].
Proof.
  intros Hl Hn Hr Hd. rewrite (action_env_values fs dir custom c) by done. unfold carried_text.
  erewrite carried_ext; [reflexivity|]. intros k. unfold values_of. cbn [default from_option].
  unfold id. rewrite unique_value by done. by rewrite (entries_effective fs dir custom c Hl).
Qed.

(** *** The output of every command *)

Lemma asked_fine fs dir service es : Forall entry_fine es -> Forall entry_fine (asked fs dir service es).
Proof.
  intros H. unfold asked. destruct service; [done|]. apply Forall_forall. intros e He.
  apply list_elem_of_In, List.filter_In in He as [He%list_elem_of_In _]. by apply (proj1 (Forall_forall _ _) H).
Qed.

Lemma map_entries (f : str -> str) (g : str * str * str -> str) es :
  (forall e, entry_fine e -> f (entry_text e) = g e) -> Forall entry_fine es -> map f (map entry_text es) = map g es.
Proof. intros H Hes. induction Hes as [|e es He _ IH]; [done|]. cbn [map]. by rewrite H, IH. Qed.

Lemma resolve_line_entry sh e :
  entry_fine e -> resolve_line sh (entry_text e) =
  (if str_eqb sh (lit "yes") then fun e => export_line (entry_pair e) else plain_row) e.
Proof.
  intros He. destruct (entry_fields e He) as (Ek & Ev & _). unfold resolve_line. rewrite Ek, Ev.
  destruct (str_eqb sh _); [|done]. unfold export_line, entry_pair, single_quoted. cbn [fst snd].
  rewrite substituted_plain; [done|]. apply sed_quote_no_newline. by destruct He as (_ & ? & _).
Qed.

Lemma show_header_text fs dir custom c service :
  custom_layer custom c -> resolvable fs dir c -> show_header custom service = heading custom c service.
Proof.
  intros Hl [_ Ho]. unfold show_header, heading. destruct service; [|done].
  rewrite (layer_get _ _ Hl) by (vm_compute; reflexivity).
  assert (Hcore : is_level (level_name c (lit "core")) = true) by (by apply Forall_cons in Ho as [(_ & ? & _) _]).
  rewrite (level_for_name custom c Hl) by (done || (apply (bool_decide_unpack _); vm_compute; exact I)). cbn [unwrap_or].
  do 2 f_equal. rewrite substituted_plain; [done|].
  destruct (c (lit "SHIELD_PROFILES")) as [v|] eqn:Ev; cbn [default from_option].
  - by apply (layer_values _ _ Hl (lit "SHIELD_PROFILES")).
  - apply (bool_decide_unpack _). vm_compute. exact I.
Qed.

Lemma run_command_output fs dir cmd o custom c :
  is_command cmd = true -> custom_layer custom c -> preset_names fs dir -> resolvable fs dir c ->
  run_command fs dir cmd o custom =
  Ok (command_output fs dir cmd o custom c (resolved_entries fs dir c (records (cut_f1 custom)))).
Proof.
  intros Hc Hl Hn Hr. pose proof Hr as [Hp Ho]. unfold run_command, command_output.
  rewrite (validate_ok fs dir custom c Hl Hp Ho). cbn [mbind res_bind].
  pose proof (all_lines fs dir custom c Hl Hn Hp Ho) as Hall.
  pose proof (entries_fine fs dir custom c Hl Hn Hp Ho) as Hfine.
  pose proof (filter_service_entries fs dir (service o) _ Hn Hfine) as Hserv.
  pose proof (asked_fine fs dir (service o) _ Hfine) as Hown.
  destruct (str_eqb cmd (lit "resolve")) eqn:E1.
  { unfold resolve. rewrite Hall. cbn [fst]. rewrite Hserv. f_equal. apply map_entries; [|done]. apply resolve_line_entry. }
  destruct (str_eqb cmd (lit "show")) eqn:E2.
  { unfold show_porcelain, show_table. rewrite Hall. cbn [fst]. rewrite Hserv, (show_header_text fs dir custom c) by done.
    destruct (str_eqb (porcelain o) (lit "yes")); f_equal; [|f_equal]; (apply map_entries; [|done]);
      intros e He; destruct (entry_fields e He) as (Ek & Ev & Es).
    - unfold Config.porcelain_line, UiViews.porcelain_line. by rewrite Ek, Ev, Es.
    - unfold table_line, table_row. by rewrite Ek, Ev, Es. }
  destruct (str_eqb cmd (lit "diff")) eqn:E3.
  { unfold diff. rewrite Hall. cbn [fst]. rewrite Hserv. f_equal.
    assert (Hf : List.filter (fun l => str_eqb (line_source l) (lit "custom")) (map entry_text (asked fs dir (service o) (resolved_entries fs dir c (records (cut_f1 custom))))) =
                 map entry_text (List.filter (fun e => str_eqb e.1.1 (lit "custom")) (asked fs dir (service o) (resolved_entries fs dir c (records (cut_f1 custom)))))).
    { clear -Hown. induction Hown as [|e es He _ IH]; [done|]. cbn [map List.filter].
      destruct (entry_fields e He) as (_ & _ & ->). rewrite IH. by destruct (str_eqb e.1.1 _). }
    rewrite Hf. assert (Hf' : Forall entry_fine (List.filter (fun e => str_eqb e.1.1 (lit "custom")) (asked fs dir (service o) (resolved_entries fs dir c (records (cut_f1 custom)))))).
    { apply Forall_forall. intros e He. apply list_elem_of_In, List.filter_In in He as [He%list_elem_of_In _].
      by apply (proj1 (Forall_forall _ _) Hown). }
    destruct (List.filter _ (asked _ _ _ _)) as [|e0 es0]; [done|]. cbn [map].
    change (diff_line (entry_text e0) :: map diff_line (map entry_text es0)) with (map diff_line (map entry_text (e0 :: es0))).
    change (diff_row e0 :: map diff_row es0) with (map diff_row (e0 :: es0)). f_equal. apply map_entries; [|done].
    intros e He. destruct (entry_fields e He) as (Ek & Ev & _). unfold diff_line, diff_row. by rewrite Ek, Ev. }
  unfold is_command in Hc. cbn [existsb] in Hc. rewrite E1, E2, E3, orb_false_r in Hc. cbn [orb] in Hc. rewrite Hc.
  by apply action_env_values.
Qed.

(** C24.  For a list of profiles written with names, commas and blanks, a
    command of the configuration tool either finds every enabled scope (its
    presets, a known level, the file of that level) and succeeds, printing
    exactly the lines that belong to the resolved entries, in their order: an
    export or an assignment, a row of the table or of the porcelain listing, a
    row for each custom entry, or the assignments of the ban action; for one
    service, of that service's keys (an unknown service has none); or it fails
    with nothing on its standard output. *)
Theorem commands_check_first fs self e dir cmd args o custom c :
  installed fs self e dir -> is_command cmd = true ->
  parse_options args (default_options e) = Ok o -> read_custom fs dir o e = Ok custom ->
  custom_layer custom c -> profiles_plain c = true ->
  (Forall (scope_ok fs dir c) (enabled c) /\
     main fs self e (cmd :: args) = (print_records (command_output fs dir cmd o custom c
       (resolved_entries fs dir c (records (cut_f1 custom)))), 0)) \/
  (~ Forall (scope_ok fs dir c) (enabled c) /\ main fs self e (cmd :: args) = ([], 1)).
Proof.
  intros Hi Hc Ho Hr Hl Hp. pose proof (validate_spec fs dir custom c Hl Hp) as Hv.
  destruct (validate fs dir custom) as [[]|st] eqn:Ev; cbn [is_ok] in Hv.
  - left. assert (Hok : Forall (scope_ok fs dir c) (enabled c)) by by apply Hv. split; [done|]. destruct Hi as [Hd Hn].
    unfold main. rewrite (shield_config_run fs self e dir cmd args o custom) by done.
    rewrite (run_command_output fs dir cmd o custom c); [done..|by split].
  - right. assert (Hno : ~ Forall (scope_ok fs dir c) (enabled c)) by (intros H; by apply Hv in H).
    split; [done|]. by apply (invalid_command fs self e dir cmd args o custom c).
Qed.

(** The action of [core/fail2ban/action.d/fips-shield.conf.template]. *)
Definition actionban (vars ip secs : str) : str :=
  vars ++ lit " /usr/local/bin/shield-ban ban " ++ ip ++ lit " " ++ secs.

Definition plain_arg (w : str) : Prop := w <> [] /\ Forall (fun x => safe_char x = true) w.

Lemma actionban_words ps ip secs :
  names_in ps -> plain_arg ip -> plain_arg secs ->
  shell_words (actionban (trim_one_space (concat (map assignment_text ps))) ip secs) =
  Some [map (fun kv => assigned_word kv.1 kv.2) ps ++ [lit "/usr/local/bin/shield-ban"; lit "ban"; ip; secs]].
Proof.
  intros Hps [Hi1 Hi2] [Hs1 Hs2]. unfold shell_words, actionban.
  assert (Ht : lex false None [] (trim_one_space (concat (map assignment_text ps)) ++ lit " /usr/local/bin/shield-ban ban " ++ ip ++ lit " " ++ secs) =
               lex false None [] (concat (map assignment_text ps) ++ lit " /usr/local/bin/shield-ban ban " ++ ip ++ lit " " ++ secs)).
  { destruct ps as [|[k v] ps]; [done|]. cbn [map concat]. unfold assignment_text at 1 3. change (lit " ") with ([32]:str). done. }
  rewrite Ht. clear Ht.
  assert (E : lit " /usr/local/bin/shield-ban ban " = 32 :: lit "/usr/local/bin/shield-ban" ++ 32 :: lit "ban" ++ [32])
    by (vm_compute; reflexivity).
  rewrite E. clear E. change (lit " ") with ([32]:str).
  assert (H1 : plain_arg (lit "/usr/local/bin/shield-ban")) by (split; [done|apply (bool_decide_unpack _); vm_compute; exact I]).
  assert (H2 : plain_arg (lit "ban")) by (split; [done|apply (bool_decide_unpack _); vm_compute; exact I]).
  revert H1 H2. generalize (lit "/usr/local/bin/shield-ban") (lit "ban"). intros bin verb [Hb1 Hb2] [Hv1 Hv2].
  replace ((32 :: bin ++ 32 :: verb ++ [32]) ++ ip ++ [32] ++ secs)
    with (32 :: (bin ++ 32 :: (verb ++ 32 :: (ip ++ 32 :: (secs ++ [])))))
    by (rewrite app_nil_r; cbn [app]; f_equal; rewrite <- !app_assoc; cbn [app]; by rewrite <- !app_assoc).
  rewrite lex_assignments by done. rewrite lex_safe by done. rewrite lex_word by done.
  rewrite lex_word, lex_word by done. cbn [lex end_word default from_option]. do 2 f_equal.
  unfold id. rewrite !app_nil_r, !reverse_involutive. rewrite !reverse_cons, reverse_involutive. by rewrite <- !app_assoc.
Qed.

Lemma carried_names c : names_in (carried c).
Proof.
  eapply filter_map_forall with (P := fun k => is_name k = true); [|apply (bool_decide_unpack _); vm_compute; exact I].
  intros k kv Hk. destruct (c k) as [[|x v]|]; [done| |done]. by intros [= <-].
Qed.

Lemma carried_one_line fs dir custom c :
  custom_layer custom c -> preset_names fs dir -> resolvable fs dir c -> NL ∉ carried_text (effective fs dir c).
Proof.
  intros Hl Hn Hr. unfold carried_text. assert (H : NL ∉ concat (map assignment_text (carried (effective fs dir c)))).
  { intros (kv & Hkv & Hin)%elem_concat_map. pose proof Hkv as Hkv'. pose proof (carried_names (effective fs dir c)) as Hk.
    apply (proj1 (Forall_forall _ _) Hk) in Hkv. unfold carried in Hkv'. apply elem_filter_map in Hkv' as (k & _ & E).
    destruct (effective fs dir c k) as [[|x v]|] eqn:Ev; [done| |done]. injection E as <-.
    pose proof (effective_no_newline fs dir custom c k _ Hl Hn Hr Ev) as Hv. apply sed_quote_no_newline in Hv.
    unfold assignment_text, single_quoted in Hin. cbn [fst snd] in Hin, Hkv.
    assert (Hkn : NL ∉ k) by name_char. unfold NL in *. set_solver. }
  destruct (concat _) as [|x t]; [done|]. cbn [trim_one_space]. repeat (case_match; try done). set_solver.
Qed.

Lemma action_env_run fs self e dir args o custom c :
  installed fs self e dir -> custom_layer custom c -> resolvable fs dir c ->
  parse_options args (default_options e) = Ok o -> read_custom fs dir o e = Ok custom ->
  NoDup (map entry_pair (resolved_entries fs dir c (records (cut_f1 custom)))).*1 ->
  main fs self e (lit "action-env" :: args) = (carried_text (effective fs dir c) ++ [NL], 0).
Proof.
  intros [Hd Hn] Hl Hr Hopt Hread Hnd.
  unfold main. erewrite shield_config_run; [|done|by vm_compute|done|done]. unfold run_command.
  destruct (resolved_with fs self e dir custom c Hl (Build_installed _ _ _ _ Hd Hn) Hr) as (-> & _). cbn [mbind res_bind]. lit_eqb.
  rewrite (action_env_text fs dir custom c) by done. unfold print_records. cbn [map concat]. by rewrite app_nil_r.
Qed.

(** What a shell makes of the action. *)
Lemma carried_command c ip secs :
  plain_arg ip -> plain_arg secs ->
  exists ws, shell_words (actionban (carried_text c) ip secs) = Some [ws] /\
    leading_assignments ws = (carried c, [lit "/usr/local/bin/shield-ban"; lit "ban"; ip; secs]).
Proof.
  intros Hi Hs. eexists. split; [apply actionban_words; [apply carried_names|done..]|].
  apply leading_assignments_words; [apply carried_names|]. cbn [leading_assignments].
  by replace (assignment (lit "/usr/local/bin/shield-ban")) with (@None (str * str)) by (vm_compute; reflexivity).
Qed.

Lemma action_command fs self e dir args o custom c ip secs :
  installed fs self e dir -> custom_layer custom c -> resolvable fs dir c ->
  parse_options args (default_options e) = Ok o -> read_custom fs dir o e = Ok custom ->
  NoDup (map entry_pair (resolved_entries fs dir c (records (cut_f1 custom)))).*1 ->
  plain_arg ip -> plain_arg secs ->
  exists vars ws, main fs self e (lit "action-env" :: args) = (vars ++ [NL], 0) /\
    shell_words (actionban vars ip secs) = Some [ws] /\
    leading_assignments ws =
      (carried (effective fs dir c), [lit "/usr/local/bin/shield-ban"; lit "ban"; ip; secs]).
Proof.
  intros Hi Hl Hr Hopt Hread Hnd Hip Hs. destruct (carried_command (effective fs dir c) ip secs) as (ws & H1 & H2); [done..|].
  exists (carried_text (effective fs dir c)), ws. split; [by eapply action_env_run|done].
Qed.

(** What fail2ban's action gives the ban backend: the command line that
    [shield-config action-env] starts runs the backend with exactly the
    assignments in force of SHIELD_BAN_FILE, SHIELD_BAN_ALSO_FILE and
    SHIELD_GUARD_PIN_DIR, whatever characters they have; a key that is unset or
    empty is left out.  No key may be resolved twice. *)
Theorem action_carries_what_is_in_force fs self e dir args o custom c ip secs :
  installed fs self e dir -> custom_layer custom c -> resolvable fs dir c ->
  parse_options args (default_options e) = Ok o -> read_custom fs dir o e = Ok custom ->
  NoDup (map entry_pair (resolved_entries fs dir c (records (cut_f1 custom)))).*1 ->
  plain_arg ip -> plain_arg secs ->
  exists vars ws, main fs self e (lit "action-env" :: args) = (vars ++ [NL], 0) /\
    shell_words (actionban vars ip secs) = Some [ws] /\
    leading_assignments ws =
      (carried (effective fs dir c), [lit "/usr/local/bin/shield-ban"; lit "ban"; ip; secs]).
Proof. apply action_command. Qed.

End deployment.

(** ** A deployment, concretely *)

#[local] Existing Instance std_posix.
#[local] Existing Instance posix_awk.

(** A relay and a plain service, one knob changed twice, a path with blanks
    and quotes. *)
Definition node_env : str := print_records
  [lit "# this node"; lit "SHIELD_PROFILES=strfry,tcp"; lit "SHIELD_BIND_ADDR=fd97::1"; lit "SHIELD_TCP_PRESET=strict";
   lit "SHIELD_TCP_CONN_RATE=7"; lit "SHIELD_GUARD_PIN_DIR=/sys/fs/bpf/it's mine"; lit "SHIELD_TCP_CONN_RATE=9"].

Definition node_files : files := machine_files DIR (lit "shield.env") node_env.
Definition node : env := fun k => last_value k (env_pairs node_env).

(** A container with this environment. *)
Definition container_files : files := machine_files DIR [] [].
Definition container_env : environ :=
  <[lit "SHIELD_PRESET_DIR" := DIR]> (foldl (fun m kv => <[kv.1 := kv.2]> m) ∅ (env_pairs node_env)).

Lemma assigned_env (m : environ) ps k :
  foldl (fun m kv => <[kv.1 := kv.2]> m) m ps !! k = match last_value k ps with Some v => Some v | None => m !! k end.
Proof.
  revert m. induction ps as [|[a v] ps IH]; intros m; [done|]. cbn [foldl]. rewrite IH, last_value_cons.
  destruct (last_value k ps); [done|]. cbn [fst snd]. unfold str_eqb. case_bool_decide as E.
  - subst. apply lookup_insert_eq.
  - by apply lookup_insert_ne.
Qed.

Lemma machine_names file text : head file <> Some 47 -> preset_names (machine_files DIR file text) DIR.
Proof.
  intros Hf scope level t. cbn [text_at machine_files]. unfold str_eqb. case_bool_decide as E.
  { destruct Hf. rewrite <- E. reflexivity. }
  unfold shipped_text. intros ([[a b] w] & Hfind & ->)%fmap_Some. apply List.find_some in Hfind as [Hin _].
  assert (H : Forall (fun e => names_in (env_pairs e.2)) preset_texts).
  { apply (bool_decide_unpack _). vm_compute. exact I. }
  apply list_elem_of_In in Hin. by apply (proj1 (Forall_forall _ _) H (a, b, w)).
Qed.

Lemma node_installed : installed node_files (lit "/opt/bin") in_presets DIR.
Proof. split; [vm_compute; reflexivity|by apply machine_names]. Qed.

Lemma node_env_file : env_file node_files (lit "shield.env") node_env node.
Proof. split; [done|vm_compute; reflexivity|apply (bool_decide_unpack _); vm_compute; exact I|done]. Qed.

Ltac scopes_there :=
  match goal with |- Forall (scope_ok _ _ ?c) (enabled ?c) =>
    let l := eval vm_compute in (enabled c) in replace (enabled c) with l by (vm_compute; reflexivity)
  end;
  repeat (apply Forall_cons; split; [split; [vm_compute; reflexivity|split; [vm_compute; reflexivity|eexists; vm_compute; reflexivity]]|]);
  apply Forall_nil_2.

Lemma node_resolvable : resolvable node_files DIR node.
Proof. split; [vm_compute; reflexivity|scopes_there]. Qed.

Lemma resolved_environment_witness :
  exists out l, main node_files (lit "/opt/bin") in_presets [lit "resolve"; lit "-f"; lit "shield.env"; lit "--shell"] = (out, 0) /\
    eval_exports out = Some l /\ last_value (lit "SHIELD_TCP_CONN_RATE") l = Some (lit "9") /\
    last_value (lit "SHIELD_TCP_MAX_CONNS_PER_NODE") l = Some (lit "2").
Proof.
  destruct (resolved_environment node_files (lit "/opt/bin") in_presets DIR (lit "shield.env") node_env node
    node_installed node_env_file node_resolvable) as (out & l & H1 & H2 & H3).
  exists out, l. rewrite !H3. split; [exact H1|]. split; [exact H2|]. split; vm_compute; reflexivity.
Defined.

Lemma node_selects k : shared_key container_files DIR k -> container_env !! k = node k.
Proof.
  intros [_ Hk]. unfold container_env, node. etrans; [apply lookup_insert_ne; congruence|]. rewrite assigned_env.
  by destruct (last_value k (env_pairs node_env)).
Qed.

Lemma container_env_ok : environ_ok container_env.
Proof.
  intros k v H. unfold container_env in H. apply (proj1 (lookup_insert_Some _ _ _ _ _)) in H as [[<- <-]|[_ H]].
  { split; [vm_compute; reflexivity|apply (bool_decide_unpack _); vm_compute; exact I]. }
  rewrite assigned_env in H. destruct (last_value k (env_pairs node_env)) as [w|] eqn:E; [|done].
  injection H as ->. apply last_value_elem in E.
  assert (Hp : Forall (fun kv => is_name kv.1 = true /\ (NL ∉ kv.2)) (env_pairs node_env)).
  { apply (bool_decide_unpack _). vm_compute. exact I. }
  by apply (proj1 (Forall_forall _ _) Hp (k, v)).
Qed.

Lemma machine_presets f1 t1 f2 t2 :
  head f1 <> Some 47 -> head f2 <> Some 47 -> same_presets (machine_files DIR f1 t1) DIR (machine_files DIR f2 t2) DIR.
Proof.
  intros H1 H2. split; [|done|done]. intros scope level. cbn [text_at machine_files]. unfold str_eqb.
  case_bool_decide as E1; [destruct H1; by rewrite <- E1|]. case_bool_decide as E2; [destruct H2; by rewrite <- E2|done].
Qed.

Lemma modes_agree_witness :
  exists out1 out2 l1 l2,
    main node_files (lit "/opt/bin") in_presets [lit "resolve"; lit "-f"; lit "shield.env"; lit "--shell"] = (out1, 0) /\
    eval_exports out1 = Some l1 /\
    main container_files (lit "/usr/local/bin") container_env [lit "resolve"; lit "--from-env"; lit "--shell"] = (out2, 0) /\
    eval_exports out2 = Some l2 /\
    forall k, shared_key container_files DIR k -> last_value k l1 = last_value k l2.
Proof.
  apply (modes_agree node_files (lit "/opt/bin") in_presets DIR (lit "shield.env") node_env node
           container_files (lit "/usr/local/bin") container_env DIR).
  - exact node_installed.
  - exact node_env_file.
  - exact node_resolvable.
  - split; [vm_compute; reflexivity|by apply machine_names].
  - by apply machine_presets.
  - exact container_env_ok.
  - exact node_selects.
Defined.

(** A level nobody knows. *)
Definition bad_env : str := print_records [lit "SHIELD_PROFILES=tcp"; lit "SHIELD_TCP_PRESET=paranoid"].
Definition bad : env := fun k => last_value k (env_pairs bad_env).
Definition bad_files : files := machine_files DIR (lit "shield.env") bad_env.

Lemma commands_check_first_witness :
  main bad_files (lit "/opt/bin") in_presets [lit "resolve"; lit "-f"; lit "shield.env"; lit "--shell"] = ([], 1).
Proof.
  destruct (commands_check_first bad_files (lit "/opt/bin") in_presets DIR (lit "resolve") [lit "-f"; lit "shield.env"; lit "--shell"]
    (mk_options (lit "shield.env") false [] (lit "yes") (lit "no")) (parse_envfile bad_env) bad) as [[H _]|[_ H]].
  - split; [vm_compute; reflexivity|by apply machine_names].
  - vm_compute. reflexivity.
  - vm_compute. reflexivity.
  - vm_compute. reflexivity.
  - apply file_layer. apply (bool_decide_unpack _). vm_compute. exact I.
  - vm_compute. reflexivity.
  - exfalso. replace (enabled bad) with [lit "core"; lit "tcp"] in H by (vm_compute; reflexivity).
    apply Forall_cons in H as [_ H]. apply Forall_cons in H as [(_ & H & _) _]. vm_compute in H. discriminate H.
  - exact H.
Defined.

#[export] Instance showable_dec v : Decision (showable v).
Proof. unfold showable, is_text. apply _. Defined.

Lemma pairs_consistent (l : list (str * str)) k v v' : NoDup l.*1 -> (k, v) ∈ l -> (k, v') ∈ l -> v = v'.
Proof.
  induction l as [|[a w] l IH]; [intros _ H; by apply elem_of_nil in H|]. cbn [fmap list_fmap fst].
  intros [Hn Hd]%NoDup_cons [[= -> ->]|H1]%elem_of_cons [H2|H2]%elem_of_cons.
  - by injection H2.
  - destruct Hn. apply list_elem_of_fmap. by exists (a, v').
  - injection H2 as -> ->. destruct Hn. apply list_elem_of_fmap. by exists (a, v).
  - by apply IH.
Qed.

Lemma node_showable k v : effective node_files DIR node k = Some v -> showable v.
Proof.
  assert (H1 : Forall (fun kv => showable kv.2) (preset_layer node_files DIR node)) by (apply (bool_decide_unpack _); vm_compute; exact I).
  assert (H2 : Forall (fun kv => showable kv.2) (env_pairs node_env)) by (apply (bool_decide_unpack _); vm_compute; exact I).
  rewrite Forall_forall in H1, H2. unfold effective, node.
  destruct (last_value k (preset_layer node_files DIR _)) as [w|] eqn:E1.
  - destruct (last_value k (env_pairs node_env)) as [x|] eqn:E2; intros [= <-].
    + by apply last_value_elem, H2 in E2.
    + by apply last_value_elem, H1 in E1.
  - case_bool_decide; [done|]. intros E2. by apply last_value_elem, H2 in E2.
Qed.

Lemma dashboard_shows_what_is_in_force_witness :
  wp (tool node_files (lit "/opt/bin") in_presets) (@Logic.eq unit)
    (load (as_bytes (lit "/usr/local/bin/shield-config")) (Some (as_bytes (lit "shield.env")))) (fun r _ => exists cfg,
    r = Ok cfg /\ forall k, get cfg k = effective node_files DIR node k) tt.
Proof.
  apply (dashboard_shows_what_is_in_force node_files (lit "/opt/bin") in_presets DIR _ (lit "shield.env") node_env node).
  - exact node_installed.
  - exact node_env_file.
  - exact node_resolvable.
  - intros k v v'. apply pairs_consistent. apply (bool_decide_unpack _). vm_compute. exact I.
  - exact node_showable.
  - eexists. vm_compute. reflexivity.
  - vm_compute. reflexivity.
Defined.

Lemma action_carries_what_is_in_force_witness :
  exists vars ws, main node_files (lit "/opt/bin") in_presets [lit "action-env"; lit "-f"; lit "shield.env"] = (vars ++ [NL], 0) /\
    shell_words (actionban vars (lit "fd97::2") (lit "3600")) = Some [ws] /\
    leading_assignments ws =
      ([(lit "SHIELD_BAN_FILE", lit "/var/lib/fips-shield/banlist"); (lit "SHIELD_BAN_ALSO_FILE", lit "false");
        (lit "SHIELD_GUARD_PIN_DIR", lit "/sys/fs/bpf/it's mine")],
       [lit "/usr/local/bin/shield-ban"; lit "ban"; lit "fd97::2"; lit "3600"]).
Proof.
  replace [(lit "SHIELD_BAN_FILE", lit "/var/lib/fips-shield/banlist"); (lit "SHIELD_BAN_ALSO_FILE", lit "false");
    (lit "SHIELD_GUARD_PIN_DIR", lit "/sys/fs/bpf/it's mine")] with (carried (effective node_files DIR node))
    by (vm_compute; reflexivity).
  apply (action_carries_what_is_in_force node_files (lit "/opt/bin") in_presets DIR [lit "-f"; lit "shield.env"]
    (mk_options (lit "shield.env") false [] (lit "no") (lit "no")) (parse_envfile node_env) node).
  - exact node_installed.
  - exact (env_file_layer _ _ _ _ node_env_file).
  - exact node_resolvable.
  - vm_compute. reflexivity.
  - vm_compute. reflexivity.
  - apply (bool_decide_unpack _). vm_compute. exact I.
  - split; [done|]. apply (bool_decide_unpack _). vm_compute. exact I.
  - split; [done|]. apply (bool_decide_unpack _). vm_compute. exact I.
Defined.
