(* ===== verification/TemplateTexts.v ===== *)
(** * The templates: [src/core/nginx], [src/profiles], [src/core/fail2ban]

    The text of the files, line by line; an at sign stands for a double quote
    (the files have none of their own). *)
From S2P Require Import Prelude Text BanFile.

Definition at_quote (s : str) : str := map (fun c => if c =? 64 then 34 else c) s.
Definition template (ls : list str) : str := print_records (map at_quote ls).

Definition core_conf : str := template
  [lit "# fips-shield core — shared observability, limit zones, and WebSocket";
   lit "# plumbing. http-context; included before every profile vhost (numeric";
   lit "# file prefixes fix the include order). Rendered with envsubst: the";
   lit "# ${SHIELD_*} placeholders come from shield.env, everything else with a";
   lit "# plain $ is a normal nginx variable and passes through untouched.";
   [];
   lit "# One JSON line per request. @limited@ is set when limit_req delayed or";
   lit "# rejected the request — Phase 3's detection engine keys on this field,";
   lit "# so keep it stable.";
   lit "log_format shield_json escape=json";
   lit "    '{'";
   lit "    '@ts@:@$time_iso8601@,'";
   lit "    '@src@:@$remote_addr@,'";
   lit "    '@status@:$status,'";
   lit "    '@request@:@$request@,'";
   lit "    '@host@:@$host@,'";
   lit "    '@upgrade@:@$http_upgrade@,'";
   lit "    '@bytes_in@:$request_length,'";
   lit "    '@bytes_out@:$bytes_sent,'";
   lit "    '@duration@:$request_time,'";
   lit "    '@conn@:$connection,'";
   lit "    '@conn_reqs@:$connection_requests,'";
   lit "    '@limited@:@$limit_req_status@,'";
   lit "    '@ua@:@$http_user_agent@'";
   lit "    '}';";
   [];
   lit "# Standard WebSocket upgrade pass-through map.";
   lit "map $http_upgrade $shield_connection_upgrade {";
   lit "    default upgrade;";
   lit "    ''      close;";
   lit "}";
   [];
   lit "# On a FIPS mesh a source address is a /128 derived from the node's key:";
   lit "# no NAT aliasing, no spoofing (frames arrive authenticated via fips0).";
   lit "# Per-address limits are therefore per-node limits, and a ban is a";
   lit "# node-identity ban.";
   lit "#";
   lit "# shield_handshake is used by the strfry profile alone. A SECOND";
   lit "# consumer must declare its own zone rather than join this one: nginx";
   lit "# counts per (zone, key), so two profiles sharing a zone share the";
   lit "# count, and the tightest limit silently governs both. That is what the";
   lit "# core-wide `shield_conn` zone did until it was removed from here —";
   lit "# every profile now declares its own next to the server that uses it";
   lit "# (see docs/writing-a-profile.md).";
   lit "limit_req_zone  $binary_remote_addr zone=shield_handshake:${SHIELD_HANDSHAKE_ZONE_SIZE} rate=${SHIELD_HANDSHAKE_RATE};";
   [];
   lit "# 429 tells well-behaved clients to back off; the log line tells the";
   lit "# detection engine someone didn't.";
   lit "limit_req_status  429;";
   lit "limit_conn_status 429;"].

Definition core_stream : str := template
  [lit "# fips-shield core — stream-context plumbing shared by every profile:";
   lit "# the njs engine, the shared dict backing connection-rate limiting, the";
   lit "# per-node connection zone, and the session log format.";
   lit "#";
   lit "# Profiles (" ++ lit "*.stream, rendered after this file by numeric prefix) only";
   lit "# declare their own server block and policy js_vars.";
   [];
   lit "js_path @/etc/nginx/njs/@;";
   lit "js_import shield_core from shield_core.js;";
   lit "js_import shield_ws from shield_ws.js;";
   [];
   lit "# Set by the engine when it refuses or cuts a session; empty otherwise.";
   lit "js_var $shield_verdict '';";
   lit "# Written by the engine from the port-keyed policy, so the session log";
   lit "# records which profile handled the connection.";
   lit "js_var $shield_service '';";
   [];
   lit "# Connection-rate counters. The stream module has limit_conn but no";
   lit "# limit_req, so the rate limit lives in the engine and needs shared";
   lit "# state across workers. The zone timeout must exceed SHIELD_CONN_WINDOW";
   lit "# or counters would expire inside their own window.";
   lit "js_shared_dict_zone zone=shield_connrate:${SHIELD_CONNRATE_ZONE_SIZE} timeout=${SHIELD_CONNRATE_TIMEOUT} type=number evict;";
   [];
   lit "# On a FIPS mesh a source address is a /128 derived from the node's key:";
   lit "# no NAT aliasing, no spoofing. Per-address limits are per-node limits.";
   lit "#";
   lit "# There is deliberately NO shared limit_conn zone here. Core used to";
   lit "# declare `shield_stream_conn` and every profile used it, which meant a";
   lit "# node's connections to one profile counted against another profile's";
   lit "# cap: 8 open relay WebSockets exceeded SHIELD_TCP_MAX_CONNS_PER_NODE=4";
   lit "# and refused SSH the node had not even connected to. nginx counts per";
   lit "# (zone, key), so sharing a zone shares the count no matter what limit";
   lit "# each server passes to limit_conn.";
   lit "#";
   lit "# Each profile therefore declares its own zone, next to the server that";
   lit "# uses it. See docs/writing-a-profile.md. A profile that still names";
   lit "# shield_stream_conn now fails `nginx -t` with @unknown limit_conn_zone@";
   lit "# rather than silently sharing a counter.";
   [];
   lit "# One line per session; @verdict@ is non-empty when the engine refused";
   lit "# or closed it. Phase 3 consumes this alongside the per-verdict lines";
   lit "# the engine writes to the error log.";
   lit "log_format shield_stream_json escape=json";
   lit "    '{'";
   lit "    '@ts@:@$time_iso8601@,'";
   lit "    '@src@:@$remote_addr@,'";
   lit "    '@service@:@$shield_service@,'";
   lit "    '@status@:$status,'";
   lit "    '@bytes_in@:$bytes_received,'";
   lit "    '@bytes_out@:$bytes_sent,'";
   lit "    '@duration@:$session_time,'";
   lit "    '@verdict@:@$shield_verdict@'";
   lit "    '}';"].

Definition strfry_conf : str := template
  [lit "# fips-shield profile: strfry Nostr relay — http stage.";
   lit "#";
   lit "# Since Phase 2 this stage sits behind the stream stage";
   lit "# (20-strfry-ws.stream), which owns the fips0-facing listener and does";
   lit "# WebSocket message inspection. This stage listens on loopback only and";
   lit "# learns the real mesh source address via the PROXY protocol, so every";
   lit "# per-node limit below still keys on the client's /128.";
   lit "#";
   lit "# strfry's entire HTTP surface is GET / — a WebSocket upgrade for the";
   lit "# relay protocol, or a NIP-11 info document when requested with";
   lit "# @Accept: application/nostr+json@. Everything else is dropped.";
   [];
   lit "# This profile's own concurrency zone for the http stage. Never share";
   lit "# one with another profile: nginx counts per (zone, key), so the core";
   lit "# `shield_conn` zone this replaced made relay connections count against";
   lit "# the http profile's cap and vice versa.";
   lit "#";
   lit "# The http stage cannot discriminate by port the way the stream stage";
   lit "# can — it listens on a unix socket, where $server_port is empty — so a";
   lit "# separate zone is the only way to keep the counts apart.";
   lit "limit_conn_zone $binary_remote_addr zone=shield_strfry_conn:${SHIELD_CONN_ZONE_SIZE};";
   [];
   lit "server {";
   lit "    listen unix:${SHIELD_SOCKET_DIR}/strfry.sock proxy_protocol;";
   lit "    server_name ${SHIELD_SERVER_NAME};";
   [];
   lit "    set_real_ip_from unix:;";
   lit "    real_ip_header proxy_protocol;";
   [];
   lit "    access_log /var/log/nginx/shield-strfry.access.log shield_json;";
   [];
   lit "    # Slow-client and header abuse containment. Relay traffic carries no";
   lit "    # HTTP request bodies; anything with a body larger than a handshake";
   lit "    # is not a Nostr client.";
   lit "    client_max_body_size 4k;";
   lit "    client_header_timeout 10s;";
   lit "    client_body_timeout 10s;";
   lit "    large_client_header_buffers 2 8k;";
   [];
   lit "    # One response per plain-HTTP connection. This is load-bearing for";
   lit "    # the stream stage's handshake sniffer: a connection that starts";
   lit "    # non-WebSocket can never smuggle a later upgrade past inspection,";
   lit "    # because the server side hangs up after the first response.";
   lit "    keepalive_timeout 0;";
   [];
   lit "    # Concurrent WebSocket connections per mesh node.";
   lit "    limit_conn shield_strfry_conn ${SHIELD_MAX_CONNS_PER_NODE};";
   [];
   lit "    location = / {";
   lit "        # Handshake rate per mesh node. Established WebSockets are not";
   lit "        # affected — this prices connection churn, not messages.";
   lit "        limit_req zone=shield_handshake burst=${SHIELD_HANDSHAKE_BURST} nodelay;";
   [];
   lit "        if ($request_method != GET) {";
   lit "            return 405;";
   lit "        }";
   [];
   lit "        proxy_pass http://${SHIELD_UPSTREAM};";
   lit "        proxy_http_version 1.1;";
   lit "        proxy_set_header Upgrade $http_upgrade;";
   lit "        proxy_set_header Connection $shield_connection_upgrade;";
   lit "        proxy_set_header Host $host;";
   lit "        # Never negotiate permessage-deflate: the stream stage can only";
   lit "        # inspect uncompressed frames.";
   lit "        proxy_set_header Sec-WebSocket-Extensions @@;";
   lit "        # strfry reads the source address from this header when";
   lit "        # relay.realIpHeader is set — keeps its own per-IP accounting";
   lit "        # correct behind the proxy.";
   lit "        proxy_set_header X-Forwarded-For $remote_addr;";
   lit "        proxy_connect_timeout 5s;";
   lit "        proxy_send_timeout ${SHIELD_WS_IDLE_TIMEOUT};";
   lit "        proxy_read_timeout ${SHIELD_WS_IDLE_TIMEOUT};";
   lit "        proxy_buffering off;";
   lit "    }";
   [];
   lit "    # Not part of the relay surface: close without a response (444) so";
   lit "    # scanners get nothing to fingerprint.";
   lit "    location / {";
   lit "        return 444;";
   lit "    }";
   lit "}"].

Definition strfry_stream : str := template
  [lit "# fips-shield profile: strfry — stream stage (WebSocket inspection).";
   lit "#";
   lit "# Owns the fips0-facing listener. Client bytes run through the njs";
   lit "# engine (core/njs/shield_ws.js), which enforces the Nostr message";
   lit "# policy below before anything reaches the http stage; the http stage";
   lit "# (10-strfry.conf) listens on loopback behind this and receives the";
   lit "# real client address via the PROXY protocol.";
   lit "#";
   lit "# Shared plumbing (js_import, log format) is in";
   lit "# core/nginx/05-shield-core.stream. Limit zones are NOT shared — see";
   lit "# below.";
   [];
   lit "# This profile's own concurrency zone. Never share one with another";
   lit "# profile: nginx counts per (zone, key), so a shared zone made a node's";
   lit "# open relay WebSockets count against the tcp profile's much smaller";
   lit "# cap and refuse SSH it had never connected to.";
   lit "limit_conn_zone $binary_remote_addr zone=shield_strfry_stream_conn:${SHIELD_CONN_ZONE_SIZE};";
   [];
   lit "server {";
   lit "    listen [${SHIELD_BIND_ADDR}]:${SHIELD_LISTEN_PORT};";
   [];
   lit "    access_log /var/log/nginx/shield-strfry.stream.log shield_stream_json;";
   lit "    # shield-verdict lines (s.warn from the engine) land here — this is";
   lit "    # the file the detection engine tails.";
   lit "    error_log /var/log/nginx/shield-error.log warn;";
   [];
   lit "    # Port-keyed policy: nginx variables are global by name, so a";
   lit "    # shared $shield_* per-server js_var would take whichever profile";
   lit "    # was parsed last and silently apply it to all of them. One string";
   lit "    # keyed by listening port cannot collide.";
   lit "    js_var $shield_cfg_${SHIELD_LISTEN_PORT} 'service=strfry;ban_file=${SHIELD_BAN_FILE};ban_recheck=${SHIELD_BAN_RECHECK};conn_rate=${SHIELD_STRFRY_CONN_RATE};conn_window=${SHIELD_CONN_WINDOW};ws_max_msg=${SHIELD_WS_MAX_MSG};ws_max_subs=${SHIELD_WS_MAX_SUBS};ws_max_filters=${SHIELD_WS_MAX_FILTERS};ws_max_filter_items=${SHIELD_WS_MAX_FILTER_ITEMS};ws_max_hs_reads=${SHIELD_WS_MAX_HS_READS};ws_max_msg_reads=${SHIELD_WS_MAX_MSG_READS};ws_max_limit=${SHIELD_WS_MAX_LIMIT};ws_max_filter_value=${SHIELD_WS_MAX_FILTER_VALUE};ws_require_narrowing=${SHIELD_WS_REQUIRE_NARROWING};ws_msg_rate=${SHIELD_WS_MSG_RATE};ws_msg_burst=${SHIELD_WS_MSG_BURST};ws_event_rate=${SHIELD_WS_EVENT_RATE};ws_event_burst=${SHIELD_WS_EVENT_BURST};ws_req_rate=${SHIELD_WS_REQ_RATE};ws_req_burst=${SHIELD_WS_REQ_BURST};nostr_types=${SHIELD_NOSTR_TYPES};nostr_kind_deny=${SHIELD_NOSTR_KIND_DENY}';";
   lit "    js_access shield_core.access;";
   [];
   lit "    js_filter shield_ws.filter;";
   [];
   lit "    # Concurrent connections per mesh node, at the stream stage. The";
   lit "    # http stage has its own limit_conn, but it only sees a connection";
   lit "    # once the handshake completes — which is exactly the phase an";
   lit "    # inspection-cost attack never leaves. Without this, the only brake";
   lit "    # on held-open connections was SHIELD_STRFRY_CONN_RATE.";
   lit "    limit_conn shield_strfry_stream_conn ${SHIELD_MAX_CONNS_PER_NODE};";
   [];
   lit "    proxy_pass unix:${SHIELD_SOCKET_DIR}/strfry.sock;";
   lit "    proxy_protocol on;";
   lit "    # Also the reaper for sessions the engine has killed but whose";
   lit "    # upstream ignored the injected Close frame.";
   lit "    proxy_timeout ${SHIELD_WS_IDLE_TIMEOUT};";
   lit "}"].

Definition tcp_stream : str := template
  [lit "# fips-shield profile: generic TCP service.";
   lit "#";
   lit "# Protects any plain TCP service exposed to mesh peers — SSH, a";
   lit "# database, a game server, an internal API — with the protections that";
   lit "# do not require knowing the protocol: ban enforcement, per-node";
   lit "# connection-rate limiting, per-node concurrency caps, and idle";
   lit "# reaping. There is no http stage and no payload inspection; the shield";
   lit "# never looks inside the connection.";
   lit "#";
   lit "# Everything here comes from the shared core (core/nginx/05-shield-core.stream,";
   lit "# core/njs/shield_core.js) — the profile is only a server block, which";
   lit "# is the point: adding a service means adding one of these.";
   [];
   lit "# This profile's own concurrency zone. Never share one with another";
   lit "# profile: nginx counts per (zone, key), so a shared zone makes a node's";
   lit "# relay connections count against this cap and refuse SSH it never";
   lit "# opened. The literal name (not ${SHIELD_TCP_SERVICE}) keeps it unique";
   lit "# even if two profiles are configured with the same service name.";
   lit "limit_conn_zone $binary_remote_addr zone=shield_tcp_stream_conn:${SHIELD_CONN_ZONE_SIZE};";
   [];
   lit "server {";
   lit "    listen [${SHIELD_BIND_ADDR}]:${SHIELD_TCP_LISTEN_PORT};";
   [];
   lit "    access_log /var/log/nginx/shield-${SHIELD_TCP_SERVICE}.stream.log shield_stream_json;";
   lit "    error_log /var/log/nginx/shield-error.log warn;";
   [];
   lit "    # Policy for this listener. The js_var is named after the port";
   lit "    # because nginx variables are global by name: a shared";
   lit "    # $shield_conn_rate would take whichever profile nginx parsed last";
   lit "    # and silently disable the others' limits.";
   lit "    js_var $shield_cfg_${SHIELD_TCP_LISTEN_PORT} 'service=${SHIELD_TCP_SERVICE};ban_file=${SHIELD_BAN_FILE};conn_rate=${SHIELD_TCP_CONN_RATE};conn_window=${SHIELD_CONN_WINDOW}';";
   lit "    js_access shield_core.access;";
   [];
   lit "    limit_conn shield_tcp_stream_conn ${SHIELD_TCP_MAX_CONNS_PER_NODE};";
   [];
   lit "    proxy_pass ${SHIELD_TCP_UPSTREAM};";
   lit "    proxy_connect_timeout 5s;";
   lit "    proxy_timeout ${SHIELD_TCP_IDLE_TIMEOUT};";
   lit "}"].

Definition http_stream : str := template
  [lit "# fips-shield profile: generic HTTP service — stream stage.";
   lit "#";
   lit "# Owns the fips0-facing listener and applies the protections that do";
   lit "# not need to understand HTTP: ban enforcement at accept, per-node";
   lit "# connection rate, per-node concurrency. It then hands the connection";
   lit "# to the http stage (41-http.conf) on loopback via the PROXY protocol,";
   lit "# so request-level limits there still key on the peer's mesh address.";
   [];
   lit "# This profile's own concurrency zone for the stream stage. Never share";
   lit "# one with another profile: nginx counts per (zone, key), so a shared";
   lit "# zone lets connections to one service exhaust another service's cap.";
   lit "limit_conn_zone $binary_remote_addr zone=shield_http_stream_conn:${SHIELD_CONN_ZONE_SIZE};";
   [];
   lit "server {";
   lit "    listen [${SHIELD_BIND_ADDR}]:${SHIELD_HTTP_LISTEN_PORT};";
   [];
   lit "    access_log /var/log/nginx/shield-${SHIELD_HTTP_SERVICE}.stream.log shield_stream_json;";
   lit "    error_log /var/log/nginx/shield-error.log warn;";
   [];
   lit "    # Port-keyed policy: see the note in core/njs/shield_core.js on why";
   lit "    # a shared js_var name would leak between profiles.";
   lit "    js_var $shield_cfg_${SHIELD_HTTP_LISTEN_PORT} 'service=${SHIELD_HTTP_SERVICE};ban_file=${SHIELD_BAN_FILE};conn_rate=${SHIELD_HTTP_CONN_RATE};conn_window=${SHIELD_CONN_WINDOW}';";
   lit "    js_access shield_core.access;";
   [];
   lit "    limit_conn shield_http_stream_conn ${SHIELD_HTTP_MAX_CONNS_PER_NODE};";
   [];
   lit "    proxy_pass unix:${SHIELD_SOCKET_DIR}/${SHIELD_HTTP_SERVICE}.sock;";
   lit "    proxy_protocol on;";
   lit "    proxy_connect_timeout 5s;";
   lit "    proxy_timeout ${SHIELD_HTTP_IDLE_TIMEOUT};";
   lit "}"].

Definition http_conf : str := template
  [lit "# fips-shield profile: generic HTTP service — http stage.";
   lit "#";
   lit "# Sits on loopback behind the stream stage (40-http.stream) and adds";
   lit "# the request-level protections that only exist once nginx parses HTTP:";
   lit "# per-node request rate, method and path allowlists, body and header";
   lit "# caps, slow-client timeouts. WebSocket upgrades are forwarded, but";
   lit "# their payloads are not inspected — that needs a protocol-aware";
   lit "# profile (see docs/writing-a-profile.md).";
   lit "#";
   lit "# Rejections are visible to the detection engine through the access log";
   lit "# (429 = rate limited, 405 = method, 444 = path), so repeat offenders";
   lit "# get banned by the existing jails with no extra configuration.";
   [];
   lit "# Per-node request rate. Its own zone, so this profile's rate is";
   lit "# independent of any other profile's.";
   lit "limit_req_zone $binary_remote_addr zone=shield_http_req:${SHIELD_CONN_ZONE_SIZE} rate=${SHIELD_HTTP_REQ_RATE};";
   [];
   lit "# Per-node concurrency, on the same principle. This replaced the";
   lit "# core-wide `shield_conn` zone, which counted a node's relay";
   lit "# connections against this cap and vice versa — nginx counts per";
   lit "# (zone, key), so sharing a zone shares the count regardless of the";
   lit "# limit each server passes to limit_conn.";
   lit "limit_conn_zone $binary_remote_addr zone=shield_http_conn:${SHIELD_CONN_ZONE_SIZE};";
   [];
   lit "# Path allowlist, matched against the normalised, decoded URI (so";
   lit "# ../ and %2e traversal cannot slip past it). The default of .* allows";
   lit "# everything; narrow it to expose only the routes you mean to.";
   lit "map $uri $shield_http_path_ok {";
   lit "    default 0;";
   lit "    ~^(${SHIELD_HTTP_PATH_REGEX})$ 1;";
   lit "}";
   [];
   lit "# A unix socket in a private directory rather than a loopback port:";
   lit "# this stage trusts the PROXY-protocol header for the client address,";
   lit "# and any local process can connect to a loopback port and declare";
   lit "# whatever source address it likes — bypassing the stream stage's";
   lit "# inspection and forging log lines that get arbitrary mesh nodes";
   lit "# banned. Socket-directory permissions make that unreachable.";
   lit "server {";
   lit "    listen unix:${SHIELD_SOCKET_DIR}/${SHIELD_HTTP_SERVICE}.sock proxy_protocol;";
   lit "    server_name ${SHIELD_HTTP_SERVER_NAME};";
   [];
   lit "    set_real_ip_from unix:;";
   lit "    real_ip_header proxy_protocol;";
   [];
   lit "    access_log /var/log/nginx/shield-${SHIELD_HTTP_SERVICE}.access.log shield_json;";
   [];
   lit "    # Body and header limits, plus slow-client containment (slowloris).";
   lit "    client_max_body_size ${SHIELD_HTTP_MAX_BODY};";
   lit "    client_header_timeout 10s;";
   lit "    client_body_timeout 30s;";
   lit "    large_client_header_buffers 4 8k;";
   lit "    keepalive_timeout ${SHIELD_HTTP_IDLE_TIMEOUT};";
   lit "    # Bounds how many requests one connection can carry, which caps";
   lit "    # what a single connection can extract from the rewrite-phase path";
   lit "    # denial below.";
   lit "    keepalive_requests ${SHIELD_HTTP_KEEPALIVE_REQUESTS};";
   [];
   lit "    limit_conn shield_http_conn ${SHIELD_HTTP_MAX_CONNS_PER_NODE};";
   [];
   lit "    location / {";
   lit "        limit_req zone=shield_http_req burst=${SHIELD_HTTP_REQ_BURST} nodelay;";
   [];
   lit "        # Method allowlist via limit_except, which is evaluated in the";
   lit "        # access phase — i.e. AFTER limit_req. An `if (...) return 405`";
   lit "        # would run in the rewrite phase instead, so rejected requests";
   lit "        # would consume no rate budget at all and could be pumped";
   lit "        # without limit. Denials here are 403.";
   lit "        limit_except ${SHIELD_HTTP_METHODS} {";
   lit "            deny all;";
   lit "        }";
   [];
   lit "        # Unlisted paths get a silent close rather than a 404, so";
   lit "        # scanners learn nothing about what exists. This one is a";
   lit "        # rewrite-phase return and therefore does NOT consume rate";
   lit "        # budget; it is priced instead by the stream stage's";
   lit "        # connection-rate limit, by keepalive_requests above, and by";
   lit "        # the scan jail, which bans a path scanner within seconds.";
   lit "        if ($shield_http_path_ok = 0) {";
   lit "            return 444;";
   lit "        }";
   [];
   lit "        proxy_pass http://${SHIELD_HTTP_UPSTREAM};";
   lit "        proxy_http_version 1.1;";
   lit "        proxy_set_header Upgrade $http_upgrade;";
   lit "        proxy_set_header Connection $shield_connection_upgrade;";
   lit "        proxy_set_header Host $host;";
   lit "        # The mesh address of the peer — a node identity, not a";
   lit "        # rotating client IP, so it is worth logging upstream too.";
   lit "        proxy_set_header X-Real-IP $remote_addr;";
   lit "        proxy_set_header X-Forwarded-For $remote_addr;";
   lit "        proxy_set_header X-Forwarded-Proto http;";
   lit "        proxy_connect_timeout 5s;";
   lit "        proxy_send_timeout ${SHIELD_HTTP_IDLE_TIMEOUT};";
   lit "        proxy_read_timeout ${SHIELD_HTTP_IDLE_TIMEOUT};";
   lit "    }";
   lit "}"].

Definition jails : str := template
  [lit "# fips-shield jails. Rendered with envsubst from shield.env (container:";
   lit "# sidecar entrypoint; host: deploy/host/install-fail2ban.sh).";
   lit "#";
   lit "# Every setting is repeated per jail on purpose. A [DEFAULT] section in";
   lit "# a jail.d file is NOT scoped to that file — fail2ban applies it to";
   lit "# every jail on the host, so shipping one here would silently retarget";
   lit "# an existing sshd jail at the shield's banaction and leave real SSH";
   lit "# brute-force protection disabled.";
   [];
   lit "[fips-shield-handshake]";
   lit "enabled = true";
   lit "filter = fips-shield-handshake";
   lit "logpath = /var/log/nginx/shield-*.access.log";
   lit "maxretry = ${SHIELD_F2B_HANDSHAKE_MAXRETRY}";
   lit "banaction = fips-shield";
   lit "backend = polling";
   lit "usedns = no";
   lit "findtime = ${SHIELD_F2B_FINDTIME}";
   lit "bantime = ${SHIELD_F2B_BANTIME}";
   lit "bantime.increment = true";
   lit "bantime.factor = 2";
   lit "bantime.maxtime = 1w";
   lit "ignoreip = ${SHIELD_F2B_IGNOREIP}";
   lit "ignoreself = ${SHIELD_F2B_IGNORESELF}";
   [];
   lit "# Message-level POLICY: the client asks for more than this relay";
   lit "# budgets (too many subscriptions, a filter longer than the cap, a";
   lit "# burst of REQs on connect). A mainstream Nostr client reaches these";
   lit "# without malice, and the violation already closed its connection — so";
   lit "# this jail is the forgiving one, and its escalation stops at a day";
   lit "# rather than a week. A ban here costs the node every shielded service";
   lit "# on the interface, not just this one.";
   lit "[fips-shield-verdict]";
   lit "enabled = true";
   lit "filter = fips-shield-verdict";
   lit "logpath = /var/log/nginx/shield-error.log";
   lit "maxretry = ${SHIELD_F2B_VERDICT_MAXRETRY}";
   lit "banaction = fips-shield";
   lit "backend = polling";
   lit "usedns = no";
   lit "findtime = ${SHIELD_F2B_FINDTIME}";
   lit "bantime = ${SHIELD_F2B_BANTIME}";
   lit "bantime.increment = true";
   lit "bantime.factor = 2";
   lit "bantime.maxtime = 1d";
   lit "ignoreip = ${SHIELD_F2B_IGNOREIP}";
   lit "ignoreself = ${SHIELD_F2B_IGNORESELF}";
   [];
   lit "# Structural abuse: not speaking WebSocket, not sending JSON, hiding a";
   lit "# message in a fragmentation flood. Nothing a working client reaches,";
   lit "# so this keeps the low threshold the verdict jail used to carry for";
   lit "# everything, and the full week of escalation.";
   lit "[fips-shield-abuse]";
   lit "enabled = true";
   lit "filter = fips-shield-abuse";
   lit "logpath = /var/log/nginx/shield-error.log";
   lit "maxretry = ${SHIELD_F2B_ABUSE_MAXRETRY}";
   lit "banaction = fips-shield";
   lit "backend = polling";
   lit "usedns = no";
   lit "findtime = ${SHIELD_F2B_FINDTIME}";
   lit "bantime = ${SHIELD_F2B_BANTIME}";
   lit "bantime.increment = true";
   lit "bantime.factor = 2";
   lit "bantime.maxtime = 1w";
   lit "ignoreip = ${SHIELD_F2B_IGNOREIP}";
   lit "ignoreself = ${SHIELD_F2B_IGNORESELF}";
   [];
   lit "[fips-shield-connrate]";
   lit "enabled = true";
   lit "filter = fips-shield-connrate";
   lit "logpath = /var/log/nginx/shield-error.log";
   lit "maxretry = ${SHIELD_F2B_CONNRATE_MAXRETRY}";
   lit "banaction = fips-shield";
   lit "backend = polling";
   lit "usedns = no";
   lit "findtime = ${SHIELD_F2B_FINDTIME}";
   lit "bantime = ${SHIELD_F2B_BANTIME}";
   lit "bantime.increment = true";
   lit "bantime.factor = 2";
   lit "bantime.maxtime = 1w";
   lit "ignoreip = ${SHIELD_F2B_IGNOREIP}";
   lit "ignoreself = ${SHIELD_F2B_IGNORESELF}";
   [];
   lit "[fips-shield-conn]";
   lit "enabled = true";
   lit "filter = fips-shield-conn";
   lit "logpath = /var/log/nginx/shield-*.stream.log";
   lit "maxretry = ${SHIELD_F2B_CONN_MAXRETRY}";
   lit "banaction = fips-shield";
   lit "backend = polling";
   lit "usedns = no";
   lit "findtime = ${SHIELD_F2B_FINDTIME}";
   lit "bantime = ${SHIELD_F2B_BANTIME}";
   lit "bantime.increment = true";
   lit "bantime.factor = 2";
   lit "bantime.maxtime = 1w";
   lit "ignoreip = ${SHIELD_F2B_IGNOREIP}";
   lit "ignoreself = ${SHIELD_F2B_IGNORESELF}";
   [];
   lit "[fips-shield-scan]";
   lit "enabled = true";
   lit "filter = fips-shield-scan";
   lit "logpath = /var/log/nginx/shield-*.access.log";
   lit "maxretry = ${SHIELD_F2B_SCAN_MAXRETRY}";
   lit "banaction = fips-shield";
   lit "backend = polling";
   lit "usedns = no";
   lit "findtime = ${SHIELD_F2B_FINDTIME}";
   lit "bantime = ${SHIELD_F2B_BANTIME}";
   lit "bantime.increment = true";
   lit "bantime.factor = 2";
   lit "bantime.maxtime = 1w";
   lit "ignoreip = ${SHIELD_F2B_IGNOREIP}";
   lit "ignoreself = ${SHIELD_F2B_IGNORESELF}"].

Definition action : str := template
  [lit "# fips-shield banaction: delegate to the shield-ban backend CLI";
   lit "# (docs/verdict-schema.md). Swapping the enforcement backend (e.g. the";
   lit "# eBPF guard) means pointing this at a different binary with the same";
   lit "# CLI — the jails don't change.";
   lit "#";
   lit "# ${SHIELD_ACTION_ENV} expands to the assignments the backend reads —";
   lit "# SHIELD_BAN_FILE, SHIELD_BAN_ALSO_FILE, and SHIELD_GUARD_PIN_DIR when";
   lit "# it is set. They are passed explicitly rather than inherited: fail2ban";
   lit "# runs actions with its own environment, which in host mode contains";
   lit "# nothing from shield.env. Without this a non-default ban file means";
   lit "# fail2ban writes bans to one path while nginx reads another, and a";
   lit "# non-default guard pin directory means every ban targets maps that do";
   lit "# not exist — enforcement silently does nothing while every log says it";
   lit "# worked.";
   lit "#";
   lit "# The list is built by `shield-config action-env` rather than";
   lit "# substituted key-by-key, because it is conditional: an unset key must";
   lit "# be omitted, not rendered as `KEY=`. SHIELD_GUARD_PIN_DIR has no";
   lit "# default in shield.env and fips-guard supplies its own, but clap treats";
   lit "# a set-but-empty env var as the value — so emitting it empty would";
   lit "# point the guard at nothing.";
   [];
   lit "[Definition]";
   lit "actionstart =";
   lit "actionstop =";
   lit "# Not empty any more. fail2ban treats a failing actioncheck as @the";
   lit "# action is broken@: it invalidates the ban epoch, after which every";
   lit "# live ticket is re-applied. That is the self-healing path, and an";
   lit "# empty actioncheck disables it — so a banlist lost to a tmpfs reboot,";
   lit "# or an eBPF classifier that has been detached, was never repaired.";
   lit "#";
   lit "# Both backends implement @health@ cheaply: the file backend checks the";
   lit "# banlist directory is writable, the eBPF backend checks the watchdog";
   lit "# heartbeat is fresh (it cannot check the attachment directly from the";
   lit "# sidecar, which has no network namespace of its own).";
   lit "actioncheck = ${SHIELD_ACTION_ENV} /usr/local/bin/shield-ban health";
   lit "actionban = ${SHIELD_ACTION_ENV} /usr/local/bin/shield-ban ban <ip> <bantime>";
   lit "actionunban = ${SHIELD_ACTION_ENV} /usr/local/bin/shield-ban unban <ip>"].
