(* ===== verification/Templates.v ===== *)
(** * Rendering: [deploy/host/render.sh], [install-fail2ban.sh], [deploy/container/f2b-entrypoint.sh]

    How the templates become configuration.  [envsubst] (gettext) is a
    parameter: the class [Envsubst] states what its manual says of it, which
    variables of a list it replaces and that it leaves the rest of the text as
    it is.  What is rendered is a function of the environment that a script has
    evaluated; the scripts as programs are in Scripts. *)
From S2P Require Import Prelude Prog Text Js BanFile Shell Config TemplateTexts.
Local Open Scope list_scope.

(** ** envsubst *)

(** The reference after a dollar sign: [NAME] or [{NAME}], and what follows. *)
Fixpoint span_name (s : str) : str * str :=
  match s with
  | c :: r => if name_char c then let '(k, r') := span_name r in (c :: k, r') else ([], s)
  | [] => ([], [])
  end.

Definition reference (s : str) : option (str * str) :=
  let braced := match s with c :: _ => c =? 123 | [] => false end in
  let '(k, r) := span_name (if braced then tl s else s) in
  if is_name k then
    if braced then match r with c :: r' => if c =? 125 then Some (k, r') else None | [] => None end
    else Some (k, r)
  else None.

Definition replaced (vars : list str) (s : str) : option (str * str) :=
  match reference s with
  | Some (k, r) => if existsb (str_eqb k) vars then Some (k, r) else None
  | None => None
  end.

Class Envsubst := {
  envsubst : list str -> env -> str -> str;
  envsubst_nil vars e : envsubst vars e [] = [];
  envsubst_char vars e c s : c <> 36 -> envsubst vars e (c :: s) = c :: envsubst vars e s;
  envsubst_ref vars e s k r :
    replaced vars s = Some (k, r) -> envsubst vars e (36 :: s) = default [] (e k) ++ envsubst vars e r;
  envsubst_other vars e s : replaced vars s = None -> envsubst vars e (36 :: s) = 36 :: envsubst vars e s;
}.

(** ** Placeholders *)

Definition key_char (c : char) : bool := in_range 65 90 c || in_range 48 57 c || (c =? 95).

Fixpoint span_key (s : str) : str * str :=
  match s with
  | c :: r => if key_char c then let '(k, r') := span_key r in (c :: k, r') else ([], s)
  | [] => ([], [])
  end.

(** [grep -oE '\$\{SHIELD_[A-Z0-9_]+\}' | tr -d '${}'] *)
Definition placeholder_at (s : str) : option str :=
  match strip_prefix (lit "${SHIELD_") s with
  | Some r => let '(k, r') := span_key r in
              match k, r' with
              | _ :: _, c :: _ => if c =? 125 then Some (lit "SHIELD_" ++ k) else None
              | _, _ => None
              end
  | None => None
  end.

Fixpoint placeholders (s : str) : list str :=
  match s with
  | [] => []
  | _ :: r => match placeholder_at s with Some k => k :: placeholders r | None => placeholders r end
  end.

(** ** nginx: [render.sh] *)

Definition core_templates : list (str * str) :=
  [(lit "00-shield-core.conf", core_conf); (lit "05-shield-core.stream", core_stream)].

Definition profile_templates : list (str * list (str * str)) :=
  [(lit "strfry", [(lit "10-strfry.conf", strfry_conf); (lit "20-strfry-ws.stream", strfry_stream)]);
   (lit "http", [(lit "40-http.stream", http_stream); (lit "41-http.conf", http_conf)]);
   (lit "tcp", [(lit "30-tcp.stream", tcp_stream)])].

(** The templates of a profile, among those of a checkout. *)
Definition templates_in (table : list (str * list (str * str))) (profile : str) : option (list (str * str)) :=
  snd <$> List.find (fun pt => str_eqb pt.1 profile) table.

Definition templates_of : str -> option (list (str * str)) := templates_in profile_templates.

Section render.
Context {POSIX : Posix} {ENVSUBST : Envsubst}.

Fixpoint select_in (table : list (str * list (str * str))) (profiles : list str) : res stop (list (str * str)) :=
  match profiles with
  | [] => Ok []
  | p :: r => match templates_in table p with
              | None => Err (Die (lit "no such profile: " ++ p))
              | Some ts => more ← select_in table r; Ok (ts ++ more)
              end
  end.

Definition select : list str -> res stop (list (str * str)) := select_in profile_templates.

Definition render_profiles (e : env) : list str :=
  concat (map glob (fields (substituted (tr 44 32 (echo (or_if_empty (e (lit "SHIELD_PROFILES")) (lit "strfry"))))))).

Definition is_set (e : env) (k : str) : bool := match e k with Some _ => true | None => false end.

(** The files written from a checkout's templates, by name; nothing is written
    when a placeholder is unset. *)
Definition render_in (core : list (str * str)) (table : list (str * list (str * str))) (e : env) : res stop (list (str * str)) :=
  ts ← select_in table (render_profiles e);
  let all := core ++ ts in
  let vars := sort_u (concat (map (fun nt => placeholders nt.2) all)) in
  if forallb (is_set e) vars then Ok (map (fun nt => (nt.1, envsubst vars e nt.2)) all)
  else Err (Die (lit "not set")).

(** ... from the repository's own. *)
Definition render : env -> res stop (list (str * str)) := render_in core_templates profile_templates.

(** ** fail2ban: [install-fail2ban.sh] on a host, [f2b-entrypoint.sh] in a container *)

Definition F2B_KEYS : list str :=
  [lit "SHIELD_F2B_FINDTIME"; lit "SHIELD_F2B_BANTIME"; lit "SHIELD_F2B_IGNOREIP";
   lit "SHIELD_F2B_IGNORESELF"; lit "SHIELD_F2B_HANDSHAKE_MAXRETRY";
   lit "SHIELD_F2B_VERDICT_MAXRETRY"; lit "SHIELD_F2B_ABUSE_MAXRETRY"; lit "SHIELD_F2B_SCAN_MAXRETRY";
   lit "SHIELD_F2B_CONNRATE_MAXRETRY"; lit "SHIELD_F2B_CONN_MAXRETRY"].

Definition fill_jails (template : str) (e : env) : str := envsubst F2B_KEYS e template.
Definition render_jails : env -> str := fill_jails jails.

(** What [shield-config action-env] printed, as [SHIELD_ACTION_ENV]. *)
Definition fill_action (template : str) (e : env) (action_env : str) : str :=
  envsubst [lit "SHIELD_ACTION_ENV"] (exported e [(lit "SHIELD_ACTION_ENV", substituted action_env)]) template.
Definition render_action : env -> str -> str := fill_action action.

(** On a host the lines of the env file are exported as they are ... *)
Definition host_jails (e : env) (env_text : str) : str := render_jails (exported e (env_pairs env_text)).

(** ... in a container, what [shield-config resolve] printed is evaluated. *)
Definition container_jails (e : env) (resolved : str) : option str :=
  (fun l => render_jails (exported e l)) <$> eval_exports resolved.

End render.

(** ** An executable [envsubst] *)

Fixpoint subst_fuel (n : nat) (vars : list str) (e : env) (s : str) : str :=
  match n with
  | O => []
  | S m =>
    match s with
    | [] => []
    | c :: r =>
      if c =? 36 then
        match replaced vars r with
        | Some (k, r') => default [] (e k) ++ subst_fuel m vars e r'
        | None => c :: subst_fuel m vars e r
        end
      else c :: subst_fuel m vars e r
    end
  end.

Lemma span_name_length s : (length (span_name s).2 <= length s)%nat.
Proof.
  induction s as [|c s IH]; [done|]. cbn [span_name]. destruct (name_char c); [|done].
  destruct (span_name s) as [k r]. cbn [snd length] in *. lia.
Qed.

Lemma replaced_length vars s k r : replaced vars s = Some (k, r) -> (length r <= length s)%nat.
Proof.
  unfold replaced, reference. destruct s as [|c s]; cbn [tl].
  { cbn. done. }
  pose proof (span_name_length s) as H1. pose proof (span_name_length (c :: s)) as H2. destruct (c =? 123).
  - destruct (span_name s) as [a b]. cbn [snd length] in *. destruct (is_name a); [|done].
    destruct b as [|d b]; [done|]. destruct (d =? 125); [|done]. case_match; [|done].
    intros [= -> ->]. cbn [length] in *. lia.
  - destruct (span_name (c :: s)) as [a b]. cbn [snd] in *. destruct (is_name a); [|done]. case_match; [|done].
    intros [= -> ->]. done.
Qed.

Lemma subst_fuel_more vars e s : forall n m, (length s < n)%nat -> (length s < m)%nat ->
  subst_fuel n vars e s = subst_fuel m vars e s.
Proof.
  induction s as [s IH] using (induction_ltof1 _ (@length Z)). unfold ltof in IH. intros n m Hn Hm.
  destruct n as [|n], m as [|m]; [lia|lia|lia|]. destruct s as [|c s]; [done|]. cbn [subst_fuel length] in *.
  destruct (c =? 36).
  - destruct (replaced vars s) as [[k r]|] eqn:E.
    + apply replaced_length in E. f_equal. apply IH; lia.
    + f_equal. apply IH; lia.
  - f_equal. apply IH; lia.
Qed.

#[local] Program Instance std_envsubst : Envsubst := {|
  envsubst vars e s := subst_fuel (S (length s)) vars e s;
|}.
Next Obligation. done. Qed.
Next Obligation.
  intros vars e c s Hc. cbn [subst_fuel length]. replace (c =? 36) with false by lia. done.
Qed.
Next Obligation.
  intros vars e s k r H.
  change (match replaced vars s with
          | Some (k', r') => default [] (e k') ++ subst_fuel (S (length s)) vars e r'
          | None => 36 :: subst_fuel (S (length s)) vars e s
          end = default [] (e k) ++ subst_fuel (S (length r)) vars e r).
  rewrite H. f_equal. apply replaced_length in H. apply subst_fuel_more; cbn [length]; lia.
Qed.
Next Obligation. intros vars e s H. cbn [subst_fuel length]. replace (36 =? 36) with true by done. by rewrite H. Qed.
