(* ===== verification/TemplateText.v ===== *)
(** * Templates as pieces, policies as tables

    A template is a sequence of characters and references; what [envsubst]
    writes is their concatenation, with the values of the references it is
    asked to replace.  The policy a stream template passes to the engine is a
    table of settings, read back by [parse_policy]. *)
From S2P Require Import Prelude Prog Text Js BanFile Shell Config TemplateTexts Templates.
From S2P Require Import ConfigText ShieldCore.

(** ** Pieces *)

Inductive piece := Chr (c : char) | Ref (k : str).
#[export] Instance piece_eq_dec : EqDecision piece.
Proof. solve_decision. Defined.

Fixpoint pieces_fuel (n : nat) (vars : list str) (s : str) : list piece :=
  match n with
  | O => []
  | S m =>
    match s with
    | [] => []
    | c :: r =>
      if c =? 36 then
        match replaced vars r with
        | Some (k, r') => Ref k :: pieces_fuel m vars r'
        | None => Chr c :: pieces_fuel m vars r
        end
      else Chr c :: pieces_fuel m vars r
    end
  end.
Definition pieces (vars : list str) (s : str) : list piece := pieces_fuel (S (length s)) vars s.

Definition piece_text (e : env) (p : piece) : str := match p with Chr c => [c] | Ref k => default [] (e k) end.
Definition text_of_pieces (e : env) (ps : list piece) : str := concat (map (piece_text e) ps).
Definition chars (s : str) : list piece := map Chr s.

Lemma text_of_app e a b : text_of_pieces e (a ++ b) = text_of_pieces e a ++ text_of_pieces e b.
Proof. unfold text_of_pieces. by rewrite map_app, concat_app. Qed.

Lemma text_of_chars e s : text_of_pieces e (chars s) = s.
Proof. unfold text_of_pieces, chars. induction s as [|c s IH]; [done|]. cbn [map concat piece_text app]. by rewrite IH. Qed.

Lemma pieces_refs vars s : Forall (fun p => match p with Chr _ => True | Ref k => k ∈ vars end) (pieces vars s).
Proof.
  unfold pieces. generalize (S (length s)). intros n. revert s. induction n as [|n IH]; intros s; [constructor|].
  cbn [pieces_fuel]. destruct s as [|c s]; [constructor|]. case_if; [|by constructor].
  destruct (replaced vars s) as [[k r]|] eqn:E; [|by constructor]. constructor; [|done].
  unfold replaced in E. destruct (reference s) as [[k' r']|]; [|done]. destruct (existsb _ vars) eqn:Ex; [|done].
  injection E as -> ->. apply existsb_exists in Ex as (x & Hx & Hk). unfold str_eqb in Hk. apply bool_decide_eq_true in Hk as ->.
  by apply list_elem_of_In.
Qed.

Lemma pieces_text_ext vars s e e' :
  (forall k, k ∈ vars -> e k = e' k) -> text_of_pieces e (pieces vars s) = text_of_pieces e' (pieces vars s).
Proof.
  intros H. unfold text_of_pieces. f_equal. pose proof (pieces_refs vars s) as Hp.
  induction Hp as [|p ps Hp _ IH]; [done|]. cbn [map]. rewrite IH. f_equal. destruct p as [x|k]; [done|]. cbn [piece_text]. by rewrite H.
Qed.

(** The names that follow a dollar sign. *)
Fixpoint references (s : str) : list str :=
  match s with
  | [] => []
  | c :: r => (if c =? 36 then match reference r with Some (k, _) => [k] | None => [] end else []) ++ references r
  end.

Lemma span_name_suffix s : exists a, s = a ++ (span_name s).2.
Proof.
  induction s as [|c s [a IH]]; [by exists []|]. cbn [span_name]. destruct (name_char c); [|by exists []].
  destruct (span_name s) as [k r]. cbn [snd] in *. exists (c :: a). by rewrite IH at 1.
Qed.

Lemma replaced_suffix vars s k r : replaced vars s = Some (k, r) -> exists a, s = a ++ r.
Proof.
  unfold replaced, reference. destruct s as [|c s]; [done|]. cbn [tl].
  pose proof (span_name_suffix s) as [a1 H1]. pose proof (span_name_suffix (c :: s)) as [a2 H2]. destruct (c =? 123).
  - destruct (span_name s) as [x b]. cbn [snd] in *. destruct (is_name x); [|done].
    destruct b as [|d b]; [done|]. destruct (d =? 125); [|done]. case_match; [|done].
    intros [= -> ->]. exists (c :: a1 ++ [d]). rewrite H1. cbn [app]. by rewrite <- app_assoc.
  - destruct (span_name (c :: s)) as [x b]. cbn [snd] in *. destruct (is_name x); [|done]. case_match; [|done].
    intros [= -> ->]. by exists a2.
Qed.

Lemma references_suffix a s : references s ⊆ references (a ++ s).
Proof. induction a as [|c a IH]; [done|]. cbn [app references]. set_solver. Qed.

Section envsubst.
Context {ENVSUBST : Envsubst}.

(** Two lists of variables that agree on the references of a text give the
    same pieces. *)
Lemma envsubst_pieces vars all e s :
  Forall (fun k => existsb (str_eqb k) vars = existsb (str_eqb k) all) (references s) ->
  envsubst vars e s = text_of_pieces e (pieces all s).
Proof.
  unfold pieces, text_of_pieces. generalize (le_n (S (length s))). generalize (S (length s)) at 2 3. intros n.
  revert n. induction s as [s IH] using (induction_ltof1 _ (@length Z)). unfold ltof in IH. intros n Hn Hr.
  destruct n as [|n]; [lia|]. destruct s as [|c s]; [by rewrite envsubst_nil|]. cbn [length] in *. cbn [pieces_fuel].
  cbn [references] in Hr. apply Forall_app in Hr as [Hh Hr].
  destruct (c =? 36) eqn:Ec.
  - apply Z.eqb_eq in Ec as ->.
    assert (E : replaced vars s = replaced all s).
    { unfold replaced. destruct (reference s) as [[k r]|]; [|done]. by rewrite (Forall_inv Hh). }
    destruct (replaced all s) as [[k r]|] eqn:Ek.
    + rewrite (envsubst_ref vars e s k r) by done. cbn [map concat piece_text]. f_equal.
      pose proof (replaced_length _ _ _ _ Ek). pose proof (replaced_suffix _ _ _ _ Ek) as [a Ha]. apply IH; [lia|lia|].
      rewrite Forall_forall in Hr |- *. intros x Hx. apply Hr. rewrite Ha. by apply references_suffix.
    + rewrite envsubst_other by done. cbn [map concat piece_text app]. f_equal. apply IH; [lia|lia|done].
  - apply Z.eqb_neq in Ec. rewrite envsubst_char by done. cbn [map concat piece_text app]. f_equal. apply IH; [lia|lia|done].
Qed.

End envsubst.

(** ** Policies *)

Definition settings_text (l : list (str * str)) : str :=
  match l with
  | [] => []
  | kv :: r => kv.1 ++ [61] ++ kv.2 ++ concat (map (fun kv => [59] ++ kv.1 ++ [61] ++ kv.2) r)
  end.

(** A setting's name as the templates have them. *)
Definition setting_name (k : str) : bool :=
  match k with [] => false | _ => forallb (fun c => in_range 97 122 c || (c =? 95)) k end.

Lemma setting_chars k c : setting_name k = true -> c ∈ k -> 95 <= c <= 122.
Proof.
  destruct k as [|x k]; [done|]. unfold setting_name. rewrite forallb_forall. intros H Hc%list_elem_of_In.
  apply H in Hc. unfold in_range in Hc. lia.
Qed.

Lemma js_trim_setting k : setting_name k = true -> js_trim k = k.
Proof.
  intros Hk. assert (Ht : forall s, s <> [] -> (forall c, c ∈ s -> 95 <= c <= 122) -> trim_left s = s).
  { intros [|c s] Hne Hc; [done|]. cbn [trim_left]. replace (is_space c) with false; [done|].
    assert (95 <= c <= 122) by (apply Hc; left). unfold is_space, in_range. lia. }
  assert (Hne : k <> []) by by destruct k.
  unfold js_trim. rewrite (Ht k) by (try done; intros; by apply (setting_chars k)).
  rewrite (Ht (reverse k)); [apply reverse_involutive| |].
  - intros E. apply (f_equal reverse) in E. by rewrite reverse_involutive in E.
  - intros c Hc. rewrite elem_of_reverse in Hc. exact (setting_chars k c Hk Hc).
Qed.

Definition plain_setting (kv : str * str) : Prop := setting_name kv.1 = true /\ (59 ∉ kv.2).

Lemma setting_entry m k v : setting_name k = true -> policy_entry m (k ++ [61] ++ v) = <[k := v]> m.
Proof.
  intros Hk. unfold policy_entry. cbn [app].
  rewrite split_once_app by (intros H%(setting_chars _ _ Hk); lia).
  destruct k as [|c k]; [done|]. by rewrite js_trim_setting.
Qed.

Lemma settings_split kv r :
  Forall plain_setting (kv :: r) -> split_char 59 (settings_text (kv :: r)) = map (fun kv => kv.1 ++ [61] ++ kv.2) (kv :: r).
Proof.
  revert kv. induction r as [|kv' r IH]; intros kv H; apply Forall_cons in H as [[Hk Hv] H].
  - cbn [settings_text map concat]. rewrite app_nil_r. apply split_char_none.
    rewrite !not_elem_of_app. repeat split; [intros Hin%(setting_chars _ _ Hk); lia|set_solver|done].
  - cbn [settings_text map concat].
    replace (kv.1 ++ [61] ++ kv.2 ++ ([59] ++ kv'.1 ++ [61] ++ kv'.2) ++ concat (map (fun kv => [59] ++ kv.1 ++ [61] ++ kv.2) r))
      with ((kv.1 ++ [61] ++ kv.2) ++ 59 :: settings_text (kv' :: r))
      by (unfold settings_text; rewrite <- !app_assoc; reflexivity).
    rewrite split_char_app.
    + by rewrite IH.
    + rewrite !not_elem_of_app. repeat split; [intros Hin%(setting_chars _ _ Hk); lia|set_solver|done].
Qed.

(** The engine reads every setting back, and no other. *)
Lemma parse_settings kv r :
  Forall plain_setting (kv :: r) -> NoDup (kv :: r).*1 ->
  parse_policy (settings_text (kv :: r)) = list_to_map (kv :: r).
Proof.
  intros Hp Hn. unfold parse_policy. rewrite settings_split by done. set (l := kv :: r) in *. clearbody l.
  assert (H : forall m : gmap str str, (forall k, k ∈ l.*1 -> m !! k = None) ->
            foldl policy_entry m (map (fun kv => kv.1 ++ [61] ++ kv.2) l) = m ∪ list_to_map l).
  { induction Hp as [|[k v] l Hk Hp IH]; intros m Hm; [cbn; by rewrite map_union_empty|].
    cbn [map foldl fmap list_fmap list_to_map foldr fst snd] in *. apply NoDup_cons in Hn as [Hkl Hn].
    rewrite setting_entry by apply Hk. rewrite IH; [|done|].
    - cbn [fst snd]. change (foldr _ _ l) with (list_to_map l : gmap str str).
      rewrite <- insert_union_l. rewrite insert_union_r; [done|]. apply Hm. by left.
    - intros k' Hk'. cbn [fst snd]. rewrite lookup_insert_ne; [apply Hm; by right|]. intros ->. done. }
  rewrite H; [by rewrite map_empty_union|]. intros k _. apply lookup_empty.
Qed.
