(* ===== verification/TemplateTheorems.v ===== *)
(** * Theorems on rendering

    From the env file to the engine: with the shipped presets no placeholder
    is ever missing, and the policy each listener gets is read back by the
    engine, setting by setting, with the values in force. *)
From S2P Require Import Prelude Prog Text Js JsStd BanFile Shell ShellText Collect Config Presets.
From S2P Require Import ConfigRuns ConfigText ConfigResolve ConfigTheorems.
From S2P Require Import TemplateTexts Templates TemplateText ShieldCore ShieldWs.

(** ** The policies *)

Inductive setting := Fixed (s : str) | From (k : str).

Definition setting_text (e : env) (v : setting) : str :=
  match v with Fixed s => s | From k => default [] (e k) end.

Definition values (e : env) (l : list (str * setting)) : list (str * str) :=
  map (fun kv => (kv.1, setting_text e kv.2)) l.

(** What each listener is configured with: profile, file, the key of its port
    and its settings. *)
Record listener := mk_listener {
  of_profile : str;
  in_file : str;
  port_key : str;
  settings : list (str * setting);
}.

Definition listeners : list listener :=
  [mk_listener (lit "strfry") (lit "20-strfry-ws.stream") (lit "SHIELD_LISTEN_PORT")
     [(lit "service", Fixed (lit "strfry")); (lit "ban_file", From (lit "SHIELD_BAN_FILE"));
      (lit "ban_recheck", From (lit "SHIELD_BAN_RECHECK")); (lit "conn_rate", From (lit "SHIELD_STRFRY_CONN_RATE"));
      (lit "conn_window", From (lit "SHIELD_CONN_WINDOW")); (lit "ws_max_msg", From (lit "SHIELD_WS_MAX_MSG"));
      (lit "ws_max_subs", From (lit "SHIELD_WS_MAX_SUBS")); (lit "ws_max_filters", From (lit "SHIELD_WS_MAX_FILTERS"));
      (lit "ws_max_filter_items", From (lit "SHIELD_WS_MAX_FILTER_ITEMS"));
      (lit "ws_max_hs_reads", From (lit "SHIELD_WS_MAX_HS_READS"));
      (lit "ws_max_msg_reads", From (lit "SHIELD_WS_MAX_MSG_READS"));
      (lit "ws_max_limit", From (lit "SHIELD_WS_MAX_LIMIT"));
      (lit "ws_max_filter_value", From (lit "SHIELD_WS_MAX_FILTER_VALUE"));
      (lit "ws_require_narrowing", From (lit "SHIELD_WS_REQUIRE_NARROWING"));
      (lit "ws_msg_rate", From (lit "SHIELD_WS_MSG_RATE")); (lit "ws_msg_burst", From (lit "SHIELD_WS_MSG_BURST"));
      (lit "ws_event_rate", From (lit "SHIELD_WS_EVENT_RATE")); (lit "ws_event_burst", From (lit "SHIELD_WS_EVENT_BURST"));
      (lit "ws_req_rate", From (lit "SHIELD_WS_REQ_RATE")); (lit "ws_req_burst", From (lit "SHIELD_WS_REQ_BURST"));
      (lit "nostr_types", From (lit "SHIELD_NOSTR_TYPES")); (lit "nostr_kind_deny", From (lit "SHIELD_NOSTR_KIND_DENY"))];
   mk_listener (lit "http") (lit "40-http.stream") (lit "SHIELD_HTTP_LISTEN_PORT")
     [(lit "service", From (lit "SHIELD_HTTP_SERVICE")); (lit "ban_file", From (lit "SHIELD_BAN_FILE"));
      (lit "conn_rate", From (lit "SHIELD_HTTP_CONN_RATE")); (lit "conn_window", From (lit "SHIELD_CONN_WINDOW"))];
   mk_listener (lit "tcp") (lit "30-tcp.stream") (lit "SHIELD_TCP_LISTEN_PORT")
     [(lit "service", From (lit "SHIELD_TCP_SERVICE")); (lit "ban_file", From (lit "SHIELD_BAN_FILE"));
      (lit "conn_rate", From (lit "SHIELD_TCP_CONN_RATE")); (lit "conn_window", From (lit "SHIELD_CONN_WINDOW"))]].

(** The directive, for the port and the text of the policy. *)
Definition policy_directive (port text : str) : str :=
  [NL] ++ lit "    js_var $shield_cfg_" ++ port ++ lit " '" ++ text ++ lit "';" ++ [NL].

Definition setting_pieces (v : setting) : list piece := match v with Fixed s => chars s | From k => [Ref k] end.

Definition settings_pieces (l : list (str * setting)) : list piece :=
  match l with
  | [] => []
  | kv :: r => chars kv.1 ++ chars [61] ++ setting_pieces kv.2 ++
               concat (map (fun kv => chars [59] ++ chars kv.1 ++ chars [61] ++ setting_pieces kv.2) r)
  end.

Definition directive_pieces (l : listener) : list piece :=
  chars ([NL] ++ lit "    js_var $shield_cfg_") ++ [Ref (port_key l)] ++ chars (lit " '") ++
  settings_pieces (settings l) ++ chars (lit "';" ++ [NL]).

Lemma setting_pieces_text e v : text_of_pieces e (setting_pieces v) = setting_text e v.
Proof. destruct v; [apply text_of_chars|]. unfold text_of_pieces. cbn. by rewrite app_nil_r. Qed.

Lemma settings_pieces_text e l : text_of_pieces e (settings_pieces l) = settings_text (values e l).
Proof.
  destruct l as [|[k v] l]; [done|]. unfold values. cbn [settings_pieces settings_text map fst snd].
  rewrite !text_of_app, !text_of_chars, setting_pieces_text. do 3 f_equal.
  induction l as [|[k' v'] l IH]; [done|]. cbn [map concat fst snd]. rewrite !text_of_app, !text_of_chars, setting_pieces_text, IH.
  by rewrite <- !app_assoc.
Qed.

Lemma directive_text e l :
  text_of_pieces e (directive_pieces l) = policy_directive (default [] (e (port_key l))) (settings_text (values e (settings l))).
Proof.
  unfold directive_pieces, policy_directive. rewrite !text_of_app, settings_pieces_text, !text_of_chars.
  replace (text_of_pieces e [Ref (port_key l)]) with (default [] (e (port_key l)))
    by (unfold text_of_pieces; cbn; by rewrite app_nil_r).
  by rewrite <- !app_assoc.
Qed.

(** ** Every template, once *)

Definition nginx_templates : list (str * str) := core_templates ++ concat (map snd profile_templates).
Definition all_placeholders : list str := concat (map (fun nt => placeholders nt.2) nginx_templates).

Definition references_known (all : list str) (nt : str * str) : bool :=
  let own := placeholders nt.2 in
  forallb (fun k => negb (existsb (str_eqb k) all) || existsb (str_eqb k) own) (references nt.2).

Lemma all_references_known : forallb (references_known all_placeholders) nginx_templates = true.
Proof. vm_compute. reflexivity. Qed.

(** A list of pieces somewhere in another. *)
Fixpoint occurs (p s : list piece) : bool :=
  bool_decide (take (length p) s = p) || match s with [] => false | _ :: r => occurs p r end.

Lemma occurs_spec p s : occurs p s = true -> exists a b, s = a ++ p ++ b.
Proof.
  assert (Hp : forall s, bool_decide (take (length p) s = p) = true -> exists a b, s = a ++ p ++ b).
  { intros s' H%bool_decide_eq_true. exists [], (drop (length p) s'). rewrite <- (take_drop (length p) s') at 1. by rewrite H. }
  induction s as [|x s IH]; cbn [occurs]; intros H; apply orb_true_iff in H as [H|H]; try by apply Hp.
  destruct (IH H) as (a & b & ->). by exists (x :: a), b.
Qed.

Lemma existsb_elem k l : existsb (str_eqb k) l = true <-> k ∈ l.
Proof.
  rewrite existsb_exists. unfold str_eqb. setoid_rewrite bool_decide_eq_true. setoid_rewrite <- list_elem_of_In. naive_solver.
Qed.

(** ** The shipped presets cover the templates *)

Definition shipped (fs : files) (dir : str) : Prop :=
  forall scope level t, text_at fs (preset_path dir scope level) = Some t -> (scope, level, t) ∈ preset_texts.

Definition scope_templates (s : str) : list (str * str) :=
  if str_eqb s (lit "core") then core_templates else default [] (templates_of s).

Definition BIND : str := lit "SHIELD_BIND_ADDR".

Definition scope_placeholders (s : str) : list str := concat (map (fun nt => placeholders nt.2) (scope_templates s)).

(** The placeholders of a scope's templates are keys of its preset or of
    core's, at any level. *)
Definition covered (ks : list str) (e core : str * str * str) : bool :=
  let keys := (env_pairs e.2).*1 ++ (env_pairs core.2).*1 in
  forallb (fun k => str_eqb k BIND || existsb (str_eqb k) keys) ks.

Lemma presets_cover :
  forallb (fun s => let ks := scope_placeholders s in
    forallb (fun e => negb (str_eqb e.1.1 s) ||
      forallb (fun core => negb (str_eqb core.1.1 (lit "core")) || covered ks e core) preset_texts) preset_texts) preset_scopes = true.
Proof. vm_compute. reflexivity. Qed.

Lemma presets_scoped : forallb (fun e => existsb (str_eqb e.1.1) preset_scopes) preset_texts = true.
Proof. vm_compute. reflexivity. Qed.

Lemma presets_leave_bind : forallb (fun e => forallb (fun k => negb (str_eqb BIND k)) (env_pairs e.2).*1) preset_texts = true.
Proof. vm_compute. reflexivity. Qed.

Lemma presets_have_templates :
  forallb (fun e => str_eqb e.1.1 (lit "core") || match templates_of e.1.1 with Some _ => true | None => false end) preset_texts = true.
Proof. vm_compute. reflexivity. Qed.

Lemma preset_texts_named : Forall (fun e => names_in (env_pairs e.2)) preset_texts.
Proof. apply (bool_decide_unpack _). vm_compute. exact I. Qed.

Lemma forallb_preset (f : str * str * str -> bool) e : forallb f preset_texts = true -> e ∈ preset_texts -> f e = true.
Proof. intros H He. rewrite forallb_forall in H. by apply H, list_elem_of_In. Qed.

Lemma shipped_names fs dir : shipped fs dir -> preset_names fs dir.
Proof. intros H s l t Ht%H. by apply (proj1 (Forall_forall _ _) preset_texts_named (s, l, t)). Qed.

(** A key of none of the presets. *)
Lemma foreign_key {POSIX : Posix} fs dir (p : str -> bool) k :
  shipped fs dir -> forallb (fun e => forallb (fun k => negb (p k)) (env_pairs e.2).*1) preset_texts = true -> p k = true ->
  (k ∉ all_preset_keys fs dir) /\ forall c, last_value k (preset_layer fs dir c) = None.
Proof.
  intros Hs Hall Hk.
  assert (H : forall s lv t, text_at fs (preset_path dir s lv) = Some t -> k ∉ (env_pairs t).*1).
  { intros s lv t Ht%Hs Hin. apply (forallb_preset _ _ Hall) in Ht. cbn [snd] in Ht. rewrite forallb_forall in Ht.
    specialize (Ht k (proj1 (list_elem_of_In _ _) Hin)). by rewrite Hk in Ht. }
  split.
  - intros Hin. apply elem_sort_u, elem_concat_map in Hin as (d & _ & Hin).
    destruct (text_at fs _) as [t|] eqn:Et; [|by apply elem_of_nil in Hin]. pose proof (H _ _ _ Et) as Hno. apply Hs in Et.
    change (parse_envfile t) with (table_text (env_pairs t)) in Hin.
    rewrite cut_table in Hin; [done|apply env_pairs_no_newlines|].
    by apply (proj1 (Forall_forall _ _) preset_texts_named (d, lit "default", t)).
  - intros c. apply last_value_none. intros (kv & E & Hkv)%list_elem_of_fmap. apply elem_concat_map in Hkv as (s & _ & Hkv).
    unfold preset_pairs in Hkv. destruct (text_at fs _) as [t|] eqn:Et; [|by apply elem_of_nil in Hkv].
    apply (H _ _ _ Et). apply list_elem_of_fmap. by exists kv.
Qed.

Section rendering.
Context {AWK : Awk} {POSIX : Posix} {ENVSUBST : Envsubst} (fs : files) (dir : str) (c : env).
Hypothesis Hshipped : shipped fs dir.
Hypothesis Hr : resolvable fs dir c.
Hypothesis Hbind : is_Some (c BIND).
Hypothesis Hprofiles : lit "core" ∉ tl (enabled c).

Lemma bind_not_preset : BIND ∉ all_preset_keys fs dir.
Proof. apply (foreign_key fs dir (str_eqb BIND)); [done|exact presets_leave_bind|]. unfold str_eqb. by rewrite bool_decide_eq_true. Qed.

Lemma in_layer s k :
  s ∈ enabled c -> k ∈ (preset_pairs fs dir c s).*1 -> is_Some (effective fs dir c k).
Proof.
  intros Hs Hk. unfold effective. destruct (last_value k (preset_layer fs dir c)) as [v|] eqn:E; [by eexists|].
  apply last_value_none in E. destruct E. apply list_elem_of_fmap in Hk as (kv & -> & Hkv). apply list_elem_of_fmap.
  exists kv. split; [done|]. apply elem_concat_map. by exists s.
Qed.

(** Whatever the profiles and the levels, every placeholder has a value. *)
Lemma placeholder_in_force s nt k :
  s ∈ enabled c -> nt ∈ scope_templates s -> k ∈ placeholders nt.2 -> is_Some (effective fs dir c k).
Proof.
  intros Hs Hnt Hk. destruct Hr as [_ Hok]. rewrite Forall_forall in Hok.
  destruct (Hok s Hs) as (_ & _ & [t Ht]). destruct (Hok (lit "core")) as (_ & _ & [t0 Ht0]); [by left|].
  assert (Es : preset_pairs fs dir c s = env_pairs t) by (unfold preset_pairs; by rewrite Ht).
  assert (Ec : preset_pairs fs dir c (lit "core") = env_pairs t0) by (unfold preset_pairs; by rewrite Ht0).
  apply Hshipped in Ht, Ht0. pose proof (forallb_preset _ _ presets_scoped Ht) as Hsc. cbn [fst] in Hsc.
  pose proof presets_cover as H. rewrite forallb_forall in H. specialize (H s). cbv zeta in H.
  rewrite <- list_elem_of_In, <- existsb_elem in H. specialize (H Hsc). apply (forallb_preset _ _ H) in Ht. cbn [fst] in Ht.
  unfold str_eqb in Ht at 1. rewrite bool_decide_eq_true_2 in Ht by done. cbn [negb orb] in Ht.
  apply (forallb_preset _ _ Ht) in Ht0. cbn [fst snd] in Ht0. apply orb_true_iff in Ht0 as [E|E]; [by vm_compute in E|].
  unfold covered in E. cbn [snd] in E. rewrite forallb_forall in E.
  assert (Hin : k ∈ scope_placeholders s) by (apply elem_concat_map; by exists nt).
  specialize (E k (proj1 (list_elem_of_In _ _) Hin)). apply orb_true_iff in E as [E|E].
  - unfold str_eqb in E. apply bool_decide_eq_true in E as ->. unfold effective.
    destruct (last_value BIND (preset_layer fs dir c)); [by eexists|]. case_bool_decide as Hb; [by apply bind_not_preset in Hb|done].
  - apply existsb_elem, elem_of_app in E as [E|E].
    + apply (in_layer s); [done|]. by rewrite Es.
    + apply (in_layer (lit "core")); [by left|]. by rewrite Ec.
Qed.

(** An environment in which the configuration is in force. *)
Definition in_force (e : env) : Prop :=
  (forall k v, effective fs dir c k = Some v -> e k = Some v) /\
  or_if_empty (e (lit "SHIELD_PROFILES")) (lit "strfry") = profile_names c.

Lemma render_profiles_enabled e : in_force e -> render_profiles e = tl (enabled c).
Proof.
  intros [_ He]. unfold render_profiles. rewrite He. destruct Hr as [Hp _]. rewrite (echo_profiles c Hp).
  assert (E : tr 44 32 (profile_names c ++ [NL]) = tr 44 32 (profile_names c) ++ [NL]) by (unfold tr; by rewrite map_app).
  rewrite E, substituted_line by (apply (tr_profiles_no c Hp); by left). cbn [enabled tl].
  apply glob_words. pose proof (enabled_chars c Hp) as H. by apply Forall_cons in H as [_ H].
Qed.

Lemma select_profiles ps :
  (forall p, p ∈ ps -> p ∈ enabled c /\ p <> lit "core") ->
  select ps = Ok (concat (map scope_templates ps)).
Proof.
  unfold select. induction ps as [|p ps IH]; intros H; [done|]. cbn [select_in map concat].
  change (templates_in profile_templates p) with (templates_of p).
  destruct (H p) as [Hp Hc]; [by left|]. destruct Hr as [_ Hok]. rewrite Forall_forall in Hok.
  destruct (Hok p Hp) as (_ & _ & [t Ht%Hshipped]). apply (forallb_preset _ _ presets_have_templates) in Ht. cbn [fst] in Ht.
  unfold scope_templates at 1. unfold str_eqb in *. rewrite bool_decide_eq_false_2 in Ht |- * by done. cbn [orb] in Ht.
  destruct (templates_of p); [|done]. rewrite IH; [done|]. intros q Hq. apply H. by right.
Qed.

Definition selected : list (str * str) := concat (map scope_templates (enabled c)).

Lemma render_complete e :
  in_force e -> exists vars, render e = Ok (map (fun nt => (nt.1, envsubst vars e nt.2)) selected) /\
    forall k, k ∈ vars <-> exists nt, nt ∈ selected /\ k ∈ placeholders nt.2.
Proof.
  intros He. unfold render, render_in. change (select_in profile_templates) with select. rewrite render_profiles_enabled by done.
  rewrite select_profiles by (intros p Hp; split; [by right|intros ->; done]). cbn [mbind res_bind].
  change (core_templates ++ concat (map scope_templates (tl (enabled c)))) with selected.
  set (vars := sort_u _).
  assert (Hv : forall k, k ∈ vars <-> exists nt, nt ∈ selected /\ k ∈ placeholders nt.2).
  { intros k. unfold vars. by rewrite elem_sort_u, elem_concat_map. }
  exists vars. split; [|done]. replace (forallb (is_set e) vars) with true; [done|]. symmetry. apply forallb_forall.
  intros k Hk%list_elem_of_In. apply Hv in Hk as (nt & Hnt & Hk). unfold selected in Hnt.
  apply elem_concat_map in Hnt as (s & Hs & Hnt). destruct (placeholder_in_force s nt k) as [v Hv']; [done..|].
  unfold is_set. by rewrite (proj1 He k v Hv').
Qed.

End rendering.

(** ** The policy of a listener *)

(** The tables are well formed, and their keys are placeholders of the file. *)
Definition listener_ok (l : listener) : bool :=
  forallb (fun kv => setting_name kv.1 && match kv.2 with Fixed s => negb (existsb (Z.eqb 59) s) | From _ => true end) (settings l) &&
  bool_decide (NoDup (settings l).*1) && negb (bool_decide (length (settings l) = 0%nat)) &&
  existsb (fun nt => str_eqb nt.1 (in_file l) &&
    forallb (fun k => existsb (str_eqb k) (placeholders nt.2))
      (port_key l :: filter_map (fun kv => match kv.2 with Fixed _ => None | From k => Some k end) (settings l)))
    (scope_templates (of_profile l)).

Lemma listeners_ok : forallb listener_ok listeners = true.
Proof. vm_compute. reflexivity. Qed.

Lemma listener_directives :
  forallb (fun l => existsb (fun nt => str_eqb nt.1 (in_file l) && occurs (directive_pieces l) (pieces all_placeholders nt.2))
    (scope_templates (of_profile l))) listeners = true.
Proof. vm_compute. reflexivity. Qed.

Lemma selected_template c nt : nt ∈ selected c -> nt ∈ nginx_templates.
Proof.
  intros (s & _ & H)%elem_concat_map. unfold scope_templates in H. unfold nginx_templates. apply elem_of_app.
  destruct (str_eqb s (lit "core")); [by left|]. right. unfold templates_of, templates_in in H.
  destruct (List.find _ profile_templates) as [[p ts]|] eqn:E; [|by apply elem_of_nil in H].
  apply List.find_some in E as [E _]. cbn [fmap option_fmap option_map default from_option snd] in H.
  apply elem_concat_map. exists (p, ts). split; [by apply list_elem_of_In|done].
Qed.

Section policy.
Context {AWK : Awk} {POSIX : Posix} {ENVSUBST : Envsubst} (fs : files) (dir : str) (c : env).
Hypothesis Hshipped : shipped fs dir.
Hypothesis Hr : resolvable fs dir c.
Hypothesis Hbind : is_Some (c BIND).
Hypothesis Hprofiles : lit "core" ∉ tl (enabled c).

(** A selected template, with the values of its placeholders. *)
Lemma rendered_text e vars nt :
  (forall k, k ∈ vars <-> exists nt, nt ∈ selected c /\ k ∈ placeholders nt.2) ->
  nt ∈ selected c -> envsubst vars e nt.2 = text_of_pieces e (pieces all_placeholders nt.2).
Proof.
  intros Hv Hnt.
  pose proof (selected_template c) as Hall.
  apply envsubst_pieces. apply Forall_forall. intros k Hk.
  pose proof all_references_known as Href. rewrite forallb_forall in Href.
  specialize (Href nt (proj1 (list_elem_of_In _ _) (Hall nt Hnt))). unfold references_known in Href.
  rewrite forallb_forall in Href. specialize (Href k (proj1 (list_elem_of_In _ _) Hk)).
  apply eq_true_iff_eq. rewrite !existsb_elem, Hv. split.
  - intros (nt' & Hnt' & Hin). apply elem_concat_map. exists nt'. by split; [apply Hall|].
  - intros Hin. apply orb_true_iff in Href as [H|H]; [|exists nt; split; [done|by apply existsb_elem]].
    apply negb_true_iff, not_true_iff_false in H. destruct H. by apply existsb_elem.
Qed.

Definition clean (l : listener) : Prop :=
  forall name k v, (name, From k) ∈ settings l -> effective fs dir c k = Some v -> 59 ∉ v.

Lemma listener_facts l :
  l ∈ listeners -> of_profile l ∈ enabled c ->
  (Forall (fun kv => setting_name kv.1 = true) (settings l) /\ NoDup (settings l).*1 /\ settings l <> [] /\
   (forall name s, (name, Fixed s) ∈ settings l -> 59 ∉ s)) /\
  (is_Some (effective fs dir c (port_key l)) /\
   forall name k, (name, From k) ∈ settings l -> is_Some (effective fs dir c k)).
Proof.
  intros Hl Hp. pose proof listeners_ok as H. rewrite forallb_forall in H. specialize (H l (proj1 (list_elem_of_In _ _) Hl)).
  unfold listener_ok in H. apply andb_true_iff in H as [H H4]. apply andb_true_iff in H as [H H3]. apply andb_true_iff in H as [H1 H2].
  rewrite forallb_forall in H1. split.
  - split; [|split; [by apply bool_decide_eq_true in H2|split; [intros E; by rewrite E in H3|]]].
    + apply Forall_forall. intros kv Hkv%list_elem_of_In. by apply H1, andb_true_iff in Hkv as [? _].
    + intros name s Hs%list_elem_of_In. apply H1, andb_true_iff in Hs as [_ Hs]. cbn [snd] in Hs.
      apply negb_true_iff, not_true_iff_false in Hs. intros Hin. apply Hs, existsb_exists. exists 59.
      split; [by apply list_elem_of_In|done].
  - rewrite existsb_exists in H4. destruct H4 as (nt & Hnt & H4). apply andb_true_iff in H4 as [_ H4].
    rewrite forallb_forall in H4. apply list_elem_of_In in Hnt.
    assert (Hin : forall k, List.In k (port_key l :: filter_map (fun kv => match kv.2 with Fixed _ => None | From k => Some k end) (settings l)) ->
              is_Some (effective fs dir c k)).
    { intros k Hk%H4%existsb_elem. by apply (placeholder_in_force fs dir c Hshipped Hr Hbind (of_profile l) nt). }
    split; [apply Hin; by left|]. intros name k Hk. apply Hin. right. apply list_elem_of_In, elem_filter_map.
    by exists (name, From k).
Qed.

(** The file of a listener holds the policy directive of its port, with the
    values in force. *)
Lemma directive_in_file e l :
  in_force fs dir c e -> l ∈ listeners -> of_profile l ∈ enabled c ->
  exists written before after,
    render e = Ok written /\
    (in_file l, before ++ policy_directive (default [] (effective fs dir c (port_key l)))
                            (settings_text (values (effective fs dir c) (settings l))) ++ after) ∈ written.
Proof.
  intros He Hl Hp. destruct (render_complete fs dir c Hshipped Hr Hbind Hprofiles e He) as (vars & Hrender & Hvars).
  destruct (listener_facts l Hl Hp) as (_ & [port Hport] & Hset).
  pose proof listener_directives as H. rewrite forallb_forall in H. specialize (H l (proj1 (list_elem_of_In _ _) Hl)).
  apply existsb_exists in H as (nt & Hnt & H). apply andb_true_iff in H as [Hname Hocc]. apply list_elem_of_In in Hnt.
  unfold str_eqb in Hname. apply bool_decide_eq_true in Hname. apply occurs_spec in Hocc as (a & b & Hocc).
  assert (Hsel : nt ∈ selected c) by (apply elem_concat_map; by exists (of_profile l)).
  assert (Hval : values e (settings l) = values (effective fs dir c) (settings l)).
  { unfold values. apply map_ext_in. intros [name v] Hin%list_elem_of_In. cbn [fst snd]. f_equal.
    destruct v as [s|k]; [done|]. cbn [setting_text]. destruct (Hset name k Hin) as [v Hv].
    by rewrite Hv, (proj1 He k v Hv). }
  exists (map (fun nt => (nt.1, envsubst vars e nt.2)) (selected c)), (text_of_pieces e a), (text_of_pieces e b).
  split; [done|]. apply list_elem_of_fmap. exists nt. split; [|done]. rewrite Hname. f_equal.
  rewrite (rendered_text e vars nt), Hocc, !text_of_app, directive_text, Hval by done.
  by rewrite Hport, (proj1 He _ _ Hport).
Qed.

(** The engine reads the values back, when no semicolon is in them. *)
Lemma policy_read_back l :
  l ∈ listeners -> of_profile l ∈ enabled c -> clean l ->
  parse_policy (settings_text (values (effective fs dir c) (settings l))) = list_to_map (values (effective fs dir c) (settings l)).
Proof.
  intros Hl Hp Hclean. destruct (listener_facts l Hl Hp) as ((Hn & Hd & Hne & Hfix) & _ & Hset).
  destruct (settings l) as [|kv r] eqn:El; [done|]. cbn [values map]. apply parse_settings.
  - change ((kv.1, setting_text (effective fs dir c) kv.2) :: map (fun kv => (kv.1, setting_text (effective fs dir c) kv.2)) r)
      with (values (effective fs dir c) (kv :: r)). rewrite <- El in *. apply Forall_forall.
    intros [name v] Hin. apply list_elem_of_fmap in Hin as ([name' s] & [= -> ->] & Hin).
    split; [by apply (proj1 (Forall_forall _ _) Hn (name', s))|]. cbn [fst snd].
    destruct s as [s|k]; [by apply (Hfix name')|]. cbn [setting_text]. destruct (Hset name' k Hin) as [v Hv].
    rewrite Hv. by apply (Hclean name' k).
  - replace _.*1 with ((kv :: r).*1); [done|]. cbn [fmap list_fmap fst]. f_equal. unfold fmap.
    clear. induction r as [|x r IH]; [done|]. cbn [list_fmap map fst]. by f_equal.
Qed.

Lemma policy_in_file e l :
  in_force fs dir c e -> l ∈ listeners -> of_profile l ∈ enabled c -> clean l ->
  exists written before after policy,
    render e = Ok written /\
    (in_file l, before ++ policy_directive (default [] (effective fs dir c (port_key l))) policy ++ after) ∈ written /\
    parse_policy policy = list_to_map (values (effective fs dir c) (settings l)).
Proof.
  intros He Hl Hp Hclean. destruct (directive_in_file e l He Hl Hp) as (written & before & after & H1 & H2).
  eexists written, before, after, _. split; [done|]. split; [done|]. by apply policy_read_back.
Qed.

End policy.

(** ** From the env file to the engine *)

Section to_engine.
Context {AWK : Awk} {POSIX : Posix} {ENVSUBST : Envsubst}.

(** A deployment of the shipped presets: an address to bind is set, and the
    list of profiles is the env file's. *)
Record deployed (fs : files) (self : str) (e0 : environ) (dir file t : str) (c : env) (base : env) : Prop := {
  has_presets : shipped fs dir;
  has_dir : find_presets fs self e0 = Ok dir;
  has_file : env_file fs file t c;
  has_scopes : resolvable fs dir c;
  has_bind : is_Some (c BIND);
  has_profiles : lit "core" ∉ tl (enabled c);
  no_other_profiles : base (lit "SHIELD_PROFILES") = None;
}.

Lemma exported_in_force fs dir c base l :
  shipped fs dir -> base (lit "SHIELD_PROFILES") = None \/ base (lit "SHIELD_PROFILES") = c (lit "SHIELD_PROFILES") ->
  (forall k, last_value k l = effective fs dir c k) -> in_force fs dir c (exported base l).
Proof.
  intros Hs Hb Hl. split.
  - intros k v Hk. unfold exported. by rewrite Hl, Hk.
  - unfold exported, profile_names. rewrite Hl. unfold effective.
    destruct (foreign_key fs dir (str_eqb (lit "SHIELD_PROFILES")) (lit "SHIELD_PROFILES")) as [H1 H2];
      [done|vm_compute; reflexivity|vm_compute; reflexivity|]. rewrite H2.
    rewrite bool_decide_eq_false_2 by done.
    destruct (c (lit "SHIELD_PROFILES")); [done|]. by destruct Hb as [-> | ->].
Qed.

(** The limits an operator sets are the limits the engine enforces: on
    the shipped presets, what [render.sh] evaluates and renders never lacks a
    placeholder, the file of every enabled profile holds the policy directive
    of its port, and the engine reads back from the directive's text exactly
    the listener's settings with the values in force. *)
Theorem policy_reaches_engine fs self e0 dir file t c base l :
  deployed fs self e0 dir file t c base -> l ∈ listeners -> of_profile l ∈ enabled c -> clean fs dir c l ->
  exists out exports written before after policy,
    main fs self e0 [lit "resolve"; lit "-f"; file; lit "--shell"] = (out, 0) /\
    eval_exports out = Some exports /\ render (exported base exports) = Ok written /\
    (in_file l, before ++ policy_directive (default [] (effective fs dir c (port_key l))) policy ++ after) ∈ written /\
    parse_policy policy = list_to_map (values (effective fs dir c) (settings l)).
Proof.
  intros [Hs Hd Hf Hr Hb Hp Hbase] Hl Hen Hc.
  destruct (resolved_with fs self e0 dir _ c (env_file_layer _ _ _ _ Hf) (Build_installed _ _ _ _ Hd (shipped_names _ _ Hs)) Hr)
    as (Hv & exports & Hex & Hk).
  destruct (policy_in_file fs dir c Hs Hr Hb Hp (exported base exports) l) as (written & before & after & policy & H1 & H2 & H3);
    [apply exported_in_force; [done|by left|done]|done..|].
  eexists _, exports, written, before, after, policy. split; [by destruct Hf; apply resolve_file_run|]. by repeat split.
Qed.

(** ** The jails *)

Lemma presets_set_jails :
  forallb (fun e => negb (str_eqb e.1.1 (lit "core")) || forallb (fun k => existsb (str_eqb k) (env_pairs e.2).*1) F2B_KEYS) preset_texts = true.
Proof. vm_compute. reflexivity. Qed.

Lemma jail_key_in_force fs dir c k :
  shipped fs dir -> resolvable fs dir c -> k ∈ F2B_KEYS -> is_Some (effective fs dir c k).
Proof.
  intros Hs [_ Hok] Hk. rewrite Forall_forall in Hok. destruct (Hok (lit "core")) as (_ & _ & [t Ht]); [by left|].
  apply (in_layer fs dir c (lit "core")); [by left|]. unfold preset_pairs. rewrite Ht. apply Hs in Ht.
  apply (forallb_preset _ _ presets_set_jails) in Ht. cbn [fst snd] in Ht.
  apply orb_true_iff in Ht as [E|E]; [by vm_compute in E|]. rewrite forallb_forall in E.
  by apply existsb_elem, E, list_elem_of_In.
Qed.

Lemma jails_in_force fs dir c e :
  shipped fs dir -> resolvable fs dir c -> (forall k v, effective fs dir c k = Some v -> e k = Some v) ->
  render_jails e = text_of_pieces (effective fs dir c) (pieces F2B_KEYS jails).
Proof.
  intros Hs Hr He. unfold render_jails, fill_jails. rewrite (envsubst_pieces F2B_KEYS F2B_KEYS) by (by apply Forall_forall).
  apply pieces_text_ext. intros k Hkey. destruct (jail_key_in_force fs dir c k Hs Hr Hkey) as [v Hv]. by rewrite Hv, (He k v).
Qed.

(** In a container every threshold of a jail is the one in force: the
    jails the entry point renders are the template with each placeholder of
    fail2ban's settings replaced by its value in force, and none of them is
    unset. *)
Theorem container_jails_carry_thresholds fs self e dir base :
  let c := env_custom fs dir e in
  shipped fs dir -> find_presets fs self e = Ok dir -> environ_ok e -> resolvable fs dir c ->
  exists out, main fs self e [lit "resolve"; lit "--from-env"; lit "--shell"] = (out, 0) /\
    container_jails base out = Some (text_of_pieces (effective fs dir c) (pieces F2B_KEYS jails)) /\
    forall k, k ∈ F2B_KEYS -> is_Some (effective fs dir c k).
Proof.
  intros c Hs Hd He Hr. pose proof (shipped_names _ _ Hs) as Hn.
  destruct (resolved_with fs self e dir _ c (env_layer fs dir e Hn He) (Build_installed _ _ _ _ Hd Hn) Hr) as (Hv & l & Hl & Hk).
  eexists. split; [by apply resolve_env_run|]. unfold container_jails. rewrite Hl. cbn [fmap option_fmap option_map].
  split; [|intros k; by apply jail_key_in_force]. f_equal. apply jails_in_force; [done..|]. intros k v Hv'. unfold exported. by rewrite Hk, Hv'.
Qed.

End to_engine.

(** ** Concretely *)

#[local] Existing Instance std_posix.
#[local] Existing Instance posix_awk.
#[local] Existing Instance std_envsubst.

Lemma split_char_ne sep x : split_char sep x <> [].
Proof. destruct x as [|c x]; [done|]. cbn [split_char]. case_if; [done|]. by destruct (split_char sep x). Qed.

Lemma split_char_one sep x y : split_char sep x = [y] -> x = y.
Proof.
  revert y. induction x as [|c x IH]; intros y; cbn [split_char]; [by intros [= <-]|].
  pose proof (split_char_ne sep x) as Hne. destruct (c =? sep); [by intros [= <- H]|].
  destruct (split_char sep x) as [|p ps]; [done|]. intros [= <- ->]. f_equal. by apply IH.
Qed.

Lemma machine_shipped file text : head file <> Some 47 -> shipped (machine_files DIR file text) DIR.
Proof.
  intros Hf scope level t. cbn [text_at machine_files]. unfold str_eqb. case_bool_decide as E.
  { destruct Hf. rewrite <- E. reflexivity. }
  unfold shipped_text. intros ([[a b] w] & Hfind & ->)%fmap_Some. apply List.find_some in Hfind as [Hin Heq].
  cbn [fst snd] in *. unfold str_eqb in Heq. apply bool_decide_eq_true in Heq. apply list_elem_of_In in Hin.
  assert (Hno : Forall (fun e => (47 ∉ e.1.1) /\ (47 ∉ e.1.2 ++ lit ".env")) preset_texts) by (apply (bool_decide_unpack _); vm_compute; exact I).
  destruct (proj1 (Forall_forall _ _) Hno _ Hin) as [Ha Hb]. cbn [fst snd] in Ha, Hb.
  unfold preset_path, path in Heq. apply app_inv_head, app_inv_head in Heq.
  apply (f_equal (split_char 47)) in Heq. change (lit "/") with ([47] : str) in Heq. cbn [app] in Heq.
  rewrite split_char_app, (split_char_none _ _ Hb), split_char_sep in Heq by done.
  pose proof (split_char_ne 47 scope). pose proof (split_char_ne 47 (level ++ lit ".env")).
  destruct (split_char 47 scope) as [|p [|q ps]] eqn:Es; [done| |by destruct ps, (split_char 47 (level ++ lit ".env"))].
  injection Heq as -> El. symmetry in El. apply split_char_one in Es as ->, El. apply app_inv_tail in El as ->. done.
Qed.

Lemma node_deployed : deployed node_files (lit "/opt/bin") in_presets DIR (lit "shield.env") node_env node (fun _ => None).
Proof.
  split; [by apply machine_shipped|vm_compute; reflexivity|exact node_env_file|exact node_resolvable| | |done].
  - eexists. vm_compute. reflexivity.
  - apply (bool_decide_unpack _). vm_compute. exact I.
Qed.

Definition relay : listener := List.hd (mk_listener [] [] [] []) listeners.

Lemma clean_check fs dir c l :
  forallb (fun kv => match kv.2 with
                     | Fixed _ => true
                     | From k => negb (existsb (Z.eqb 59) (default [] (effective fs dir c k)))
                     end) (settings l) = true -> clean fs dir c l.
Proof.
  intros H name k v Hin Hv Hc. rewrite forallb_forall in H. apply list_elem_of_In, H in Hin. cbn [snd] in Hin. rewrite Hv in Hin.
  apply negb_true_iff, not_true_iff_false in Hin. apply Hin, existsb_exists. exists 59.
  split; [by apply list_elem_of_In|reflexivity].
Qed.

(** The relay of [node_env]: the engine's limits are those of the default
    preset. *)
Lemma policy_reaches_engine_witness :
  exists out exports written before after policy,
    main node_files (lit "/opt/bin") in_presets [lit "resolve"; lit "-f"; lit "shield.env"; lit "--shell"] = (out, 0) /\
    eval_exports out = Some exports /\ render (exported (fun _ => None) exports) = Ok written /\
    (lit "20-strfry-ws.stream", before ++ policy_directive (lit "80") policy ++ after) ∈ written /\
    let cfg := cfg_of (parse_policy policy) in
    maxMsg cfg = of_Z 131072 /\ maxSubs cfg = of_Z 50 /\ requireNarrowing cfg = true /\
    bool_decide (kindDeny cfg = ∅) = true.
Proof.
  destruct (policy_reaches_engine node_files (lit "/opt/bin") in_presets DIR (lit "shield.env") node_env node (fun _ => None) relay)
    as (out & exports & written & before & after & policy & H1 & H2 & H3 & H4 & H5).
  - exact node_deployed.
  - left.
  - apply (bool_decide_unpack _). vm_compute. exact I.
  - apply clean_check. vm_compute. reflexivity.
  - replace (default [] (effective node_files DIR node (port_key relay))) with (lit "80") in H4 by (vm_compute; reflexivity).
    replace (in_file relay) with (lit "20-strfry-ws.stream") in H4 by (vm_compute; reflexivity).
    exists out, exports, written, before, after, policy. split; [exact H1|]. split; [exact H2|]. split; [exact H3|].
    split; [exact H4|]. cbv zeta. rewrite H5. repeat split; vm_compute; reflexivity.
Defined.

Lemma container_names : shipped container_files DIR.
Proof. by apply machine_shipped. Qed.

Lemma container_jails_carry_thresholds_witness :
  exists out, main container_files (lit "/usr/local/bin") container_env [lit "resolve"; lit "--from-env"; lit "--shell"] = (out, 0) /\
    container_jails (fun _ => None) out =
      Some (text_of_pieces (effective container_files DIR (env_custom container_files DIR container_env)) (pieces F2B_KEYS jails)) /\
    forall k, k ∈ F2B_KEYS -> is_Some (effective container_files DIR (env_custom container_files DIR container_env) k).
Proof.
  apply (container_jails_carry_thresholds container_files (lit "/usr/local/bin") container_env DIR (fun _ => None)).
  - exact container_names.
  - vm_compute. reflexivity.
  - exact container_env_ok.
  - split; [vm_compute; reflexivity|scopes_there].
Defined.

(** On a host the presets are not resolved for fail2ban: with the same
    configuration every threshold is empty there. *)
Example host_jails_lack_thresholds :
  let blank := List.filter (str_eqb (lit "maxretry = ")) in
  length (blank (records (host_jails (fun _ => None) node_env))) = 6%nat /\
  option_map (fun t => length (blank (records t)))
    (container_jails (fun _ => None) (main node_files (lit "/opt/bin") in_presets [lit "resolve"; lit "-f"; lit "shield.env"; lit "--shell"]).1) = Some 0%nat.
Proof. vm_compute. split; reflexivity. Qed.
