(* ===== verification/Container.v ===== *)
(** * nginx in a container: [deploy/container/shield-entrypoint.sh]

    The entry point evaluates what [shield-config] resolves, stages the
    templates of the enabled profiles and hands over to the entry point of the
    stock image, which runs [envsubst] for every variable of the environment
    over each of them: a parameter, the class [StockEntrypoint].  On a host
    [render.sh] replaces the placeholders only; the theorem says that both write
    the same files. *)
From S2P Require Import Prelude Prog Text Js JsStd BanFile Shell ShellText Collect Config Presets.
From S2P Require Import ConfigRuns ConfigText ConfigResolve ConfigTheorems.
From S2P Require Import TemplateTexts Templates TemplateText TemplateTheorems.

(** What the stock image makes of a template, given the names that its
    environment exports. *)
Class StockEntrypoint {ENVSUBST : Envsubst} := {
  stock_envsubst : list str -> env -> str -> str;
  stock_envsubst_all names e s : stock_envsubst names e s = envsubst names e s;
}.

Section container.
Context {AWK : Awk} {POSIX : Posix} {ENVSUBST : Envsubst} {STOCK : StockEntrypoint}.

(** The templates staged, rendered. *)
Definition stage (names : list str) (e : env) : res stop (list (str * str)) :=
  ts ← select (render_profiles e); Ok (map (fun nt => (nt.1, stock_envsubst names e nt.2)) (core_templates ++ ts)).

Definition environ_names (e : environ) : list str := (map_to_list e).*1.

Definition shield_entrypoint (fs : files) (self : str) (e : environ) : res stop (list (str * str)) :=
  let '(resolved, status) := main fs self e [lit "resolve"; lit "--from-env"; lit "--shell"] in
  if negb (status =? 0) then Err (Die (lit "shield-config could not resolve the configuration."))
  else
    match eval_exports resolved with
    | Some l => stage (environ_names e ++ l.*1) (exported (fun k => e !! k) l)
    | None => Err (Die [])
    end.

(** ** The same files *)

(** A name that a template refers to is a placeholder of it or nothing of ours. *)
Definition own_references (nt : str * str) : bool :=
  forallb (fun k => negb (starts_with (lit "SHIELD_") k) || existsb (str_eqb k) (placeholders nt.2)) (references nt.2).

Lemma references_own : forallb own_references nginx_templates = true.
Proof. vm_compute. reflexivity. Qed.

Definition PRESET_DIR_KEY : str := lit "SHIELD_PRESET_DIR".

Lemma placeholders_checked :
  forallb (fun nt => forallb (fun k => starts_with (lit "SHIELD_") k && negb (str_eqb k PRESET_DIR_KEY)) (placeholders nt.2))
    nginx_templates = true.
Proof. vm_compute. reflexivity. Qed.

Lemma placeholders_ours nt k :
  nt ∈ nginx_templates -> k ∈ placeholders nt.2 -> starts_with (lit "SHIELD_") k = true /\ k <> PRESET_DIR_KEY.
Proof.
  intros Hnt%list_elem_of_In Hk%list_elem_of_In. pose proof placeholders_checked as H. rewrite forallb_forall in H.
  specialize (H nt Hnt). rewrite forallb_forall in H. apply H, andb_true_iff in Hk as [H1 H2]. split; [done|].
  apply negb_true_iff in H2. unfold str_eqb in H2. by apply bool_decide_eq_false in H2.
Qed.

Lemma preset_keys_ours : forallb (fun e => forallb (starts_with (lit "SHIELD_")) (env_pairs e.2).*1) preset_texts = true.
Proof. vm_compute. reflexivity. Qed.

(** Rendered with any list of variables that holds the placeholders of a
    template and no other name it refers to. *)
Lemma rendered_own vars e nt :
  nt ∈ nginx_templates ->
  (forall k, k ∈ references nt.2 -> k ∈ vars -> starts_with (lit "SHIELD_") k = true) ->
  (forall k, k ∈ placeholders nt.2 -> k ∈ vars) ->
  envsubst vars e nt.2 = text_of_pieces e (pieces (placeholders nt.2) nt.2).
Proof.
  intros Hnt Hours Hown. apply envsubst_pieces. apply Forall_forall. intros k Hk.
  apply eq_true_iff_eq. rewrite !existsb_elem. split; [|apply Hown]. intros Hv.
  pose proof references_own as H. rewrite forallb_forall in H. apply list_elem_of_In, H in Hnt. unfold own_references in Hnt.
  rewrite forallb_forall in Hnt. specialize (Hnt k (proj1 (list_elem_of_In _ _) Hk)). rewrite (Hours k Hk Hv) in Hnt.
  by apply existsb_elem.
Qed.

Lemma preset_key_ours fs dir k : shipped fs dir -> k ∈ all_preset_keys fs dir -> starts_with (lit "SHIELD_") k = true.
Proof.
  intros Hs Hk. unfold all_preset_keys in Hk. apply elem_sort_u, elem_concat_map in Hk as (d & _ & Hk).
  destruct (text_at fs _) as [t|] eqn:Et; [|by apply elem_of_nil in Hk]. apply Hs in Et.
  change (parse_envfile t) with (table_text (env_pairs t)) in Hk.
  rewrite cut_table in Hk; [|apply env_pairs_no_newlines|by apply (proj1 (Forall_forall _ _) preset_texts_named (d, lit "default", t))].
  apply (forallb_preset _ _ preset_keys_ours) in Et. cbn [snd] in Et. rewrite forallb_forall in Et. by apply Et, list_elem_of_In.
Qed.

Lemma effective_ours fs dir c k :
  shipped fs dir -> (forall k, is_Some (c k) -> starts_with (lit "SHIELD_") k = true) ->
  is_Some (effective fs dir c k) -> starts_with (lit "SHIELD_") k = true.
Proof.
  intros Hs Hc [v Hv]. unfold effective in Hv. destruct (last_value k (preset_layer fs dir c)) as [w|] eqn:E.
  - assert (Hin : k ∈ (preset_layer fs dir c).*1) by (apply last_value_elem in E; apply list_elem_of_fmap; by exists (k, w)).
    apply list_elem_of_fmap in Hin as (kv & -> & Hkv). apply elem_concat_map in Hkv as (s & _ & Hkv).
    unfold preset_pairs in Hkv. destruct (text_at fs _) as [t|] eqn:Et; [|by apply elem_of_nil in Hkv].
    apply Hs in Et. apply (forallb_preset _ _ preset_keys_ours) in Et. cbn [snd] in Et. rewrite forallb_forall in Et.
    apply Et, list_elem_of_In, list_elem_of_fmap. by exists kv.
  - case_bool_decide; [done|]. apply Hc. by eexists.
Qed.

(** The names that the environment and the evaluated settings export. *)
Lemma exported_names e l k : k ∈ environ_names e ++ l.*1 <-> is_Some (exported (fun k => e !! k) l k).
Proof.
  unfold environ_names, exported. rewrite elem_of_app. destruct (last_value k l) as [v|] eqn:E.
  - split; [by eexists|]. intros _. right. apply last_value_elem in E. apply list_elem_of_fmap. by exists (k, v).
  - apply last_value_none in E. split.
    + intros [H|H]; [|done]. apply list_elem_of_fmap in H as ([k' v] & -> & H). apply elem_of_map_to_list in H. by eexists.
    + intros [v Hv]. left. apply list_elem_of_fmap. exists (k, v). split; [done|]. by apply elem_of_map_to_list.
Qed.

(** The two environments that the templates see. *)
Lemma stage_like_render fs1 dir1 c1 e1 fs2 dir2 c2 e2 names :
  shipped fs1 dir1 -> resolvable fs1 dir1 c1 -> is_Some (c1 BIND) -> lit "core" ∉ tl (enabled c1) -> in_force fs1 dir1 c1 e1 ->
  shipped fs2 dir2 -> resolvable fs2 dir2 c2 -> in_force fs2 dir2 c2 e2 -> enabled c1 = enabled c2 ->
  (forall k, starts_with (lit "SHIELD_") k = true -> k <> PRESET_DIR_KEY -> effective fs1 dir1 c1 k = effective fs2 dir2 c2 k) ->
  (forall k, is_Some (e2 k) <-> k ∈ names) ->
  (forall nt k, nt ∈ nginx_templates -> k ∈ references nt.2 -> k ∈ names -> starts_with (lit "SHIELD_") k = true) ->
  exists written, render e1 = Ok written /\ stage names e2 = Ok written.
Proof.
  intros Hs1 Hr1 Hb Hp He1 Hs2 Hr2 He2 Hen Heff Hnames Href.
  destruct (render_complete fs1 dir1 c1 Hs1 Hr1 Hb Hp e1 He1) as (vars & Hrender & Hvars).
  eexists. split; [exact Hrender|]. unfold stage.
  rewrite (render_profiles_enabled fs2 dir2 c2 Hr2 e2 He2), <- Hen.
  rewrite (select_profiles fs1 dir1 c1 Hs1 Hr1) by (intros p Hin; split; [by right|intros ->; done]). cbn [mbind res_bind].
  change (core_templates ++ concat (map scope_templates (tl (enabled c1)))) with (selected c1). f_equal.
  apply map_ext_in. intros nt Hnt%list_elem_of_In. f_equal. rewrite stock_envsubst_all.
  pose proof (selected_template c1 nt Hnt) as Hin.
  assert (Hval : forall k, k ∈ placeholders nt.2 -> e1 k = e2 k /\ k ∈ names).
  { intros k Hk. apply elem_concat_map in Hnt as (s & Hsc & Hnt').
    destruct (placeholder_in_force fs1 dir1 c1 Hs1 Hr1 Hb s nt k) as [v Hv]; [done..|].
    destruct (placeholders_ours nt k Hin Hk) as [Hours Hdir].
    assert (Hv2 : e2 k = Some v) by (apply He2; by rewrite <- Heff).
    rewrite (proj1 He1 k v Hv), Hv2. split; [done|]. apply Hnames. by rewrite Hv2. }
  rewrite (rendered_own names e2 nt), (rendered_own vars e1 nt).
  - apply pieces_text_ext. intros k Hk. symmetry. by apply Hval.
  - done.
  - intros k _ (nt' & Hnt' & Hk)%Hvars. by apply (placeholders_ours nt'), Hk; apply (selected_template c1).
  - intros k Hk. apply Hvars. by exists nt.
  - done.
  - intros k Hk Hn. by apply (Href nt).
  - intros k Hk. by apply Hval.
Qed.

(** C22.  nginx gets the same configuration in a container as on a host: let the
    image have the same presets and its environment give every configuration
    key the value the host's env file gives it last (or leave it unset), and
    no other variable that a template refers to.  Then the entry point writes
    the files that [render.sh] writes, character for character, although it
    replaces every variable of its environment and not the placeholders only. *)
Theorem container_renders_like_host fs1 self1 e1 dir1 file t c base fs2 self2 e2 dir2 :
  deployed fs1 self1 e1 dir1 file t c base ->
  shipped fs2 dir2 -> find_presets fs2 self2 e2 = Ok dir2 -> same_presets fs1 dir1 fs2 dir2 -> environ_ok e2 ->
  (forall k, shared_key fs2 dir2 k -> e2 !! k = c k) ->
  (forall nt k, nt ∈ nginx_templates -> k ∈ references nt.2 -> is_Some (e2 !! k) -> starts_with (lit "SHIELD_") k = true) ->
  exists out exports written,
    main fs1 self1 e1 [lit "resolve"; lit "-f"; file; lit "--shell"] = (out, 0) /\
    eval_exports out = Some exports /\ render (exported base exports) = Ok written /\
    shield_entrypoint fs2 self2 e2 = Ok written.
Proof.
  intros [Hs1 Hd1 Hf Hr1 Hb Hp Hbase] Hs2 Hd2 Hsame He Hagree Hcoll.
  set (c2 := env_custom fs2 dir2 e2).
  assert (Hc : forall k, shared_key fs2 dir2 k -> c k = c2 k).
  { intros k Hk. rewrite <- Hagree by done. unfold c2, env_custom. by destruct Hk as [-> _]. }
  assert (Hsel : forall k, selects k -> c k = c2 k) by (intros k Hk; by apply Hc, selects_shared).
  pose proof (resolvable_ext fs1 dir1 fs2 dir2 c c2 Hsame Hsel Hr1) as Hr2.
  destruct (resolved_with fs1 self1 e1 dir1 _ c (env_file_layer _ _ _ _ Hf) (Build_installed _ _ _ _ Hd1 (shipped_names _ _ Hs1)) Hr1)
    as (Hv1 & l1 & Hl1 & Hk1).
  destruct (resolved_with fs2 self2 e2 dir2 _ c2 (env_layer fs2 dir2 e2 (shipped_names _ _ Hs2) He)
    (Build_installed _ _ _ _ Hd2 (shipped_names _ _ Hs2)) Hr2) as (Hv2 & l2 & Hl2 & Hk2).
  assert (Hours : forall k, starts_with (lit "SHIELD_") k = true -> k <> PRESET_DIR_KEY -> shared_key fs2 dir2 k).
  { intros k Hk Hne. split; [|done]. unfold of_interest. by rewrite Hk, orb_true_r. }
  destruct (stage_like_render fs1 dir1 c (exported base l1) fs2 dir2 c2 (exported (fun k => e2 !! k) l2) (environ_names e2 ++ l2.*1))
    as (written & Hw1 & Hw2); try done.
  - apply exported_in_force; [done|by left|done].
  - apply exported_in_force; [done| |done]. right. rewrite Hagree by (by apply selects_shared; left). by apply Hsel; left.
  - apply (enabled_ext _ _ Hsel).
  - intros k Hk Hne. apply effective_ext; [done..|]. by apply Hc, Hours.
  - intros k. by rewrite exported_names.
  - intros nt k Hnt Hk Hn. apply exported_names in Hn. unfold exported in Hn. rewrite Hk2 in Hn.
    destruct (effective fs2 dir2 c2 k) eqn:E; [|by apply (Hcoll nt)].
    apply (effective_ours fs2 dir2 c2); [done| |by rewrite E]. intros k' [v Hv]. unfold c2, env_custom, of_interest in Hv.
    case_bool_decide as Hkey; [by apply (preset_key_ours fs2 dir2)|]. cbn [orb] in Hv. by destruct (starts_with (lit "SHIELD_") k').
  - eexists _, l1, written. split; [by destruct Hf; apply resolve_file_run|]. split; [done|]. split; [done|].
    unfold shield_entrypoint. rewrite (resolve_env_run fs2 self2 e2 dir2) by done. cbn [negb Z.eqb]. by rewrite Hl2.
Qed.
End container.

(** ** Concretely *)

#[local] Existing Instance std_posix.
#[local] Existing Instance posix_awk.
#[local] Existing Instance std_envsubst.
#[local] Instance every_variable : StockEntrypoint := {| stock_envsubst := envsubst; stock_envsubst_all _ _ _ := eq_refl |}.

Lemma container_env_ours k : is_Some (container_env !! k) -> starts_with (lit "SHIELD_") k = true.
Proof.
  intros [v Hv]. assert (H : map_Forall (fun k _ => starts_with (lit "SHIELD_") k = true) container_env)
    by (apply (bool_decide_unpack _); vm_compute; exact I).
  exact (H k v Hv).
Qed.

Lemma container_renders_like_host_witness :
  exists out exports written,
    main node_files (lit "/opt/bin") in_presets [lit "resolve"; lit "-f"; lit "shield.env"; lit "--shell"] = (out, 0) /\
    eval_exports out = Some exports /\ render (exported (fun _ => None) exports) = Ok written /\
    shield_entrypoint container_files (lit "/usr/local/bin") container_env = Ok written.
Proof.
  apply (container_renders_like_host node_files (lit "/opt/bin") in_presets DIR (lit "shield.env") node_env node (fun _ => None)
           container_files (lit "/usr/local/bin") container_env DIR).
  - exact node_deployed.
  - exact container_names.
  - vm_compute. reflexivity.
  - by apply machine_presets.
  - exact container_env_ok.
  - exact node_selects.
  - intros nt k _ _. apply container_env_ours.
Defined.

(** Without an address to bind, a host refuses to render; the container starts
    with the placeholder left in the configuration. *)
Definition unbound : environ := delete BIND container_env.
Definition unbound_env : env := fun k => unbound !! k.

Example container_leaves_unset_placeholder :
  let left_in (w : list (str * str)) := existsb (fun nt => contains (lit "listen [${SHIELD_BIND_ADDR}]") nt.2) w in
  match shield_entrypoint container_files (lit "/usr/local/bin") unbound with Ok w => left_in w | Err _ => false end = true /\
  match eval_exports (main container_files (lit "/usr/local/bin") unbound [lit "resolve"; lit "--from-env"; lit "--shell"]).1 with
  | Some l => is_ok (render (exported (fun _ => None) l)) | None => true end = false.
Proof. vm_compute. split; reflexivity. Qed.
