(* ===== verification/Filters.v ===== *)
(** * fail2ban's filters: [src/core/fail2ban/filter.d]

    The regular expressions of the filters, as patterns made of the constructs
    they use, matched as Python's [re] does: alternatives in order, repetitions
    longest first, the first position of the line at which the pattern matches.
    The tag [<ADDR>] is fail2ban's own: the class [AddrTag] states what its
    documentation says, that it matches addresses.  A line is as fail2ban
    matches it, after it has taken the date out. *)
From S2P Require Import Prelude Text Net Json TemplateTexts.

(** ** Patterns *)

Inductive pattern :=
| Lit (s : str)                 (* a text *)
| Run (least : nat)             (* [[^"]*] or [[^"]+] *)
| Addr                          (* [<ADDR>] *)
| OneOf (l : list str)          (* [(?:a|b)] *)
| NotAhead (l : list str).      (* [(?!a|b)] *)

Record filter := mk_filter { anchored : bool; body : list pattern }.

Class AddrTag := {
  addr_tag : str -> list (str * str);           (* the address captured, and what follows *)
  addr_tag_word s h r : (h, r) ∈ addr_tag s -> exists m, s = m ++ r /\ 34 ∉ m;
  addr_tag_v6 a r :
    is_v6 a -> to_ipv4_mapped a = None ->
    (show_v6 a, 34 :: r) ∈ addr_tag (show_v6 a ++ 34 :: r) /\
    forall h, (h, 34 :: r) ∈ addr_tag (show_v6 a ++ 34 :: r) -> h = show_v6 a;
}.

Fixpoint first_some {A B} (f : A -> option B) (l : list A) : option B :=
  match l with
  | [] => None
  | a :: r => match f a with Some b => Some b | None => first_some f r end
  end.

Fixpoint span_unquoted (s : str) : nat :=
  match s with c :: r => if c =? 34 then O else S (span_unquoted r) | [] => O end.

Section matching.
Context {TAG : AddrTag}.

(** A match at the start of a text: the address it captured. *)
Fixpoint attempt (p : list pattern) (host : option str) (s : str) : option (option str) :=
  match p with
  | [] => Some host
  | Lit l :: q => match strip_prefix l s with Some t => attempt q host t | None => None end
  | Run least :: q =>
    let n := span_unquoted s in
    first_some (fun k => attempt q host (drop k s)) (reverse (List.seq least (S n - least)))
  | Addr :: q => first_some (fun hr => attempt q (Some hr.1) hr.2) (addr_tag s)
  | OneOf l :: q => first_some (fun x => match strip_prefix x s with Some t => attempt q host t | None => None end) l
  | NotAhead l :: q => if existsb (fun x => starts_with x s) l then None else attempt q host s
  end.

Fixpoint search (p : list pattern) (s : str) : option (option str) :=
  match attempt p None s with
  | Some h => Some h
  | None => match s with [] => None | _ :: r => search p r end
  end.

(** The address a filter counts a line against. *)
Definition found (f : filter) (line : str) : option str :=
  match (if anchored f then attempt (body f) None line else search (body f) line) with
  | Some (Some h) => Some h
  | _ => None
  end.

End matching.

(** ** The verdict filters *)

Definition ABUSE : list str :=
  [lit "protocol"; lit "malformed"; lit "oversized-message"; lit "oversized-handshake"; lit "binary-frame";
   lit "frame-flood"; lit "engine-error"].

Definition verdict_head : list pattern :=
  [Lit (quoted "js: shield-verdict {'ts':'"); Run 0; Lit (quoted "','src':'"); Addr; Lit (quoted "','service':'"); Run 0].

(** The rules that the filter of verdicts leaves, [banned] and those of the other filter. *)
Definition LEFT : list str :=
  [lit "banned"; lit "protocol"; lit "malformed"; lit "oversized-message"; lit "oversized-handshake";
   lit "binary-frame"; lit "frame-flood"; lit "engine-error"].

Definition fips_shield_verdict : filter := mk_filter false
  (verdict_head ++ [Lit (quoted "','layer':'ws','rule':'");
    NotAhead (map (fun x => x ++ [34]) LEFT); Run 1; Lit [34]]).

Definition fips_shield_abuse : filter := mk_filter false
  (verdict_head ++ [Lit (quoted "','layer':'ws','rule':'"); OneOf ABUSE; Lit [34]]).

Definition fips_shield_connrate : filter := mk_filter false
  (verdict_head ++ [Lit (quoted "','layer':'access','rule':'conn-rate'")]).

(** ** The access log filters *)

Definition access_head : list pattern := [Lit (quoted "{'ts':'"); Run 0; Lit (quoted "','src':'"); Addr].

Definition fips_shield_handshake : filter := mk_filter true (access_head ++ [Lit (quoted "','status':429,")]).

Definition SCAN : list str :=
  [lit "444"; lit "405"; lit "403"; lit "400"; lit "408"; lit "413"; lit "414"; lit "494"].

Definition fips_shield_scan : filter := mk_filter true
  (access_head ++ [Lit (quoted "','status':"); OneOf SCAN; Lit (lit ",")]).

Definition fips_shield_conn : filter := mk_filter true
  (access_head ++ [Lit (quoted "','service':'"); Run 0; Lit (quoted "','status':503,")]).

(** ** The lines of the access logs

    A [log_format] of the templates, as nginx expands it: the quoted texts of
    its lines one after the other, and a variable where one is named.  How
    nginx escapes a value for [escape=json] is a parameter, which leaves a
    value without special characters as it is. *)

Inductive log_piece := Txt (c : char) | Var (name : str).

Definition var_char (c : char) : bool := in_range 97 122 c || in_range 48 57 c || (c =? 95).

(** The pieces of a format; [name] is the variable being read. *)
Fixpoint log_pieces (name : option str) (f : str) : list log_piece :=
  match f, name with
  | [], None => []
  | [], Some n => [Var n]
  | c :: r, None => if c =? 36 then log_pieces (Some []) r else Txt c :: log_pieces None r
  | c :: r, Some n =>
    if var_char c then log_pieces (Some (n ++ [c])) r
    else Var n :: (if c =? 36 then log_pieces (Some []) r else Txt c :: log_pieces None r)
  end.

Fixpoint quoted_texts (ls : list str) : str :=
  match ls with
  | [] => []
  | l :: r =>
    match split_once 39 l with
    | Some (_, t) => match split_once 39 t with Some (x, _) => x ++ quoted_texts r | None => [] end
    | None => []
    end
  end.

Fixpoint log_format (name : str) (ls : list str) : str :=
  match ls with
  | [] => []
  | l :: r => if str_eqb l (lit "log_format " ++ name ++ lit " escape=json") then quoted_texts r else log_format name r
  end.

Definition shield_json : str := log_format (lit "shield_json") (lines core_conf).
Definition shield_stream_json : str := log_format (lit "shield_stream_json") (lines core_stream).

Class NginxLog := {
  log_escape : str -> str;
  log_escape_plain s : Forall (fun c => 32 <= c < 127 /\ c <> 34 /\ c <> 92) s -> log_escape s = s;
}.

Definition log_line {LOG : NginxLog} (format : str) (value : str -> str) : str :=
  concat (map (fun p => match p with Txt c => [c] | Var n => log_escape (value n) end) (log_pieces None format)).
