(* ===== verification/FilterText.v ===== *)
(** * Matching a filter against a line

    How the patterns of the filters meet the text of a verdict: a run ends at
    the next quote, the head of the pattern fits a line at one position only,
    and what a client chooses cannot make it fit at another. *)
From S2P Require Import Prelude Text Net Json JsonSpec Js UiViews ShieldCore Filters.

Lemma strip_prefix_app l t : strip_prefix l (l ++ t) = Some t.
Proof.
  unfold strip_prefix. rewrite (proj2 (starts_with_spec l (l ++ t))) by (by eexists).
  by rewrite drop_app_length.
Qed.

Lemma strip_prefix_some l s t : strip_prefix l s = Some t -> s = l ++ t.
Proof.
  unfold strip_prefix. destruct (starts_with l s) eqn:E; [|done]. apply starts_with_spec in E as [b ->].
  rewrite drop_app_length. by intros [= ->].
Qed.

Lemma strip_prefix_none l s : starts_with l s = false -> strip_prefix l s = None.
Proof. unfold strip_prefix. by intros ->. Qed.

(** A prefix no longer than the known start of a text. *)
Lemma starts_with_short p a t : (length p <= length a)%nat -> starts_with p (a ++ t) = starts_with p a.
Proof.
  revert a. induction p as [|x p IH]; intros a Hl; [done|]. destruct a as [|y a]; [cbn in Hl; lia|].
  cbn [app starts_with]. cbn [length] in Hl. by rewrite IH by lia.
Qed.

Lemma starts_with_word c l x t : c ∉ l -> c ∉ x -> starts_with (l ++ [c]) (x ++ c :: t) = str_eqb x l.
Proof.
  intros Hl Hx. apply eq_true_iff_eq. rewrite starts_with_spec. unfold str_eqb. rewrite bool_decide_eq_true. split.
  - intros [b E]. rewrite <- app_assoc in E. cbn [app] in E.
    pose proof (split_once_app c x t Hx) as H1. rewrite E in H1. rewrite split_once_app in H1 by done. by simplify_eq.
  - intros ->. exists t. by rewrite <- app_assoc.
Qed.

Lemma span_unquoted_app u t : 34 ∉ u -> span_unquoted (u ++ 34 :: t) = length u.
Proof.
  induction u as [|c u IH]; intros Hu; [done|]. apply not_elem_of_cons in Hu as [Hc Hu]. cbn [app span_unquoted length].
  replace (c =? 34) with false by lia. by rewrite IH.
Qed.

Section matching.
Context {TAG : AddrTag}.

Lemma attempt_lit l q h t : attempt (Lit l :: q) h (l ++ t) = attempt q h t.
Proof. cbn [attempt]. by rewrite strip_prefix_app. Qed.

Lemma attempt_lit_inv l q h t : attempt (Lit l :: q) h t <> None -> exists r, t = l ++ r.
Proof.
  cbn [attempt]. destruct (strip_prefix l t) as [r|] eqn:E; [|done]. intros _. exists r. by apply strip_prefix_some.
Qed.

Lemma attempt_lit_split l l' q h t : attempt (Lit (l ++ l') :: q) h t = attempt (Lit l :: Lit l' :: q) h t.
Proof.
  cbn [attempt]. destruct (strip_prefix l t) as [r|] eqn:E.
  - apply strip_prefix_some in E as ->. destruct (strip_prefix l' r) as [r'|] eqn:E'.
    + apply strip_prefix_some in E' as ->. by rewrite (app_assoc l l' r'), strip_prefix_app.
    + destruct (strip_prefix (l ++ l') (l ++ r)) as [r'|] eqn:E2; [|done]. apply strip_prefix_some in E2.
      rewrite <- app_assoc in E2. apply app_inv_head in E2 as ->. by rewrite strip_prefix_app in E'.
  - destruct (strip_prefix (l ++ l') t) as [r'|] eqn:E2; [|done]. apply strip_prefix_some in E2 as ->.
    by rewrite <- app_assoc, strip_prefix_app in E.
Qed.

(** A run before a quote takes all of it. *)
Lemma attempt_run least l q h u t :
  34 ∉ u -> (least <= length u)%nat ->
  attempt (Run least :: Lit (34 :: l) :: q) h (u ++ 34 :: t) = attempt (Lit (34 :: l) :: q) h (34 :: t).
Proof.
  intros Hu Hl. cbn [attempt]. rewrite span_unquoted_app by done.
  assert (E : List.seq least (S (length u) - least) = List.seq least (length u - least) ++ [length u]).
  { replace (S (length u) - least)%nat with ((length u - least) + 1)%nat by lia. rewrite List.seq_app.
    cbn [List.seq]. by replace (least + (length u - least))%nat with (length u) by lia. }
  rewrite E, reverse_app. cbn [reverse rev_append app first_some]. rewrite drop_app_length.
  destruct (match strip_prefix (34 :: l) (34 :: t) with Some t0 => attempt q h t0 | None => None end); [done|].
  assert (H : forall k, (k < length u)%nat -> match strip_prefix (34 :: l) (drop k (u ++ 34 :: t)) with
                                               | Some t0 => attempt q h t0 | None => None end = None).
  { intros k Hk. destruct (strip_prefix _ _) as [r|] eqn:Er; [|done]. apply strip_prefix_some in Er.
    destruct Hu. destruct (drop k u) as [|c w] eqn:Ew; [apply (f_equal length) in Ew; rewrite length_drop in Ew; cbn in Ew; lia|].
    rewrite drop_app_le in Er by lia. rewrite Ew in Er. injection Er as -> _. rewrite <- (take_drop k u), Ew. set_solver. }
  change (rev_append (List.seq least (length u - least)) []) with (reverse (List.seq least (length u - least))).
  assert (Hin : forall k, k ∈ reverse (List.seq least (length u - least)) -> (k < length u)%nat).
  { intros k Hk. rewrite elem_of_reverse in Hk. apply list_elem_of_In, List.in_seq in Hk. lia. }
  induction (reverse _) as [|k ks IH]; [done|]. cbn [first_some]. rewrite H by (apply Hin; left).
  apply IH. intros k' Hk'. apply Hin. by right.
Qed.

(** The tag takes the whole address before a quote. *)
Lemma attempt_addr a l q h t :
  is_v6 a -> to_ipv4_mapped a = None -> 34 ∉ show_v6 a ->
  attempt (Addr :: Lit (34 :: l) :: q) h (show_v6 a ++ 34 :: t) = attempt (Lit (34 :: l) :: q) (Some (show_v6 a)) (34 :: t).
Proof.
  intros Ha Hm Hq. destruct (addr_tag_v6 a t Ha Hm) as [Hin Huniq]. cbn [attempt].
  assert (Hall : forall hr, hr ∈ addr_tag (show_v6 a ++ 34 :: t) ->
            match strip_prefix (34 :: l) hr.2 with Some t0 => attempt q (Some hr.1) t0 | None => None end =
            (if bool_decide (hr = (show_v6 a, 34 :: t))
             then match strip_prefix (34 :: l) (34 :: t) with Some t0 => attempt q (Some (show_v6 a)) t0 | None => None end else None)).
  { intros [h' r] Hr. case_bool_decide as Eq; [by injection Eq as -> ->|]. cbn [fst snd].
    destruct (strip_prefix (34 :: l) r) as [t0|] eqn:Er; [|done]. exfalso. apply Eq.
    apply strip_prefix_some in Er. destruct (addr_tag_word _ _ _ Hr) as (m & Em & Hm'). subst r.
    cbn [app] in *. pose proof (split_once_app 34 (show_v6 a) t Hq) as H1. rewrite Em, (split_once_app 34 m (l ++ t0) Hm') in H1.
    injection H1 as Em' Et. rewrite Et in *. by rewrite (Huniq h' Hr). }
  revert Hin Hall. generalize (addr_tag (show_v6 a ++ 34 :: t)). clear Huniq. intros cands Hin Hall.
  induction cands as [|hr cands IH]; [by apply elem_of_nil in Hin|]. cbn [first_some].
  rewrite (Hall hr) by left. case_bool_decide as Eq.
  - destruct (match strip_prefix (34 :: l) (34 :: t) with Some t0 => _ | None => _ end) eqn:Em; [done|].
    assert (H : forall hr', hr' ∈ cands -> match strip_prefix (34 :: l) hr'.2 with Some t0 => attempt q (Some hr'.1) t0 | None => None end = None).
    { intros hr' Hhr'. rewrite (Hall hr') by (by right). by case_bool_decide. }
    clear -H. induction cands as [|x cands IH]; [done|]. cbn [first_some]. rewrite H by left. apply IH. intros y Hy. apply H. by right.
  - apply IH; [|intros hr' Hhr'; apply Hall; by right]. apply elem_of_cons in Hin as [E|]; [by rewrite E in Eq|done].
Qed.

(** A word of a list, then a character that is in none of them. *)
Lemma attempt_one_of ls q h c x t :
  Forall (fun l => c ∉ l) ls -> c ∉ x ->
  attempt (OneOf ls :: Lit [c] :: q) h (x ++ c :: t) = if existsb (str_eqb x) ls then attempt q h t else None.
Proof.
  intros Hls Hx. cbn [attempt]. induction Hls as [|l ls Hl _ IH]; [done|]. cbn [first_some existsb].
  destruct (str_eqb x l) eqn:E; cbn [orb].
  - unfold str_eqb in E. apply bool_decide_eq_true in E as ->. rewrite strip_prefix_app.
    change (c :: t) with ([c] ++ t) at 1. rewrite strip_prefix_app. rewrite IH.
    destruct (attempt q h t); [done|]. by case_if.
  - destruct (strip_prefix l (x ++ c :: t)) as [r|] eqn:Er; [|exact IH]. apply strip_prefix_some in Er.
    destruct (strip_prefix [c] r) as [t'|] eqn:Er'; [|exact IH]. apply strip_prefix_some in Er'. exfalso. subst r.
    pose proof (split_once_app c x t Hx) as H1. rewrite Er in H1. cbn [app] in H1. rewrite split_once_app in H1 by done.
    injection H1 as -> _. unfold str_eqb in E. by rewrite bool_decide_eq_true_2 in E.
Qed.

(** A text ended by a character that it does not hold, before a word ended by it. *)
Lemma attempt_lit_word l q h c x t :
  c ∉ l -> c ∉ x -> attempt (Lit (l ++ [c]) :: q) h (x ++ c :: t) = if str_eqb x l then attempt q h t else None.
Proof.
  intros Hl Hx. cbn [attempt]. unfold strip_prefix. rewrite starts_with_word by done. destruct (str_eqb x l) eqn:E; [|done].
  unfold str_eqb in E. apply bool_decide_eq_true in E as ->.
  by rewrite (app_assoc l [c] t : l ++ c :: t = (l ++ [c]) ++ t), drop_app_length.
Qed.

(** A text in quotes, asked for by name. *)
Lemma attempt_word w l q h x t :
  34 ∉ w -> 34 ∉ x ->
  attempt (Lit ((w ++ [34]) ++ l) :: q) h (x ++ 34 :: l ++ t) = if str_eqb x w then attempt q h t else None.
Proof. intros Hw Hx. rewrite attempt_lit_split, attempt_lit_word by done. case_match; [apply attempt_lit|done]. Qed.

Lemma attempt_not_ahead ls q h x t :
  Forall (fun l => 34 ∉ l) ls -> 34 ∉ x ->
  attempt (NotAhead (map (fun l => l ++ [34]) ls) :: q) h (x ++ 34 :: t) =
  if existsb (str_eqb x) ls then None else attempt q h (x ++ 34 :: t).
Proof.
  intros Hls Hx. cbn [attempt]. replace (existsb _ (map _ ls)) with (existsb (str_eqb x) ls); [done|].
  induction Hls as [|l ls Hl _ IH]; [done|]. cbn [map existsb]. by rewrite IH, starts_with_word.
Qed.

(** ** One position *)

Lemma search_unique p pre s :
  (forall x t, pre ++ s = x ++ t -> attempt p None t <> None -> x = pre) ->
  search p (pre ++ s) = attempt p None s.
Proof.
  induction pre as [|c pre IH]; intros H; cbn [app] in *.
  - destruct s as [|c s]; cbn [search].
    + by destruct (attempt p None []).
    + destruct (attempt p None (c :: s)) eqn:E; [done|].
      assert (Hn : forall x t, s = x ++ t -> attempt p None t = None).
      { intros x t Es. destruct (attempt p None t) eqn:Et; [|done]. exfalso.
        assert (Hx : c :: x = []) by (apply (H (c :: x) t); [by rewrite Es|congruence]). done. }
      clear E H. induction s as [|d s IH]; cbn [search]; [by rewrite (Hn [] [] eq_refl)|].
      rewrite (Hn [] (d :: s) eq_refl). apply IH. intros x t ->. by apply (Hn (d :: x)).
  - cbn [search]. destruct (attempt p None (c :: pre ++ s)) eqn:E.
    + exfalso. assert (Hx : [] = c :: pre) by (apply (H [] (c :: pre ++ s)); [done|congruence]). done.
    + apply IH. intros x t Ex Ht. assert (Hx : c :: x = c :: pre) by (apply (H (c :: x) t); [by rewrite Ex|done]).
      by injection Hx.
Qed.

End matching.

(** ** The text of a verdict *)

(** Text that is printed as it is: no control character, quote, backslash or
    opening brace. *)
Definition plain_char (c : Z) : bool := (32 <=? c) && negb (existsb (Z.eqb c) [34; 92; 123]).
Definition plain_text (s : str) : Prop := Forall (fun c => plain_char c = true) s.

Lemma plain_no s x : plain_text s -> x ∈ [34; 92; 123] -> x ∉ s.
Proof.
  intros Hs Hx Hin. unfold plain_text in Hs. rewrite Forall_forall in Hs. specialize (Hs x Hin). unfold plain_char in Hs.
  apply andb_true_iff in Hs as [_ Hs]. apply negb_true_iff, not_true_iff_false in Hs. apply Hs, existsb_exists.
  exists x. split; [by apply list_elem_of_In|apply Z.eqb_refl].
Qed.

Lemma stringify_plain s : plain_text s -> stringify s = [34] ++ s ++ [34].
Proof.
  intros Hs. unfold stringify. do 2 f_equal. induction Hs as [|c s Hc _ IH]; [done|]. cbn [map concat]. rewrite IH.
  replace (stringify_char c) with [c]; [done|]. unfold plain_char in Hc. cbn [existsb] in Hc.
  unfold stringify_char, escape. repeat case_match; try lia. done.
Qed.

(** An escaped text holds no quote that follows a brace, nor begins with one. *)
Definition no_open (s : str) : Prop := head s <> Some 34 /\ forall a b, s <> a ++ [123; 34] ++ b.

Lemma no_open_app u v : no_open u -> no_open v -> no_open (u ++ v).
Proof.
  intros [Hu1 Hu2] [Hv1 Hv2]. split; [by destruct u|]. intros a b E.
  apply app_eq_app in E as (k & [[E1 E2]|[E1 E2]]).
  - destruct k as [|x [|y k]]; cbn [app] in E2.
    + apply (Hv2 [] b). by rewrite <- E2.
    + injection E2 as Ex E2. apply Hv1. by rewrite <- E2.
    + injection E2 as Ex Ey E2. subst x y. by apply (Hu2 a k).
  - by apply (Hv2 k b).
Qed.

Lemma no_open_unit c : no_open (stringify_char c).
Proof.
  assert (H1 : forall x y, x <> 34 -> x <> 123 -> no_open [x; y]).
  { intros x y Hx Hb. split; [cbn; congruence|]. intros a b E. destruct a as [|p [|q [|? a]]]; cbn [app] in E; congruence. }
  unfold stringify_char, escape. repeat (case_if; [by apply H1|]). case_if.
  - change (no_open ([92; 117] ++ format_hex_pad 4 c)). apply no_open_app; [by apply H1|].
    assert (Hd : Forall (fun x => 48 <= x <= 102) (format_hex_pad 4 c)).
    { unfold format_hex_pad, pad_zero. apply Forall_app. split; [apply Forall_replicate; lia|].
      unfold format_hex, format_radix. apply List.Forall_map, Forall_reverse.
      eapply Forall_impl; [by apply (digits_rev_digits _ 16)|]. intros d Hd. cbv beta in Hd. unfold digit_char. case_if; lia. }
    rewrite Forall_forall in Hd. split.
    + intros E%head_Some_elem_of. apply Hd in E. lia.
    + intros a b E. assert (Hin : 123 ∈ format_hex_pad 4 c) by (rewrite E; set_solver). apply Hd in Hin. lia.
  - split; [cbn; intros [= ->]; done|]. intros a b E. destruct a as [|p [|q a]]; cbn [app] in E; congruence.
Qed.

Lemma no_open_escaped s : no_open (concat (map stringify_char s)).
Proof.
  induction s as [|c s IH]; [split; [done|]; by intros [|??]|]. cbn [map concat]. apply no_open_app; [apply no_open_unit|done].
Qed.
