(* ===== verification/FilterTheorems.v ===== *)
(** * What fail2ban counts

    Every verdict of the engine is counted once, by the jail that is meant for
    its rule, against the address of its source, whatever text the client has
    put in its detail; and the lines of the access logs are counted by their
    status, whatever the client has put in its request. *)
From S2P Require Import Prelude Text Net Json JsonSpec Js UiViews ShieldCore TemplateTexts Filters FilterText.

(** ** A verdict as a text *)

Definition engine_service (service : str) : str := match service with [] => lit "unknown" | _ => service end.
Definition escaped (s : str) : str := concat (map stringify_char s).

Definition src_key : str := lit "," ++ quoted "'src':'".
Definition service_key : str := lit "," ++ quoted "'service':'".
Definition layer_key : str := lit "," ++ quoted "'layer':'".
Definition rule_key : str := lit "," ++ quoted "'rule':'".
Definition after_rule (detail post : str) : str :=
  lit "," ++ quoted "'detail':'" ++ escaped detail ++ quoted "'}" ++ post.
Definition after_service (layer rule rest : str) : str := layer_key ++ layer ++ 34 :: rule_key ++ rule ++ 34 :: rest.
Definition after_head (ts src service rest : str) : str :=
  ts ++ 34 :: src_key ++ src ++ 34 :: service_key ++ service ++ 34 :: rest.

Lemma verdict_text ts src service layer rule detail post :
  plain_text ts -> plain_text src -> plain_text service -> plain_text layer -> plain_text rule ->
  lit "js: " ++ verdict_line ts src service layer rule detail ++ post =
  quoted "js: shield-verdict {'ts':'" ++
  after_head ts src (engine_service service) (after_service layer rule (after_rule detail post)).
Proof.
  intros Ht Hs Hv Hl Hr. assert (He : plain_text (engine_service service)).
  { unfold engine_service. destruct service; [|done]. by apply (bool_decide_unpack _); vm_compute. }
  unfold verdict_line, stringify_object, after_head, after_service, after_rule. fold (engine_service service).
  cbn [map sep fst snd]. rewrite (stringify_plain _ Ht), (stringify_plain _ Hs), (stringify_plain _ He),
    (stringify_plain _ Hl), (stringify_plain _ Hr).
  rewrite (ltac:(vm_compute; reflexivity) : stringify (lit "ts") = quoted "'ts'"),
    (ltac:(vm_compute; reflexivity) : stringify (lit "src") = quoted "'src'"),
    (ltac:(vm_compute; reflexivity) : stringify (lit "service") = quoted "'service'"),
    (ltac:(vm_compute; reflexivity) : stringify (lit "layer") = quoted "'layer'"),
    (ltac:(vm_compute; reflexivity) : stringify (lit "rule") = quoted "'rule'"),
    (ltac:(vm_compute; reflexivity) : stringify (lit "detail") = quoted "'detail'").
  unfold stringify. fold (escaped detail). generalize (engine_service service) (escaped detail). intros sv d.
  rewrite <- !app_assoc. repeat (rewrite <- ?app_assoc; cbn [app]). vm_compute. reflexivity.
Qed.

(** ** The head of a filter fits at one position *)

Definition no_mark (s : str) : Prop := forall a b, s <> a ++ [123; 34; 116] ++ b.

Lemma no_mark_app u v : 123 ∉ u -> no_mark v -> no_mark (u ++ v).
Proof.
  intros Hu Hv a b E. apply app_eq_app in E as (k & [[-> E]|[-> E]]); [|by apply (Hv k b)].
  destruct k as [|c k]; [by apply (Hv [] b)|]. injection E as <- _. set_solver.
Qed.

Lemma no_mark_after_rule detail post : 123 ∉ post -> no_mark (after_rule detail post).
Proof.
  intros Hp. unfold after_rule. rewrite app_assoc. apply no_mark_app; [by apply (bool_decide_unpack _); vm_compute|].
  intros a b E. change (quoted "'}" ++ post) with (34 :: 125 :: post) in E.
  apply app_eq_app in E as (k & [[Ed E]|[-> E]]).
  - destruct (no_open_escaped detail) as [_ Hd]. fold (escaped detail) in Hd.
    destruct k as [|x [|y k]]; cbn [app] in E; try congruence. injection E as <- <- _. by apply (Hd a k).
  - assert (Hin : 123 ∈ 34 :: 125 :: post) by (rewrite E; set_solver). set_solver.
Qed.

Lemma plain_no_brace s : plain_text s -> 123 ∉ s.
Proof. intros Hs. apply (plain_no s 123 Hs). set_solver. Qed.

Lemma plain_no_quote s : plain_text s -> 34 ∉ s.
Proof. intros Hs. apply (plain_no s 34 Hs). set_solver. Qed.

Lemma no_mark_verdict ts src service layer rule detail post :
  plain_text ts -> plain_text src -> plain_text service -> plain_text layer -> plain_text rule -> 123 ∉ post ->
  no_mark (after_head ts src service (after_service layer rule (after_rule detail post))).
Proof.
  intros Ht Hs Hv Hl Hr Hp. unfold after_head, after_service.
  assert (Hlit : forall s, bool_decide (123 ∉ s) = true -> 123 ∉ 34 :: s) by (intros s H%bool_decide_eq_true; set_solver).
  assert (Hcons : forall u s v, u ++ 34 :: s ++ v = u ++ (34 :: s) ++ v) by done.
  repeat match goal with
  | |- no_mark (after_rule _ _) => by apply no_mark_after_rule
  | |- no_mark (34 :: after_rule _ _) => change (34 :: after_rule detail post) with ([34] ++ after_rule detail post)
  | |- no_mark (34 :: _ ++ _) => rewrite (app_comm_cons _ _ 34)
  | |- no_mark (_ ++ _) => apply no_mark_app; [first [by apply plain_no_brace | by apply (bool_decide_unpack _); vm_compute]|]
  end.
Qed.

(** A mark is where it was put. *)
Lemma mark_once h m pre s x r :
  123 ∉ pre -> 123 ∉ h -> no_mark (34 :: 116 :: m ++ s) ->
  pre ++ (h ++ 123 :: 34 :: 116 :: m) ++ s = x ++ (h ++ 123 :: 34 :: 116 :: m) ++ r -> x = pre.
Proof.
  intros Hpre Hh Hs E. rewrite <- !app_assoc, !(app_assoc _ h) in E. cbn [app] in E.
  assert (Hn : 123 ∉ pre ++ h) by set_solver.
  apply app_eq_app in E as (k & [[E1 E2]|[E1 E2]]).
  - destruct k as [|c k]; [rewrite app_nil_r in E1; by apply app_inv_tail in E1|].
    injection E2 as <- _. rewrite E1 in Hn. set_solver.
  - destruct k as [|c k]; [rewrite app_nil_r in E1; by apply app_inv_tail in E1|]. exfalso.
    injection E2 as _ E2. by apply (Hs k (m ++ r)).
Qed.

Definition head_text : str := lit "js: shield-verdict ".
Definition mark_text : str := lit "s" ++ quoted "':'".

Lemma head_mark : quoted "js: shield-verdict {'ts':'" = head_text ++ 123 :: 34 :: 116 :: mark_text.
Proof. vm_compute. reflexivity. Qed.

Lemma head_fits_once {TAG : AddrTag} q pre s x t :
  123 ∉ pre -> no_mark s ->
  pre ++ quoted "js: shield-verdict {'ts':'" ++ s = x ++ t -> attempt (verdict_head ++ q) None t <> None -> x = pre.
Proof.
  intros Hpre Hs E Ht. unfold verdict_head in Ht. rewrite <- app_comm_cons in Ht.
  apply attempt_lit_inv in Ht as [r ->]. rewrite head_mark in E. eapply mark_once; [done| |..|exact E].
  - by apply (bool_decide_unpack _); vm_compute.
  - rewrite !app_comm_cons. apply no_mark_app; [by apply (bool_decide_unpack _); vm_compute|done].
Qed.

(** ** What each filter asks of the rest *)

Definition verdict_shape : list pattern :=
  [Lit (quoted "js: shield-verdict {'ts':'"); Run 0; Lit (34 :: src_key); Addr; Lit (34 :: service_key); Run 0].

Lemma verdict_head_shape : verdict_head = verdict_shape.
Proof. vm_compute. reflexivity. Qed.

Lemma ws_shape : quoted "','layer':'ws','rule':'" = (34 :: layer_key) ++ (lit "ws" ++ [34]) ++ rule_key.
Proof. vm_compute. reflexivity. Qed.

Lemma connrate_shape :
  quoted "','layer':'access','rule':'conn-rate'" = (34 :: layer_key) ++ (lit "access" ++ [34]) ++ rule_key ++ (lit "conn-rate" ++ [34]).
Proof. vm_compute. reflexivity. Qed.

Lemma show_v6_unquoted a : is_v6 a -> 34 ∉ show_v6 a.
Proof.
  intros Ha Hin. destruct (show_v6_word a Ha) as [_ Hw]. rewrite Forall_forall in Hw. by apply Hw in Hin.
Qed.

(** A value that is logged as it is. *)
Definition plain_value (s : str) : Prop := plain_text s /\ Forall (fun c => c < 127) s.

Lemma show_v6_plain a : is_v6 a -> plain_value (show_v6 a).
Proof.
  intros Ha. destruct (show_v6_word a Ha) as [_ Hw]. split; (eapply Forall_impl; [exact Hw|]); intros c Hc;
    unfold word_char, in_range in Hc; [unfold plain_char; cbn [existsb]|]; lia.
Qed.

Section filters.
Context {TAG : AddrTag}.
Context (a : list Z) (Ha : is_v6 a) (Hm : to_ipv4_mapped a = None).

Lemma attempt_head ts service rest l q :
  34 ∉ ts -> 34 ∉ service ->
  attempt (verdict_head ++ Lit ((34 :: l)) :: q) None (quoted "js: shield-verdict {'ts':'" ++ after_head ts (show_v6 a) service rest) =
  attempt (Lit (34 :: l) :: q) (Some (show_v6 a)) (34 :: rest).
Proof.
  intros Ht Hs. rewrite verdict_head_shape. unfold verdict_shape, after_head. rewrite <- !app_comm_cons, app_nil_l, attempt_lit.
  rewrite attempt_run by (done || lia). rewrite app_comm_cons, attempt_lit.
  rewrite attempt_addr by (done || by apply show_v6_unquoted). rewrite app_comm_cons, attempt_lit.
  by rewrite attempt_run by (done || lia).
Qed.

(** A line with one verdict, as a filter of verdicts sees it. *)
Lemma found_verdict f l q pre ts service layer rule detail post :
  body f = verdict_head ++ Lit (34 :: l) :: q -> anchored f = false ->
  plain_text ts -> plain_text service -> plain_text layer -> plain_text rule -> 123 ∉ pre -> 123 ∉ post ->
  found f (pre ++ lit "js: " ++ verdict_line ts (show_v6 a) service layer rule detail ++ post) =
  match attempt (Lit (34 :: l) :: q) (Some (show_v6 a)) (34 :: after_service layer rule (after_rule detail post)) with
  | Some (Some h) => Some h
  | _ => None
  end.
Proof.
  intros Hb Hf Ht Hs Hl Hr Hpre Hpost. destruct (show_v6_plain a Ha) as [Hsrc _].
  assert (He : plain_text (engine_service service)).
  { unfold engine_service. destruct service; [|done]. by apply (bool_decide_unpack _); vm_compute. }
  rewrite verdict_text by done. unfold found. rewrite Hf, Hb.
  rewrite search_unique.
  - by rewrite attempt_head by by apply plain_no_quote.
  - intros x t E. eapply head_fits_once; [done| |exact E]. by apply no_mark_verdict.
Qed.
End filters.

(** ** An executable tag: the longest run of the characters of an address *)

Fixpoint span_addr (s : str) : str * str :=
  match s with
  | c :: r => if word_char c then let '(a, b) := span_addr r in (c :: a, b) else ([], s)
  | [] => ([], [])
  end.

Lemma span_addr_app u c t : Forall (fun x => word_char x = true) u -> word_char c = false -> span_addr (u ++ c :: t) = (u, c :: t).
Proof. intros Hu Hc. induction Hu as [|x u Hx _ IH]; cbn [app span_addr]; [by rewrite Hc|]. by rewrite Hx, IH. Qed.

Lemma span_addr_eq s : s = (span_addr s).1 ++ (span_addr s).2 /\ 34 ∉ (span_addr s).1.
Proof.
  induction s as [|c s [IH Hn]]; [split; [done|apply not_elem_of_nil]|]. cbn [span_addr]. destruct (word_char c) eqn:E; cbn [fst snd].
  - destruct (span_addr s) as [u r]. cbn [fst snd app] in *. split; [by rewrite <- IH|].
    intros [<-|H]%elem_of_cons; [discriminate|done].
  - split; [done|apply not_elem_of_nil].
Qed.

#[refine] Instance span_tag : AddrTag := {| addr_tag s := [span_addr s] |}.
Proof.
  - intros s h r H%list_elem_of_singleton. destruct (span_addr_eq s) as [E Hn]. rewrite <- H in E, Hn. by exists h.
  - intros b r Hb _. rewrite span_addr_app by (by apply show_v6_word || done). split; [by left|].
    intros h H%list_elem_of_singleton. by injection H.
Defined.

(** ** Every verdict is counted once *)

Section counted.
Context {TAG : AddrTag}.

Lemma abuse_body :
  body fips_shield_abuse = verdict_head ++ Lit (34 :: (layer_key ++ (lit "ws" ++ [34]) ++ rule_key)) :: [OneOf ABUSE; Lit [34]].
Proof. unfold fips_shield_abuse. cbn [body]. by rewrite ws_shape. Qed.

Lemma verdict_body :
  body fips_shield_verdict = verdict_head ++ Lit (34 :: (layer_key ++ (lit "ws" ++ [34]) ++ rule_key)) ::
    [NotAhead (map (fun x => x ++ [34]) LEFT); Run 1; Lit [34]].
Proof. unfold fips_shield_verdict. cbn [body]. by rewrite ws_shape. Qed.

Lemma connrate_body :
  body fips_shield_connrate =
  verdict_head ++ [Lit (34 :: (layer_key ++ (lit "access" ++ [34]) ++ rule_key ++ (lit "conn-rate" ++ [34])))].
Proof. unfold fips_shield_connrate. cbn [body]. by rewrite connrate_shape. Qed.

Lemma attempt_ws layer rule rest q h :
  34 ∉ layer ->
  attempt (Lit ((34 :: layer_key) ++ (lit "ws" ++ [34]) ++ rule_key) :: q) h (34 :: after_service layer rule rest) =
  if str_eqb layer (lit "ws") then attempt q h (rule ++ 34 :: rest) else None.
Proof.
  intros Hl. unfold after_service. rewrite attempt_lit_split, app_comm_cons, attempt_lit.
  rewrite attempt_word; [done|by apply (bool_decide_unpack _); vm_compute|done].
Qed.

Lemma attempt_connrate layer rule rest h :
  34 ∉ layer -> 34 ∉ rule ->
  attempt [Lit ((34 :: layer_key) ++ (lit "access" ++ [34]) ++ rule_key ++ (lit "conn-rate" ++ [34]))] h
    (34 :: after_service layer rule rest) =
  if str_eqb layer (lit "access") && str_eqb rule (lit "conn-rate") then Some h else None.
Proof.
  intros Hl Hr. unfold after_service. rewrite attempt_lit_split, app_comm_cons, attempt_lit.
  rewrite (app_assoc _ rule_key), attempt_lit_split, attempt_word by (done || by apply (bool_decide_unpack _); vm_compute).
  destruct (str_eqb layer _); [|done]. cbn [andb]. by rewrite attempt_lit_word by (done || by apply (bool_decide_unpack _); vm_compute).
Qed.

Lemma attempt_counted rule rest h :
  rule <> [] -> 34 ∉ rule ->
  attempt [NotAhead (map (fun x => x ++ [34]) LEFT); Run 1; Lit [34]] h (rule ++ 34 :: rest) =
  if existsb (str_eqb rule) LEFT then None else Some h.
Proof.
  intros Hne Hr. rewrite attempt_not_ahead; [|by apply (bool_decide_unpack _); vm_compute|done].
  destruct (existsb _ _); [done|]. rewrite attempt_run; [|done|destruct rule; cbn; (done || lia)].
  by rewrite (app_assoc [34] [] rest : 34 :: rest = [34] ++ rest), attempt_lit.
Qed.

(** The list that one filter leaves is the list of the other, and the ban's own. *)
Lemma left_rules rule : existsb (str_eqb rule) LEFT = str_eqb rule (lit "banned") || existsb (str_eqb rule) ABUSE.
Proof.
  reflexivity.
Qed.

(** The filters that read the error log, and the address each counts. *)
Definition counted (line : str) : list str :=
  omap (fun f => found f line) [fips_shield_verdict; fips_shield_abuse; fips_shield_connrate].

Section verdicts.
Context (a : list Z) (Ha : is_v6 a) (Hm : to_ipv4_mapped a = None) (pre ts service layer rule detail post : str).
Context (Ht : plain_text ts) (Hs : plain_text service) (Hl : plain_text layer) (Hr : plain_text rule) (Hne : rule <> []).
Context (Hpre : 123 ∉ pre) (Hpost : 123 ∉ post).

Let line := pre ++ lit "js: " ++ verdict_line ts (show_v6 a) service layer rule detail ++ post.

Lemma found_line f l q :
  body f = verdict_head ++ Lit (34 :: l) :: q -> anchored f = false ->
  found f line = match attempt (Lit (34 :: l) :: q) (Some (show_v6 a)) (34 :: after_service layer rule (after_rule detail post)) with
                 | Some (Some h) => Some h
                 | _ => None
                 end.
Proof. intros Hb Hf. by apply found_verdict. Qed.

Lemma found_abuse :
  found fips_shield_abuse line = if str_eqb layer (lit "ws") && existsb (str_eqb rule) ABUSE then Some (show_v6 a) else None.
Proof.
  rewrite (found_line _ _ _ abuse_body eq_refl), app_comm_cons, attempt_ws by by apply plain_no_quote.
  destruct (str_eqb layer _); [|done]. unfold after_rule.
  rewrite attempt_one_of; [|by apply (bool_decide_unpack _); vm_compute|by apply plain_no_quote].
  cbn [andb]. by destruct (existsb _ _).
Qed.

Lemma found_violation :
  found fips_shield_verdict line =
  if str_eqb layer (lit "ws") && negb (str_eqb rule (lit "banned")) && negb (existsb (str_eqb rule) ABUSE)
  then Some (show_v6 a) else None.
Proof.
  rewrite (found_line _ _ _ verdict_body eq_refl), app_comm_cons, attempt_ws by by apply plain_no_quote.
  destruct (str_eqb layer _); [|done]. rewrite attempt_counted, left_rules by (done || by apply plain_no_quote).
  cbn [andb]. by destruct (str_eqb rule _), (existsb _ _).
Qed.

Lemma found_connrate :
  found fips_shield_connrate line =
  if str_eqb layer (lit "access") && str_eqb rule (lit "conn-rate") then Some (show_v6 a) else None.
Proof.
  rewrite (found_line _ _ _ connrate_body eq_refl), app_comm_cons, attempt_connrate by by apply plain_no_quote.
  by destruct (_ && _).
Qed.

Lemma counted_verdict :
  counted line =
  if str_eqb layer (lit "ws") && negb (str_eqb rule (lit "banned")) || str_eqb layer (lit "access") && str_eqb rule (lit "conn-rate")
  then [show_v6 a] else [].
Proof.
  unfold counted. cbn [omap list_omap]. rewrite found_abuse, found_violation, found_connrate.
  assert (Hwr : str_eqb layer (lit "ws") && (str_eqb layer (lit "access") && str_eqb rule (lit "conn-rate")) = false).
  { destruct (str_eqb layer (lit "ws")) eqn:E; [|done]. unfold str_eqb in *. by apply bool_decide_eq_true in E as ->. }
  assert (Hba : str_eqb rule (lit "banned") && existsb (str_eqb rule) ABUSE = false).
  { destruct (str_eqb rule (lit "banned")) eqn:E; [|done]. unfold str_eqb in E. by apply bool_decide_eq_true in E as ->. }
  revert Hwr Hba. generalize (str_eqb layer (lit "access") && str_eqb rule (lit "conn-rate")). intros rate.
  by destruct (str_eqb layer (lit "ws")), rate, (str_eqb rule (lit "banned")), (existsb (str_eqb rule) ABUSE).
Qed.
End verdicts.

(** C25.  A line of the error log with a verdict of the engine is counted by
    exactly one jail, and against the source of the verdict: a violation of a
    session by the filter of abuse when its rule is one of those, by the filter
    of verdicts otherwise, a connection refused for its rate by the filter of
    the rates; and an echo of a ban, a rule [banned] at either layer, by none.
    Nothing is asked of the detail, the text that the client chooses. *)
Theorem verdicts_are_counted_once a pre ts service layer rule detail post :
  is_v6 a -> to_ipv4_mapped a = None ->
  plain_text ts -> plain_text service -> plain_text layer -> plain_text rule -> rule <> [] ->
  123 ∉ pre -> 123 ∉ post ->
  let src := show_v6 a in
  let line := pre ++ lit "js: " ++ verdict_line ts src service layer rule detail ++ post in
  let ws := str_eqb layer (lit "ws") in
  let abuse := existsb (str_eqb rule) ABUSE in
  let rate := str_eqb layer (lit "access") && str_eqb rule (lit "conn-rate") in
  let banned := str_eqb rule (lit "banned") in
  found fips_shield_abuse line = (if ws && abuse then Some src else None) /\
  found fips_shield_verdict line = (if ws && negb banned && negb abuse then Some src else None) /\
  found fips_shield_connrate line = (if rate then Some src else None) /\
  counted line = (if ws && negb banned || rate then [src] else []).
Proof.
  intros Ha Hm Ht Hs Hl Hr Hne Hpre Hpost. cbv zeta. split_and!.
  - by apply found_abuse.
  - by apply found_violation.
  - by apply found_connrate.
  - by apply counted_verdict.
Qed.
End counted.

Definition an_address : list Z := [64919; 0; 0; 0; 0; 0; 0; 7].

Lemma verdicts_are_counted_once_witness :
  let line := lit "1 [warn] 7#7: *9 " ++ lit "js: " ++
    verdict_line (lit "t") (show_v6 an_address) (lit "strfry") (lit "ws") (lit "malformed")
      (quoted "js: shield-verdict {'ts':'" ++ lit "{") ++ lit ", client: x" in
  counted line = [show_v6 an_address].
Proof.
  intros line.
  apply (verdicts_are_counted_once an_address (lit "1 [warn] 7#7: *9 ") (lit "t") (lit "strfry") (lit "ws") (lit "malformed")
    (quoted "js: shield-verdict {'ts':'" ++ lit "{") (lit ", client: x"));
  first [done | by apply (bool_decide_unpack _); vm_compute].
Defined.

(** ** The access logs *)

Section access.
Context {TAG : AddrTag} {LOG : NginxLog}.

Definition status_key : str := lit "," ++ quoted "'status':".

Definition pieces_line (value : str -> str) (ps : list log_piece) : str :=
  concat (map (fun p => match p with Txt c => [c] | Var n => log_escape (value n) end) ps).

Lemma pieces_line_app value ps qs : pieces_line value (ps ++ qs) = pieces_line value ps ++ pieces_line value qs.
Proof. unfold pieces_line. by rewrite map_app, concat_app. Qed.

Lemma pieces_line_text value s : pieces_line value (map Txt s) = s.
Proof. induction s as [|c s IH]; [done|]. change (c :: pieces_line value (map Txt s) = c :: s). by rewrite IH. Qed.

Lemma pieces_line_var value n : pieces_line value [Var n] = log_escape (value n).
Proof. unfold pieces_line. cbn [map concat]. apply app_nil_r. Qed.

(** The lines of both logs, up to the status. *)
Lemma request_line value :
  exists rest, log_line shield_json value =
    quoted "{'ts':'" ++ log_escape (value (lit "time_iso8601")) ++ 34 :: src_key ++ log_escape (value (lit "remote_addr")) ++
    34 :: status_key ++ log_escape (value (lit "status")) ++ 44 :: rest.
Proof.
  exists (pieces_line value (drop 31 (log_pieces None shield_json))). unfold log_line. fold (pieces_line value (log_pieces None shield_json)).
  rewrite <- (take_drop 31 (log_pieces None shield_json)) at 1.
  rewrite (ltac:(vm_compute; reflexivity) : take 31 (log_pieces None shield_json) =
    map Txt (quoted "{'ts':'") ++ [Var (lit "time_iso8601")] ++ map Txt (34 :: src_key) ++ [Var (lit "remote_addr")] ++
    map Txt (34 :: status_key) ++ [Var (lit "status")] ++ map Txt [44]).
  rewrite !pieces_line_app, !pieces_line_var, !pieces_line_text. repeat (rewrite <- ?app_assoc; cbn [app]). done.
Qed.

Lemma session_line value :
  exists rest, log_line shield_stream_json value =
    quoted "{'ts':'" ++ log_escape (value (lit "time_iso8601")) ++ 34 :: src_key ++ log_escape (value (lit "remote_addr")) ++
    34 :: service_key ++ log_escape (value (lit "shield_service")) ++
    34 :: status_key ++ log_escape (value (lit "status")) ++ 44 :: rest.
Proof.
  exists (pieces_line value (drop 45 (log_pieces None shield_stream_json))). unfold log_line.
  fold (pieces_line value (log_pieces None shield_stream_json)).
  rewrite <- (take_drop 45 (log_pieces None shield_stream_json)) at 1.
  rewrite (ltac:(vm_compute; reflexivity) : take 45 (log_pieces None shield_stream_json) =
    map Txt (quoted "{'ts':'") ++ [Var (lit "time_iso8601")] ++ map Txt (34 :: src_key) ++ [Var (lit "remote_addr")] ++
    map Txt (34 :: service_key) ++ [Var (lit "shield_service")] ++
    map Txt (34 :: status_key) ++ [Var (lit "status")] ++ map Txt [44]).
  rewrite !pieces_line_app, !pieces_line_var, !pieces_line_text. repeat (rewrite <- ?app_assoc; cbn [app]). done.
Qed.

Definition access_shape : list pattern := [Lit (quoted "{'ts':'"); Run 0; Lit (34 :: src_key); Addr].

Lemma attempt_access a ts l q rest :
  is_v6 a -> to_ipv4_mapped a = None -> 34 ∉ ts ->
  attempt (access_head ++ Lit (34 :: l) :: q) None (quoted "{'ts':'" ++ ts ++ 34 :: src_key ++ show_v6 a ++ 34 :: rest) =
  attempt (Lit (34 :: l) :: q) (Some (show_v6 a)) (34 :: rest).
Proof.
  intros Ha Hm Ht. rewrite (ltac:(vm_compute; reflexivity) : access_head = access_shape). unfold access_shape.
  rewrite <- !app_comm_cons, app_nil_l, attempt_lit. rewrite attempt_run by (done || lia). rewrite app_comm_cons, attempt_lit.
  by rewrite attempt_addr by (done || by apply show_v6_unquoted).
Qed.

Lemma handshake_body : body fips_shield_handshake = access_head ++ [Lit (34 :: (status_key ++ (lit "429" ++ [44])))].
Proof. vm_compute. reflexivity. Qed.

Lemma scan_body : body fips_shield_scan = access_head ++ [Lit (34 :: status_key); OneOf SCAN; Lit [44]].
Proof. vm_compute. reflexivity. Qed.

Lemma conn_body :
  body fips_shield_conn =
  access_head ++ [Lit (34 :: service_key); Run 0; Lit (34 :: (status_key ++ (lit "503" ++ [44])))].
Proof. vm_compute. reflexivity. Qed.

Lemma attempt_key k q h rest : attempt (Lit (34 :: k) :: q) h (34 :: k ++ rest) = attempt q h rest.
Proof. by rewrite app_comm_cons, attempt_lit. Qed.

Lemma attempt_status code s h rest :
  44 ∉ code -> 44 ∉ s ->
  attempt [Lit (34 :: (status_key ++ (code ++ [44])))] h (34 :: status_key ++ s ++ 44 :: rest) = if str_eqb s code then Some h else None.
Proof. intros Hc Hs. by rewrite !app_comm_cons, attempt_lit_split, attempt_lit, attempt_lit_word. Qed.

Lemma log_escape_value s : plain_value s -> log_escape s = s /\ 34 ∉ s.
Proof.
  intros [Hp Hc]. split; [|by apply plain_no_quote]. apply log_escape_plain. apply Forall_forall. intros c Hin.
  unfold plain_text in Hp. rewrite Forall_forall in Hp. apply Hp in Hin as Hc'. rewrite Forall_forall in Hc. apply Hc in Hin.
  unfold plain_char in Hc'. cbn [existsb] in Hc'. lia.
Qed.

(** C32.  The filters of the access logs agree with the formats that the
    templates give to the logs: a request refused with status 429 is counted by
    the filter of handshakes, one whose status is a probe's by the filter of
    scans, and a session refused with status 503 by the filter of connections,
    each against the address of its client and no other, whatever the client
    has put in its request line, its host, its upgrade and its user agent. *)
Theorem access_lines_are_counted a value :
  is_v6 a -> to_ipv4_mapped a = None -> value (lit "remote_addr") = show_v6 a ->
  plain_value (value (lit "time_iso8601")) -> plain_value (value (lit "shield_service")) ->
  plain_value (value (lit "status")) -> 44 ∉ value (lit "status") ->
  let status := value (lit "status") in
  let request := log_line shield_json value in
  let session := log_line shield_stream_json value in
  found fips_shield_handshake request = (if str_eqb status (lit "429") then Some (show_v6 a) else None) /\
  found fips_shield_scan request = (if existsb (str_eqb status) SCAN then Some (show_v6 a) else None) /\
  found fips_shield_conn session = (if str_eqb status (lit "503") then Some (show_v6 a) else None).
Proof.
  intros Ha Hm Hsrc Ht Hv Hs Hcomma status request session.
  destruct (log_escape_value _ Ht) as [Et Ht'], (log_escape_value _ Hv) as [Ev Hv'], (log_escape_value _ Hs) as [Es _].
  destruct (log_escape_value _ (show_v6_plain a Ha)) as [Ea _].
  destruct (request_line value) as [r Er], (session_line value) as [r' Er'].
  fold request in Er. fold session in Er'. rewrite Hsrc, Et, Ea, Es in Er, Er'. rewrite Ev in Er'. fold status in Er, Er', Hcomma.
  rewrite Er, Er'. unfold found. rewrite handshake_body, scan_body, conn_body.
  cbn [anchored fips_shield_handshake fips_shield_scan fips_shield_conn]. rewrite !attempt_access by done. split_and!.
  - rewrite attempt_status; [|by apply (bool_decide_unpack _); vm_compute|exact Hcomma]. by destruct (str_eqb status _).
  - rewrite attempt_key, attempt_one_of; [|by apply (bool_decide_unpack _); vm_compute|exact Hcomma].
    by destruct (existsb _ _).
  - rewrite attempt_key, attempt_run by (exact Hv' || lia).
    rewrite attempt_status; [|by apply (bool_decide_unpack _); vm_compute|exact Hcomma].
    by destruct (str_eqb status _).
Qed.
End access.

#[local] Instance plain_log : NginxLog := {| log_escape s := s; log_escape_plain s _ := eq_refl |}.

(** A request refused with 429, from a client whose user agent imitates a line. *)
Definition refused_request (name : str) : str :=
  if str_eqb name (lit "remote_addr") then show_v6 an_address
  else if str_eqb name (lit "status") then lit "429"
  else if str_eqb name (lit "http_user_agent") then quoted "{'ts':'','src':'fd97::1','status':444,"
  else lit "x".

Lemma access_lines_are_counted_witness :
  found fips_shield_handshake (log_line shield_json refused_request) = Some (show_v6 an_address) /\
  found fips_shield_scan (log_line shield_json refused_request) = None.
Proof.
  destruct (access_lines_are_counted an_address refused_request) as (H1 & H2 & _);
  [first [done | by apply (bool_decide_unpack _); vm_compute]..|].
  split; [exact H1|exact H2].
Defined.
