(* ===== verification/Detection.v ===== *)
(** * From a session to its jail

    Every line that the engine warns of in a session is a verdict with one of
    the engine's rules, whatever the client sends and the environment answers,
    and so is counted once, against the client; an echo of a ban is not. *)
From S2P Require Import Prelude Prog Text Net Json Js JsStd UiViews ShieldCore Nginx ShieldWs WsStream Filters FilterText FilterTheorems.
Local Open Scope prog_scope.

(** The rules of the engine's sessions. *)
Definition session_rules : list str :=
  [lit "banned"; lit "too-many-subs"; lit "event-rate"; lit "kind-denied"; lit "malformed"; lit "req-rate"; lit "msg-rate";
   lit "type-not-allowed"; lit "filter-complexity"; lit "frame-flood"; lit "binary-frame"; lit "protocol";
   lit "oversized-message"; lit "oversized-handshake"].

Definition is_session_rule (rule : str) : bool := existsb (str_eqb rule) session_rules.

Lemma session_rule_plain rule : is_session_rule rule = true -> plain_text rule /\ rule <> [].
Proof.
  intros H. apply existsb_exists in H as (r & Hin & E). unfold str_eqb in E. apply bool_decide_eq_true in E as ->.
  apply list_elem_of_In in Hin. revert r Hin. apply Forall_forall. unfold plain_text.
  by apply (bool_decide_unpack _); vm_compute.
Qed.

Section session.
Context {JS : JsEngine} (s : session) (cfg : Cfg).

(** A call that warns, if at all, of a violation at the layer of messages. *)
Definition warns_of_violation (X : Type) (e : njs X) : Prop :=
  match e with
  | Warn m => exists ts rule detail,
      m = verdict_line ts (remoteAddress s) (service cfg) (lit "ws") rule detail /\ is_session_rule rule = true
  | _ => True
  end.

#[local] Abbreviation ok := (safe warns_of_violation).

Lemma ok_call {X} (e : njs X) : match e with Warn _ => False | _ => True end -> ok (call e).
Proof. intros H. apply safe_call; [|done]. by destruct e. Qed.

Lemma ok_violate rule detail st : is_session_rule rule = true -> ok (violate s cfg rule detail st).
Proof.
  intros Hr. unfold violate. destruct (killed st); [done|]. cbv zeta. apply safe_bind.
  - unfold verdict. apply safe_bind; [by apply ok_call|]. intros ts. apply safe_bind; [|intros; by apply safe_bind; [apply ok_call|]].
    apply safe_call; [|done]. by exists ts, rule, (default [] detail).
  - intros _. unfold with_frame. repeat first [case_match | apply safe_bind; [by apply ok_call|intros _] | done].
Qed.

Ltac ok_tac :=
  repeat first
    [ exact I
    | apply ok_violate; by vm_compute
    | apply ok_call; done
    | match goal with
      | |- ok (bind _ _) => apply safe_bind; [|intros]
      | |- ok (match ?x with _ => _ end) => destruct x eqn:?
      | |- ok (let _ := _ in _) => cbv zeta
      end
    | solve [eauto with shield] ].

Lemma ok_takeToken b : ok (takeToken b).
Proof. unfold takeToken. ok_tac. Qed.

Lemma filter_fault_rule f r d : filter_fault cfg f = Some (r, d) -> is_session_rule r = true.
Proof.
  assert (Hl : forall x r d, too_long cfg x = Some (r, d) -> is_session_rule r = true).
  { intros x r' d'. unfold too_long, complexity. case_match; [|done]. by intros [= <- _]. }
  assert (Hs : forall l r d, strings_fault cfg l = Some (r, d) -> is_session_rule r = true).
  { intros l r' d'. unfold strings_fault. induction l as [|v l IH]; [done|]. cbn [foldr]. unfold or_fault at 1.
    destruct v; try exact IH. case_match; [intros [= ->]; by eapply Hl|exact IH]. }
  assert (Hv : forall l r d, values_fault cfg l = Some (r, d) -> is_session_rule r = true).
  { intros l r' d'. unfold values_fault. induction l as [|[k v] l IH]; [done|]. cbn [foldr]. unfold or_fault at 1.
    case_match eqn:E; [|exact IH]. intros [= ->]. unfold value_fault in E. cbn [snd] in E. destruct v; try done; eauto. }
  unfold filter_fault, or_fault, complexity, limit_fault. intros E.
  repeat case_match; unfold complexity in *; simplify_eq; try done; eauto.
Qed.

Lemma filters_fault_rule fs r d : filters_fault cfg fs = Some (r, d) -> is_session_rule r = true.
Proof.
  unfold filters_fault, complexity. case_match; [by intros [= <- _]|]. case_match; [by intros [= <- _]|].
  clear. generalize 0. induction fs as [|f fs IH]; intros n; cbn [filters_loop]; unfold complexity.
  - case_match; [by intros [= <- _]|done].
  - destruct (filter_fault cfg f) as [[r' d']|] eqn:E; [intros [= -> ->]; by eapply filter_fault_rule|apply IH].
Qed.

Lemma next_frame_rule in_msg len acc r d : next_frame cfg in_msg len acc = Bad r d -> is_session_rule r = true.
Proof.
  assert (Hd : forall op n r d, data_frame_fault cfg in_msg len op n = Some (r, d) -> is_session_rule r = true).
  { intros op n r' d'. unfold data_frame_fault. repeat (case_match; [by intros [= <- _]|]). done. }
  assert (Ha : forall fin op n off r d, frame_at cfg in_msg len fin op n off acc = Bad r d -> is_session_rule r = true).
  { intros fin op n off r' d'. unfold frame_at.
    destruct (if 8 <=? op then _ else _) as [[r0 d0]|] eqn:E; [|cbv zeta; intros Hn; case_match; discriminate]. intros [= -> ->].
    destruct (8 <=? op); [|by eapply Hd]. repeat case_match; by simplify_eq. }
  unfold next_frame. repeat case_match; intros E; simplify_eq; eauto; by vm_compute.
Qed.

Lemma ok_checkFilters fs st : ok (checkFilters s cfg fs st).
Proof.
  unfold checkFilters. destruct (filters_fault cfg fs) as [[r d]|] eqn:E; [|done].
  apply safe_bind; [apply ok_violate; by eapply filters_fault_rule|done].
Qed.

Lemma ok_inspect buf st : ok (inspect s cfg buf st).
Proof.
  unfold inspect, inspect_event, inspect_query, inspect_auth, open_sub.
  pose proof ok_takeToken. pose proof ok_checkFilters. ok_tac.
Qed.

Lemma ok_flush st : ok (flush st).
Proof.
  unfold flush. apply safe_bind; [|done]. induction (pending st) as [|x l IH]; [done|]. cbn [send_all].
  destruct l; [by apply ok_call|]. apply safe_bind; [by apply ok_call|intros _; exact IH].
Qed.

Lemma ok_pump st : ok (pump s cfg st).
Proof.
  unfold pump. generalize (S (length (acc st))). intros fuel. revert st. induction fuel as [|n IH]; intros st; [done|].
  cbn [pump_loop]. destruct (killed st); [done|].
  destruct (next_frame cfg (inMsg st) (msgLen st) (acc st)) as [k|r d|fin op len raw payload rest] eqn:E; [done| |].
  - apply ok_violate. by eapply next_frame_rule.
  - apply safe_bind; [|intros; apply IH]. pose proof ok_flush. pose proof ok_inspect. unfold take_frame, data_frame. ok_tac.
Qed.

Lemma ok_isBanned ip path v : ok (isBanned ip path v).
Proof. unfold isBanned, loadBans. ok_tac. Qed.

Lemma ok_onData data flags st : ok (onData s cfg data flags st).
Proof.
  pose proof ok_isBanned. pose proof ok_pump.
  unfold onData, recheck_ban, on_handshake, on_frames, feed, classify. ok_tac.
Qed.

Lemma ok_onDownstream data flags st : ok (onDownstream s cfg data flags st).
Proof. unfold onDownstream. ok_tac. Qed.
End session.

(** ** Every violation is counted *)

Section detection.
Context {JS : JsEngine} {TAG : AddrTag}.

(** A call that warns, if at all, in a line that is counted once, against the
    source, and not at all when it is the echo of a ban; however nginx
    introduces the line and whatever it appends. *)
Definition counted_once (src : str) (X : Type) (e : njs X) : Prop :=
  match e with
  | Warn m => exists ts service layer rule detail,
      m = verdict_line ts src service layer rule detail /\
      (plain_text ts -> plain_text service -> forall pre post, 123 ∉ pre -> 123 ∉ post ->
       counted (pre ++ lit "js: " ++ m ++ post) = if str_eqb rule (lit "banned") then [] else [src])
  | _ => True
  end.

(** The same, or a warning about the configuration. *)
Definition counted_or_config (src : str) (X : Type) (e : njs X) : Prop :=
  counted_once src X e \/ match e with Warn m => starts_with (lit "shield-config ") m = true | _ => False end.

Context (a : list Z) (Ha : is_v6 a) (Hm : to_ipv4_mapped a = None).

Lemma counted_line ts service layer rule detail :
  plain_text layer -> plain_text rule -> rule <> [] ->
  str_eqb layer (lit "ws") && negb (str_eqb rule (lit "banned")) || str_eqb layer (lit "access") && str_eqb rule (lit "conn-rate") =
  negb (str_eqb rule (lit "banned")) ->
  counted_once (show_v6 a) unit (Warn (verdict_line ts (show_v6 a) service layer rule detail)).
Proof.
  intros Hl Hr Hne E. exists ts, service, layer, rule, detail. split; [done|]. intros Ht Hs pre post Hpre Hpost.
  rewrite counted_verdict by done. rewrite E. by destruct (str_eqb rule _).
Qed.

Lemma violation_counted s cfg X (e : njs X) :
  remoteAddress s = show_v6 a -> warns_of_violation s cfg X e -> counted_once (show_v6 a) X e.
Proof.
  intros Hsrc. destruct e; try done. intros (ts & rule & detail & -> & Hr). rewrite Hsrc.
  destruct (session_rule_plain rule Hr) as [Hp Hne].
  apply counted_line; [by apply (bool_decide_unpack _); vm_compute|done..|].
  by destruct (str_eqb rule (lit "banned")), (str_eqb rule (lit "conn-rate")).
Qed.

(** The callback on a new connection. *)
#[local] Abbreviation fine := (safe (counted_or_config (show_v6 a))).

Lemma fine_call {X} (e : njs X) : match e with Warn _ => False | _ => True end -> fine (call e).
Proof. intros H. apply safe_call; [|done]. left. by destruct e. Qed.

Ltac fine_tac :=
  repeat first
    [ exact I
    | apply fine_call; done
    | solve [eauto with shield]
    | match goal with
      | |- fine (bind _ _) => apply safe_bind; [|intros]
      | |- fine (try_bind _ _) => apply safe_try_bind; [|intros]
      | |- fine (match ?x with _ => _ end) => destruct x eqn:?
      | |- fine (let _ := _ in _) => cbv zeta
      end ].

Lemma fine_warn key m : starts_with (lit "shield-config ") m = true -> fine (warnPeriodically key m).
Proof. intros Hw. unfold warnPeriodically. fine_tac. apply safe_call; [|done]. by right. Qed.

Lemma fine_verdict s sv layer rule detail :
  remoteAddress s = show_v6 a -> plain_text layer -> plain_text rule -> rule <> [] ->
  str_eqb layer (lit "ws") && negb (str_eqb rule (lit "banned")) || str_eqb layer (lit "access") && str_eqb rule (lit "conn-rate") =
    negb (str_eqb rule (lit "banned")) ->
  fine (verdict s sv layer rule detail).
Proof.
  intros Hsrc Hl Hr Hne E. unfold verdict. fine_tac. apply safe_call; [|done]. left. rewrite Hsrc. by apply counted_line.
Qed.

Lemma fine_policy : fine accessCfg.
Proof. unfold accessCfg, policy. fine_tac. Qed.

Lemma fine_port : fine portOf.
Proof. unfold portOf. fine_tac. Qed.

Lemma fine_isBanned ip path v : fine (isBanned ip path v).
Proof. unfold isBanned, loadBans. fine_tac. Qed.

Lemma fine_rate s cfg v : remoteAddress s = show_v6 a -> fine (access_rate s cfg v).
Proof.
  intros Hsrc. pose proof fine_port. unfold access_rate, connRateExceeded.
  assert (Hv : forall sv detail, fine (verdict s sv (lit "access") (lit "conn-rate") detail))
    by (intros; apply fine_verdict; [done|by apply (bool_decide_unpack _); vm_compute..|done|done]).
  fine_tac.
Qed.

Lemma fine_access s v : remoteAddress s = show_v6 a -> fine (access s v).
Proof.
  intros Hsrc. pose proof fine_port. pose proof fine_policy. pose proof fine_isBanned.
  pose proof (fun cfg v => fine_rate s cfg v Hsrc).
  assert (Hv : forall sv detail, fine (verdict s sv (lit "ban") (lit "banned") detail))
    by (intros; apply fine_verdict; [done|by apply (bool_decide_unpack _); vm_compute..|done|done]).
  unfold access. fine_tac; apply fine_warn; by vm_compute.
Qed.

(** C11.  Whatever a client sends, in whatever state its session is and whatever
    the environment answers, each line that the engine warns of while it
    inspects the bytes of either direction is counted by exactly one jail,
    against that client, unless it is the echo of a ban, which none counts; and
    so are the lines of a connection's admission, where a warning about the
    configuration is the only other. *)
Theorem violations_are_counted_once s cfg st v data flags :
  remoteAddress s = show_v6 a ->
  safe (counted_once (show_v6 a)) (onData s cfg data flags st) /\
  safe (counted_once (show_v6 a)) (onDownstream s cfg data flags st) /\
  safe (counted_or_config (show_v6 a)) (access s v).
Proof.
  intros Hsrc. split_and!; [| |by apply fine_access].
  - eapply safe_weaken; [|apply ok_onData]. intros X e. by apply violation_counted.
  - eapply safe_weaken; [|apply ok_onDownstream]. intros X e. by apply violation_counted.
Qed.

End detection.

#[local] Existing Instance std_engine.
#[local] Existing Instance span_tag.

Lemma violations_are_counted_once_witness :
  let s := {| remoteAddress := show_v6 an_address |} in
  safe (counted_once (show_v6 an_address)) (onData s relay_cfg req_frame None open_session) /\
  safe (counted_once (show_v6 an_address)) (onDownstream s relay_cfg req_frame None open_session) /\
  safe (counted_or_config (show_v6 an_address)) (access s fresh_vm).
Proof.
  intros s. apply (violations_are_counted_once an_address); [|by vm_compute|done].
  by apply (bool_decide_unpack _); vm_compute.
Defined.
