(* ===== verification/Fail2ban.v ===== *)
(** * Jails: [src/core/fail2ban/jail.d]

    The three jails that read the policy's log, each with its filter, and what
    fail2ban's manual says of one: an address is banned once [maxretry] lines
    were counted against it within [findtime] seconds.  fail2ban itself is the
    class [Fail2ban]; it asks no more than the manual and fail2ban's own window
    (which is counted from a first line and not backwards from the last)
    have in common. *)
From S2P Require Import Prelude Text Net NetSpec Json ShieldCore Filters FilterText FilterTheorems.

(** ** Jails *)

Inductive jail_kind := Verdicts | Abuses | Rates.

Definition filter_of (k : jail_kind) : filter :=
  match k with Verdicts => fips_shield_verdict | Abuses => fips_shield_abuse | Rates => fips_shield_connrate end.

Record jail := mk_jail { kind : jail_kind; maxretry : nat; findtime : Z; ignoreip : str -> bool }.

(** A line of a log, with its time. *)
Abbreviation logline := (Z * str)%type.

Section jails.
Context {TAG : AddrTag}.

Definition against (j : jail) (ip : str) (e : logline) : bool := bool_decide (found (filter_of (kind j)) e.2 = Some ip).

Definition recent (j : jail) (now : Z) (e : logline) : bool := now - findtime j <=? e.1.

(** The lines counted against an address in the window before [now]. *)
Definition failures (j : jail) (ip : str) (now : Z) (log : list logline) : list logline :=
  List.filter (fun e => recent j now e && against j ip e) log.
End jails.

(** [banned_now j log]: the address banned when the last line of [log] is read. *)
Class Fail2ban {TAG : AddrTag} := {
  banned_now : jail -> list logline -> option str;
  banned_on_line j : banned_now j [] = None;
  banned_with_cause j log e ip :
    banned_now j (log ++ [e]) = Some ip ->
    ignoreip j ip = false /\ (maxretry j <= length (failures j ip e.1 (log ++ [e])))%nat;
  (** All that was ever counted against the address is recent, and enough. *)
  banned_by_then j log e ip :
    ignoreip j ip = false -> against j ip e = true ->
    Forall (fun e' => against j ip e' = true -> recent j e.1 e' = true) (log ++ [e]) ->
    (maxretry j <= length (failures j ip e.1 (log ++ [e])))%nat ->
    exists p, p `prefix_of` log ++ [e] /\ banned_now j p = Some ip;
}.

(** ** The policy's log *)

(** A client, the layer and the rule. *)
Definition violation : Type := list Z * str * str.

(** A line of the error log: a verdict as nginx writes it, or a line without an
    opening brace. *)
Inductive logged : str -> option violation -> Prop :=
| logged_verdict a pre ts service layer rule detail post :
    is_v6 a -> to_ipv4_mapped a = None ->
    plain_text ts -> plain_text service -> plain_text layer -> plain_text rule -> rule <> [] ->
    123 ∉ pre -> 123 ∉ post ->
    logged (pre ++ lit "js: " ++ verdict_line ts (show_v6 a) service layer rule detail ++ post) (Some (a, layer, rule))
| logged_other l : 123 ∉ l -> logged l None.

(** The violations a jail is for. *)
Definition concerns (k : jail_kind) (layer rule : str) : bool :=
  match k with
  | Verdicts => str_eqb layer (lit "ws") && negb (str_eqb rule (lit "banned")) && negb (existsb (str_eqb rule) ABUSE)
  | Abuses => str_eqb layer (lit "ws") && existsb (str_eqb rule) ABUSE
  | Rates => str_eqb layer (lit "access") && str_eqb rule (lit "conn-rate")
  end.

(** A violation of client [a] that the jail is for. *)
Definition offence (j : jail) (a : list Z) (v : option violation) : bool :=
  match v with Some (b, layer, rule) => bool_decide (b = a) && concerns (kind j) layer rule | None => false end.

Section counting.
Context {TAG : AddrTag}.

Lemma search_none p s : (forall x t, s = x ++ t -> attempt p None t = None) -> search p s = None.
Proof.
  induction s as [|c s IH]; intros H; cbn [search]; rewrite (H [] _ eq_refl); [done|].
  apply IH. intros x t ->. by apply (H (c :: x)).
Qed.

Lemma no_brace_no_verdict k l : 123 ∉ l -> found (filter_of k) l = None.
Proof.
  intros Hl.
  assert (H : forall q, search (verdict_head ++ q) l = None).
  { intros q. apply search_none. intros x t E. destruct (attempt (verdict_head ++ q) None t) eqn:Ea; [|done]. exfalso.
    assert (Hn : attempt (verdict_head ++ q) None t <> None) by by rewrite Ea.
    unfold verdict_head in Hn. rewrite <- app_comm_cons in Hn. apply attempt_lit_inv in Hn as [r ->].
    rewrite head_mark in E. apply Hl. rewrite E. set_solver. }
  unfold found. destruct k; cbn [filter_of anchored]; unfold fips_shield_verdict, fips_shield_abuse, fips_shield_connrate; cbn [anchored body];
    by rewrite H.
Qed.

(** What a filter finds in a line of the policy's log. *)
Lemma found_logged k l v :
  logged l v -> found (filter_of k) l =
    match v with Some (a, layer, rule) => if concerns k layer rule then Some (show_v6 a) else None | None => None end.
Proof.
  intros [a pre ts service layer rule detail post Ha Hm Ht Hs Hl Hr Hne Hpre Hpost|s Hs]; [|by apply no_brace_no_verdict].
  destruct k; cbn [filter_of concerns].
  - by apply found_violation.
  - by apply found_abuse.
  - by apply found_connrate.
Qed.

Lemma show_v6_inj a b : is_v6 a -> is_v6 b -> show_v6 a = show_v6 b -> a = b.
Proof. intros Ha Hb E. apply (f_equal parse_ip) in E. rewrite !parse_ip_show_v6 in E by done. by injection E. Qed.
End counting.

(** ** An instance: the window counted backwards from each line *)

#[local] #[refine] Instance by_the_manual {TAG : AddrTag} : Fail2ban := {|
  banned_now j log :=
    match list.last log with
    | None => None
    | Some e =>
      match found (filter_of (kind j)) e.2 with
      | Some ip => if negb (ignoreip j ip) && (maxretry j <=? length (failures j ip e.1 log))%nat then Some ip else None
      | None => None
      end
    end
|}.
Proof.
  - done.
  - intros j log e ip. rewrite last_snoc. destruct (found _ _) as [x|]; [|done]. destruct (negb _ && _) eqn:H; [|done]. intros [= ->].
    apply andb_true_iff in H as [H1 H2]. split; [by apply negb_true_iff|by apply Nat.leb_le].
  - intros j log e ip Hi Ha _ Hc. exists (log ++ [e]). split; [done|]. rewrite last_snoc.
    apply bool_decide_eq_true in Ha as ->. rewrite Hi. apply Nat.leb_le in Hc. by rewrite Hc.
Defined.
