(* ===== verification/Wrapper.v ===== *)
(** * The guard's wrapper: [src/guard/shield-ban]

    The script fail2ban calls: it may keep the banlist file in step by running
    the file backend with the same arguments, whose output and failures it
    ignores, and then becomes the guard.  Both worlds are one state; another
    instance of the class [BanBackend] says that callers get from the wrapper
    what they get from the guard. *)
From S2P Require Import Prelude Prog Text BanFile BanFileWorld.
From S2P Require Import Net Bpf Sys Guard GuardBans GuardLoad Host BanContract GuardTheorems.
Local Open Scope prog_scope.

(** ** The script *)

Inductive either : Type -> Type :=
| OnGuard X (e : sys X) : either X
| OnFile X (e : sh X) : either X.

(** A program as part of a larger one. *)
Fixpoint lift {E F A} (f : forall X, E X -> F X) (m : prog E A) : prog F A :=
  match m with
  | Ret a => Ret a
  | Vis e k => Vis (f _ e) (fun x => lift f (k x))
  end.

(** ["$@"]. *)
Definition file_args (c : BanCall) : list str :=
  match c with
  | CBan ip secs => [lit "ban"; ip; show_int secs]
  | CUnban ip => [lit "unban"; ip]
  | CCheck ip => [lit "check"; ip]
  | CList => [lit "list"]
  end.

(** [also] is [SHIELD_BAN_ALSO_FILE], [there] whether the file backend can be
    run. *)
Record wrapper_env := mk_wrapper_env { also : bool; there : bool; ban_dir : str; pins_at : str }.

Section wrapper.
Context {AWK : Awk} (env : wrapper_env).

Definition also_file (c : BanCall) : prog either unit :=
  if also env && there env
  then lift OnFile (shield_ban (ban_dir env) (file_args c)) ;;; Ret tt
  else Ret tt.

Definition wrapper (c : BanCall) : prog either ExitCode :=
  also_file c ;;; lift OnGuard (main (mk_cli (pins_at env) (guard_cmd c))).

(** ** Both worlds *)

Definition either_step (i : nat) (X : Type) (e : either X) (p : os * world) (x : X) (p' : os * world) : Prop :=
  match e in either T return T -> Prop with
  | OnGuard _ e => fun x => @sys_spec false _ e p.1 x p'.1 /\ p'.2 = p.2
  | OnFile _ e => fun x => sh_step true i _ e p.2 x p'.2 /\ p'.1 = p.1
  end x.

(** The guard's world passes quietly; anything may become of the file. *)
Definition quiet_left (p p' : os * world) : Prop := quiet p.1 p'.1.

Lemma wp_guard {A} i (m : prog sys A) (Q : A -> os -> Prop) p :
  wpq m Q p.1 -> wp (either_step i) quiet_left (lift OnGuard m) (fun a p' => Q a p'.1) p.
Proof.
  revert p. induction m as [a|X e k IH]; intros [s w]; [done|]. cbn [lift wp fst].
  intros H [s1 w1] HR x [s2 w2] [Hs _]. apply IH. by apply (H s1 HR x s2).
Qed.

Lemma wp_file {A} i (m : prog sh A) p :
  wp (either_step i) quiet_left (lift OnFile m) (fun _ p' => quiet p.1 p'.1) p.
Proof.
  assert (H : forall p', quiet p.1 p'.1 ->
            wp (either_step i) quiet_left (lift OnFile m) (fun _ p' => quiet p.1 p'.1) p').
  { induction m as [a|X e k IH]; intros p' Hp; [done|]. cbn [lift wp].
    intros p1 HR x p2 [_ E]. apply IH. rewrite E. by eapply quiet_trans. }
  apply H, quiet_refl.
Qed.

(** ** The wrapper as a backend *)

Definition wrapper_invoke (i : nat) (c : BanCall) (p : os * world) (Q : Reply -> os * world -> Prop) : Prop :=
  wp (either_step i) quiet_left (wrapper c)
    (fun code p' => Q (BanContract.mk_reply code (new_output p.1 p'.1)) p') p.

Lemma guard_keeps_quiet m s s' A :
  quiet s s' -> guard_keeps (pins_at env) m s A -> guard_keeps (pins_at env) m s' A.
Proof.
  intros Hq (bm & Hb & Hs). exists bm. split; [by eapply quiet_has_bans|].
  apply (same_from_later (mono_ns s)); [apply Hq|exact Hs].
Qed.

Lemma wrapper_follows i m c p A :
  call_ok c -> guard_keeps (pins_at env) m p.1 A ->
  wrapper_invoke i c p (fun r p' => exists t A',
    mono_ns p.1 <= t <= mono_ns p'.1 /\ contract t A c r A' /\ guard_keeps (pins_at env) m p'.1 A').
Proof.
  intros Hc Hk. unfold wrapper_invoke, wrapper. apply wp_seq.
  assert (Hfile : wp (either_step i) quiet_left (also_file c) (fun _ p' => quiet p.1 p'.1) p).
  { unfold also_file. destruct (also env && there env); [|apply quiet_refl].
    apply wp_seq. eapply wp_mono; [|apply wp_file]. intros ? p1 H; exact H. }
  eapply wp_mono; [|exact Hfile]. intros ? p1 Hq. cbv beta.
  pose proof (guard_follows (pins_at env) m c p1.1 A Hc (guard_keeps_quiet m _ _ A Hq Hk)) as Hg.
  eapply wp_mono; [|apply wp_guard, Hg]. intros code p2 (t & A' & Ht & Hcon & Hk').
  exists t, A'. split; [destruct Hq; lia|]. split; [|done].
  assert (E : new_output p.1 p2.1 = new_output p1.1 p2.1).
  { unfold new_output. destruct Hq as (_ & _ & _ & _ & _ & _ & -> & _). done. }
  by rewrite E.
Qed.

#[export] Program Instance wrapper_backend (i : nat) (m : map_id) : BanBackend (os * world) := {|
  BanContract.clock p := mono_ns p.1;
  keeps p := guard_keeps (pins_at env) m p.1;
  invoke := wrapper_invoke i;
|}.
Next Obligation.
  intros i m p A B H (bm & Hb & Hs). exists bm. split; [done|]. etrans; [|done]. by symmetry.
Qed.
Next Obligation. intros i m c p Q Q' HQ. apply wp_mono. auto. Qed.
Next Obligation. intros i m c p A. apply wrapper_follows. Qed.

(** C26.  The file backend never stands in the guard's way: whatever becomes of
    the banlist, and however the runs that keep it in step fail, any session
    with the wrapper is a history of the ban contract, as one with the guard
    alone is. *)
Theorem wrapper_session_is_history i m cs p bm :
  Forall call_ok cs -> has_bans (pins_at env) m bm p.1 ->
  @session (os * world) (wrapper_backend i m) cs p (fun rs p' =>
    length rs = length cs /\ exists A bm',
      history (mono_ns p.1) bm (zip cs rs) (mono_ns p'.1) A /\
      has_bans (pins_at env) m bm' p'.1 /\ same_from (mono_ns p'.1) A bm').
Proof.
  intros Hok Hb. eapply session_mono; [|apply (session_history cs p bm Hok); by exists bm].
  intros rs p' (Hl & A & Hh & bm' & Hb' & HA). split; [done|]. by exists A, bm'.
Qed.

End wrapper.

(** ** A session, concretely *)

#[local] Existing Instance posix_awk.

Definition both_backends : wrapper_env :=
  {| also := true; there := true; ban_dir := lit "/run"; pins_at := DIR |}.

Definition exec_either (X : Type) (e : either X) (p : os * world) : X * (os * world) :=
  match e in either T return T * (os * world) with
  | OnGuard _ e => let '(x, s) := host_exec e p.1 in (x, (s, p.2))
  | OnFile _ e => let '(x, w) := sh_exec 0 _ e p.2 in (x, (p.1, w))
  end.

Definition both_worlds : os * world := (host ∅ no_throttle 0 [prog0], machine 1700000000 []).

(** The ban reaches the kernel's map and the file; the output is the guard's. *)
Example both_banned :
  let '(code, p) := run exec_either (wrapper both_backends (CBan (lit "fd97::1") 60)) both_worlds in
  code = SUCCESS /\ text_of p.2 = lit "fd97::1 1700000060" ++ [10] /\
  Sys.stdout p.1 = [lit "banned fd97::1 until 1700000060"].
Proof. vm_compute. repeat split. Qed.

Lemma wrapper_session_is_history_witness :
  @session (os * world) (wrapper_backend both_backends 0 0%nat) a_session both_worlds (fun rs p' =>
    length rs = length a_session /\ exists A bm',
      history 1000000000 ∅ (zip a_session rs) (mono_ns p'.1) A /\
      has_bans DIR 0%nat bm' p'.1 /\ same_from (mono_ns p'.1) A bm').
Proof.
  apply (wrapper_session_is_history both_backends 0 0%nat a_session both_worlds ∅).
  - repeat (apply Forall_cons; split); try done; unfold call_ok, I64_MAX; lia.
  - apply host_bans.
Defined.
