(* ===== verification/Defense.v ===== *)
(** * From a violation to a dropped packet

    The whole chain: the policy logs what a client does, fail2ban counts the
    lines and runs the ban action, the action's command line reaches the ban
    backend with the settings in force, the guard stores the ban and the
    classifier drops the client's packets.  And the converse: nobody is banned
    for what others do. *)
From S2P Require Import Prelude Prog Text Net NetSpec Json Js.
From S2P Require Import Bpf Sys Guard GuardBans GuardLoad Host BanContract GuardTheorems.
From S2P Require Import BanFile BanFileWorld Wrapper.
From S2P Require Import Shell Config ConfigText ConfigResolve ConfigTheorems.
From S2P Require Import ShieldCore Filters FilterText FilterTheorems Fail2ban.
Local Open Scope Z_scope.

Section counting.
Context {TAG : AddrTag}.

(** A line counts against an address when it is a violation of its client. *)
Lemma against_offence j a e v :
  is_v6 a -> logged e.2 v -> against j (show_v6 a) e = offence j a v.
Proof.
  intros Ha Hv. unfold against, offence. rewrite (found_logged (kind j) e.2 v Hv).
  destruct v as [[[b layer] rule]|]; [|by rewrite bool_decide_eq_false_2].
  destruct (concerns (kind j) layer rule); [|by rewrite andb_false_r, bool_decide_eq_false_2].
  rewrite andb_true_r. apply bool_decide_ext. split; [|by intros ->]. intros [= E].
  inversion Hv; subst. by apply show_v6_inj.
Qed.

Definition offences (j : jail) (a : list Z) (now : Z) (log : list logline) (vs : list (option violation)) : nat :=
  length (List.filter (fun ev => recent j now ev.1 && offence j a ev.2) (zip log vs)).

Lemma failures_offences j a now log vs :
  is_v6 a -> Forall2 (fun e v => logged e.2 v) log vs -> length (failures j (show_v6 a) now log) = offences j a now log vs.
Proof.
  intros Ha H. unfold failures, offences. induction H as [|e v log vs Hv _ IH]; [done|]. cbn [zip zip_with List.filter fst snd].
  rewrite (against_offence j a e v Ha Hv). destruct (recent j now e && offence j a v); cbn [length]; by rewrite IH.
Qed.

Lemma failure_client j ip now log vs :
  Forall2 (fun e v => logged e.2 v) log vs -> failures j ip now log <> [] -> exists a, is_v6 a /\ ip = show_v6 a.
Proof.
  intros H Hne. destruct (failures j ip now log) as [|e r] eqn:E; [done|].
  assert (Hin : e ∈ failures j ip now log) by (rewrite E; left).
  unfold failures in Hin. apply list_elem_of_In, List.filter_In in Hin as [Hin Ha]. apply list_elem_of_In in Hin.
  apply andb_true_iff in Ha as [_ Ha]. apply bool_decide_eq_true in Ha.
  apply list_elem_of_lookup in Hin as [i Hi]. destruct (Forall2_lookup_l _ _ _ _ _ H Hi) as (v & _ & Hv).
  rewrite (found_logged _ _ _ Hv) in Ha. destruct v as [[[b layer] rule]|]; [|done].
  destruct (concerns _ _ _); [|done]. injection Ha as <-. exists b. split; [|done]. by inversion Hv.
Qed.
End counting.

(** ** Nobody is banned for what others do *)

Section safety.
Context {TAG : AddrTag} {F2B : Fail2ban}.

(** C2.  Whatever clients put into the requests, subscriptions and events that
    the policy reports, an address that a jail of the policy's log bans is the
    address of a client who has, by itself and within [findtime], violated the
    rules this jail is for [maxretry] times: no client can have another one
    banned, the echoes of a ban never prolong it, and an ignored address is
    not banned. *)
Theorem only_offenders_are_banned j log vs ip :
  Forall2 (fun e v => logged e.2 v) log vs -> (0 < maxretry j)%nat -> banned_now j log = Some ip ->
  ignoreip j ip = false /\
  exists a e, list.last log = Some e /\ is_v6 a /\ ip = show_v6 a /\ (maxretry j <= offences j a e.1 log vs)%nat.
Proof.
  intros H Hpos Hb. destruct (list.last log) as [e|] eqn:El; [|apply last_None in El as ->; by rewrite banned_on_line in Hb].
  apply last_Some in El as [log' ->]. destruct (banned_with_cause j log' e ip Hb) as [Hi Hc]. split; [done|].
  destruct (failure_client j ip e.1 _ vs H) as (a & Ha & ->); [intros E; rewrite E in Hc; cbn in Hc; lia|].
  exists a, e. by rewrite <- (failures_offences j a e.1 _ vs Ha H).
Qed.
End safety.

(** ** An offender's packets are dropped *)

Definition DEFAULT_PIN_DIR : str := lit "/sys/fs/bpf/fips-shield".

(** What the wrapper and the guard take from the environment of the action. *)
Definition wrapper_settings (e : env) (there : bool) (ban_dir : str) : wrapper_env := {|
  also := str_eqb (or_if_empty (e (lit "SHIELD_BAN_ALSO_FILE")) (lit "false")) (lit "true");
  there := there;
  ban_dir := ban_dir;
  pins_at := default DEFAULT_PIN_DIR (e (lit "SHIELD_GUARD_PIN_DIR"));
|}.

Lemma show_v6_arg a : is_v6 a -> plain_arg (show_v6 a).
Proof.
  intros Ha. destruct (UiViews.show_v6_word a Ha) as [Hne Hw]. split; [done|]. eapply Forall_impl; [exact Hw|].
  intros c Hc. unfold UiViews.word_char, in_range in Hc. unfold safe_char, name_char, name_start, in_range. cbn [existsb]. lia.
Qed.

Lemma show_int_arg n : plain_arg (show_int n).
Proof.
  assert (H : forall m, 0 <= m -> plain_arg (to_string m)).
  { intros m Hm. destruct (UiViews.format_radix_word 10 m ltac:(lia) Hm) as [Hne Hw]. split; [done|].
    eapply Forall_impl; [exact Hw|]. intros c Hc. unfold UiViews.word_char, in_range in Hc.
    unfold safe_char, name_char, name_start, in_range. cbn [existsb]. lia. }
  unfold show_int. destruct (n <? 0) eqn:E; [|apply H; lia]. destruct (H (- n) ltac:(lia)) as [_ Hw].
  split; [done|]. by apply Forall_app_2; [repeat constructor|].
Qed.

Lemma key_of_show_v6 a : is_v6 a -> key_of (show_v6 a) = Some (mk_addr6 (octets a)).
Proof. intros Ha. unfold key_of. by rewrite parse_ip_show_v6. Qed.

(** With room in the ban map the first ban of a history is accepted. *)
Lemma ban_accepted_with_room ip key secs cs rs t bm t' A :
  key_of ip = Some key -> (base.size bm < MAX_TRACKED)%nat -> rs <> [] ->
  history t bm (zip (CBan ip secs :: cs) rs) t' A -> BanContract.status <$> head rs = Some SUCCESS.
Proof.
  intros Hkey Hroom Hne Hh. destruct rs as [|r rs]; [done|]. inversion Hh as [|t1 c r' A1 h t2 A' Ht1 Hc Hrest]; subst.
  assert (Hsize : (base.size (active_bans t1 bm) <= base.size bm)%nat)
    by (apply (map_subseteq_size (M := gmap Addr6)), map_filter_subseteq).
  inversion Hc; subst; [done|lia|]. naive_solver.
Qed.

Section dropped.
Context {AWK : Awk} {POSIX : Posix} {TAG : AddrTag} {F2B : Fail2ban} {LRU : LruHash}.

(** The wrapper, called with a ban of a client: its packets are dropped. *)
Lemma wrapper_ban_drops env i m a secs cs w bm :
  is_v6 a -> secs <= I64_MAX -> Forall call_ok cs -> Forall (fun c => ~ edits (mk_addr6 (octets a)) c) cs ->
  has_bans (pins_at env) m bm w.1 -> (base.size bm < MAX_TRACKED)%nat ->
  @BanContract.session (os * world)%type (wrapper_backend env i m) (CBan (show_v6 a) secs :: cs) w (fun rs w' =>
    forall s2 p cpu skb k, quiet w'.1 s2 -> pg_bans p = m -> kernel_view s2 p = Some k ->
      source skb = Some (mk_addr6 (octets a)) -> secs <= 0 \/ mono_ns s2 < deadline secs (mono_ns w.1) ->
      verdict_now s2 p cpu skb = Some TC_ACT_SHOT).
Proof.
  intros Ha Hsecs Hok Hed Hb Hroom. pose proof (key_of_show_v6 a Ha) as Hkey.
  eapply (session_mono (S := (os * world)%type));
    [|apply (session_history (S := (os * world)%type) (CBan (show_v6 a) secs :: cs) w bm); [by constructor|by exists bm]].
  intros rs w' (Hl & A & Hh & bm' & Hb' & HA).
  assert (Hst : BanContract.status <$> head rs = Some SUCCESS).
  { eapply ban_accepted_with_room; [exact Hkey|exact Hroom| |exact Hh]. intros ->. done. }
  by apply (accepted_ban_drops (pins_at env) m (show_v6 a) _ secs cs rs (mono_ns w.1) bm A w'.1 bm').
Qed.

(** C1.  A client that violates the rules of a jail [maxretry] times within
    [findtime] is banned, and its packets are dropped: fail2ban bans its
    address by the time the last violation is read; the command line of the
    ban action, with the settings that [shield-config] resolved, calls the
    backend with the settings in force and that address; and the wrapper so
    called, whatever becomes of the banlist file and whatever calls about
    other addresses follow, leaves a guard whose classifier drops every packet
    of the client until the ban ends. *)
Theorem offenders_are_dropped fs self e0 dir args o custom c j log vs e a layer rule secs :
  installed fs self e0 dir -> custom_layer custom c -> resolvable fs dir c ->
  parse_options args (default_options e0) = Ok o -> read_custom fs dir o e0 = Ok custom ->
  NoDup (map entry_pair (resolved_entries fs dir c (records (cut_f1 custom)))).*1 ->
  Forall2 (fun e v => logged e.2 v) log vs -> logged e.2 (Some (a, layer, rule)) -> concerns (kind j) layer rule = true ->
  ignoreip j (show_v6 a) = false ->
  Forall (fun ev => offence j a ev.2 = true -> recent j e.1 ev.1 = true) (zip (log ++ [e]) (vs ++ [Some (a, layer, rule)])) ->
  (maxretry j <= offences j a e.1 (log ++ [e]) (vs ++ [Some (a, layer, rule)]))%nat ->
  secs <= I64_MAX ->
  (exists read, read `prefix_of` log ++ [e] /\ banned_now j read = Some (show_v6 a)) /\
  exists vars words,
    Config.main fs self e0 (lit "action-env" :: args) = (vars ++ [NL], 0) /\
    shell_words (actionban vars (show_v6 a) (show_int secs)) = Some [words] /\
    leading_assignments words =
      (carried (effective fs dir c), lit "/usr/local/bin/shield-ban" :: file_args (CBan (show_v6 a) secs)) /\
    forall base there ban_dir i m w bm cs,
      let env := wrapper_settings (exported base (carried (effective fs dir c))) there ban_dir in
      has_bans (pins_at env) m bm w.1 -> (base.size bm < MAX_TRACKED)%nat ->
      Forall call_ok cs -> Forall (fun c => ~ edits (mk_addr6 (octets a)) c) cs ->
      @BanContract.session (os * world)%type (wrapper_backend env i m) (CBan (show_v6 a) secs :: cs) w (fun rs w' =>
        forall s2 p cpu skb k, quiet w'.1 s2 -> pg_bans p = m -> kernel_view s2 p = Some k ->
          source skb = Some (mk_addr6 (octets a)) -> secs <= 0 \/ mono_ns s2 < deadline secs (mono_ns w.1) ->
          verdict_now s2 p cpu skb = Some TC_ACT_SHOT).
Proof.
  intros Hi Hl Hr Ho Hrd Hnd Hlog He Hcon Hign Hrec Hcount Hsecs.
  assert (Ha : is_v6 a) by by inversion He.
  assert (Hall : Forall2 (fun e v => logged e.2 v) (log ++ [e]) (vs ++ [Some (a, layer, rule)])) by by apply Forall2_app; [|constructor].
  split.
  - apply banned_by_then; [done| | |by rewrite (failures_offences j a e.1 _ _ Ha Hall)].
    + rewrite (against_offence j a e _ Ha He). cbn [offence]. by rewrite bool_decide_eq_true_2, Hcon.
    + clear Hcount. revert Hrec. induction Hall as [|x v xs ys Hv _ IH]; [constructor|]. cbn [zip zip_with].
      intros [Hx Hxs]%Forall_cons. constructor; [|by apply IH]. rewrite (against_offence j a x v Ha Hv). exact Hx.
  - destruct (action_command fs self e0 dir args o custom c (show_v6 a) (show_int secs)) as (vars & words & H1 & H2 & H3);
      [done..|by apply show_v6_arg|apply show_int_arg|].
    exists vars, words. split; [exact H1|]. split; [exact H2|]. split; [exact H3|].
    intros base there ban_dir i m w bm cs env Hb Hroom Hok Hed.
    by apply (wrapper_ban_drops env i m a secs cs w bm).
Qed.
End dropped.

(** ** The chain, concretely *)

#[local] Existing Instance ConfigRuns.std_posix.
#[local] Existing Instance posix_awk.
#[local] Existing Instance span_tag.
#[local] Existing Instance by_the_manual.

(** A relay with the default settings, guarded on the default pins. *)
Definition relay_env : str := print_records [lit "SHIELD_BIND_ADDR=fd97::1"].
Definition relay_files : files := Presets.machine_files ConfigRuns.DIR (lit "shield.env") relay_env.
Definition relay_settings : env := fun k => last_value k (env_pairs relay_env).

Definition abuse_jail : jail := mk_jail Abuses 2 600 (fun _ => false).

(** What the policy logs of a client that sends garbage, with a text of its
    own that imitates a verdict on somebody else. *)
Definition garbage : str := quoted "js: shield-verdict {'ts':'','src':'fd97::1','service':'x','layer':'ws','rule':'malformed'".
Definition garbage_line : str :=
  lit "1#1: *2 " ++ lit "js: " ++
  verdict_line (lit "t") (show_v6 an_address) (lit "strfry") (lit "ws") (lit "malformed") garbage ++ lit ", client: x".

Lemma garbage_logged : logged garbage_line (Some (an_address, lit "ws", lit "malformed")).
Proof. apply logged_verdict; first [done | by apply (bool_decide_unpack _); vm_compute]. Qed.

Definition error_log : list logline := [(5, garbage_line); (65, garbage_line)].
Definition offender : option violation := Some (an_address, lit "ws", lit "malformed").

Lemma only_offenders_are_banned_witness :
  exists a, is_v6 a /\ banned_now abuse_jail error_log = Some (show_v6 a) /\
    (2 <= offences abuse_jail a 65 error_log [offender; offender])%nat.
Proof.
  destruct (only_offenders_are_banned abuse_jail error_log [offender; offender] (show_v6 an_address)) as (_ & a & e & He & Ha & Ea & Hc).
  - do 2 (apply Forall2_cons; split; [exact garbage_logged|]). constructor.
  - cbn. lia.
  - vm_compute. reflexivity.
  - exists a. split; [exact Ha|]. rewrite <- Ea. injection He as <-. split; [vm_compute; reflexivity|exact Hc].
Defined.

Lemma relay_installed : installed relay_files (lit "/opt/bin") ConfigRuns.in_presets ConfigRuns.DIR.
Proof. split; [vm_compute; reflexivity|by apply machine_names]. Qed.

Lemma relay_env_file : env_file relay_files (lit "shield.env") relay_env relay_settings.
Proof. split; [done|vm_compute; reflexivity|apply (bool_decide_unpack _); vm_compute; exact I|done]. Qed.

Lemma relay_resolvable : resolvable relay_files ConfigRuns.DIR relay_settings.
Proof. split; [vm_compute; reflexivity|scopes_there]. Qed.

Lemma client_text : show_v6 an_address = lit "fd97::7".
Proof. vm_compute. reflexivity. Qed.

Lemma client_octets : octets an_address = [253; 151; 0; 0; 0; 0; 0; 0; 0; 0; 0; 0; 0; 0; 0; 7].
Proof. vm_compute. reflexivity. Qed.

Lemma relay_carried :
  carried (effective relay_files ConfigRuns.DIR relay_settings) =
  [(lit "SHIELD_BAN_FILE", lit "/var/lib/fips-shield/banlist"); (lit "SHIELD_BAN_ALSO_FILE", lit "false")].
Proof. vm_compute. reflexivity. Qed.

Lemma relay_wrapper :
  wrapper_settings (exported (fun _ => None)
    [(lit "SHIELD_BAN_FILE", lit "/var/lib/fips-shield/banlist"); (lit "SHIELD_BAN_ALSO_FILE", lit "false")]) true (lit "/run") =
  mk_wrapper_env false true (lit "/run") GuardTheorems.DIR.
Proof. vm_compute. reflexivity. Qed.

Lemma offenders_are_dropped_witness :
  (exists read, read `prefix_of` error_log /\ banned_now abuse_jail read = Some (lit "fd97::7")) /\
  exists vars words,
    Config.main relay_files (lit "/opt/bin") ConfigRuns.in_presets [lit "action-env"; lit "-f"; lit "shield.env"] = (vars ++ [NL], 0) /\
    shell_words (actionban vars (lit "fd97::7") (show_int 3600)) = Some [words] /\
    leading_assignments words =
      ([(lit "SHIELD_BAN_FILE", lit "/var/lib/fips-shield/banlist"); (lit "SHIELD_BAN_ALSO_FILE", lit "false")],
       [lit "/usr/local/bin/shield-ban"; lit "ban"; lit "fd97::7"; show_int 3600]) /\
    @BanContract.session (os * world)%type (wrapper_backend (mk_wrapper_env false true (lit "/run") GuardTheorems.DIR) 0 0%nat)
      [CBan (lit "fd97::7") 3600; CUnban (lit "fd97::8"); CList] both_worlds (fun rs w' =>
      forall s2 p cpu skb k, quiet w'.1 s2 -> pg_bans p = 0%nat -> kernel_view s2 p = Some k ->
        source skb = Some (mk_addr6 [253; 151; 0; 0; 0; 0; 0; 0; 0; 0; 0; 0; 0; 0; 0; 7]) ->
        3600 <= 0 \/ mono_ns s2 < deadline 3600 1000000000 -> verdict_now s2 p cpu skb = Some TC_ACT_SHOT).
Proof.
  destruct (offenders_are_dropped relay_files (lit "/opt/bin") ConfigRuns.in_presets ConfigRuns.DIR
    [lit "-f"; lit "shield.env"] (mk_options (lit "shield.env") false [] (lit "no") (lit "no")) (parse_envfile relay_env) relay_settings
    abuse_jail [(5, garbage_line)] [offender] (65, garbage_line) an_address (lit "ws") (lit "malformed") 3600)
    as (Hban & vars & words & H1 & H2 & H3 & H4).
  - exact relay_installed.
  - exact (env_file_layer _ _ _ _ relay_env_file).
  - exact relay_resolvable.
  - vm_compute. reflexivity.
  - vm_compute. reflexivity.
  - apply (bool_decide_unpack _). vm_compute. exact I.
  - apply Forall2_cons. split; [exact garbage_logged|constructor].
  - exact garbage_logged.
  - vm_compute. reflexivity.
  - reflexivity.
  - repeat constructor.
  - vm_compute. lia.
  - unfold I64_MAX. lia.
  - rewrite client_text in *. rewrite client_octets in H4. rewrite relay_carried in H3. rewrite relay_carried in H4.
    split; [exact Hban|]. exists vars, words. split; [exact H1|]. split; [exact H2|]. split; [exact H3|].
    specialize (H4 (fun _ => None) true (lit "/run") 0%nat 0%nat both_worlds ∅ [CUnban (lit "fd97::8"); CList]).
    cbv zeta in H4. rewrite relay_wrapper in H4. apply H4.
    + apply host_bans.
    + rewrite map_size_empty. unfold MAX_TRACKED. lia.
    + repeat constructor.
    + repeat (apply Forall_cons; split); try constructor; vm_compute; [congruence|done].
Defined.
