(* ===== verification/Scripts.v ===== *)
(** * The scripts that deploy: [render.sh], [install-fail2ban.sh], [f2b-entrypoint.sh]

    Each script as a program over what it does to the machine.  Under [set -e]
    the first command that fails ends the script, [;;!]; a command tested by
    [if] does not.  What [shield-config] prints is computed (Config), and so are
    the texts rendered (Templates).  What the scripts say on standard error, and
    the modes of files, are left out.

    The two scripts of a host export the env file's keys into their own shell,
    where a key named like one of the script's variables replaces it: [own_var]
    is the value in use afterwards.  A key that changes the shell itself ([PATH],
    [IFS], a variable bash keeps read-only) is not modelled: [known_key]. *)
From S2P Require Import Prelude Prog Text BanFile Shell Config ConfigTheorems TemplateTexts Templates.
Local Open Scope prog_scope.

(** ** What a script does to the machine *)

Inductive deploy : Type -> Type :=
| Put (path text : str) : deploy bool             (* [> path], [install], [cp] *)
| MakeDirs (dirs : list str) : deploy bool        (* [mkdir -p], [install -d] *)
| MakeParent (path : str) : deploy bool           (* [mkdir -p "$(dirname path)"] *)
| Touch (paths : list str) : deploy bool
| ReadPath (path : str) : deploy (option str)     (* [[ -e path ]], and its text *)
| Chmod700 (dir : str) : deploy bool
| WorkerUser : deploy str                         (* of nginx; empty when it is not known *)
| KnownUser (user : str) : deploy bool            (* [id] *)
| Chown (user dir : str) : deploy bool
| GuardRuns : deploy bool                         (* [fips-guard --help] *)
| GuardLists : deploy bool.                       (* [fips-guard list] *)

(** A script becomes another program, or exits. *)
Inductive ended := Becomes | Exits (status : Z).

Notation "m ;;! k" := (bind m (fun ok : bool => if ok then k else Ret (Exits FAILED)))
  (at level 100, right associativity) : prog_scope.

(** Every file is tried, as [install] and [cp] do of several ... *)
Fixpoint put_all (l : list (str * str)) : prog deploy bool :=
  match l with
  | [] => Ret true
  | (p, t) :: r => ok <- call (Put p t) ;; rest <- put_all r ;; Ret (ok && rest)
  end.

(** ... or the first failure ends the loop of a script. *)
Fixpoint put_each (l : list (str * str)) (k : prog deploy ended) : prog deploy ended :=
  match l with
  | [] => k
  | (p, t) :: r => call (Put p t) ;;! put_each r k
  end.

Definition under (dir : str) (l : list (str * str)) : list (str * str) := map (fun nt => (path dir nt.1, nt.2)) l.

(** An environment after assignments, as another program inherits it. *)
Definition assigned_environ (e : environ) (l : list (str * str)) : environ := foldl (fun m kv => <[kv.1 := kv.2]> m) e l.

Definition env_of (e : environ) : env := fun k => e !! k.

Definition BAN_FILE_DEFAULT : str := lit "/var/lib/fips-shield/banlist".
Definition ban_file (e : environ) : str := or_if_empty (e !! lit "SHIELD_BAN_FILE") BAN_FILE_DEFAULT.

Definition LOG_DIR : str := lit "/var/log/nginx".
Definition SEED_LOGS : list str :=
  [path LOG_DIR (lit "shield-init.access.log"); path LOG_DIR (lit "shield-init.stream.log"); path LOG_DIR (lit "shield-error.log")].

(** The value of a script's own variable once the pairs [l] are exported over
    it. *)
Definition own_var (l : list (str * str)) (name value : str) : str := default value (last_value name l).

Definition REPO_ROOT : str := lit "REPO_ROOT".
Definition OWN_VARIABLES : list str := [REPO_ROOT; lit "ENV_FILE"; lit "F2B_DIR"; lit "PREFIX"; lit "OUT_DIR"; lit "NJS_DIR"].

(** A setting, or a variable of the script that reads the file. *)
Definition known_key (k : str) : bool := starts_with (lit "SHIELD_") k || existsb (str_eqb k) OWN_VARIABLES.

(** What the scripts of a host take from a checkout of the repository: the
    program [bin/shield-config] and the files under [core/] and [profiles/]. *)
Record checkout := mk_checkout {
  co_config : environ -> list str -> str * Z;
  co_core : list (str * str);                     (* core/nginx/*.template *)
  co_profiles : list (str * list (str * str));    (* profiles/<name>/*.template *)
  co_modules : list (str * str);                  (* core/njs/*.js *)
  co_filters : list (str * str);                  (* core/fail2ban/filter.d/*.conf *)
  co_backend : str;                               (* core/actions/shield-ban *)
  co_action : str;
  co_jails : str;
}.

Section scripts.
Context {AWK : Awk} {POSIX : Posix} {ENVSUBST : Envsubst} (fs : files) (self : str).

(** This repository, with [bin] at [self]. *)
Definition this_checkout (modules filters : list (str * str)) (backend : str) : checkout := {|
  co_config := main fs self; co_core := core_templates; co_profiles := profile_templates; co_modules := modules;
  co_filters := filters; co_backend := backend; co_action := action; co_jails := jails;
|}.

(** ** The fail2ban container *)

Definition PIN_KEY : str := lit "SHIELD_GUARD_PIN_DIR".

(** Lines 60 to 105: only a guard that does not run at all is fatal. *)
Definition check_guard (e : environ) : prog deploy ended :=
  match default [] (e !! PIN_KEY) with
  | [] => Ret Becomes
  | _ =>
    runs <- call GuardRuns ;;
    if negb runs then Ret (Exits 1) else call GuardLists ;;; Ret Becomes
  end.

Definition ACTION_FILE : str := lit "/etc/fail2ban/action.d/fips-shield.conf".
Definition JAIL_FILE : str := lit "/etc/fail2ban/jail.d/fips-shield.local".

Definition f2b_entrypoint (e : environ) : prog deploy ended :=
  let '(resolved, status) := main fs self e [lit "resolve"; lit "--from-env"; lit "--shell"] in
  if negb (status =? 0) then Ret (Exits 1) else
  match eval_exports resolved with
  | None => Ret (Exits FAILED)
  | Some l =>
    let e := assigned_environ e l in
    let '(vars, status) := main fs self e [lit "action-env"; lit "--from-env"] in
    if negb (status =? 0) then Ret (Exits status) else
    call (Put ACTION_FILE (render_action (env_of e) vars)) ;;!
    call (Put JAIL_FILE (render_jails (env_of e))) ;;!
    call (MakeDirs [LOG_DIR]) ;;!
    call (Touch SEED_LOGS) ;;!
    call (MakeParent (ban_file e)) ;;!
    check_guard e
  end.

(** ** fail2ban on a host *)

(** Where a checkout is on the machine: this repository's, whose root the
    scripts compute, and perhaps others. *)
Variable checkouts : str -> option checkout.
Variable home : str.

Definition MARKER : str := lit "enforcement backend: eBPF edition".

Definition is_guard_wrapper (found : option str) : bool :=
  match found with Some t => existsb (contains MARKER) (records t) | None => false end.

Definition backend_at (prefix : str) : str := path prefix (lit "bin/shield-ban").
Definition library_at (prefix : str) : str := path prefix (lit "lib/fips-shield").
Definition file_backend_at (prefix : str) : str := path (library_at prefix) (lit "shield-ban-file").

Definition install_backend (backend prefix : str) : prog deploy bool :=
  found <- call (ReadPath (backend_at prefix)) ;;
  if is_guard_wrapper found then Ret true else call (Put (backend_at prefix) backend).

(** Lines 29 to 80, with the variables in use then; without a checkout at the
    root nothing is written. *)
Definition install_from (root file f2b_dir prefix : str) (e : environ) : prog deploy ended :=
  match checkouts root with
  | None => Ret (Exits FAILED)
  | Some r =>
    put_all (under (path f2b_dir (lit "filter.d")) (co_filters r)) ;;!
    call (MakeDirs [library_at prefix]) ;;!
    call (Put (file_backend_at prefix) (co_backend r)) ;;!
    install_backend (co_backend r) prefix ;;!
    let '(vars, status) := co_config r e [lit "action-env"; lit "-f"; file] in
    if negb (status =? 0) then Ret (Exits status) else
    call (Put (path f2b_dir (lit "action.d/fips-shield.conf")) (fill_action (co_action r) (env_of e) vars)) ;;!
    call (MakeDirs [LOG_DIR]) ;;!
    call (Touch [path LOG_DIR (lit "shield-init.access.log"); path LOG_DIR (lit "shield-error.log")]) ;;!
    call (Put (path f2b_dir (lit "jail.d/fips-shield.local")) (fill_jails (co_jails r) (env_of e))) ;;!
    call (MakeParent (ban_file e)) ;;!
    call (MakeDirs [LOG_DIR]) ;;!
    call (Touch SEED_LOGS) ;;!
    Ret (Exits 0)
  end.

Definition install_fail2ban (e : environ) (args : list str) : prog deploy ended :=
  match args with
  | [] | [] :: _ => Ret (Exits FAILED)
  | file :: more =>
    let f2b_dir := or_if_empty (head more) (lit "/etc/fail2ban") in
    let prefix := or_if_empty (e !! lit "PREFIX") (lit "/usr/local") in
    match text_at fs file with
    | None => Ret (Exits FAILED)
    | Some t =>
      let l := env_pairs t in
      if negb (forallb (fun kv => is_name kv.1) l) then Ret (Exits FAILED) else
      install_from (own_var l REPO_ROOT home) (own_var l (lit "ENV_FILE") file) (own_var l (lit "F2B_DIR") f2b_dir)
        (own_var l (lit "PREFIX") prefix) (assigned_environ e l)
    end
  end.

(** ** nginx on a host *)

(** Lines 89 to 114: nothing here ends the script. *)
Definition socket_dir (dir : str) : prog deploy unit :=
  made <- call (MakeDirs [dir]) ;;
  if negb made then Ret tt else
  closed <- call (Chmod700 dir) ;;
  if negb closed then Ret tt else
  user <- call WorkerUser ;;
  match user with
  | [] => Ret tt
  | _ => known <- call (KnownUser user) ;; if (known : bool) then call (Chown user dir) ;;; Ret tt else Ret tt
  end.

(** Lines 49 to 114, with the variables in use then; the profiles of a root
    without a checkout are not there. *)
Definition render_from (root out_dir njs_dir : str) (e : environ) : prog deploy ended :=
  match checkouts root with
  | None => Ret (Exits FAILED)
  | Some r =>
    match render_in (co_core r) (co_profiles r) (env_of e) with
    | Err s => Ret (Exits (stop_status s))
    | Ok written =>
      call (MakeDirs [out_dir; njs_dir]) ;;!
      put_each (under out_dir written)
        (socket_dir (or_if_empty (e !! lit "SHIELD_SOCKET_DIR") (lit "/run/fips-shield")) ;;;
         put_all (under njs_dir (co_modules r)) ;;!
         Ret (Exits 0))
    end
  end.

Definition render_sh (e : environ) (args : list str) : prog deploy ended :=
  match args with
  | [] | [] :: _ => Ret (Exits FAILED)
  | file :: more =>
    let out_dir := or_if_empty (head more) (lit "/etc/nginx/conf.d") in
    let njs_dir := or_if_empty (head (tl more)) (lit "/etc/nginx/njs") in
    match checkouts home with
    | None => Ret (Exits 1)
    | Some r =>
      let '(resolved, status) := co_config r e [lit "resolve"; lit "-f"; file; lit "--shell"] in
      if negb (status =? 0) then Ret (Exits 1) else
      match eval_exports resolved with
      | None => Ret (Exits FAILED)
      | Some l =>
        render_from (own_var l REPO_ROOT home) (own_var l (lit "OUT_DIR") out_dir) (own_var l (lit "NJS_DIR") njs_dir)
          (assigned_environ e l)
      end
    end
  end.
End scripts.

(** ** The machine *)

Record target := mk_target { on_disk : gmap (list Z) (list Z); guard_there : bool }.

Definition set_disk (d : gmap (list Z) (list Z)) (w : target) : target := {| on_disk := d; guard_there := guard_there w |}.

Definition touch (p : str) (w : target) : target :=
  match on_disk w !! p with Some _ => w | None => set_disk (<[p := []]> (on_disk w)) w end.

Definition touched (ps : list str) (w : target) : target := fold_right touch w ps.

(** A write that fails may leave anything at its path; no directory has an empty
    name. *)
Definition deploy_step (faulty : bool) (X : Type) (c : deploy X) (w : target) (x : X) (w' : target) : Prop :=
  match c in deploy T return T -> Prop with
  | Put p t => fun x =>
    (x = true /\ w' = set_disk (<[p := t]> (on_disk w)) w) \/
    (faulty = true /\ x = false /\ exists o, w' = set_disk (partial_alter (fun _ => o) p (on_disk w)) w)
  | Touch ps => fun x =>
    exists qs, qs ⊆ ps /\ w' = touched qs w /\ (x = true -> qs = ps) /\ (faulty = false -> x = true)
  | ReadPath p => fun x => x = on_disk w !! p /\ w' = w
  | GuardRuns => fun x => x = guard_there w /\ w' = w
  | MakeDirs ds => fun x => (x = true -> [] ∉ ds) /\ (faulty = false -> [] ∉ ds -> x = true) /\ w' = w
  | MakeParent _ | Chmod700 _ => fun x => (faulty = false -> x = true) /\ w' = w
  | WorkerUser | KnownUser _ | Chown _ _ | GuardLists => fun _ => w' = w
  end x.

(** One in which nothing fails, and nginx has no user of its own. *)
Definition deploy_exec (X : Type) (c : deploy X) (w : target) : X * target :=
  match c in deploy T return T * target with
  | Put p t => (true, set_disk (<[p := t]> (on_disk w)) w)
  | Touch ps => (true, touched ps w)
  | ReadPath p => (on_disk w !! p, w)
  | GuardRuns => (guard_there w, w)
  | GuardLists => (guard_there w, w)
  | MakeDirs ds => (bool_decide ([] ∉ ds), w)
  | MakeParent _ | Chmod700 _ | KnownUser _ | Chown _ _ => (true, w)
  | WorkerUser => ([], w)
  end.

Lemma deploy_exec_ok faulty X (c : deploy X) w : deploy_step faulty X c w (deploy_exec X c w).1 (deploy_exec X c w).2.
Proof. destruct c; cbn; auto; [split_and!; [apply bool_decide_eq_true_1|intros _; apply bool_decide_eq_true_2|done]|by eexists; split_and!]. Qed.
