(* ===== verification/Reresolve.v ===== *)
(** * Settings resolved again

    The entry point of the fail2ban container evaluates what [shield-config]
    resolves and then asks it again, in the environment so made, for the
    assignments of the ban action.  The settings in force are the same the
    second time, and with the shipped presets no key is resolved twice. *)
From S2P Require Import Prelude Text BanFile Collect Prog Shell ShellText Config Presets.
From S2P Require Import ConfigText ConfigResolve ConfigTheorems.
From S2P Require Import TemplateTexts Templates TemplateText TemplateTheorems Scripts.

(** The shipped presets are all there. *)
Record has_all_presets (fs : files) (dir : str) : Prop := {
  all_texts s lv t : (s, lv, t) ∈ preset_texts -> text_at fs (preset_path dir s lv) = Some t;
  all_listed s : s ∈ preset_scopes -> s ∈ entries_of fs dir;
}.

(** ** What the presets have in common *)

(** A key that selects profiles or levels. *)
Definition selector (k : str) : bool :=
  str_eqb k (lit "SHIELD_PROFILES") || starts_with (reverse (lit "_PRESET")) (reverse k).

Lemma selects_selector k : selects k -> selector k = true.
Proof.
  unfold selector. intros [->|[->|[s ->]]]; apply orb_true_iff; [left|right|right]; [by vm_compute..|].
  apply starts_with_spec. exists (reverse s ++ reverse (lit "SHIELD_")). by rewrite !reverse_app, <- app_assoc.
Qed.

Lemma presets_do_not_select :
  forallb (fun e => forallb (fun k => negb (selector k)) (env_pairs e.2).*1) preset_texts = true.
Proof. vm_compute. reflexivity. Qed.

Lemma preset_keys_once : Forall (fun e => NoDup (env_pairs e.2).*1) preset_texts.
Proof. apply (bool_decide_unpack _). vm_compute. exact I. Qed.

(** No two scopes share a key, at any levels. *)
Lemma preset_scopes_disjoint :
  forallb (fun e => let ks := (env_pairs e.2).*1 in
    forallb (fun e' => str_eqb e.1.1 e'.1.1 || forallb (fun k => negb (existsb (str_eqb k) ks)) (env_pairs e'.2).*1) preset_texts)
    preset_texts = true.
Proof. vm_compute. reflexivity. Qed.

(** Every level sets keys of its scope's default. *)
Lemma preset_keys_default :
  forallb (fun e => existsb (fun e' => str_eqb e.1.1 e'.1.1 && str_eqb e'.1.2 (lit "default") &&
      forallb (fun k => existsb (str_eqb k) (env_pairs e'.2).*1) (env_pairs e.2).*1) preset_texts) preset_texts = true.
Proof. vm_compute. reflexivity. Qed.

Section again.
Context {AWK : Awk} {POSIX : Posix} (fs : files) (self dir : str) (e : environ).
Let c := env_custom fs dir e.
Hypothesis Hshipped : shipped fs dir.
Hypothesis Hdir : find_presets fs self e = Ok dir.
Hypothesis He : environ_ok e.
Hypothesis Hr : resolvable fs dir c.

(** ** The same settings *)

Variable l : list (str * str).
Hypothesis Hl : forall k, last_value k l = effective fs dir c k.

(** The environment after the evaluation. *)
Let e1 := assigned_environ e l.
Let c1 := env_custom fs dir e1.

Lemma assigned_lookup k : e1 !! k = match effective fs dir c k with Some v => Some v | None => e !! k end.
Proof. unfold e1, assigned_environ. by rewrite assigned_env, Hl. Qed.

Lemma assigned_in_force k v : effective fs dir c k = Some v -> e1 !! k = Some v.
Proof. intros H. by rewrite assigned_lookup, H. Qed.

Lemma selector_kept k : selector k = true -> starts_with (lit "SHIELD_") k = true -> c1 k = c k.
Proof.
  intros Hk Hs. destruct (foreign_key fs dir selector k Hshipped presets_do_not_select Hk) as [H1 H2].
  unfold c1, env_custom, of_interest. rewrite Hs, orb_true_r. rewrite assigned_lookup. unfold effective.
  rewrite H2, bool_decide_eq_false_2 by done. unfold c, env_custom, of_interest. rewrite Hs, orb_true_r. by destruct (e !! k).
Qed.

Lemma selection_kept k : selects k -> c k = c1 k.
Proof.
  intros Hk. symmetry. apply selector_kept; [by apply selects_selector|]. pose proof (selects_shared fs dir k Hk) as [Hi _].
  apply starts_with_spec. destruct Hk as [->|[->|[s ->]]]; eexists; [by vm_compute|by vm_compute|done].
Qed.

(** Resolved again, nothing changes. *)
Lemma effective_again k : effective fs dir c1 k = effective fs dir c k.
Proof.
  assert (Hlay : preset_layer fs dir c1 = preset_layer fs dir c).
  { apply preset_layer_ext; [by split|]. intros x Hx. by rewrite selection_kept. }
  assert (H1 : c1 k = if of_interest fs dir k then match effective fs dir c k with Some v => Some v | None => e !! k end else None).
  { unfold c1, env_custom. by rewrite assigned_lookup. }
  assert (H0 : c k = if of_interest fs dir k then e !! k else None) by done.
  unfold effective in *. rewrite Hlay, H1, H0. destruct (last_value k _) as [v|].
  - by destruct (of_interest fs dir k).
  - case_bool_decide; [done|]. destruct (of_interest fs dir k); [|done]. by destruct (e !! k).
Qed.

Lemma resolvable_again : resolvable fs dir c1.
Proof. apply (resolvable_ext fs dir fs dir c c1); [by split|exact selection_kept|done]. Qed.

Lemma environ_again : environ_ok e1.
Proof.
  pose proof (shipped_names _ _ Hshipped) as Hn. pose proof (env_layer fs dir e Hn He) as Hlayer.
  intros k v. rewrite assigned_lookup. destruct (effective fs dir c k) as [w|] eqn:Ew; [|apply He]. intros [= ->].
  split; [|by eapply effective_no_newline].
  rewrite <- (entries_effective fs dir _ c Hlayer) in Ew. apply last_value_elem, list_elem_of_fmap in Ew as (en & [= -> ->] & Hen).
  destruct Hr as [Hp Ho]. pose proof (entries_fine fs dir _ c Hlayer Hn Hp Ho) as Hf. rewrite Forall_forall in Hf.
  by destruct (Hf en Hen).
Qed.

Lemma presets_found_again : find_presets fs self e1 = Ok dir.
Proof.
  rewrite <- Hdir. unfold find_presets. do 3 f_equal.
  replace (e1 !! lit "SHIELD_PRESET_DIR") with (e !! lit "SHIELD_PRESET_DIR"); [done|].
  symmetry. rewrite assigned_lookup.
  destruct (foreign_key fs dir (str_eqb (lit "SHIELD_PRESET_DIR")) (lit "SHIELD_PRESET_DIR")) as [H1 H2];
    [done|vm_compute; reflexivity|vm_compute; reflexivity|].
  unfold effective. rewrite H2, bool_decide_eq_false_2 by done. unfold c, env_custom, of_interest.
  replace (starts_with (lit "SHIELD_") (lit "SHIELD_PRESET_DIR")) with true by (vm_compute; reflexivity).
  rewrite orb_true_r. by destruct (e !! lit "SHIELD_PRESET_DIR").
Qed.
End again.

(** ** No key is resolved twice *)

Section once.
Context {AWK : Awk} {POSIX : Posix} (fs : files) (dir : str) (e : environ).
Let c := env_custom fs dir e.
Hypothesis Hshipped : shipped fs dir.
Hypothesis Hall : has_all_presets fs dir.
Hypothesis He : environ_ok e.

Definition scope_keys (s : str) : list str := (preset_pairs fs dir c s).*1.

Lemma scope_text s : scope_keys s = [] \/ exists lv t, (s, lv, t) ∈ preset_texts /\ scope_keys s = (env_pairs t).*1.
Proof.
  unfold scope_keys, preset_pairs. destruct (text_at fs _) as [t|] eqn:Et; [right|by left].
  exists (level_name c s), t. by split; [apply Hshipped|].
Qed.

Lemma scope_keys_listed s k : k ∈ scope_keys s -> k ∈ all_preset_keys fs dir.
Proof.
  destruct (scope_text s) as [-> | (lv & t & Ht & ->)]; [intros H; by apply elem_of_nil in H|]. intros Hk.
  pose proof (forallb_preset _ _ preset_keys_default Ht) as H. cbn [fst snd] in H.
  apply existsb_exists in H as ([[s' lv'] t'] & Hin & H). cbn [fst snd] in H. rewrite !andb_true_iff in H. destruct H as [[Es El] Hks].
  unfold str_eqb in Es, El. apply bool_decide_eq_true in Es as <-, El as ->.
  rewrite forallb_forall in Hks. apply list_elem_of_In, Hks, existsb_elem in Hk. apply list_elem_of_In in Hin.
  apply elem_sort_u, elem_concat_map. exists s. split.
  - apply Hall. pose proof (forallb_preset _ _ presets_scoped Ht) as Hs. cbn [fst] in Hs. by apply existsb_elem.
  - rewrite (all_texts _ _ Hall s (lit "default") t' Hin). change (parse_envfile t') with (table_text (env_pairs t')).
    rewrite cut_table; [done|apply env_pairs_no_newlines|by apply (proj1 (Forall_forall _ _) preset_texts_named (s, lit "default", t'))].
Qed.

Lemma scope_keys_apart s s' k : s <> s' -> k ∈ scope_keys s -> k ∉ scope_keys s'.
Proof.
  intros Hne Hk Hk'. destruct (scope_text s) as [E|(lv & t & Ht & E)]; rewrite E in Hk; [by apply elem_of_nil in Hk|].
  destruct (scope_text s') as [E'|(lv' & t' & Ht' & E')]; rewrite E' in Hk'; [by apply elem_of_nil in Hk'|].
  pose proof (forallb_preset _ _ preset_scopes_disjoint Ht) as H. cbv zeta in H. apply (forallb_preset _ _ H) in Ht'. cbn [fst snd] in Ht'.
  apply orb_true_iff in Ht' as [Es|Hks]; [unfold str_eqb in Es; by apply bool_decide_eq_true in Es|].
  rewrite forallb_forall in Hks. apply list_elem_of_In, Hks, negb_true_iff, not_true_iff_false in Hk'. by apply Hk', existsb_elem.
Qed.

Lemma scopes_keys_once ss : NoDup ss -> NoDup (concat (map scope_keys ss)).
Proof.
  induction 1 as [|s ss Hs _ IH]; [constructor|]. cbn [map concat]. apply NoDup_app. split_and!; [| |done].
  - destruct (scope_text s) as [-> | (lv & t & Ht & ->)]; [constructor|]. by apply (proj1 (Forall_forall _ _) preset_keys_once (s, lv, t)).
  - intros k Hk (s' & Hs' & Hk')%elem_concat_map. by apply (scope_keys_apart s s' k); [intros ->| |].
Qed.

Lemma filter_map_keys_once {A} (f : str -> option A) (key : A -> str) ks :
  (forall k a, f k = Some a -> key a = k) -> NoDup ks -> NoDup (map key (filter_map f ks)).
Proof.
  intros Hf. induction 1 as [|k ks Hk _ IH]; [constructor|]. cbn [filter_map]. destruct (f k) as [a|] eqn:E; [|done]. cbn [map].
  constructor; [|done]. rewrite (Hf k a E). intros (a' & E' & (k' & Hk' & Ha')%elem_filter_map)%list_elem_of_fmap.
  rewrite (Hf k' a' Ha') in E'. by subst.
Qed.

(** The keys that the environment adds to those of the presets. *)
Lemma extra_keys_once keys :
  NoDup (List.filter (fun k => negb (bool_decide (k ∈ all_preset_keys fs dir))) keys) ->
  NoDup (map (fun en => en.1.2) (extra_entries fs dir c keys)).
Proof.
  unfold extra_entries. induction keys as [|k keys IH]; [constructor|]. cbn [List.filter filter_map].
  case_bool_decide as Hk; cbn [negb]; [exact IH|]. cbn [map fst snd]. inversion 1 as [|? ? Hn Hrest]; subst. constructor; [|by apply IH].
  intros (en & -> & (k' & Hk' & E)%elem_filter_map)%list_elem_of_fmap. case_bool_decide as Hb; [done|]. injection E as <-.
  apply Hn. cbn [fst snd]. apply list_elem_of_In, List.filter_In. split; [by apply list_elem_of_In|]. by rewrite bool_decide_eq_false_2.
Qed.

Lemma env_keys_once :
  NoDup (List.filter (fun k => negb (bool_decide (k ∈ all_preset_keys fs dir))) (env_table fs dir e).*1).
Proof.
  pose proof (shipped_names _ _ Hshipped) as Hn. unfold env_table. rewrite fmap_app, List.filter_app.
  assert (E : List.filter (fun k => negb (bool_decide (k ∈ all_preset_keys fs dir)))
                (filter_map (fun k => pair k <$> e !! k) (all_preset_keys fs dir)).*1 = []).
  { apply elem_of_nil_inv. intros k [Hk Hb]%list_elem_of_In%List.filter_In. apply list_elem_of_In in Hk.
    apply list_elem_of_fmap in Hk as (kv & -> & (k & Hk & E)%elem_filter_map). destruct (e !! k); [|done]. injection E as <-.
    cbn [fst] in Hb. by rewrite bool_decide_eq_true_2 in Hb. }
  rewrite E. cbn [app]. clear E. apply NoDup_ListNoDup, List.NoDup_filter, NoDup_ListNoDup.
  apply (filter_map_keys_once (A := str * str)); [intros k kv; case_if; [done|by intros [= <-]]|].
  rewrite sort_permutation. apply NoDup_ListNoDup, List.NoDup_filter, NoDup_ListNoDup, NoDup_fst_map_to_list.
Qed.

Lemma keys_resolved_once :
  NoDup (enabled c) -> NoDup (map entry_pair (resolved_entries fs dir c (records (cut_f1 (collect_from_env fs dir e))))).*1.
Proof.
  intros Hen. pose proof (shipped_names _ _ Hshipped) as Hn.
  assert (Hk : records (cut_f1 (collect_from_env fs dir e)) = (env_table fs dir e).*1).
  { rewrite collect_from_env_table. apply cut_table; apply Forall_forall; intros [k v] [_ H]%elem_env_table; try done; destruct (He k v H) as [Hk Hv].
    - split; [name_char|done].
    - done. }
  rewrite Hk. unfold resolved_entries. rewrite map_app, fmap_app. apply NoDup_app.
  assert (E : (map entry_pair (concat (map (fun s => map (preset_entry c s) (preset_pairs fs dir c s)) (enabled c)))).*1 =
              concat (map scope_keys (enabled c))).
  { generalize (enabled c). intros ss. induction ss as [|s ss IH]; [done|]. cbn [map concat]. rewrite map_app, fmap_app, IH. f_equal.
    unfold scope_keys. generalize (preset_pairs fs dir c s). intros ps. induction ps as [|kv ps IHp]; [done|]. cbn. f_equal; [|done].
    unfold preset_entry. by destruct (c kv.1). }
  rewrite E. split_and!; [by apply scopes_keys_once| |].
  - intros k (s & _ & Hks)%elem_concat_map Hx. apply scope_keys_listed in Hks.
    apply list_elem_of_fmap in Hx as (kv & -> & (en & -> & Hen')%list_elem_of_fmap). apply elem_extra_entries in Hen' as (k & _ & Hno & ->).
    done.
  - pose proof (extra_keys_once _ env_keys_once) as H. clear -H. revert H. generalize (extra_entries fs dir c (env_table fs dir e).*1).
    intros es. induction es as [|en es IH]; [done|]. cbn [map fmap list_fmap]. inversion 1; subst. constructor; [|by apply IH].
    intros (kv & E & (en' & -> & Hin)%list_elem_of_fmap)%list_elem_of_fmap. apply H2. apply list_elem_of_fmap. by exists en'.
Qed.
End once.
