(* ===== verification/ScriptTheorems.v ===== *)
(** * What the deployment scripts promise

    Whatever fails: fail2ban starts with the settings in force, or not at all;
    an installer leaves kernel enforcement alone; what [render.sh] calls a
    success is complete. *)
From S2P Require Import Prelude Text BanFile Collect Prog Shell ShellText Config Presets.
From S2P Require Import ConfigRuns ConfigText ConfigResolve ConfigTheorems.
From S2P Require Import TemplateTexts Templates TemplateText TemplateTheorems Scripts Reresolve.
Local Open Scope prog_scope.

(** ** Steps of a script *)

Section steps.
Context (faulty : bool).
#[local] Abbreviation wps := (wp (deploy_step faulty) eq).

(** A command under [set -e]: it succeeds, or the script ends, which takes a
    fault. *)
Lemma wp_guarded (m : prog deploy bool) (k : prog deploy ended) (Q : ended -> target -> Prop) w :
  wps m (fun ok w' => if (ok : bool) then wps k Q w' else Q (Exits FAILED) w') w -> wps (m ;;! k) Q w.
Proof. intros H. apply wp_seq. eapply wp_mono; [|exact H]. by intros [] w'. Qed.

Lemma wp_put p t (Q : bool -> target -> Prop) w :
  Q true (set_disk (<[p := t]> (on_disk w)) w) ->
  (faulty = true -> forall o, Q false (set_disk (partial_alter (fun _ => o) p (on_disk w)) w)) ->
  wps (call (Put p t)) Q w.
Proof. intros H1 H2. apply wp_call. intros w1 <- x w2 Hs. cbn in Hs. destruct Hs as [[-> ->]|(Hf & -> & o & ->)]; eauto. Qed.

Definition harmless {X} (c : deploy X) : Prop :=
  match c with MakeDirs _ | MakeParent _ | Chmod700 _ | WorkerUser | KnownUser _ | Chown _ _ | GuardLists => True | _ => False end.

Lemma wp_harmless {X} (c : deploy X) (Q : X -> target -> Prop) w :
  harmless c -> (forall x, Q x w) -> wps (call c) Q w.
Proof. intros Hc H. apply wp_call. intros w1 <- x w2 Hs. destruct c; cbn in Hc, Hs; try done; try (by subst w2; apply H); [by destruct Hs as (_ & _ & ->)|by destruct Hs as [_ ->]..]. Qed.

(** A directory is made, unless something fails or its name is empty. *)
Lemma wp_made ds (Q : bool -> target -> Prop) w :
  ([] ∉ ds -> Q true w) -> (faulty = true \/ [] ∈ ds -> Q false w) -> wps (call (MakeDirs ds)) Q w.
Proof.
  intros H1 H2. apply wp_call. intros w1 <- x w2 (Ht & Hf & ->). destruct x; [by apply H1, Ht|].
  apply H2. destruct (decide ([] ∈ ds)); [by right|left]. by destruct faulty; [|discriminate Hf].
Qed.

Lemma wp_log_dir (Q : bool -> target -> Prop) w :
  Q true w -> (faulty = true -> Q false w) -> wps (call (MakeDirs [LOG_DIR])) Q w.
Proof. intros H1 H2. apply wp_made; [done|]. intros [H|[=]%list_elem_of_singleton]; auto. Qed.

Lemma wp_parent p (Q : bool -> target -> Prop) w :
  Q true w -> (faulty = true -> Q false w) -> wps (call (MakeParent p)) Q w.
Proof.
  intros H1 H2. apply wp_call. intros w1 <- x w2 [Hx ->]. destruct x; [done|].
  apply H2. by destruct faulty; [|discriminate (Hx eq_refl)].
Qed.

(** A file that is there stays as it is. *)
Lemma touch_keeps q w p t : on_disk w !! p = Some t -> on_disk (touch q w) !! p = Some t.
Proof.
  intros H. unfold touch. destruct (on_disk w !! q) eqn:E; [done|]. cbn [on_disk set_disk].
  rewrite lookup_insert_ne; [done|]. intros ->. by rewrite H in E.
Qed.

Lemma touched_keeps qs w p t : on_disk w !! p = Some t -> on_disk (touched qs w) !! p = Some t.
Proof. intros H. induction qs as [|q qs IH]; [done|]. by apply touch_keeps. Qed.

Lemma touched_guard qs w : guard_there (touched qs w) = guard_there w.
Proof. induction qs as [|q qs IH]; [done|]. cbn [touched fold_right]. unfold touch. by destruct (on_disk _ !! q). Qed.

Lemma wp_touch ps (Q : bool -> target -> Prop) w :
  (forall qs, Q true (touched qs w)) -> (faulty = true -> forall qs, Q false (touched qs w)) -> wps (call (Touch ps)) Q w.
Proof.
  intros H1 H2. apply wp_call. intros w1 <- x w2 (qs & _ & -> & _ & Hf). destruct x; [done|]. apply H2.
  by destruct faulty; [|discriminate (Hf eq_refl)].
Qed.
End steps.

(** ** The fail2ban container *)

(** The template of the action, rendered. *)
Lemma action_pieces :
  exists a b, pieces [lit "SHIELD_ACTION_ENV"] action =
    a ++ (chars (lit "actionban = ") ++ Ref (lit "SHIELD_ACTION_ENV") :: chars (lit " /usr/local/bin/shield-ban ban <ip> <bantime>" ++ [NL])) ++ b.
Proof. apply occurs_spec. vm_compute. reflexivity. Qed.

Lemma text_of_ref e k ps : text_of_pieces e (Ref k :: ps) = default [] (e k) ++ text_of_pieces e ps.
Proof. done. Qed.

Section action.
Context {ENVSUBST : Envsubst}.

(** Its line for a ban is the command line with the assignments given. *)
Lemma action_rendered e vars :
  NL ∉ vars -> exists before after,
    render_action e (vars ++ [NL]) =
    before ++ lit "actionban = " ++ actionban vars (lit "<ip>") (lit "<bantime>") ++ [NL] ++ after.
Proof.
  intros Hv. unfold render_action, fill_action. rewrite substituted_line by done.
  rewrite (envsubst_pieces [lit "SHIELD_ACTION_ENV"] [lit "SHIELD_ACTION_ENV"])
    by (generalize (references action); intros rs; apply Forall_forall; intros; reflexivity).
  set (E := exported e _). destruct action_pieces as (a & b & ->).
  exists (text_of_pieces E a), (text_of_pieces E b). rewrite !text_of_app. f_equal. rewrite <- app_assoc.
  rewrite (text_of_chars E (lit "actionban = ")). f_equal.
  rewrite text_of_ref, text_of_chars.
  assert (Ek : E (lit "SHIELD_ACTION_ENV") = Some vars) by (unfold E, exported; by vm_compute).
  rewrite Ek. cbn [default from_option]. unfold id, actionban. by rewrite <- !app_assoc.
Qed.
End action.

(** What a file of actions runs for a ban: the backend with the settings [v]. *)
Definition bans_with (v : env) (text : str) : Prop :=
  exists vars before after,
    text = before ++ lit "actionban = " ++ actionban vars (lit "<ip>") (lit "<bantime>") ++ [NL] ++ after /\
    forall ip secs, plain_arg ip -> plain_arg secs -> exists ws,
      shell_words (actionban vars ip secs) = Some [ws] /\
      leading_assignments ws = (carried v, [lit "/usr/local/bin/shield-ban"; lit "ban"; ip; secs]).

Section f2b.
Context {AWK : Awk} {POSIX : Posix} {ENVSUBST : Envsubst}.

(** The configuration is in force for fail2ban: its action and its jails. *)
Definition fail2ban_configured (v : env) (w : target) : Prop :=
  (exists t, on_disk w !! ACTION_FILE = Some t /\ bans_with v t) /\
  on_disk w !! JAIL_FILE = Some (text_of_pieces v (pieces F2B_KEYS jails)) /\
  forall k, k ∈ F2B_KEYS -> is_Some (v k).

(** The operator expects bans in the kernel. *)
Definition wants_guard (v : env) : Prop := exists x r, v PIN_KEY = Some (x :: r).

Lemma check_guard_spec faulty e w :
  wp (deploy_step faulty) eq (check_guard e) (fun out w' => w' = w /\
    match out with
    | Becomes => forall x r, e !! PIN_KEY = Some (x :: r) -> guard_there w = true
    | Exits n => n = 1 /\ guard_there w = false /\ exists x r, e !! PIN_KEY = Some (x :: r)
    end) w.
Proof.
  unfold check_guard. destruct (e !! PIN_KEY) as [[|x r]|] eqn:E; cbn [default from_option]; [by split| |by split].
  apply wp_seq, wp_call. intros w1 <- b w2 [-> ->]. destruct (guard_there w) eqn:Eg; cbn [negb].
  - apply wp_seq, wp_harmless; [done|]. intros _. by split.
  - split; [done|]. split_and!; [done|done|]. by exists x, r.
Qed.

(** Evaluated, with the assignments of the action. *)
Lemma resolved_twice fs self dir e :
  let c := env_custom fs dir e in
  shipped fs dir -> has_all_presets fs dir -> find_presets fs self e = Ok dir -> environ_ok e ->
  resolvable fs dir c -> NoDup (enabled c) ->
  exists out l, main fs self e [lit "resolve"; lit "--from-env"; lit "--shell"] = (out, 0) /\ eval_exports out = Some l /\
    (forall k, last_value k l = effective fs dir c k) /\
    main fs self (assigned_environ e l) [lit "action-env"; lit "--from-env"] = (carried_text (effective fs dir c) ++ [NL], 0) /\
    NL ∉ carried_text (effective fs dir c).
Proof.
  intros c Hs Hall Hd He Hr Hen. pose proof (shipped_names _ _ Hs) as Hn.
  destruct (resolved_with fs self e dir _ c (env_layer fs dir e Hn He) (Build_installed _ _ _ _ Hd Hn) Hr) as (Hv & l & Hl & Hk).
  eexists _, l. split; [by apply resolve_env_run|]. split; [done|]. split; [done|].
  pose proof (environ_again fs dir e Hs He Hr l Hk) as He1. pose proof (presets_found_again fs self dir e Hs Hd l Hk) as Hd1.
  pose proof (resolvable_again fs dir e Hs Hr l Hk) as Hr1.
  set (e1 := assigned_environ e l) in *. set (c1 := env_custom fs dir e1) in *.
  assert (Ecar : carried (effective fs dir c1) = carried (effective fs dir c)).
  { unfold carried. apply filter_map_ext. intros k. by rewrite (effective_again fs dir e Hs l Hk). }
  split; [|by apply (carried_one_line fs dir _ c (env_layer fs dir e Hn He))].
  unfold carried_text. rewrite <- Ecar.
  apply (action_env_run fs self e1 dir [lit "--from-env"]
    (let o := default_options e1 in mk_options (opt_file o) true (service o) (shell_out o) (porcelain o)) (collect_from_env fs dir e1) c1).
  - by split.
  - by apply env_layer.
  - done.
  - unfold default_options. cbn [parse_options]. by lit_eqb.
  - done.
  - apply keys_resolved_once; try done.
    fold c1. destruct (enabled_ext c c1) as [<- _]; [|done]. intros k Hsel. by apply selection_kept.
Qed.

Lemma pin_in_force fs dir e l :
  shipped fs dir -> (forall k, last_value k l = effective fs dir (env_custom fs dir e) k) ->
  assigned_environ e l !! PIN_KEY = effective fs dir (env_custom fs dir e) PIN_KEY.
Proof.
  intros Hs Hk. rewrite (assigned_lookup fs dir e l Hk).
  destruct (foreign_key fs dir (str_eqb PIN_KEY) PIN_KEY Hs) as [H1 H2]; [vm_compute; reflexivity..|].
  unfold effective. rewrite H2, bool_decide_eq_false_2 by done. unfold env_custom, of_interest.
  replace (starts_with (lit "SHIELD_") PIN_KEY) with true by (vm_compute; reflexivity). rewrite orb_true_r. by destruct (e !! PIN_KEY).
Qed.

Lemma files_apart : ACTION_FILE <> JAIL_FILE.
Proof. apply (bool_decide_unpack _). vm_compute. exact I. Qed.

(** C4.  fail2ban starts with the settings in force, or not at all.  Whatever
    fails on the way, the container either ends with an error or starts
    fail2ban with the action and the jails of the settings in force on its
    disk, every threshold set, and, when kernel enforcement is asked for, a
    guard that runs; nothing but a guard that does not run keeps it from
    starting when no write fails; and from a configuration that cannot be
    resolved it stops before it touches anything. *)
Theorem fail2ban_starts_configured fs self dir e faulty w :
  let c := env_custom fs dir e in
  let v := effective fs dir c in
  shipped fs dir -> has_all_presets fs dir -> find_presets fs self e = Ok dir -> environ_ok e ->
  profiles_plain c = true -> NoDup (enabled c) ->
  (Forall (scope_ok fs dir c) (enabled c) /\
   wp (deploy_step faulty) eq (f2b_entrypoint fs self e) (fun out w' =>
     match out with
     | Becomes => fail2ban_configured v w' /\ (wants_guard v -> guard_there w' = true)
     | Exits n => n <> 0 /\ (faulty = false -> wants_guard v /\ guard_there w' = false)
     end) w) \/
  (~ Forall (scope_ok fs dir c) (enabled c) /\ f2b_entrypoint fs self e = Ret (Exits 1)).
Proof.
  intros c v Hs Hall Hd He Hp Hen. pose proof (shipped_names _ _ Hs) as Hn. pose proof (env_layer fs dir e Hn He) as Hlayer.
  pose proof (validate_spec fs dir _ c Hlayer Hp) as Hv. destruct (is_ok (validate _ _ _)) eqn:Ev.
  - assert (Hok : Forall (scope_ok fs dir c) (enabled c)) by by apply Hv. left. split; [done|].
    assert (Hr : resolvable fs dir c) by done.
    destruct (resolved_twice fs self dir e Hs Hall Hd He Hr Hen) as (out & l & Ho & Hl & Hk & Ha & Hnl).
    unfold f2b_entrypoint. rewrite Ho. cbn [negb Z.eqb]. rewrite Hl, Ha. cbn [negb Z.eqb].
    set (e1 := assigned_environ e l). fold c v in Hnl |- *.
    destruct (action_rendered (env_of e1) (carried_text v) Hnl) as (b1 & b2 & Eact).
    assert (Hact : bans_with v (render_action (env_of e1) (carried_text v ++ [NL]))).
    { exists (carried_text v), b1, b2. split; [done|]. intros. by apply carried_command. }
    assert (Hjail : render_jails (env_of e1) = text_of_pieces v (pieces F2B_KEYS jails)).
    { apply jails_in_force; [done..|]. intros k x. apply (assigned_in_force fs dir e l Hk). }
    rewrite Hjail. clear Eact Hjail. revert Hact. generalize (render_action (env_of e1) (carried_text v ++ [NL])). intros t Hact.
    assert (Hfail : faulty = true -> forall w, FAILED <> 0 /\ (faulty = false -> wants_guard v /\ guard_there w = false))
      by (intros Hf w'; split; [done|by rewrite Hf]).
    apply wp_guarded, wp_put; [|intros Hf o; by apply Hfail].
    apply wp_guarded, wp_put; [|intros Hf o; by apply Hfail].
    apply wp_guarded, wp_log_dir; [|intros Hf; by apply Hfail].
    apply wp_guarded, wp_touch; [|intros Hf qs; by apply Hfail]. intros qs.
    apply wp_guarded, wp_parent; [|intros Hf; by apply Hfail].
    eapply wp_mono; [|apply check_guard_spec]. intros out1 w1 [-> H].
    unfold e1 in H. rewrite (pin_in_force fs dir e l Hs Hk) in H. destruct out1 as [|n].
    + split; [|by intros (x & r & E); apply (H x r)]. split_and!.
      * exists t. split; [|done]. apply touched_keeps. cbn [on_disk set_disk].
        rewrite lookup_insert_ne by (symmetry; apply files_apart). apply lookup_insert_eq.
      * apply touched_keeps. apply lookup_insert_eq.
      * intros k. by apply jail_key_in_force.
    + destruct H as (-> & Hg & x & r & E). split; [done|]. intros _. split; [|done]. by exists x, r.
  - right. assert (Hno : ~ Forall (scope_ok fs dir c) (enabled c)) by (intros H; by apply Hv in H). split; [done|].
    unfold f2b_entrypoint.
    rewrite (invalid_command fs self e dir (lit "resolve") [lit "--from-env"; lit "--shell"] _ (collect_from_env fs dir e) c
      (Build_installed _ _ _ _ Hd Hn) ltac:(by vm_compute) (options_env _)) by done. done.
Qed.
End f2b.

(** ** fail2ban on a host *)

(** Nothing is done at other paths; or the files there stay as they are. *)
Definition untouched (ps : list str) (w w' : target) : Prop := forall p, p ∉ ps -> on_disk w' !! p = on_disk w !! p.

Definition kept (ps : list str) (w w' : target) : Prop :=
  forall p t, p ∉ ps -> on_disk w !! p = Some t -> on_disk w' !! p = Some t.

Lemma untouched_kept ps w w' : untouched ps w w' -> kept ps w w'.
Proof. intros H p t Hp Ht. by rewrite (H p Hp). Qed.

Lemma untouched_put p o w : untouched [p] w (set_disk (partial_alter (fun _ => o) p (on_disk w)) w).
Proof. intros q Hq. cbn [on_disk set_disk]. rewrite lookup_partial_alter_ne; [done|]. set_solver. Qed.

Lemma untouched_insert p t w : untouched [p] w (set_disk (<[p := t]> (on_disk w)) w).
Proof. intros q Hq. cbn [on_disk set_disk]. rewrite lookup_insert_ne; [done|]. set_solver. Qed.

Lemma untouched_trans ps qs w1 w2 w3 : untouched ps w1 w2 -> untouched qs w2 w3 -> untouched (ps ++ qs) w1 w3.
Proof. intros H1 H2 p Hp. rewrite H2, H1; [done|set_solver..]. Qed.

Lemma wp_put_untouched faulty p t w : wp (deploy_step faulty) eq (call (Put p t)) (fun _ w' => untouched [p] w w') w.
Proof. apply wp_put; [apply untouched_insert|intros _ o; apply untouched_put]. Qed.

Lemma wp_put_all faulty l w : wp (deploy_step faulty) eq (put_all l) (fun _ w' => untouched l.*1 w w') w.
Proof.
  revert w. induction l as [|[p t] l IH]; intros w; [by intros q _|]. cbn [put_all]. apply wp_seq.
  eapply wp_mono; [|apply wp_put_untouched]. intros b w1 Hk. apply wp_seq. eapply wp_mono; [|apply IH].
  intros rest w2 Hk2. apply (untouched_trans _ _ _ _ _ Hk Hk2).
Qed.

(** Paths that end in different letters. *)
Ltac path_apart :=
  let E := fresh in intros E; apply (f_equal list.last) in E; unfold backend_at, file_backend_at, library_at, path in E;
  rewrite !last_app in E; vm_compute in E; congruence.

Section host.
Context {AWK : Awk} {POSIX : Posix} {ENVSUBST : Envsubst}.

(** A host whose env file can be resolved, each key once: the settings are those
    of [file], the environment has the pairs [l] exported over it. *)
Record host_configured (fs : files) (self : str) (e : environ) (l : list (str * str)) (file t dir : str) (c : env) : Prop := {
  host_presets : installed fs self (assigned_environ e l) dir;
  host_file : env_file fs file t c;
  host_scopes : resolvable fs dir c;
  host_once : NoDup (map entry_pair (resolved_entries fs dir c (env_pairs t).*1)).*1;
}.

Lemma options_dash_f file o :
  file <> [] -> parse_options [lit "-f"; file] o = Ok (mk_options file (from_env o) (service o) (shell_out o) (porcelain o)).
Proof. intros Hf. destruct file as [|x file]; [done|]. cbn [parse_options]. destruct o. lit_eqb. done. Qed.

Lemma host_action fs self e l file t dir c :
  host_configured fs self e l file t dir c ->
  main fs self (assigned_environ e l) [lit "action-env"; lit "-f"; file] = (carried_text (effective fs dir c) ++ [NL], 0) /\
  NL ∉ carried_text (effective fs dir c).
Proof.
  intros [Hi Hf Hr Hnd]. pose proof (env_file_layer _ _ _ _ Hf) as Hl. pose proof Hi as [_ Hn].
  split; [|by apply (carried_one_line fs dir _ c Hl)].
  rewrite <- (env_file_keys fs file t c Hf) in Hnd. destruct Hf as [Hne Ht _ _].
  by eapply action_env_run; [|done| |by apply options_dash_f|by apply (read_file _ _ _ _ t)|].
Qed.

Section wrappers.
Context (w0 : target).

(** A wrapper that was there, under any prefix, is still there. *)
Definition wrappers_kept (w : target) : Prop :=
  forall p t, on_disk w0 !! backend_at p = Some t -> is_guard_wrapper (Some t) = true -> on_disk w !! backend_at p = Some t.

(** No path of [ps] is a ban backend's. *)
Definition apart (ps : list str) : Prop := forall p, backend_at p ∉ ps.

Lemma wrappers_kept_by ps w w' : wrappers_kept w -> kept ps w w' -> apart ps -> wrappers_kept w'.
Proof. intros H Hk Hp p t Ht Hw. apply Hk; [apply Hp|by apply H]. Qed.

Lemma touched_kept qs w : kept [] w (touched qs w).
Proof. intros p t _ H. by apply touched_keeps. Qed.

Lemma wp_put_kept faulty p t w : wp (deploy_step faulty) eq (call (Put p t)) (fun _ w' => kept [p] w w') w.
Proof. eapply wp_mono; [|apply wp_put_untouched]. intros b w'. apply untouched_kept. Qed.

Lemma wp_touch_kept faulty qs w : wp (deploy_step faulty) eq (call (Touch qs)) (fun _ w' => kept [] w w') w.
Proof. apply wp_touch; [|intros _]; intros qs'; apply touched_kept. Qed.

Lemma wp_made_kept faulty ds w : wp (deploy_step faulty) eq (call (MakeDirs ds)) (fun _ w' => kept [] w w') w.
Proof. apply wp_made; intros _; by intros p t. Qed.

Lemma wp_parent_kept faulty p w : wp (deploy_step faulty) eq (call (MakeParent p)) (fun _ w' => kept [] w w') w.
Proof. apply wp_parent; [|intros _]; by intros q t. Qed.
End wrappers.

Section installer.
Context (w0 : target) (f2b_dir prefix : str) (backend : str).

Definition installed_backend : option str :=
  if is_guard_wrapper (on_disk w0 !! backend_at prefix) then on_disk w0 !! backend_at prefix else Some backend.

Definition action_at : str := path f2b_dir (lit "action.d/fips-shield.conf").

Definition backends_there (w : target) : Prop :=
  on_disk w !! file_backend_at prefix = Some backend /\ on_disk w !! backend_at prefix = installed_backend.

Lemma backends_kept ps w w' :
  backends_there w -> kept ps w w' -> file_backend_at prefix ∉ ps -> apart ps -> backends_there w'.
Proof.
  intros [H1 H2] Hk Hp1 Hp2. split; [by apply Hk|]. unfold installed_backend in *. rewrite <- H2.
  destruct (on_disk w !! backend_at prefix) as [t|] eqn:E; [apply Hk; [apply Hp2|done]|]. exfalso.
  destruct (is_guard_wrapper (on_disk w0 !! backend_at prefix)) eqn:Ew; [|done]. by rewrite <- H2 in Ew.
Qed.

(** The state when the script ends: the wrappers are kept, and after a success
    both backends are there and the action says [A]. *)
Definition installer_outcome (A : str -> Prop) (out : ended) (w : target) : Prop :=
  wrappers_kept w0 w /\ (out = Exits 0 -> backends_there w /\ exists a, on_disk w !! action_at = Some a /\ A a).

Lemma installer_failed A n w : wrappers_kept w0 w -> n <> 0 -> installer_outcome A (Exits n) w.
Proof. intros Hw Hn. split; [done|]. by intros [= ->]. Qed.

Lemma filters_apart (filters : list (str * str)) :
  Forall (fun nt => list.last nt.1 = Some 102) filters -> apart (under (path f2b_dir (lit "filter.d")) filters).*1.
Proof.
  intros Hconf p (nt & E & Hin)%list_elem_of_fmap. apply list_elem_of_fmap in Hin as (nt' & Ent & Hin). subst nt. cbn [fst] in E.
  pose proof (proj1 (Forall_forall _ _) Hconf nt' Hin) as Hlast. cbv beta in Hlast. apply (f_equal list.last) in E.
  unfold backend_at, path in E. rewrite !last_app, Hlast in E. vm_compute in E. congruence.
Qed.

Lemma file_backend_apart : apart [file_backend_at prefix].
Proof. intros p. rewrite list_elem_of_singleton. path_apart. Qed.

Lemma action_apart : apart [action_at].
Proof. intros p. rewrite list_elem_of_singleton. unfold action_at. path_apart. Qed.

Lemma jail_apart : apart [path f2b_dir (lit "jail.d/fips-shield.local")].
Proof. intros p. rewrite list_elem_of_singleton. path_apart. Qed.

Lemma wp_install_backend faulty w :
  wrappers_kept w0 w -> on_disk w !! backend_at prefix = on_disk w0 !! backend_at prefix ->
  on_disk w !! file_backend_at prefix = Some backend ->
  wp (deploy_step faulty) eq (install_backend backend prefix)
    (fun ok w' => wrappers_kept w0 w' /\ (ok = true -> backends_there w')) w.
Proof.
  intros Hw Hsame Hlib. unfold install_backend. apply wp_seq, wp_call. intros w1 <- x w2 [-> ->]. rewrite Hsame.
  unfold backends_there, installed_backend. destruct (is_guard_wrapper (on_disk w0 !! backend_at prefix)) eqn:E; [done|].
  assert (Hany : forall w', untouched [backend_at prefix] w w' -> wrappers_kept w0 w').
  { intros w' Hu p t Ht Hg. rewrite (Hu (backend_at p)); [by apply Hw|]. rewrite list_elem_of_singleton. intros Ep.
    rewrite Ep in Ht. by rewrite Ht, Hg in E. }
  apply wp_put; [|intros _ o]; (split; [apply Hany; apply untouched_insert || apply untouched_put|]); [intros _|done].
  cbn [on_disk set_disk]. rewrite lookup_insert_ne, lookup_insert_eq; [done|]. path_apart.
Qed.

(** What comes after the backends and the action, writes none of them. *)
Definition settled (action : option str) (w : target) : Prop :=
  backends_there w /\ match action with Some a => on_disk w !! action_at = Some a | None => True end.

Lemma settled_kept action ps :
  file_backend_at prefix ∉ ps -> apart ps -> (action = None \/ (action_at ∉ ps)) ->
  forall w w', kept ps w w' -> wrappers_kept w0 w -> settled action w -> wrappers_kept w0 w' /\ settled action w'.
Proof.
  intros H1 H2 H3 w w' Hk Hw [Hb Ha]. split; [by apply (wrappers_kept_by w0 ps w w')|]. split; [by apply (backends_kept ps w w')|].
  destruct action as [a|]; [|done]. destruct H3 as [H3|H3]; [done|]. by apply Hk.
Qed.

Lemma wp_installed faulty A (m : prog deploy bool) (k : prog deploy ended) ps w (P : target -> Prop) :
  wp (deploy_step faulty) eq m (fun _ w' => kept ps w w') w -> wrappers_kept w0 w -> P w ->
  (forall w w', kept ps w w' -> wrappers_kept w0 w -> P w -> wrappers_kept w0 w' /\ P w') ->
  (forall w', wrappers_kept w0 w' -> P w' -> wp (deploy_step faulty) eq k (installer_outcome A) w') ->
  wp (deploy_step faulty) eq (m ;;! k) (installer_outcome A) w.
Proof.
  intros Hm Hw HP Hstep Hk. apply wp_guarded. eapply wp_mono; [|exact Hm]. intros ok w' Hkept.
  destruct (Hstep w w' Hkept Hw HP) as [Hw' HP']. destruct ok; [by apply Hk|]. by apply installer_failed.
Qed.

Lemma library_then_backend faulty A (k : prog deploy ended) w :
  wrappers_kept w0 w -> on_disk w !! backend_at prefix = on_disk w0 !! backend_at prefix ->
  (forall w', wrappers_kept w0 w' -> settled None w' -> wp (deploy_step faulty) eq k (installer_outcome A) w') ->
  wp (deploy_step faulty) eq
    (call (MakeDirs [library_at prefix]) ;;! call (Put (file_backend_at prefix) backend) ;;! install_backend backend prefix ;;! k)
    (installer_outcome A) w.
Proof.
  intros Hw Hsame Hk. apply wp_guarded, wp_made; [intros _|intros _; by apply installer_failed].
  pose proof file_backend_apart as Hap. pose proof (Hap prefix) as Hne. rewrite list_elem_of_singleton in Hne.
  apply wp_guarded, wp_put.
  - apply wp_guarded. eapply wp_mono; [|apply wp_install_backend].
    + intros [] w' [Hw' Hb]; [apply Hk; [done|]; by split; [apply Hb|]|by apply installer_failed].
    + by apply (wrappers_kept_by w0 [file_backend_at prefix] w); [|apply untouched_kept, untouched_insert|].
    + cbn [on_disk set_disk]. by rewrite lookup_insert_ne.
    + cbn [on_disk set_disk]. apply lookup_insert_eq.
  - intros _ o. apply installer_failed; [|done].
    by apply (wrappers_kept_by w0 [file_backend_at prefix] w); [|apply untouched_kept, untouched_put|].
Qed.

Lemma jails_then_done faulty (A : str -> Prop) jail ban_at a w :
  wrappers_kept w0 w -> settled (Some a) w -> A a ->
  wp (deploy_step faulty) eq
    (call (MakeDirs [LOG_DIR]) ;;!
     call (Touch [path LOG_DIR (lit "shield-init.access.log"); path LOG_DIR (lit "shield-error.log")]) ;;!
     call (Put (path f2b_dir (lit "jail.d/fips-shield.local")) jail) ;;!
     call (MakeParent ban_at) ;;!
     call (MakeDirs [LOG_DIR]) ;;!
     call (Touch SEED_LOGS) ;;!
     Ret (Exits 0)) (installer_outcome A) w.
Proof.
  intros H1 Hs1 Ha.
  assert (Hnil : forall w w', kept [] w w' -> wrappers_kept w0 w -> settled (Some a) w -> wrappers_kept w0 w' /\ settled (Some a) w')
    by (apply settled_kept; [set_solver|intros p; set_solver|right; set_solver]).
  assert (Hjail : forall w w', kept [path f2b_dir (lit "jail.d/fips-shield.local")] w w' -> wrappers_kept w0 w -> settled (Some a) w ->
    wrappers_kept w0 w' /\ settled (Some a) w').
  { apply settled_kept; [|apply jail_apart|right]; rewrite list_elem_of_singleton; [path_apart|unfold action_at; path_apart]. }
  eapply wp_installed; [apply wp_made_kept|exact H1|exact Hs1|exact Hnil|]. intros w2 H2 Hs2.
  eapply wp_installed; [apply wp_touch_kept|exact H2|exact Hs2|exact Hnil|]. intros w3 H3 Hs3.
  eapply wp_installed; [apply wp_put_kept|exact H3|exact Hs3|exact Hjail|]. intros w4 H4 Hs4.
  eapply wp_installed; [apply wp_parent_kept|exact H4|exact Hs4|exact Hnil|]. intros w5 H5 Hs5.
  eapply wp_installed; [apply wp_made_kept|exact H5|exact Hs5|exact Hnil|]. intros w6 H6 Hs6.
  eapply wp_installed; [apply wp_touch_kept|exact H6|exact Hs6|exact Hnil|]. intros w7 H7 [Hb7 Ha7].
  split; [done|]. intros _. split; [done|]. by exists a.
Qed.
End installer.

(** Lines 29 to 80, from a checkout whose filters are *.conf files. *)
Lemma install_from_spec checkouts root file f2b_dir prefix e r faulty w0 :
  checkouts root = Some r -> Forall (fun nt => list.last nt.1 = Some 102) (co_filters r) ->
  wp (deploy_step faulty) eq (install_from checkouts root file f2b_dir prefix e)
    (installer_outcome w0 f2b_dir prefix (co_backend r) (fun a =>
       exists vars, co_config r e [lit "action-env"; lit "-f"; file] = (vars, 0) /\ a = fill_action (co_action r) (env_of e) vars)) w0.
Proof.
  intros Hroot Hconf. assert (H0 : wrappers_kept w0 w0) by by intros p t.
  unfold install_from. rewrite Hroot. apply wp_guarded. eapply wp_mono; [|apply wp_put_all]. intros ok w1 Hu.
  pose proof (filters_apart f2b_dir _ Hconf) as Hfa.
  assert (H1 : wrappers_kept w0 w1) by by apply (wrappers_kept_by _ _ _ _ H0 (untouched_kept _ _ _ Hu)).
  destruct ok; [|by apply installer_failed]. apply library_then_backend; [done|by apply Hu|]. clear Hu H1 w1.
  intros w1 H1 Hs1. destruct (co_config r e _) as [vars status] eqn:Em.
  destruct (Z.eqb_spec status 0) as [->|Hst]; cbn [negb]; [|by apply installer_failed].
  pose proof (action_apart f2b_dir) as Ha.
  assert (Ha' : file_backend_at prefix ∉ [action_at f2b_dir]) by (rewrite list_elem_of_singleton; unfold action_at; path_apart).
  change (path f2b_dir (lit "action.d/fips-shield.conf")) with (action_at f2b_dir).
  assert (Hany : forall w', untouched [action_at f2b_dir] w1 w' -> wrappers_kept w0 w' /\ settled w0 f2b_dir prefix (co_backend r) None w')
    by (intros w' Hw'; apply (settled_kept w0 f2b_dir prefix (co_backend r) None _ Ha' Ha (or_introl eq_refl) w1); [by apply untouched_kept|done..]).
  set (a := fill_action _ _ _).
  apply wp_guarded, wp_put; [|intros _ o; apply installer_failed; [apply Hany, untouched_put|done]].
  destruct (Hany _ (untouched_insert (action_at f2b_dir) a w1)) as [H2 [Hb2 _]].
  apply (jails_then_done w0 f2b_dir prefix _ _ _ _ _ a); [done|split; [done|apply lookup_insert_eq]|by exists vars].
Qed.

(** What the action of this repository runs then. *)
Lemma filled_action e vars : fill_action action e vars = render_action e vars.
Proof. reflexivity. Qed.

Lemma installed_action_bans fs self modules filters backend e l file t dir c e' vars :
  host_configured fs self e l file t dir c ->
  co_config (this_checkout fs self modules filters backend) (assigned_environ e l) [lit "action-env"; lit "-f"; file] = (vars, 0) ->
  bans_with (effective fs dir c) (fill_action (co_action (this_checkout fs self modules filters backend)) e' vars).
Proof.
  intros Hc Hvars. cbn [this_checkout co_config co_action] in *. rewrite filled_action.
  destruct (host_action fs self e _ _ _ dir c Hc) as [Hm Hnl]. rewrite Hm in Hvars. injection Hvars as <-.
  destruct (action_rendered e' (carried_text (effective fs dir c)) Hnl) as (b1 & b2 & Ea).
  exists (carried_text (effective fs dir c)), b1, b2. split; [exact Ea|]. intros. by apply carried_command.
Qed.

(** C5.  Installing fail2ban does not undo kernel enforcement. The keys of the
    env file are settings or variables of the script, whose values they then
    replace: root, env file, fail2ban's directory and prefix are below those in
    use after the export; the filters of a checkout are *.conf files. Whatever
    fails, a guard wrapper that is installed as the ban backend, under any
    prefix, is still installed afterwards. And when the installer reports
    success, the root in use holds a checkout whose file backend is in the
    library directory of the prefix in use, the ban backend there is the wrapper
    that was there or else that file backend; and, the checkout being this
    repository's, the action in fail2ban's directory runs
    /usr/local/bin/shield-ban with the settings in force of the env file in use.
    *)
Theorem installer_keeps_enforcement fs self checkouts home e file more t w0 faulty :
  text_at fs file = Some t -> Forall (fun kv => known_key kv.1 = true) (env_pairs t) ->
  (forall root r, checkouts root = Some r -> Forall (fun nt => list.last nt.1 = Some 102) (co_filters r)) ->
  let own := own_var (env_pairs t) in
  let prefix := own (lit "PREFIX") (or_if_empty (e !! lit "PREFIX") (lit "/usr/local")) in
  let f2b_dir := own (lit "F2B_DIR") (or_if_empty (head more) (lit "/etc/fail2ban")) in
  wp (deploy_step faulty) eq (install_fail2ban fs checkouts home e (file :: more)) (fun out w =>
    wrappers_kept w0 w /\
    (out = Exits 0 -> exists r a,
      checkouts (own REPO_ROOT home) = Some r /\
      backends_there w0 prefix (co_backend r) w /\
      on_disk w !! action_at f2b_dir = Some a /\
      forall modules filters backend t' dir c,
        r = this_checkout fs self modules filters backend ->
        host_configured fs self e (env_pairs t) (own (lit "ENV_FILE") file) t' dir c ->
        bans_with (effective fs dir c) a)) w0.
Proof.
  intros Et _ Hconf own prefix f2b_dir. assert (H0 : wrappers_kept w0 w0) by by intros p x.
  unfold install_fail2ban. destruct file as [|x0 fl] eqn:Efile; [by split|]. rewrite <- Efile in *. rewrite Et. cbv zeta.
  destruct (negb _); [by split|]. fold own. fold prefix f2b_dir.
  destruct (checkouts (own REPO_ROOT home)) as [r|] eqn:Er; [|unfold install_from; rewrite Er; by split].
  eapply wp_mono; [|by eapply install_from_spec, Hconf]. intros out w [Hw Hdone]. split; [done|]. intros Hout.
  destruct (Hdone Hout) as (Hb & a & Ha & vars & Hvars & ->). exists r. eexists. split_and!; [done..|exact Ha|].
  intros modules filters backend t' dir c Hr Hc. subst r. exact (installed_action_bans _ _ _ _ _ _ _ _ _ _ _ _ vars Hc Hvars).
Qed.
End host.

(** ** nginx on a host *)

Section writes.
Context (faulty : bool).
#[local] Abbreviation wps := (wp (deploy_step faulty) eq).

(** One text per path. *)
Definition one_text (l : list (str * str)) : Prop := forall p t t', (p, t) ∈ l -> (p, t') ∈ l -> t = t'.

Definition all_there (l : list (str * str)) (w : target) : Prop := forall p t, (p, t) ∈ l -> on_disk w !! p = Some t.

Lemma one_text_tail x l : one_text (x :: l) -> one_text l.
Proof. intros H p t t' Ht Ht'. by apply (H p); right. Qed.

(** The first write of a list, then the others. *)
Lemma all_there_cons p t l w w1 :
  one_text ((p, t) :: l) -> w1 = set_disk (<[p := t]> (on_disk w)) w ->
  forall w', untouched l.*1 w1 w' -> all_there l w' -> all_there ((p, t) :: l) w' /\ untouched ((p, t) :: l).*1 w w'.
Proof.
  intros Hone -> w' Hu Hall. split.
  - intros q x [[= -> ->]|Hin]%elem_of_cons; [|by apply Hall]. destruct (decide (p ∈ l.*1)) as [Hp|Hp].
    + apply list_elem_of_fmap in Hp as ([p' t'] & -> & Hin). rewrite (Hone p' t t'); [by apply Hall|by left|by right].
    + rewrite (Hu p Hp). apply lookup_insert_eq.
  - apply (untouched_trans [p] l.*1 _ _ _ (untouched_insert p t w) Hu).
Qed.

Lemma wp_put_each l k (Q : ended -> target -> Prop) w :
  one_text l ->
  (forall w', untouched l.*1 w w' -> all_there l w' -> wps k Q w') ->
  (faulty = true -> forall w', Q (Exits FAILED) w') -> wps (put_each l k) Q w.
Proof.
  revert w. induction l as [|[p t] l IH]; intros w Hone Hk Hf; [apply Hk; [by intros q _|by intros q x H%elem_of_nil]|].
  cbn [put_each]. apply wp_guarded, wp_put; [|intros Hfault o; by apply Hf].
  apply IH; [by eapply one_text_tail| |done]. intros w' Hu Hall.
  destruct (all_there_cons p t l w _ Hone eq_refl w' Hu Hall) as [H1 H2]. by apply Hk.
Qed.

Lemma wp_put_all_there l w :
  one_text l ->
  wps (put_all l) (fun ok w' => untouched l.*1 w w' /\ (ok = true -> all_there l w') /\ (faulty = false -> ok = true)) w.
Proof.
  revert w. induction l as [|[p t] l IH]; intros w Hone; [split_and!; [by intros q _|by intros _ q x H%elem_of_nil|done]|].
  cbn [put_all]. apply wp_seq. pose proof (one_text_tail _ _ Hone) as Hone'.
  apply wp_put; [|intros Hf o]; apply wp_seq; (eapply wp_mono; [|by apply IH]); intros rest w2 (Hu & Hall & Hok); cbn [andb].
  - split_and!; [apply (untouched_trans [p] l.*1 _ _ _ (untouched_insert p t w) Hu)| |done].
    intros Hr. by destruct (all_there_cons p t l w _ Hone eq_refl w2 Hu (Hall Hr)).
  - split_and!; [apply (untouched_trans [p] l.*1 _ _ _ (untouched_put p o w) Hu)|done|by rewrite Hf].
Qed.

(** The socket directory is provisioned as far as it goes: nothing depends on it. *)
Lemma wp_socket_dir d (k : prog deploy ended) (Q : ended -> target -> Prop) w : wps k Q w -> wps (socket_dir d ;;; k) Q w.
Proof.
  intros H. apply wp_seq. unfold socket_dir.
  apply wp_seq, wp_harmless; [done|]. intros []; cbn [negb]; [|done].
  apply wp_seq, wp_harmless; [done|]. intros []; cbn [negb]; [|done].
  apply wp_seq, wp_harmless; [done|]. intros [|x u]; [done|].
  apply wp_seq, wp_harmless; [done|]. intros []; [|done]. by apply wp_seq, wp_harmless.
Qed.
End writes.

Lemma one_text_under d l : one_text l -> one_text (under d l).
Proof.
  intros H p t t' Ht Ht'. unfold under in Ht, Ht'. apply list_elem_of_fmap in Ht as ([n x] & [= -> ->] & Ht).
  apply list_elem_of_fmap in Ht' as ([n' x'] & [= E ->] & Ht'). cbn [fst snd] in *. unfold path in E.
  apply app_inv_head, app_inv_head in E as <-. by apply (H n).
Qed.

Lemma under_elem d l n t : (n, t) ∈ l -> (path d n, t) ∈ under d l.
Proof. intros H. apply list_elem_of_fmap. by exists (n, t). Qed.

Lemma template_names_once : NoDup nginx_templates.*1.
Proof. apply (bool_decide_unpack _). vm_compute. exact I. Qed.

Lemma rendered_once c (f : str -> str) : one_text (map (fun nt => (nt.1, f nt.2)) (selected c)).
Proof.
  intros p t t' ([n x] & [= -> ->] & Hx%selected_template)%list_elem_of_fmap ([n' x'] & [= E ->] & Hx'%selected_template)%list_elem_of_fmap.
  cbn [fst snd] in *. subst n'. f_equal. by apply (pairs_consistent nginx_templates n x x' template_names_once).
Qed.

(** Rendered files end in [f] or [m], modules in [s]. *)
Lemma template_ends : forallb (fun nt => negb (bool_decide (list.last nt.1 = Some 115))) nginx_templates = true.
Proof. vm_compute. reflexivity. Qed.

Lemma modules_apart out_dir njs_dir (modules : list (str * str)) name :
  Forall (fun nt => list.last nt.1 = Some 115) modules -> (exists nt, name = nt.1 /\ nt ∈ nginx_templates) ->
  path out_dir name ∉ (under njs_dir modules).*1.
Proof.
  intros Hends (nt & -> & Hnt) (m & E & (m' & -> & Hm)%list_elem_of_fmap)%list_elem_of_fmap. cbn [fst] in E.
  pose proof (proj1 (Forall_forall _ _) Hends m' Hm) as Hlast. cbv beta in Hlast.
  pose proof template_ends as H. rewrite forallb_forall in H. apply list_elem_of_In, H, negb_true_iff, bool_decide_eq_false in Hnt.
  apply Hnt. apply (f_equal list.last) in E. unfold path in E. rewrite !last_app, Hlast in E.
  destruct (list.last nt.1); [done|]. vm_compute in E. congruence.
Qed.

Section render.
Context {AWK : Awk} {POSIX : Posix} {ENVSUBST : Envsubst}.

Lemma env_in_force fs dir c (e0 : environ) l :
  shipped fs dir -> e0 !! lit "SHIELD_PROFILES" = None -> (forall k, last_value k l = effective fs dir c k) ->
  in_force fs dir c (env_of (assigned_environ e0 l)).
Proof.
  intros Hs H0 Hk.
  assert (E : forall k, env_of (assigned_environ e0 l) k = exported (env_of e0) l k) by (intros k; apply assigned_env).
  destruct (exported_in_force fs dir c (env_of e0) l Hs (or_introl H0) Hk) as [H1 H2]. split.
  - intros k v Hv. rewrite E. by apply H1.
  - by rewrite E.
Qed.

(** A variable of the script after the settings are evaluated: the env file's
    value if it has one. *)
Lemma own_resolved fs dir file t c l k v :
  shipped fs dir -> env_file fs file t c -> (forall k, last_value k l = effective fs dir c k) -> k ∈ OWN_VARIABLES ->
  own_var l k v = own_var (env_pairs t) k v.
Proof.
  intros Hs Hf Hl Hk. unfold own_var. rewrite Hl.
  assert (Hown : forallb (fun e => forallb (fun k => negb (existsb (str_eqb k) OWN_VARIABLES)) (env_pairs e.2).*1) preset_texts = true)
    by (vm_compute; reflexivity).
  assert (Hno : existsb (str_eqb k) OWN_VARIABLES = true) by by apply existsb_elem.
  destruct (foreign_key fs dir (fun k => existsb (str_eqb k) OWN_VARIABLES) k Hs Hown Hno) as [H1 H2].
  unfold effective. rewrite H2, bool_decide_eq_false_2 by done. pose proof Hf as [_ _ _ Hc]. rewrite Hc.
  by destruct (last_value k (env_pairs t)).
Qed.

(** What nginx is given for a listener: the settings in force. *)
Definition policy_text (v : env) (l : listener) : str := settings_text (values v (settings l)).

Definition listener_in_force (v : env) (out_dir : str) (l : listener) (w : target) : Prop :=
  exists before after,
    on_disk w !! path out_dir (in_file l) = Some (before ++ policy_directive (default [] (v (port_key l))) (policy_text v l) ++ after).

(** What is on the disk after a success. *)
Definition rendered (fs : files) (dir : str) (c : env) (out_dir njs_dir : str) (modules : list (str * str)) (w : target) : Prop :=
  (forall l, l ∈ listeners -> of_profile l ∈ enabled c -> listener_in_force (effective fs dir c) out_dir l w) /\
  (forall name text, (name, text) ∈ modules -> on_disk w !! path njs_dir name = Some text).

(** Lines 49 to 114, with the settings in force evaluated. *)
Lemma render_from_spec fs self modules filters backend checkouts root out_dir njs_dir e dir c faulty w :
  shipped fs dir -> resolvable fs dir c -> is_Some (c BIND) -> lit "core" ∉ tl (enabled c) -> in_force fs dir c (env_of e) ->
  checkouts root = Some (this_checkout fs self modules filters backend) ->
  NoDup modules.*1 -> Forall (fun nt => list.last nt.1 = Some 115) modules ->
  wp (deploy_step faulty) eq (render_from checkouts root out_dir njs_dir e) (fun out w' =>
    (exists n, out = Exits n /\ (faulty = false -> out_dir <> [] -> njs_dir <> [] -> n = 0)) /\
    (out = Exits 0 -> rendered fs dir c out_dir njs_dir modules w')) w.
Proof.
  intros Hs Hr Hb Hp Hin Hroot Hnames Hends.
  destruct (render_complete fs dir c Hs Hr Hb Hp _ Hin) as (vars & Hrender & _).
  set (written := map _ (selected c)) in Hrender.
  pose proof (rendered_once c (envsubst vars (env_of e))) as Hone. fold written in Hone.
  unfold render_from. rewrite Hroot. cbn [this_checkout co_core co_profiles co_modules].
  change (render_in core_templates profile_templates) with render. rewrite Hrender.
  apply wp_guarded, wp_made; [intros _|].
  2: { intros Hf. split; [|done]. exists FAILED. split; [done|]. intros -> H1 H2. destruct Hf as [Hf|Hf]; [done|]. set_solver. }
  assert (Hfail : faulty = true -> exists n, Exits FAILED = Exits n /\ (faulty = false -> out_dir <> [] -> njs_dir <> [] -> n = 0))
    by (intros ->; by exists FAILED).
  apply wp_put_each; [by apply one_text_under| |intros Hf w'; split; [by apply Hfail|done]]. intros w1 _ Hall.
  apply wp_socket_dir. apply wp_guarded. eapply wp_mono; [|apply wp_put_all_there, one_text_under].
  2: { intros n x x'. by apply pairs_consistent. }
  intros ok w2 (Hu & Hm & Hok). destruct ok; [|split; [apply Hfail; by destruct faulty; [|discriminate (Hok eq_refl)]|done]].
  split; [by exists 0|]. intros _. split; [|intros name text Hnt; by apply Hm, under_elem].
  intros l' Hl' Hen. destruct (directive_in_file fs dir c Hs Hr Hb Hp _ l' Hin Hl' Hen) as (written' & before & after & Hw & Hwr).
  rewrite Hrender in Hw. injection Hw as <-. exists before, after.
  rewrite Hu; [by apply Hall, under_elem|]. apply (modules_apart out_dir njs_dir); [done|].
  apply list_elem_of_fmap in Hwr as (nt & [= En _] & Hnt%selected_template). by exists nt.
Qed.

(** C3.  A success of [render.sh] is complete. The env file can be resolved on
    the shipped presets, sets an address to bind and, the environment not naming
    profiles, the profiles (none of them core, which is always there); its keys
    are settings or variables of the script, whose values they then replace:
    root, output directory and directory of the engine are below those in use
    after the evaluation, and the root in use is this repository's. Then the
    script fails only when a command fails or the name of a directory in use is
    empty. And whatever else fails, the directory of the sockets included, when
    it reports success, in the output directory the file of every enabled
    profile has the policy directive of its port with the values in force, and
    the engine's modules are in theirs; from a directive whose values have no
    semicolon, the separator of a policy, the engine reads exactly the
    listener's settings with those values. *)
Theorem rendered_limits_are_in_force fs self modules filters backend checkouts home e0 dir file t c more faulty w :
  let this := this_checkout fs self modules filters backend in
  let own := own_var (env_pairs t) in
  deployed fs self e0 dir file t c (env_of e0) -> Forall (fun kv => known_key kv.1 = true) (env_pairs t) ->
  checkouts home = Some this -> checkouts (own REPO_ROOT home) = Some this ->
  NoDup modules.*1 -> Forall (fun nt => list.last nt.1 = Some 115) modules ->
  let out_dir := own (lit "OUT_DIR") (or_if_empty (head more) (lit "/etc/nginx/conf.d")) in
  let njs_dir := own (lit "NJS_DIR") (or_if_empty (head (tl more)) (lit "/etc/nginx/njs")) in
  wp (deploy_step faulty) eq (render_sh checkouts home e0 (file :: more)) (fun out w' =>
    (exists n, out = Exits n /\ (faulty = false -> out_dir <> [] -> njs_dir <> [] -> n = 0)) /\
    (out = Exits 0 -> rendered fs dir c out_dir njs_dir modules w')) w /\
  forall l, l ∈ listeners -> of_profile l ∈ enabled c -> clean fs dir c l ->
    ShieldCore.parse_policy (policy_text (effective fs dir c) l) = list_to_map (values (effective fs dir c) (settings l)).
Proof.
  intros this own Hdep _ Hhome Hroot Hnames Hends out_dir njs_dir. pose proof Hdep as [Hs Hd Hf Hr Hb Hp Hbase].
  split; [|intros l; by apply policy_read_back].
  destruct (resolved_with fs self e0 dir _ c (env_file_layer _ _ _ _ Hf) (Build_installed _ _ _ _ Hd (shipped_names _ _ Hs)) Hr)
    as (Hv & l & Hl & Hk). pose proof (env_in_force fs dir c e0 l Hs Hbase Hk) as Hin.
  assert (Hown : forall k v, k ∈ OWN_VARIABLES -> own_var l k v = own k v) by (intros k v; by eapply own_resolved).
  unfold render_sh. pose proof Hf as [Hne Ht _ _]. destruct file as [|x0 fl] eqn:Efile; [done|]. rewrite <- Efile in *.
  rewrite Hhome. unfold this. cbn [this_checkout co_config].
  rewrite (resolve_file_run fs self e0 dir file t) by done. cbn [negb Z.eqb]. rewrite Hl. cbv zeta.
  rewrite !Hown by (unfold OWN_VARIABLES; set_solver). fold out_dir njs_dir.
  by apply (render_from_spec fs self modules filters backend).
Qed.
End render.

(** ** Concretely *)

#[local] Existing Instance std_posix.
#[local] Existing Instance posix_awk.
#[local] Existing Instance std_envsubst.

Lemma container_presets : has_all_presets container_files DIR.
Proof.
  split.
  - intros s lv t Hin. assert (H : Forall (fun e => text_at container_files (preset_path DIR e.1.1 e.1.2) = Some e.2) preset_texts).
    { apply (bool_decide_unpack _). vm_compute. exact I. }
    by apply (proj1 (Forall_forall _ _) H (s, lv, t)).
  - intros s Hs. assert (H : Forall (fun s => s ∈ entries_of container_files DIR) preset_scopes) by (apply (bool_decide_unpack _); vm_compute; exact I).
    by apply (proj1 (Forall_forall _ _) H).
Qed.

(** A container that expects bans in the kernel, with a guard that runs. *)
Definition a_target : target := mk_target ∅ true.

Lemma container_resolvable : resolvable container_files DIR (env_custom container_files DIR container_env).
Proof. split; [vm_compute; reflexivity|scopes_there]. Qed.

Lemma container_wants_guard : wants_guard (effective container_files DIR (env_custom container_files DIR container_env)).
Proof. exists 47, (tl (lit "/sys/fs/bpf/it's mine")). vm_compute. reflexivity. Qed.

Lemma fail2ban_starts_configured_witness :
  let v := effective container_files DIR (env_custom container_files DIR container_env) in
  wants_guard v /\
  wp (deploy_step true) eq (f2b_entrypoint container_files (lit "/usr/local/bin") container_env) (fun out w' =>
    match out with
    | Becomes => fail2ban_configured v w' /\ (wants_guard v -> guard_there w' = true)
    | Exits n => n <> 0 /\ (true = false -> wants_guard v /\ guard_there w' = false)
    end) a_target.
Proof.
  intros v. split; [exact container_wants_guard|].
  destruct (fail2ban_starts_configured container_files (lit "/usr/local/bin") DIR container_env true a_target) as [[_ H]|[Hno _]].
  - exact container_names.
  - exact container_presets.
  - vm_compute. reflexivity.
  - exact container_env_ok.
  - vm_compute. reflexivity.
  - apply (bool_decide_unpack _). vm_compute. exact I.
  - exact H.
  - exfalso. apply Hno. destruct container_resolvable as [_ Hok]. exact Hok.
Defined.

(** It does not start when the guard does not run. *)
Example fail2ban_wants_its_guard : (run deploy_exec (check_guard container_env) (mk_target ∅ false)).1 = Exits 1.
Proof. vm_compute. reflexivity. Qed.

(** A host with kernel enforcement. *)
Definition guard_wrapper_text : str := print_records [lit "#!/usr/bin/env bash"; lit "# fips-shield enforcement backend: eBPF edition."].
Definition file_backend_text : str := print_records [lit "#!/usr/bin/env bash"].
Definition guarded_host : target := mk_target {[ lit "/usr/local/bin/shield-ban" := guard_wrapper_text ]} true.
Definition some_filters : list (str * str) := [(lit "fips-shield-abuse.conf", lit "[Definition]"); (lit "fips-shield-verdict.conf", lit "[Definition]")].

(** This repository at [HOME], and nothing else. *)
Definition HOME : str := lit "/opt".
Definition some_modules : list (str * str) := [(lit "shield_core.js", lit "export default {};"); (lit "shield_ws.js", lit "export default {};")].
Definition here (fs : files) : checkout := this_checkout fs (lit "/opt/bin") some_modules some_filters file_backend_text.
Definition one_checkout (fs : files) (root : str) : option checkout := if str_eqb root HOME then Some (here fs) else None.

Definition host_run : prog deploy ended := install_fail2ban node_files (one_checkout node_files) HOME in_presets [lit "shield.env"].

Lemma node_configured : host_configured node_files (lit "/opt/bin") in_presets (env_pairs node_env) (lit "shield.env") node_env DIR node.
Proof.
  split; [|exact node_env_file|exact node_resolvable|apply (bool_decide_unpack _); vm_compute; exact I].
  split; [vm_compute; reflexivity|by apply machine_names].
Qed.

Lemma some_filters_conf : Forall (fun nt => list.last nt.1 = Some 102) some_filters.
Proof. repeat constructor. Qed.

Lemma one_checkout_conf fs root r : one_checkout fs root = Some r -> Forall (fun nt => list.last nt.1 = Some 102) (co_filters r).
Proof. unfold one_checkout. destruct (str_eqb root HOME); [|done]. intros [= <-]. exact some_filters_conf. Qed.

Lemma node_keys : Forall (fun kv => known_key kv.1 = true) (env_pairs node_env).
Proof. apply (bool_decide_unpack _). vm_compute. exact I. Qed.

Lemma usual_backend : backend_at (lit "/usr/local") = lit "/usr/local/bin/shield-ban".
Proof. vm_compute. reflexivity. Qed.

Lemma host_own :
  own_var (env_pairs node_env) REPO_ROOT HOME = HOME /\ own_var (env_pairs node_env) (lit "ENV_FILE") (lit "shield.env") = lit "shield.env" /\
  action_at (own_var (env_pairs node_env) (lit "F2B_DIR") (or_if_empty (head []) (lit "/etc/fail2ban"))) = lit "/etc/fail2ban/action.d/fips-shield.conf".
Proof. vm_compute. split_and!; reflexivity. Qed.

Lemma home_checkout fs : one_checkout fs HOME = Some (here fs).
Proof. reflexivity. Qed.

Lemma installer_keeps_enforcement_witness :
  let r := run deploy_exec host_run guarded_host in
  on_disk r.2 !! lit "/usr/local/bin/shield-ban" = Some guard_wrapper_text /\
  (r.1 = Exits 0 -> exists a,
    on_disk r.2 !! lit "/etc/fail2ban/action.d/fips-shield.conf" = Some a /\ bans_with (effective node_files DIR node) a).
Proof.
  intros r.
  pose proof (wp_run (deploy_step true) eq deploy_exec host_run _ guarded_host (fun s => eq_refl s) (deploy_exec_ok true)
    (installer_keeps_enforcement node_files (lit "/opt/bin") (one_checkout node_files) HOME in_presets (lit "shield.env") [] node_env guarded_host
      true (file_text _ _ _ _ node_env_file) node_keys (one_checkout_conf node_files))) as H.
  fold r in H. clearbody r. destruct H as [Hkept Hdone]. destruct host_own as (E1 & E2 & E3). split.
  - rewrite <- usual_backend. apply Hkept; vm_compute; reflexivity.
  - intros H0. destruct (Hdone H0) as (co & a & Hco & _ & Hact & Hbans). rewrite E1, home_checkout in Hco. injection Hco as <-.
    rewrite E3 in Hact. exists a. split; [exact Hact|]. apply (Hbans some_modules some_filters file_backend_text node_env DIR node); [done|].
    rewrite E2. exact node_configured.
Defined.

Example host_installs : (run deploy_exec host_run guarded_host).1 = Exits 0.
Proof. vm_compute. reflexivity. Qed.

(** A host rendered with a write that fails or none. *)
Lemma node_rendered : deployed node_files (lit "/opt/bin") in_presets DIR (lit "shield.env") node_env node (env_of in_presets).
Proof. destruct node_deployed. by split. Qed.

Lemma rendered_limits_are_in_force_witness :
  wp (deploy_step true) eq (render_sh (one_checkout node_files) HOME in_presets [lit "shield.env"; lit "/out"]) (fun out w' =>
    out = Exits 0 ->
      listener_in_force (effective node_files DIR node) (lit "/out") relay w' /\
      on_disk w' !! lit "/etc/nginx/njs/shield_ws.js" = Some (lit "export default {};")) a_target /\
  ShieldCore.parse_policy (policy_text (effective node_files DIR node) relay) = list_to_map (values (effective node_files DIR node) (settings relay)).
Proof.
  destruct (rendered_limits_are_in_force node_files (lit "/opt/bin") some_modules some_filters file_backend_text (one_checkout node_files) HOME
    in_presets DIR (lit "shield.env") node_env node [lit "/out"] true a_target) as [Hrun Hread].
  - exact node_rendered.
  - exact node_keys.
  - exact (home_checkout _).
  - destruct host_own as [E _]. rewrite E. exact (home_checkout _).
  - apply (bool_decide_unpack _). vm_compute. exact I.
  - repeat constructor.
  - split.
    + eapply wp_mono; [|exact Hrun]. intros out w' [_ H] Hout. destruct (H Hout) as [H1 H2]. split.
      * apply H1; [left|apply (bool_decide_unpack _); vm_compute; exact I].
      * apply (H2 (lit "shield_ws.js")). right. left.
    + apply Hread; [left|apply (bool_decide_unpack _); vm_compute; exact I|apply clean_check; vm_compute; reflexivity].
Defined.

(** Installed under another prefix, the backend is not where the action of
    fail2ban runs it ([bans_with]). *)
Definition elsewhere_run : prog deploy ended :=
  install_fail2ban node_files (one_checkout node_files) HOME (<[lit "PREFIX" := lit "/opt"]> in_presets) [lit "shield.env"].

Example other_prefix_is_not_run :
  let r := run deploy_exec elsewhere_run (mk_target ∅ false) in
  (r.1, on_disk r.2 !! lit "/opt/bin/shield-ban", on_disk r.2 !! lit "/usr/local/bin/shield-ban") =
  (Exits 0, Some file_backend_text, None).
Proof. vm_compute. reflexivity. Qed.

(** A key named like a variable of the script replaces it: the prefix of the
    environment, the directory of the command line. *)
Definition diverting_env : str := node_env ++ print_records [lit "PREFIX=/opt"; lit "OUT_DIR=/tmp/x"].
Definition diverting_files : files := machine_files DIR (lit "shield.env") diverting_env.

Example env_file_replaces_variables :
  let f2b := run deploy_exec (install_fail2ban diverting_files (one_checkout diverting_files) HOME
    (<[lit "PREFIX" := lit "/usr"]> in_presets) [lit "shield.env"]) (mk_target ∅ false) in
  let nginx := run deploy_exec (render_sh (one_checkout diverting_files) HOME in_presets [lit "shield.env"; lit "/out"]) (mk_target ∅ false) in
  (f2b.1, bool_decide (is_Some (on_disk f2b.2 !! lit "/opt/bin/shield-ban")), on_disk f2b.2 !! lit "/usr/bin/shield-ban") = (Exits 0, true, None) /\
  (nginx.1, bool_decide (is_Some (on_disk nginx.2 !! lit "/tmp/x/20-strfry-ws.stream")), on_disk nginx.2 !! lit "/out/20-strfry-ws.stream") =
  (Exits 0, true, None).
Proof. vm_compute. split; reflexivity. Qed.
